(** * ChessBot rules engine: a shallow embedding and its verification

    The engine lives in four source files: [pieces.js] (colors, piece
    types, squares and the six piece classes), [moves.js] (the move
    record), [board.js] (the board container) and [game.js] (the game
    state machine).  Every definition below is the translation of the
    source function of the same name; methods are prefixed with their
    class ([Square_pathTo] is [Square.prototype.pathTo]).

    Conventions of the embedding.
    - JavaScript numbers are only ever small integers here; they are
      modelled by [Z].
    - A JavaScript string is the list of its UTF-16 code units.
    - The object [Board._pieces] is an insertion-ordered dictionary; it
      is modelled by an association list with the operations of a
      JavaScript object (assignment keeps the position of an existing
      key and appends a new one, [for .. in] visits keys in list order).
    - Mutation is explicit state passing: a method that mutates its
      receiver returns the new receiver.
    - [Board.isAttacked] and [King.isMoveValid] call each other; the
      recursion is not bounded on arbitrary boards, so these functions
      take a fuel argument and return [None] when it runs out.  [None]
      stands for "the call does not return a value" (stack exhaustion
      or a [TypeError]). *)

From Stdlib Require Import ZArith List Bool String Ascii Lia DecimalString.
Import ListNotations.
Open Scope Z_scope.

(** ** JavaScript strings and objects *)

Definition jsstring := list Z.

Definition code (c : ascii) : Z := Z.of_N (N_of_ascii c).

(** String literals of the source. *)
Definition js (s : string) : jsstring := map code (list_ascii_of_string s).

(** [String.fromCharCode(n)]: one code unit, [n] reduced modulo 2^16. *)
Definition fromCharCode (n : Z) : jsstring := [n mod 65536].

(** [n.toString()] / string concatenation with an integer. *)
Definition Number_toString (n : Z) : jsstring :=
  js (NilZero.string_of_int (Z.to_int n)).

(** [x |= 0]: conversion to a signed 32-bit integer. *)
Definition ToInt32 (x : Z) : Z := (x + 2147483648) mod 4294967296 - 2147483648.

Fixpoint jsstring_eqb (a b : jsstring) : bool :=
  match a, b with
  | [], [] => true
  | x :: a', y :: b' => (x =? y) && jsstring_eqb a' b'
  | _, _ => false
  end.

Fixpoint isPrefixOf (needle hay : jsstring) : bool :=
  match needle, hay with
  | [], _ => true
  | x :: n', y :: h' => (x =? y) && isPrefixOf n' h'
  | _ :: _, [] => false
  end.

Fixpoint indexOf_from (hay needle : jsstring) (i : Z) : Z :=
  if isPrefixOf needle hay then i
  else match hay with
       | [] => -1
       | _ :: hay' => indexOf_from hay' needle (i + 1)
       end.

(** [hay.indexOf(needle)] *)
Definition indexOf (hay needle : jsstring) : Z := indexOf_from hay needle 0.

(** A plain object used as a dictionary with string keys. *)
Definition JsObject (V : Type) : Type := list (jsstring * V).

(** [o[k]] *)
Fixpoint obj_get {V : Type} (o : JsObject V) (k : jsstring) : option V :=
  match o with
  | [] => None
  | (k', v) :: o' => if jsstring_eqb k' k then Some v else obj_get o' k
  end.

(** [o[k] = v] *)
Fixpoint obj_set {V : Type} (o : JsObject V) (k : jsstring) (v : V) : JsObject V :=
  match o with
  | [] => [(k, v)]
  | (k', v') :: o' =>
      if jsstring_eqb k' k then (k', v) :: o' else (k', v') :: obj_set o' k v
  end.

(** [delete o[k]] *)
Definition obj_delete {V : Type} (o : JsObject V) (k : jsstring) : JsObject V :=
  filter (fun kv => negb (jsstring_eqb (fst kv) k)) o.

(** The keys visited by [for (let k in o)], in order. *)
Definition obj_keys {V : Type} (o : JsObject V) : list jsstring := map fst o.

(** Early-exit loops: [anyM f l] runs [f] on the elements of [l] in
    order and stops at the first [Some true]; a step that does not
    return aborts the loop. *)
Fixpoint anyM {A : Type} (f : A -> option bool) (l : list A) : option bool :=
  match l with
  | [] => Some false
  | x :: l' =>
      match f x with
      | None => None
      | Some true => Some true
      | Some false => anyM f l'
      end
  end.

(** ** pieces.js: colors, piece types, squares *)

Inductive Color : Type := WHITE | BLACK.

Definition Color_eqb (a b : Color) : bool :=
  match a, b with
  | WHITE, WHITE | BLACK, BLACK => true
  | _, _ => false
  end.

(** [Color.swap] *)
Definition Color_swap (color : Color) : Color :=
  if Color_eqb color WHITE then BLACK else WHITE.

(** The enumeration [Type] of the source. *)
Inductive PieceType : Type := PAWN | ROOK | KNIGHT | BISHOP | QUEEN | KING.

Definition PieceType_eqb (a b : PieceType) : bool :=
  match a, b with
  | PAWN, PAWN | ROOK, ROOK | KNIGHT, KNIGHT
  | BISHOP, BISHOP | QUEEN, QUEEN | KING, KING => true
  | _, _ => false
  end.

Record Square : Type := mkSquare { fileNumber : Z; rankNumber : Z }.

(** [new Square(file, rankNumber)] with a numeric file. *)
Definition Square_new (file rankNumber : Z) : Square := mkSquare file rankNumber.

(** [new Square(file, rankNumber)] with a file letter. *)
Definition Square_newLetter (file : ascii) (rankNumber : Z) : Square :=
  mkSquare (code file - code "A" + 1) rankNumber.

Definition Square_getFileLetter (this : Square) : jsstring :=
  fromCharCode (code "A" + fileNumber this - 1).

Definition Square_relative (this : Square) (fileRelative rankRelative : Z) : Square :=
  Square_new (fileNumber this + fileRelative) (rankNumber this + rankRelative).

Definition Square_isValid (this : Square) : bool :=
  (1 <=? rankNumber this) && (1 <=? fileNumber this)
  && (rankNumber this <=? 8) && (fileNumber this <=? 8).

Definition Square_equals (this other : Square) : bool :=
  (fileNumber this =? fileNumber other) && (rankNumber this =? rankNumber other).

(** [this.equals(other)] where [other] may be [undefined]. *)
Definition Square_equals_maybe (this : Square) (other : option Square) : bool :=
  match other with
  | None => false
  | Some o => Square_equals this o
  end.

Definition Square_asString (this : Square) : jsstring :=
  Square_getFileLetter this ++ Number_toString (rankNumber this).

(** The [for (;;)] loop of [getRelativesUntilInvalid].  At most eight
    squares of a ray are on the board, so eight iterations are all the
    loop can make ([rayLoop_stable]). *)
Fixpoint rayLoop (n : nat) (current : Square) (fileRelative rankRelative : Z)
  : list Square :=
  match n with
  | O => []
  | S n' =>
      let current := Square_relative current fileRelative rankRelative in
      if negb (Square_isValid current) then []
      else current :: rayLoop n' current fileRelative rankRelative
  end.

(** [None] is the thrown [Error("invalid arguments")]. *)
Definition Square_getRelativesUntilInvalid (this : Square) (fileRelative rankRelative : Z)
  : option (list Square) :=
  if (fileRelative =? 0) && (rankRelative =? 0) then None
  else Some (rayLoop 8 this fileRelative rankRelative).

(** The [while] loop of [pathTo], on the reversed path: pop squares
    until the popped one equals [other]. *)
Fixpoint popUntil (other : Square) (reversed : list Square) : list Square :=
  match reversed with
  | [] => []
  | last :: rest => if Square_equals last other then rest else popUntil other rest
  end.

Definition Square_pathTo (this other : Square) : list Square :=
  if Square_equals other this then []
  else
    let fileChange := fileNumber other - fileNumber this in
    let rankChange := rankNumber other - rankNumber this in
    let fileChangeReduced := if fileChange =? 0 then 0 else fileChange / Z.abs fileChange in
    let rankChangeReduced := if rankChange =? 0 then 0 else rankChange / Z.abs rankChange in
    if (fileChange =? 0) || (rankChange =? 0) || (Z.abs fileChange =? Z.abs rankChange) then
      match Square_getRelativesUntilInvalid this fileChangeReduced rankChangeReduced with
      | Some path => rev (popUntil other (rev path))
      | None => []
      end
    else [].

(** [Square.fromString]; [None] is [undefined]. *)
Definition Square_fromString (string : jsstring) : option Square :=
  match string with
  | [c0; c1] =>
      let square := Square_new (c0 - code "A" + 1) (c1 - code "1" + 1) in
      if negb (Square_isValid square) then None else Some square
  | _ => None
  end.

(** ** pieces.js, moves.js, board.js: the records

    A piece holds a reference to its board; in the embedding the board
    is passed to every method that reads it. *)

Record Piece : Type := mkPiece {
  validMoves : list Square;
  type : PieceType;
  color : Color;
  location : Square
}.

Definition Piece_with_validMoves (this : Piece) (moves : list Square) : Piece :=
  mkPiece moves (type this) (color this) (location this).

Definition Piece_with_location (this : Piece) (square : Square) : Piece :=
  mkPiece (validMoves this) (type this) (color this) square.

(** moves.js.  [piece] refers to the moved piece object; the embedding
    stores the piece as it is once it stands on its new square.  Only
    its [type] (game.js) and [location] (cloneBoard) are read through a
    move, and neither changes while the move is the last move. *)
Module Moves.
Record Move : Type := mkMove {
  piece : option Piece;
  from : Square;
  to : Square;
  capture : bool;
  extra : option jsstring
}.

Definition with_capture (m : Move) (c : bool) : Move :=
  mkMove (piece m) (from m) (to m) c (extra m).
End Moves.

(** [{ [Color.WHITE]: .., [Color.BLACK]: .. }] *)
Record ByColor : Type := mkByColor { white : bool; black : bool }.

Definition by_color (r : ByColor) (c : Color) : bool :=
  match c with WHITE => white r | BLACK => black r end.

Definition set_by_color (r : ByColor) (c : Color) (v : bool) : ByColor :=
  match c with
  | WHITE => mkByColor v (black r)
  | BLACK => mkByColor (white r) v
  end.

Record CastlingRights : Type := mkCastlingRights { long : ByColor; short : ByColor }.

(** [Board.equals] compares en passant squares with [!==], that is by
    object identity.  A square stored in [enPassantSquare] therefore
    carries the identity of the object; such squares are allocated in
    one place only ([Pawn.afterMove]), from the counter [Heap]. *)
Record SquareObj : Type := mkSquareObj { obj_id : positive; obj_square : Square }.

Definition Heap : Type := positive.

Definition heap_alloc (h : Heap) (sq : Square) : SquareObj * Heap :=
  (mkSquareObj h sq, Pos.succ h).

Record Board : Type := mkBoard {
  highlightedSquares : list Square;
  lastMove : option Moves.Move;
  castlingRights : CastlingRights;
  enPassantSquare : option SquareObj;
  _pieces : JsObject Piece;
  _dirty : bool;
  _hash : jsstring
}.

Definition Board_with_pieces (b : Board) (ps : JsObject Piece) (dirty : bool) : Board :=
  mkBoard (highlightedSquares b) (lastMove b) (castlingRights b) (enPassantSquare b)
          ps dirty (_hash b).

Definition Board_with_enPassantSquare (b : Board) (ep : option SquareObj) : Board :=
  mkBoard (highlightedSquares b) (lastMove b) (castlingRights b) ep
          (_pieces b) (_dirty b) (_hash b).

Definition Board_with_castlingRights (b : Board) (cr : CastlingRights) : Board :=
  mkBoard (highlightedSquares b) (lastMove b) cr (enPassantSquare b)
          (_pieces b) (_dirty b) (_hash b).

Definition Board_with_lastMove (b : Board) (m : option Moves.Move) (hl : list Square) : Board :=
  mkBoard hl m (castlingRights b) (enPassantSquare b) (_pieces b) (_dirty b) (_hash b).

Definition Board_with_hash (b : Board) (dirty : bool) (hash : jsstring) : Board :=
  mkBoard (highlightedSquares b) (lastMove b) (castlingRights b) (enPassantSquare b)
          (_pieces b) dirty hash.

(** [this.castlingRights.short[color] = false] and its [long] twin. *)
Definition Board_revokeShort (b : Board) (c : Color) : Board :=
  Board_with_castlingRights b
    (mkCastlingRights (long (castlingRights b)) (set_by_color (short (castlingRights b)) c false)).

Definition Board_revokeLong (b : Board) (c : Color) : Board :=
  Board_with_castlingRights b
    (mkCastlingRights (set_by_color (long (castlingRights b)) c false) (short (castlingRights b))).

(** [new Board()] *)
Definition Board_new : Board :=
  mkBoard [] None
          (mkCastlingRights (mkByColor false false) (mkByColor false false))
          None [] true [].

(** ** board.js: elementary operations *)

Definition Board_setPiece (b : Board) (piece : Piece) : Board :=
  Board_with_pieces b (obj_set (_pieces b) (Square_asString (location piece)) piece) true.

Definition Board_removePieceAt (b : Board) (location : Square) : Board :=
  Board_with_pieces b (obj_delete (_pieces b) (Square_asString location)) true.

Definition Board_getPiece (b : Board) (location : Square) : option Piece :=
  obj_get (_pieces b) (Square_asString location).

(** [!this.getPiece(it)] *)
Definition isNone {A : Type} (o : option A) : bool :=
  match o with None => true | Some _ => false end.

Definition Board_isPathClear (b : Board) (path : list Square) : bool :=
  forallb (fun it => isNone (Board_getPiece b it)) path.

(** ** pieces.js: candidate moves *)

(** The offsets passed to [getRelativesUntilInvalid] below are literal
    and non-zero, so the call never throws there. *)
Definition rays (this : Square) (offsets : list (Z * Z)) : list Square :=
  flat_map (fun o => match Square_getRelativesUntilInvalid this (fst o) (snd o) with
                     | Some squares => squares
                     | None => []
                     end) offsets.

Definition relatives (this : Square) (offsets : list (Z * Z)) : list Square :=
  map (fun o => Square_relative this (fst o) (snd o)) offsets.

Definition Piece_removeInvalidMoves (this : Piece) : Piece :=
  Piece_with_validMoves this (filter Square_isValid (validMoves this)).

Definition Pawn_getAdvanceDirection (this : Piece) : Z :=
  if Color_eqb (color this) WHITE then 1 else -1.

(** [Pawn.recalculateValidMoves] pushes onto the existing list: only a
    freshly constructed pawn starts from the empty list. *)
Definition Pawn_recalculateValidMoves (this : Piece) : Piece :=
  let advanceDirection := Pawn_getAdvanceDirection this in
  let moves := validMoves this
                ++ [Square_relative (location this) 0 advanceDirection]
                ++ [Square_relative (location this) 1 advanceDirection]
                ++ [Square_relative (location this) (-1) advanceDirection] in
  let moves :=
    if ((rankNumber (location this) =? 2) && Color_eqb (color this) WHITE)
       || ((rankNumber (location this) =? 7) && Color_eqb (color this) BLACK)
    then moves ++ [Square_relative (location this) 0 (advanceDirection * 2)]
    else moves in
  Piece_removeInvalidMoves (Piece_with_validMoves this moves).

Definition Rook_recalculateValidMoves (this : Piece) : Piece :=
  Piece_with_validMoves this
    (rays (location this) [(-1, 0); (1, 0); (0, 1); (0, -1)]).

Definition Knight_recalculateValidMoves (this : Piece) : Piece :=
  Piece_removeInvalidMoves
    (Piece_with_validMoves this
       (relatives (location this)
          [(1, 2); (-1, 2); (1, -2); (-1, -2); (2, 1); (-2, 1); (2, -1); (-2, -1)])).

Definition Bishop_recalculateValidMoves (this : Piece) : Piece :=
  Piece_with_validMoves this
    (rays (location this) [(-1, -1); (-1, 1); (1, -1); (1, 1)]).

Definition Queen_recalculateValidMoves (this : Piece) : Piece :=
  Piece_with_validMoves this
    (rays (location this)
       [(-1, -1); (-1, 1); (1, -1); (1, 1); (-1, 0); (1, 0); (0, 1); (0, -1)]).

Definition King_recalculateValidMoves (b : Board) (this : Piece) : Piece :=
  let moves := relatives (location this)
                 [(-1, -1); (-1, 1); (1, -1); (1, 1); (-1, 0); (1, 0); (0, 1); (0, -1)] in
  let moves := if by_color (long (castlingRights b)) (color this)
               then moves ++ [Square_relative (location this) (-2) 0] else moves in
  let moves := if by_color (short (castlingRights b)) (color this)
               then moves ++ [Square_relative (location this) 2 0] else moves in
  Piece_with_validMoves this (filter Square_isValid moves).

(** Dynamic dispatch of [recalculateValidMoves]; [b] is [this.board]. *)
Definition Piece_recalculateValidMoves (b : Board) (this : Piece) : Piece :=
  match type this with
  | PAWN => Pawn_recalculateValidMoves this
  | ROOK => Rook_recalculateValidMoves this
  | KNIGHT => Knight_recalculateValidMoves this
  | BISHOP => Bishop_recalculateValidMoves this
  | QUEEN => Queen_recalculateValidMoves this
  | KING => King_recalculateValidMoves b this
  end.

(** [Piece.instantiate(type, color, board, square)]: the constructor
    starts from [validMoves = []] and recalculates. *)
Definition Piece_instantiate (type : PieceType) (color : Color) (board : Board) (square : Square)
  : Piece :=
  Piece_recalculateValidMoves board (mkPiece [] type color square).

Definition Piece_updateLocation (b : Board) (this : Piece) (square : Square) : Piece :=
  Piece_recalculateValidMoves b (Piece_with_location this square).

Definition Piece_cloneToAnotherBoard (this : Piece) (board : Board) : Piece :=
  Piece_instantiate (type this) (color this) board (location this).

(** ** pieces.js: move validation *)

(** [Piece.isMoveValid] of the base class. *)
Definition Piece_isMoveValid_base (this : Piece) (to : Square) : bool :=
  if negb (Square_isValid to) then false
  else Nat.ltb 0 (List.length (filter (fun move => Square_equals move to) (validMoves this))).

(** [!extra || extra.length !== 1 || "QRBKN".indexOf(extra) === -1] *)
Definition Pawn_noPromotionArguments (extra : option jsstring) : bool :=
  match extra with
  | None => true
  | Some s =>
      match s with
      | [] => true
      | _ => negb (Nat.eqb (List.length s) 1) || (indexOf (js "QRBKN") s =? -1)
      end
  end.

Definition Pawn_isMoveValid (b : Board) (this : Piece) (to : Square) (extra : option jsstring)
  : bool :=
  if negb (Piece_isMoveValid_base this to) then false
  else
    let advanceDirection := Pawn_getAdvanceDirection this in
    (* the statements after the if / else-if chain *)
    let promotion :=
      if (rankNumber to =? 1) || (rankNumber to =? 8) then
        if Pawn_noPromotionArguments extra then false else true
      else true in
    if fileNumber (location this) =? fileNumber to then
      (* move forward *)
      if negb (rankNumber (location this) + advanceDirection =? rankNumber to)
         && (if (rankNumber (location this) =? 2) || (rankNumber (location this) =? 7)
             then negb (rankNumber (location this) + advanceDirection * 2 =? rankNumber to)
             else true)
      then false
      else if negb (isNone (Board_getPiece b to)) then false
      else promotion
    else if (fileNumber to =? fileNumber (location this) - 1)
            || (fileNumber to =? fileNumber (location this) + 1) then
      let capturedPiece :=
        if Square_equals_maybe to (option_map obj_square (enPassantSquare b))
        then Board_getPiece b (Square_new (fileNumber to) (rankNumber (location this)))
        else Board_getPiece b to in
      match capturedPiece with
      | None => false
      | Some captured =>
          if Color_eqb (color captured) (color this) then false
          else if negb (rankNumber (location this) + advanceDirection =? rankNumber to) then false
          else promotion
      end
    else false.

(** [Rook.isMoveValid], [Bishop.isMoveValid] and [Queen.isMoveValid]
    have the same body. *)
Definition Slider_isMoveValid (b : Board) (this : Piece) (to : Square) : bool :=
  if negb (Piece_isMoveValid_base this to) then false
  else Board_isPathClear b (Square_pathTo (location this) to).

Definition Knight_isMoveValid (this : Piece) (to : Square) : bool :=
  Piece_isMoveValid_base this to.

(** The loop of [Board.isAttacked]; [valid] is [piece.isMoveValid]. *)
Definition Board_isAttacked_with
  (valid : Piece -> Square -> option jsstring -> option bool)
  (b : Board) (square : Square) (color' : option Color) : option bool :=
  anyM (fun pieceLocation =>
          match obj_get (_pieces b) pieceLocation with
          | None => None
          | Some piece =>
              if match color' with
                 | Some c => negb (Color_eqb c (color piece))
                 | None => false
                 end
              then Some false
              else anyM (fun move =>
                           if negb (Square_equals move square) then Some false
                           else valid piece move (Some (js "Q")))
                        (validMoves piece)
          end)
       (obj_keys (_pieces b)).

(** The loop of [Board.isInCheck]; [attacked] is [this.isAttacked]. *)
Definition Board_isInCheck_with
  (attacked : Square -> option Color -> option bool)
  (b : Board) (color' : Color) : option bool :=
  anyM (fun location' =>
          match obj_get (_pieces b) location' with
          | None => None
          | Some piece =>
              if negb (PieceType_eqb (type piece) KING) || negb (Color_eqb (color piece) color')
              then Some false
              else attacked (location piece) (Some (Color_swap color'))
          end)
       (obj_keys (_pieces b)).

(** [King._validateCanCastle] *)
Definition King_validateCanCastle
  (attacked : Square -> option Color -> option bool)
  (b : Board) (this : Piece) (rook : option Piece) : option bool :=
  if (Color_eqb (color this) WHITE && negb (jsstring_eqb (Square_asString (location this)) (js "E1")))
     || (Color_eqb (color this) BLACK && negb (jsstring_eqb (Square_asString (location this)) (js "E8")))
  then Some false
  else
    match rook with
    | None => Some false
    | Some rook =>
        if negb (Color_eqb (color rook) (color this)) || negb (PieceType_eqb (type rook) ROOK)
        then Some false
        else
          match Board_isInCheck_with attacked b (color this) with
          | None => None
          | Some true => Some false
          | Some false =>
              Some (Board_isPathClear b (Square_pathTo (location this) (location rook)))
          end
    end.

Definition King_canCastleShort
  (attacked : Square -> option Color -> option bool) (b : Board) (this : Piece) : option bool :=
  if negb (by_color (short (castlingRights b)) (color this)) then Some false
  else
    match attacked (Square_newLetter "F" (rankNumber (location this)))
                   (Some (Color_swap (color this))) with
    | None => None
    | Some true => Some false
    | Some false =>
        King_validateCanCastle attacked b this
          (Board_getPiece b (Square_newLetter "H" (rankNumber (location this))))
    end.

Definition King_canCastleLong
  (attacked : Square -> option Color -> option bool) (b : Board) (this : Piece) : option bool :=
  if negb (by_color (long (castlingRights b)) (color this)) then Some false
  else
    match attacked (Square_newLetter "D" (rankNumber (location this)))
                   (Some (Color_swap (color this))) with
    | None => None
    | Some true => Some false
    | Some false =>
        King_validateCanCastle attacked b this
          (Board_getPiece b (Square_newLetter "A" (rankNumber (location this))))
    end.

Definition King_isMoveValid
  (attacked : Square -> option Color -> option bool)
  (b : Board) (this : Piece) (to : Square) : option bool :=
  if negb (Piece_isMoveValid_base this to) then Some false
  else if fileNumber (location this) =? fileNumber to - 2 then King_canCastleShort attacked b this
  else if fileNumber (location this) =? fileNumber to + 2 then King_canCastleLong attacked b this
  else Some true.

(** Dynamic dispatch of [isMoveValid].  Only a king's castling test
    looks at attacks, and each nested test consumes one unit of fuel. *)
Fixpoint Piece_isMoveValid (fuel : nat) (b : Board) (this : Piece) (to : Square)
  (extra : option jsstring) {struct fuel} : option bool :=
  match type this with
  | PAWN => Some (Pawn_isMoveValid b this to extra)
  | ROOK | BISHOP | QUEEN => Some (Slider_isMoveValid b this to)
  | KNIGHT => Some (Knight_isMoveValid this to)
  | KING =>
      King_isMoveValid
        (match fuel with
         | O => fun _ _ => None
         | S fuel' => Board_isAttacked_with (Piece_isMoveValid fuel' b) b
         end)
        b this to
  end.

Definition Board_isAttacked (fuel : nat) (b : Board) (square : Square) (color' : option Color)
  : option bool :=
  Board_isAttacked_with (Piece_isMoveValid fuel b) b square color'.

Definition Board_isInCheck (fuel : nat) (b : Board) (color' : Color) : option bool :=
  Board_isInCheck_with (Board_isAttacked fuel b) b color'.

(** ** pieces.js: side effects of a committed move *)

(** [Piece.afterMove] of the base class. *)
Definition Piece_afterMove_base (b : Board) : Board :=
  Board_with_enPassantSquare b None.

(** The [switch (move.extra)] of the promotion. *)
Definition Pawn_newPieceType (extra : option jsstring) : PieceType :=
  match extra with
  | Some s =>
      if jsstring_eqb s (js "R") then ROOK
      else if jsstring_eqb s (js "B") then BISHOP
      else if jsstring_eqb s (js "K") || jsstring_eqb s (js "N") then KNIGHT
      else QUEEN
  | None => QUEEN
  end.

Definition Pawn_afterMove (h : Heap) (b : Board) (this : Piece) (move : Moves.Move)
  : Board * Moves.Move * Heap :=
  let advanceDirection := Pawn_getAdvanceDirection this in
  (* en passant *)
  let '(b, move) :=
    if Square_equals_maybe (Moves.to move) (option_map obj_square (enPassantSquare b)) then
      let enPassantTarget :=
        Square_new (fileNumber (Moves.to move)) (rankNumber (Moves.from move)) in
      (Board_removePieceAt b enPassantTarget, Moves.with_capture move true)
    else (b, move) in
  let b := Piece_afterMove_base b in
  let '(b, h) :=
    if rankNumber (Moves.from move) + advanceDirection * 2 =? rankNumber (Moves.to move) then
      let '(sq, h') := heap_alloc h (Square_relative (Moves.from move) 0 advanceDirection) in
      (Board_with_enPassantSquare b (Some sq), h')
    else (b, h) in
  (* promotion *)
  let b :=
    if (rankNumber (Moves.to move) =? 1) || (rankNumber (Moves.to move) =? 8) then
      let newPieceType := Pawn_newPieceType (Moves.extra move) in
      let b := Board_removePieceAt b (Moves.to move) in
      Board_setPiece b (Piece_instantiate newPieceType (color this) b (Moves.to move))
    else b in
  (b, move, h).

Definition Rook_afterMove (b : Board) (this : Piece) (move : Moves.Move) : Board :=
  let b := Piece_afterMove_base b in
  let b := if fileNumber (Moves.from move) =? 8 then Board_revokeShort b (color this) else b in
  let b := if fileNumber (Moves.from move) =? 1 then Board_revokeLong b (color this) else b in
  b.

(** [King.afterMove]; [None] is the [TypeError] of [rook.updateLocation]
    on a missing rook. *)
Definition King_afterMove (b : Board) (this : Piece) (move : Moves.Move) : option Board :=
  let b := Piece_afterMove_base b in
  let rooks :=
    if fileNumber (Moves.to move) =? fileNumber (Moves.from move) - 2 then
      (* long castle *)
      Some (Square_new 1 (rankNumber (location this)), Square_new 4 (rankNumber (location this)))
    else if fileNumber (Moves.to move) =? fileNumber (Moves.from move) + 2 then
      (* short castle *)
      Some (Square_new 8 (rankNumber (location this)), Square_new 6 (rankNumber (location this)))
    else None in
  let moved :=
    match rooks with
    | Some (rookFrom, rookTo) =>
        match Board_getPiece b rookFrom with
        | None => None
        | Some rook =>
            let b := Board_removePieceAt b rookFrom in
            Some (Board_setPiece b (Piece_updateLocation b rook rookTo))
        end
    | None => Some b
    end in
  match moved with
  | None => None
  | Some b => Some (Board_revokeShort (Board_revokeLong b (color this)) (color this))
  end.

(** Dynamic dispatch of [afterMove]. *)
Definition Piece_afterMove (h : Heap) (b : Board) (this : Piece) (move : Moves.Move)
  : option (Board * Moves.Move * Heap) :=
  match type this with
  | PAWN => Some (Pawn_afterMove h b this move)
  | ROOK => Some (Rook_afterMove b this move, move, h)
  | KNIGHT | BISHOP | QUEEN => Some (Piece_afterMove_base b, move, h)
  | KING =>
      match King_afterMove b this move with
      | None => None
      | Some b' => Some (b', move, h)
      end
  end.

(** ** board.js *)

(** Loops whose body may fail to return. *)
Fixpoint foldM {A S : Type} (f : S -> A -> option S) (l : list A) (s : S) : option S :=
  match l with
  | [] => Some s
  | x :: l' =>
      match f s x with
      | None => None
      | Some s' => foldM f l' s'
      end
  end.

Definition Board_setupInitialPieces (b : Board) (color' : Color) : Board :=
  let rank := if Color_eqb color' WHITE then 1 else 8 in
  fold_left
    (fun b ft => Board_setPiece b (Piece_instantiate (snd ft) color' b (Square_new (fst ft) rank)))
    [(1, ROOK); (2, KNIGHT); (3, BISHOP); (4, QUEEN); (5, KING); (6, BISHOP); (7, KNIGHT); (8, ROOK)]
    b.

Definition Board_setupInitialPawns (b : Board) (color' : Color) : Board :=
  let rank := if Color_eqb color' WHITE then 2 else 7 in
  fold_left
    (fun b file => Board_setPiece b (Piece_instantiate PAWN color' b (Square_new file rank)))
    [1; 2; 3; 4; 5; 6; 7; 8]
    b.

Definition Board_setupDefaultBoard (b : Board) : Board :=
  let b := mkBoard [] None
                   (mkCastlingRights (mkByColor true true) (mkByColor true true))
                   None [] (_dirty b) (_hash b) in
  let b := Board_setupInitialPieces b WHITE in
  let b := Board_setupInitialPieces b BLACK in
  let b := Board_setupInitialPawns b WHITE in
  Board_setupInitialPawns b BLACK.

(** [count[piece.type] = (count[piece.type] || 0) + 1] on the object
    [count], which holds a number for each of the six types. *)
Definition count_increment (count : PieceType -> Z) (t : PieceType) : PieceType -> Z :=
  fun t' => if PieceType_eqb t' t then count t + 1 else count t'.

Definition Board_getPiecesCountByType (b : Board) (color' : Color) : PieceType -> Z :=
  fold_left
    (fun count location' =>
       match obj_get (_pieces b) location' with
       | Some piece =>
           if Color_eqb (color piece) color' then count_increment count (type piece) else count
       | None => count
       end)
    (obj_keys (_pieces b))
    (fun _ => 0).

Definition Board_getMaterialCount (b : Board) (color' : Color) : Z :=
  let count := Board_getPiecesCountByType b color' in
  count QUEEN * 9 + count ROOK * 5 + count BISHOP * 3 + count KNIGHT * 3 + count PAWN.

(** [None] is the [TypeError] of [this.lastMove.piece.location] when the
    last move has lost its piece. *)
Definition Board_cloneBoard (this : Board) : option Board :=
  let newBoard := Board_new in
  (* copy castling rights and en passant square *)
  let newBoard :=
    Board_with_castlingRights newBoard
      (mkCastlingRights
         (mkByColor (by_color (long (castlingRights this)) WHITE)
                    (by_color (long (castlingRights this)) BLACK))
         (mkByColor (by_color (short (castlingRights this)) WHITE)
                    (by_color (short (castlingRights this)) BLACK))) in
  let newBoard := Board_with_enPassantSquare newBoard (enPassantSquare this) in
  (* clone pieces *)
  let newBoard :=
    fold_left
      (fun newBoard location' =>
         match obj_get (_pieces this) location' with
         | None => newBoard
         | Some piece =>
             Board_with_pieces newBoard
               (obj_set (_pieces newBoard) location' (Piece_cloneToAnotherBoard piece newBoard))
               (_dirty newBoard)
         end)
      (obj_keys (_pieces this)) newBoard in
  (* other copies *)
  match lastMove this with
  | None => Some (Board_with_lastMove newBoard None (highlightedSquares this))
  | Some m =>
      match Moves.piece m with
      | None => None
      | Some moved =>
          Some (Board_with_lastMove newBoard
                  (Some (Moves.mkMove (Board_getPiece newBoard (location moved))
                                      (Moves.from m) (Moves.to m) (Moves.capture m) (Moves.extra m)))
                  (highlightedSquares this))
      end
  end.

Definition Board_recalculateAllPiecesMoves (b : Board) : Board :=
  fold_left
    (fun b location' =>
       match obj_get (_pieces b) location' with
       | None => b
       | Some piece =>
           Board_with_pieces b
             (obj_set (_pieces b) location' (Piece_recalculateValidMoves b piece))
             (_dirty b)
       end)
    (obj_keys (_pieces b)) b.

Definition Board_makeMoveIfValid (fuel : nat) (h : Heap) (this : Board)
  (from to : Square) (extra : option jsstring) : option (bool * Board * Heap) :=
  match Board_getPiece this from with
  | None => Some (false, this, h)                       (* no piece there *)
  | Some piece =>
      match Piece_isMoveValid fuel this piece to extra with
      | None => None
      | Some false => Some (false, this, h)             (* move is invalid *)
      | Some true =>
          let pieceAtDestination := Board_getPiece this to in
          if match pieceAtDestination with
             | Some d => Color_eqb (color d) (color piece)
             | None => false
             end
          then Some (false, this, h)                    (* cannot capture own pieces *)
          else
            let b := match pieceAtDestination with
                     | Some _ => Board_removePieceAt this to
                     | None => this
                     end in
            (* remove piece from old location, move it to the new location *)
            let b := Board_removePieceAt b from in
            let piece := Piece_updateLocation b piece to in
            let b := Board_setPiece b piece in
            let lastMove' :=
              Moves.mkMove (Some piece) from to (negb (isNone pieceAtDestination)) extra in
            (* after move callbacks *)
            match Piece_afterMove h b piece lastMove' with
            | None => None
            | Some (b, lastMove', h) =>
                let b := Board_recalculateAllPiecesMoves b in
                Some (true, Board_with_lastMove b (Some lastMove') [to; from], h)
            end
      end
  end.

(** One trial of [getValidMovesFor]: clone, move, test for check. *)
Definition Board_tryMove (fuel : nat) (this : Board) (color' : Color) (piece : Piece)
  (acc : list (option Moves.Move) * Heap) (move : Square)
  : option (list (option Moves.Move) * Heap) :=
  match Board_cloneBoard this with
  | None => None
  | Some board =>
      match Board_makeMoveIfValid fuel (snd acc) board (location piece) move (Some (js "Q")) with
      | None => None
      | Some (false, _, h) => Some (fst acc, h)
      | Some (true, board, h) =>
          match Board_isInCheck fuel board color' with
          | None => None
          | Some true => Some (fst acc, h)
          | Some false => Some (fst acc ++ [lastMove board], h)
          end
      end
  end.

Definition Board_getValidMovesFor (fuel : nat) (h : Heap) (this : Board) (color' : Color)
  : option (list (option Moves.Move) * Heap) :=
  foldM
    (fun acc location' =>
       match obj_get (_pieces this) location' with
       | None => None
       | Some piece =>
           if negb (Color_eqb (color piece) color') then Some acc
           else foldM (Board_tryMove fuel this color' piece) (validMoves piece) acc
       end)
    (obj_keys (_pieces this)) ([], h).

Definition pieceTypeId (t : PieceType) : Z :=
  match t with
  | PAWN => 1 | KNIGHT => 2 | ROOK => 3 | BISHOP => 4 | QUEEN => 5 | KING => 6
  end.

(** The squares visited by the two nested loops of [calculateHash], in
    order; the source builds [new Square(rank, file)], so the outer
    counter is used as the file. *)
Definition hashScanOrder : list Square :=
  flat_map (fun rank => map (fun file => Square_new rank file) [1; 2; 3; 4; 5; 6; 7; 8])
           [1; 2; 3; 4; 5; 6; 7; 8].

Definition Board_calculateHash (b : Board) : jsstring * Board :=
  if negb (_dirty b) then (_hash b, b)
  else
    let hash :=
      fold_left
        (fun hash sq =>
           match obj_get (_pieces b) (Square_asString sq) with
           | None => hash
           | Some piece =>
               let pieceColorId := if Color_eqb (color piece) WHITE then 1 else 2 in
               ToInt32 (31 * (128 * pieceTypeId (type piece) + 64 * pieceColorId
                              + rankNumber (location piece) * 8 + fileNumber (location piece)))
           end)
        hashScanOrder 7 in
    (Number_toString hash, Board_with_hash b false (Number_toString hash)).

(** [a !== b] on en passant squares: identity of the objects. *)
Definition SquareObj_differ (a b : option SquareObj) : bool :=
  match a, b with
  | None, None => false
  | Some x, Some y => negb (Pos.eqb (obj_id x) (obj_id y))
  | _, _ => true
  end.

Definition Board_equals (this other : Board) : bool :=
  if SquareObj_differ (enPassantSquare other) (enPassantSquare this)
     || negb (Bool.eqb (by_color (short (castlingRights other)) WHITE)
                       (by_color (short (castlingRights this)) WHITE))
     || negb (Bool.eqb (by_color (short (castlingRights other)) BLACK)
                       (by_color (short (castlingRights this)) BLACK))
     || negb (Bool.eqb (by_color (long (castlingRights other)) WHITE)
                       (by_color (long (castlingRights this)) WHITE))
     || negb (Bool.eqb (by_color (long (castlingRights other)) BLACK)
                       (by_color (long (castlingRights this)) BLACK))
  then false
  else
    forallb
      (fun location' =>
         match obj_get (_pieces this) location', obj_get (_pieces other) location' with
         | None, Some _ => false
         | None, None => true
         | Some _, None => false
         | Some p1, Some p2 =>
             negb (negb (Color_eqb (color p1) (color p2))
                   || negb (PieceType_eqb (type p1) (type p2)))
         end)
      (obj_keys (_pieces this)).

(** ** game.js *)

Inductive MoveResult : Type :=
| MOVE_OK | NO_PIECE | NOT_YOUR_PIECE | ILLEGAL_PIECE_MOVE | IN_CHECK_AFTER_TURN | GAME_ENDED.

Inductive Result : Type :=
| ONGOING
| WHITE_MATED | BLACK_MATED
| WHITE_RESIGNED | BLACK_RESIGNED
| WHITE_FLAGGED | BLACK_FLAGGED
| STALEMATED | INSUFFICIENT_MATERIAL | THREEFOLD_REPETITION | FIFTY_MOVES | DRAW_AGREED.

Definition Result_eqb (a b : Result) : bool :=
  match a, b with
  | ONGOING, ONGOING | WHITE_MATED, WHITE_MATED | BLACK_MATED, BLACK_MATED
  | WHITE_RESIGNED, WHITE_RESIGNED | BLACK_RESIGNED, BLACK_RESIGNED
  | WHITE_FLAGGED, WHITE_FLAGGED | BLACK_FLAGGED, BLACK_FLAGGED
  | STALEMATED, STALEMATED | INSUFFICIENT_MATERIAL, INSUFFICIENT_MATERIAL
  | THREEFOLD_REPETITION, THREEFOLD_REPETITION | FIFTY_MOVES, FIFTY_MOVES
  | DRAW_AGREED, DRAW_AGREED => true
  | _, _ => false
  end.

Record GameState : Type := mkGameState {
  board : Board;
  halfMoveClock : Z;
  currentTurn : Color;
  whiteOffersDraw : bool;
  blackOffersDraw : bool
}.

Record Game : Type := mkGame {
  currentState : GameState;
  stateHistory : list GameState;   (* oldest first *)
  result : Result
}.

(** What a method of [Game] hands back when it is not a move result:
    [takebackMove] falls off its end after a successful undo. *)
Inductive JsReturn : Type := ReturnFalse | ReturnTrue | ReturnUndefined.

Definition Game_reset (g : Game) : Game :=
  mkGame (mkGameState (Board_setupDefaultBoard Board_new) 0 WHITE false false) [] ONGOING.

(** [new Game()] *)
Definition Game_new : Game :=
  Game_reset (mkGame (mkGameState Board_new 0 WHITE false false) [] ONGOING).

Definition Game_isConcluded (g : Game) : bool := negb (Result_eqb (result g) ONGOING).

(** [array.pop()]: the last element and the shortened array. *)
Fixpoint pop {A : Type} (l : list A) : option (A * list A) :=
  match l with
  | [] => None
  | x :: l' =>
      match pop l' with
      | None => Some (x, [])
      | Some (y, rest) => Some (y, x :: rest)
      end
  end.

Definition Game_takebackMove (g : Game) : JsReturn * Game :=
  if negb (Result_eqb (result g) ONGOING) || Nat.eqb (List.length (stateHistory g)) 0
  then (ReturnFalse, g)
  else
    match pop (stateHistory g) with
    | None => (ReturnFalse, g)
    | Some (st, history) =>
        (ReturnUndefined,
         mkGame (mkGameState (Board_recalculateAllPiecesMoves (board st))
                             (halfMoveClock st) (currentTurn st)
                             (whiteOffersDraw st) (blackOffersDraw st))
                history (result g))
    end.

Definition Game_resign (g : Game) (color' : Color) : bool * Game :=
  if Game_isConcluded g then (false, g)
  else (true, mkGame (currentState g) (stateHistory g)
                     (if Color_eqb color' WHITE then WHITE_RESIGNED else BLACK_RESIGNED)).

Definition Game_offerDraw (g : Game) (color' : Color) : bool * Game :=
  if Game_isConcluded g then (false, g)
  else
    let st := currentState g in
    let st := if Color_eqb color' WHITE
              then mkGameState (board st) (halfMoveClock st) (currentTurn st) true (blackOffersDraw st)
              else st in
    let st := if Color_eqb color' BLACK
              then mkGameState (board st) (halfMoveClock st) (currentTurn st) (whiteOffersDraw st) true
              else st in
    (true, mkGame st (stateHistory g)
                  (if whiteOffersDraw st && blackOffersDraw st then DRAW_AGREED else result g)).

Definition Game_validateHasSufficientMaterial (g : Game) (side : Color) : bool :=
  let count := Board_getPiecesCountByType (board (currentState g)) side in
  if negb (count ROOK =? 0) || negb (count QUEEN =? 0) || negb (count PAWN =? 0) then true
  else
    let amountOfBishops := count BISHOP in
    let amountOfKnights := count KNIGHT in
    if 2 <=? amountOfBishops then true
    else if 3 <=? amountOfKnights then true
    else (1 <=? amountOfBishops) && (1 <=? amountOfKnights).

Definition Game_checkForInsufficientMaterial (g : Game) : bool :=
  negb (Game_validateHasSufficientMaterial g WHITE)
  && negb (Game_validateHasSufficientMaterial g BLACK).

Definition GameState_with_board (st : GameState) (b : Board) : GameState :=
  mkGameState b (halfMoveClock st) (currentTurn st) (whiteOffersDraw st) (blackOffersDraw st).

(** [calculateHash] fills the hash cache of the board it is called on,
    so the check hands back the game with the caches filled. *)
Definition Game_checkForThreefoldRepetition (g : Game) : bool * Game :=
  let '(currentHash, current) := Board_calculateHash (board (currentState g)) in
  let '(amountOfPreviousSamePositions, history) :=
    fold_left
      (fun acc other =>
         let '(otherHash, otherBoard) := Board_calculateHash (board other) in
         let other := GameState_with_board other otherBoard in
         if negb (jsstring_eqb currentHash otherHash) then (fst acc, snd acc ++ [other])
         else if negb (Board_equals current otherBoard) then (fst acc, snd acc ++ [other])
         else (fst acc + 1, snd acc ++ [other]))
      (stateHistory g) (1, []) in
  (3 <=? amountOfPreviousSamePositions,
   mkGame (GameState_with_board (currentState g) current) history (result g)).

Definition Game_checkForFiftyMoveRuleViolation (g : Game) : bool :=
  50 <=? halfMoveClock (currentState g).

Definition Game_with_result (g : Game) (r : Result) : Game :=
  mkGame (currentState g) (stateHistory g) r.

(** The termination checks at the end of [makeMove], on the game whose
    state is already the new one. *)
Definition Game_evaluateTermination (fuel : nat) (h : Heap) (g : Game) : option (Game * Heap) :=
  let st := currentState g in
  match Board_getValidMovesFor fuel h (board st) (currentTurn st) with
  | None => None
  | Some (moves, h) =>
      if Nat.eqb (List.length moves) 0 then
        (* current player has no moves *)
        match Board_isInCheck fuel (board st) (currentTurn st) with
        | None => None
        | Some true =>
            Some (Game_with_result g
                    (if Color_eqb (currentTurn st) WHITE then WHITE_MATED else BLACK_MATED), h)
        | Some false => Some (Game_with_result g STALEMATED, h)
        end
      else if Game_checkForInsufficientMaterial g then
        Some (Game_with_result g INSUFFICIENT_MATERIAL, h)
      else
        let '(threefold, g) := Game_checkForThreefoldRepetition g in
        if threefold then Some (Game_with_result g THREEFOLD_REPETITION, h)
        else if Game_checkForFiftyMoveRuleViolation g then Some (Game_with_result g FIFTY_MOVES, h)
        else Some (g, h)
  end.

Definition Game_makeMove (fuel : nat) (h : Heap) (g : Game)
  (from to : Square) (extra : option jsstring) : option (MoveResult * Game * Heap) :=
  if negb (Result_eqb (result g) ONGOING) then Some (GAME_ENDED, g, h)
  else
    match Board_getPiece (board (currentState g)) from with
    | None => Some (NO_PIECE, g, h)
    | Some piece =>
        if negb (Color_eqb (color piece) (currentTurn (currentState g)))
        then Some (NOT_YOUR_PIECE, g, h)
        else
          match Board_cloneBoard (board (currentState g)) with
          | None => None
          | Some newBoard =>
              match Board_makeMoveIfValid fuel h newBoard (location piece) to extra with
              | None => None
              | Some (false, _, h) => Some (ILLEGAL_PIECE_MOVE, g, h)
              | Some (true, newBoard, h) =>
                  match Board_isInCheck fuel newBoard (currentTurn (currentState g)) with
                  | None => None
                  | Some true => Some (IN_CHECK_AFTER_TURN, g, h)
                  | Some false =>
                      (* move is valid, push this state to state history, make a new one *)
                      let previousState := currentState g in
                      let history := stateHistory g ++ [previousState] in
                      (* reset half-move counter if a pawn move or a capture were made *)
                      match lastMove newBoard with
                      | None => None
                      | Some lastMove' =>
                          match (if Moves.capture lastMove' then Some true
                                 else match Moves.piece lastMove' with
                                      | None => None
                                      | Some moved => Some (PieceType_eqb (type moved) PAWN)
                                      end) with
                          | None => None
                          | Some reset =>
                              let st :=
                                mkGameState newBoard
                                  (if reset then 0 else halfMoveClock previousState + 1)
                                  (Color_swap (currentTurn previousState)) false false in
                              match Game_evaluateTermination fuel h (mkGame st history (result g)) with
                              | None => None
                              | Some (g', h) => Some (MOVE_OK, g', h)
                              end
                          end
                      end
                  end
              end
          end
    end.

Definition Game_getWinnerColor (g : Game) : option Color :=
  match result g with
  | WHITE_MATED | WHITE_RESIGNED | WHITE_FLAGGED => Some BLACK
  | BLACK_MATED | BLACK_RESIGNED | BLACK_FLAGGED => Some WHITE
  | ONGOING | STALEMATED | INSUFFICIENT_MATERIAL | DRAW_AGREED
  | THREEFOLD_REPETITION | FIFTY_MOVES => None
  end.

(** * Vocabulary of the statements

    The notions that the theorems below are stated with, in the words of
    the specification where it has words for them. *)

(** ** Squares by name *)

Definition sq (s : string) : Square :=
  match Square_fromString (js s) with
  | Some x => x
  | None => Square_new 0 0
  end.

(** The text of a square as the specification words it: a file letter
    [A]-[H] (in either case, when [caseInsensitive]) then a digit [1]-[8]. *)
Definition spec_isSquareText (caseInsensitive : bool) (s : jsstring) : bool :=
  match s with
  | [c0; c1] =>
      (((code "A" <=? c0) && (c0 <=? code "H"))
       || (caseInsensitive && (code "a" <=? c0) && (c0 <=? code "h")))
      && (code "1" <=? c1) && (c1 <=? code "8")
  | _ => false
  end.

Definition spec_homeSquare (c : Color) : Square :=
  match c with WHITE => sq "E1" | BLACK => sq "E8" end.


(** ** Promotion *)

Definition Q_ : option jsstring := Some (js "Q").

(** A promotion choice: one letter, and what it stands for. *)
Definition spec_promotionChoice (letters : string) (extra : option jsstring) : bool :=
  match extra with
  | Some [c] => existsb (fun l => c =? l) (js letters)
  | _ => false
  end.

Definition spec_promotedKind (extra : option jsstring) : PieceType :=
  match extra with
  | Some [c] =>
      if c =? code "R" then ROOK
      else if c =? code "B" then BISHOP
      else if (c =? code "K") || (c =? code "N") then KNIGHT
      else QUEEN
  | _ => QUEEN
  end.

(** ** Material *)

(** The number of pieces of one side and one type that stand on the board. *)
Definition spec_pieceCount (b : Board) (side : Color) (t : PieceType) : nat :=
  List.length
    (filter (fun k => match obj_get (_pieces b) k with
                      | Some p => Color_eqb (color p) side && PieceType_eqb (type p) t
                      | None => false
                      end)
            (obj_keys (_pieces b))).

(** Any rook, queen or pawn, or two bishops, or three knights, or a
    bishop and a knight together. *)
Definition spec_hasSufficientMaterial (b : Board) (side : Color) : bool :=
  let n := spec_pieceCount b side in
  Nat.ltb 0 (n ROOK) || Nat.ltb 0 (n QUEEN) || Nat.ltb 0 (n PAWN)
  || Nat.leb 2 (n BISHOP) || Nat.leb 3 (n KNIGHT)
  || (Nat.leb 1 (n BISHOP) && Nat.leb 1 (n KNIGHT)).

(** ** The end of a game and the half-move clock *)

Definition spec_mated (toMove : Color) : Result :=
  match toMove with WHITE => WHITE_MATED | BLACK => BLACK_MATED end.

(** The fixed order of the termination checks: the first condition that
    holds decides. *)
Definition spec_termination
  (noLegalMoves inCheck insufficientMaterial threefold fiftyMoves : bool) (toMove : Color)
  : Result :=
  if noLegalMoves then (if inCheck then spec_mated toMove else STALEMATED)
  else if insufficientMaterial then INSUFFICIENT_MATERIAL
  else if threefold then THREEFOLD_REPETITION
  else if fiftyMoves then FIFTY_MOVES
  else ONGOING.

(** The results that the checks before the fifty-move rule can set. *)
Definition spec_earlierTermination (r : Result) : bool :=
  match r with
  | WHITE_MATED | BLACK_MATED | STALEMATED | INSUFFICIENT_MATERIAL | THREEFOLD_REPETITION => true
  | _ => false
  end.

(** A capture or a pawn move. *)
Definition spec_resetsClock (m : Moves.Move) : bool :=
  Moves.capture m
  || match Moves.piece m with
     | Some moved => PieceType_eqb (type moved) PAWN
     | None => false
     end.

Definition isEmpty {A : Type} (l : list A) : bool :=
  match l with [] => true | _ :: _ => false end.

(** [n] successful moves in a row, none of them a capture or a pawn move. *)
Inductive quietRun : nat -> Game -> Game -> Prop :=
| quietRun_nil : forall g, quietRun O g g
| quietRun_step : forall n g g1 g2 fuel h from to extra h' lm,
    quietRun n g g1 ->
    Game_makeMove fuel h g1 from to extra = Some (MOVE_OK, g2, h') ->
    lastMove (board (currentState g2)) = Some lm ->
    spec_resetsClock lm = false ->
    quietRun (S n) g g2.

(** ** The hash cache and the comparison of boards *)

(** The board once [calculateHash] has been called on it. *)
Definition Board_hashed (b : Board) : Board := snd (Board_calculateHash b).

Definition GameState_hashed (st : GameState) : GameState :=
  GameState_with_board st (Board_hashed (board st)).

(** A historical state has the position of the current board: the test
    in the loop of [checkForThreefoldRepetition]. *)
Definition samePositionTest (currentHash : jsstring) (current : Board) (other : GameState)
  : bool :=
  jsstring_eqb currentHash (fst (Board_calculateHash (board other)))
  && Board_equals current (Board_hashed (board other)).

(** Two boards show pieces of the same type and color under every key,
    and have the same rights and the same en passant square object. *)
Definition samePieces (b2 b1 : Board) : Prop :=
  enPassantSquare b2 = enPassantSquare b1
  /\ castlingRights b2 = castlingRights b1
  /\ forall k,
      match obj_get (_pieces b2) k, obj_get (_pieces b1) k with
      | Some p2, Some p1 => color p2 = color p1 /\ type p2 = type p1
      | None, None => True
      | _, _ => False
      end.

(** ** Castling rights along a game *)

(** One right implies the other, color by color and side by side. *)
Definition rights_le (r' r : CastlingRights) : Prop :=
  forall c, (by_color (short r') c = true -> by_color (short r) c = true)
            /\ (by_color (long r') c = true -> by_color (long r) c = true).


(** ** Fuel *)

(** A call that returns with the first oracle returns the same with the
    second. *)
Definition answers_le {A : Type} (x y : option A) : Prop :=
  forall r, x = Some r -> y = Some r.

(** A king whose color still holds a castling right stands on the home
    rank of its color, and the candidates of a king that are two files
    away are on its own rank.  The starting position is of this kind
    ([Board_castlingSane_examples]). *)
Definition King_castlingSane (b : Board) (p : Piece) : bool :=
  (negb (by_color (short (castlingRights b)) (color p)
         || by_color (long (castlingRights b)) (color p))
   || (rankNumber (location p) =? rankNumber (spec_homeSquare (color p))))
  && forallb (fun m =>
                negb ((fileNumber (location p) =? fileNumber m - 2)
                      || (fileNumber (location p) =? fileNumber m + 2))
                || (rankNumber m =? rankNumber (location p)))
             (validMoves p).

Definition Board_castlingSane (b : Board) : bool :=
  forallb (fun k => match obj_get (_pieces b) k with
                    | Some p => negb (PieceType_eqb (type p) KING) || King_castlingSane b p
                    | None => true
                    end)
          (obj_keys (_pieces b)).

(** ** Positions used in the examples *)

(** A board with the given rights and pieces, set up with [setPiece]. *)
Definition Board_setup (rights : CastlingRights) (l : list (PieceType * Color * string)) : Board :=
  fold_left
    (fun b e => Board_setPiece b (Piece_instantiate (fst (fst e)) (snd (fst e)) b (sq (snd e))))
    l (Board_with_castlingRights Board_new rights).

Definition noRights : CastlingRights :=
  mkCastlingRights (mkByColor false false) (mkByColor false false).

(** The piece standing on a square of an example position. *)
Definition pieceAt (b : Board) (s : string) : Piece :=
  match Board_getPiece b (sq s) with
  | Some p => p
  | None => mkPiece [] PAWN WHITE (Square_new 0 0)
  end.

(** A game from a given position, with an empty history. *)
Definition Game_at (b : Board) (turn : Color) : Game :=
  mkGame (mkGameState b 0 turn false false) [] ONGOING.

(** The game a move leads to (the game itself when the call does not
    return), and the heap it leaves. *)
Definition gameAfter (g : Game) (from to : string) : Game :=
  match Game_makeMove 1 1%positive g (sq from) (sq to) None with
  | Some (_, g', _) => g'
  | None => g
  end.

Definition heapAfter (g : Game) (from to : string) : Heap :=
  match Game_makeMove 1 1%positive g (sq from) (sq to) None with
  | Some (_, _, h') => h'
  | None => 1%positive
  end.

(** The answer of a call of [makeMove], when it returns. *)
Definition gameResultOf (r : option (MoveResult * Game * Heap))
  : option MoveResult * option Game * option Heap :=
  match r with
  | Some (m, g, h) => (Some m, Some g, Some h)
  | None => (None, None, None)
  end.

(** The starting position, and the position after [E2E4] played on it
    when the next free object identity is [h]. *)
Definition startBoard : Board := Board_setupDefaultBoard Board_new.

Definition afterE2E4 (h : Heap) : Board :=
  match Board_makeMoveIfValid 1 h startBoard (sq "E2") (sq "E4") None with
  | Some (_, b, _) => b
  | None => startBoard
  end.

Definition kingVsKing : Board :=
  Board_setup noRights [(KING, WHITE, "E1"); (KING, BLACK, "E8")]%string.

Definition kingBishopVsKing : Board :=
  Board_setup noRights [(KING, WHITE, "E1"); (BISHOP, WHITE, "C1"); (KING, BLACK, "E8")]%string.

Definition kingRookVsKing : Board :=
  Board_setup noRights [(KING, WHITE, "E1"); (ROOK, WHITE, "A1"); (KING, BLACK, "E8")]%string.

(** A white pawn on E7 in front of the empty square E8. *)
Definition pawnE7 : Board :=
  Board_setup noRights [(KING, WHITE, "A1"); (KING, BLACK, "A8"); (PAWN, WHITE, "E7")]%string.

(** A white pawn on E2 with a black knight right in front of it. *)
Definition blockedE2 : Board :=
  Board_setup noRights
    [(KING, WHITE, "E1"); (KING, BLACK, "E8"); (PAWN, WHITE, "E2"); (KNIGHT, BLACK, "E3")]%string.

(** White may castle short. *)
Definition castleShort : Board :=
  Board_setup (mkCastlingRights (mkByColor false false) (mkByColor true false))
    [(KING, WHITE, "E1"); (ROOK, WHITE, "H1"); (KING, BLACK, "E8")]%string.

(** White may castle short, but the black rook looks at G1. *)
Definition castleIntoCheck : Board :=
  Board_setup (mkCastlingRights (mkByColor false false) (mkByColor true false))
    [(KING, WHITE, "E1"); (ROOK, WHITE, "H1"); (KING, BLACK, "A8"); (ROOK, BLACK, "G8")]%string.

(** Two stray kings that still hold a castling right each: White's on
    B1 may castle short, Black's on H1 may castle long.  No game gets
    here, but [Board.isAttacked] can be asked. *)
Definition strayKings : Board :=
  Board_setup (mkCastlingRights (mkByColor false true) (mkByColor true false))
    [(KING, WHITE, "B1"); (KING, BLACK, "H1")]%string.

(** Rooks and kings, 49 quiet half-moves played. *)
Definition rooksAndKings : Board :=
  Board_setup noRights
    [(KING, WHITE, "E1"); (ROOK, WHITE, "A1"); (KING, BLACK, "E8"); (ROOK, BLACK, "A8")]%string.

Definition gameAtClock49 : Game :=
  mkGame (mkGameState rooksAndKings 49 WHITE false false) [] ONGOING.

(** White has resigned the game just begun. *)
Definition resignedGame : Game := snd (Game_resign Game_new WHITE).

(** Fool's mate: 1. f3 e5 2. g4, and Black to play Qh4 mate. *)
Definition beforeFoolsMate : Game :=
  gameAfter (gameAfter (gameAfter Game_new "F2" "F3") "E7" "E5") "G2" "G4".

Definition foolsMate : Game := gameAfter beforeFoolsMate "D8" "H4".

(** The same piece, wherever its candidate moves stand. *)
Definition samePiece (p' p : Piece) : Prop :=
  type p' = type p /\ color p' = color p /\ location p' = location p.

(** The move is made onto the en passant square of the board. *)
Definition ontoEnPassantSquare (b : Board) (to : Square) : bool :=
  Square_equals_maybe to (option_map obj_square (enPassantSquare b)).

(** A capture (the destination is occupied) or a pawn move (which
    covers the capture en passant, whose destination is empty). *)
Definition spec_captureOrPawnMove (b : Board) (mover : Piece) (to : Square) : bool :=
  negb (isNone (Board_getPiece b to)) || PieceType_eqb (type mover) PAWN.

(** [Square.isLight]: [(this.fileNumber % 2) ^ (this.rankNumber % 2)],
    a number (1 on a light square of the board, 0 on a dark one). *)
Definition Square_isLight (this : Square) : Z :=
  Z.lxor (Z.rem (fileNumber this) 2) (Z.rem (rankNumber this) 2).

(** ** The squares of the board *)

(** The sixty-four squares, file by file. *)
Definition boardSquares : list Square :=
  flat_map (fun file => map (fun rank => Square_new file rank) [1; 2; 3; 4; 5; 6; 7; 8])
           [1; 2; 3; 4; 5; 6; 7; 8].

Fixpoint Square_list_eqb (l l' : list Square) : bool :=
  match l, l' with
  | [], [] => true
  | x :: l, y :: l' => Square_equals x y && Square_list_eqb l l'
  | _, _ => false
  end.

(** Two squares on one file, one rank or one diagonal. *)
Definition spec_aligned (a b : Square) : bool :=
  (fileNumber b - fileNumber a =? 0) || (rankNumber b - rankNumber a =? 0)
  || (Z.abs (fileNumber b - fileNumber a) =? Z.abs (rankNumber b - rankNumber a)).

(** The number of king steps from one square to the other. *)
Definition spec_distance (a b : Square) : Z :=
  Z.max (Z.abs (fileNumber b - fileNumber a)) (Z.abs (rankNumber b - rankNumber a)).

(** The squares strictly between two aligned squares, from the first
    towards the second. *)
Definition spec_between (a b : Square) : list Square :=
  map (fun k => Square_relative a (Z.of_nat k * Z.sgn (fileNumber b - fileNumber a))
                                  (Z.of_nat k * Z.sgn (rankNumber b - rankNumber a)))
      (seq 1 (Z.to_nat (spec_distance a b) - 1)).

(** ** How the pieces move *)

(** A knight's jump: one file and two ranks, or two files and one rank. *)
Definition spec_knightJump (a b : Square) : bool :=
  ((Z.abs (fileNumber b - fileNumber a) =? 1) && (Z.abs (rankNumber b - rankNumber a) =? 2))
  || ((Z.abs (fileNumber b - fileNumber a) =? 2) && (Z.abs (rankNumber b - rankNumber a) =? 1)).

(** The lines of a rook (file or rank), a bishop (diagonal) and a queen
    (either). *)
Definition spec_line (t : PieceType) (a b : Square) : bool :=
  match t with
  | ROOK => (fileNumber b - fileNumber a =? 0) || (rankNumber b - rankNumber a =? 0)
  | BISHOP => Z.abs (fileNumber b - fileNumber a) =? Z.abs (rankNumber b - rankNumber a)
  | QUEEN => spec_aligned a b
  | _ => false
  end.

Definition spec_isSlider (t : PieceType) : bool :=
  match t with ROOK | BISHOP | QUEEN => true | _ => false end.

(** The rank on which the pawns of a color start. *)
Definition spec_pawnRank (c : Color) : Z :=
  match c with WHITE => 2 | BLACK => 7 end.

(** What a pawn may do: one square straight ahead, or two from the rank
    it starts on, onto an empty square; or one square diagonally ahead,
    taking a piece of the other color that stands there, or beside the
    pawn when the destination is the en passant square.  On the last
    rank a promotion choice is needed as well. *)
Definition spec_pawnMove (b : Board) (this : Piece) (to : Square) (extra : option jsstring)
  : Prop :=
  let dir := Pawn_getAdvanceDirection this in
  Square_isValid to = true
  /\ ((fileNumber to = fileNumber (location this)
       /\ Board_getPiece b to = None
       /\ (rankNumber to = rankNumber (location this) + dir
           \/ (rankNumber to = rankNumber (location this) + 2 * dir
               /\ rankNumber (location this) = spec_pawnRank (color this))))
      \/ (Z.abs (fileNumber to - fileNumber (location this)) = 1
          /\ rankNumber to = rankNumber (location this) + dir
          /\ exists captured,
              (if ontoEnPassantSquare b to
               then Board_getPiece b (Square_new (fileNumber to) (rankNumber (location this)))
               else Board_getPiece b to) = Some captured
              /\ color captured <> color this))
  /\ (rankNumber to = 1 \/ rankNumber to = 8 -> spec_promotionChoice "QRBKN" extra = true).

(** ** The starting position *)

(** The piece on a file of the back rank. *)
Definition spec_backRank (file : Z) : PieceType :=
  if (file =? 1) || (file =? 8) then ROOK
  else if (file =? 2) || (file =? 7) then KNIGHT
  else if (file =? 3) || (file =? 6) then BISHOP
  else if file =? 4 then QUEEN
  else KING.

(** What stands on a square when a game begins. *)
Definition spec_initialPiece (s : Square) : option (PieceType * Color) :=
  if rankNumber s =? 1 then Some (spec_backRank (fileNumber s), WHITE)
  else if rankNumber s =? 2 then Some (PAWN, WHITE)
  else if rankNumber s =? 7 then Some (PAWN, BLACK)
  else if rankNumber s =? 8 then Some (spec_backRank (fileNumber s), BLACK)
  else None.

Definition allRights : CastlingRights :=
  mkCastlingRights (mkByColor true true) (mkByColor true true).

(** ** The hash of a position *)

(** [s'] comes after [s] in the order in which [calculateHash] visits
    the squares: file by file, each file from rank 1 to rank 8. *)
Definition spec_scanLater (s s' : Square) : bool :=
  (fileNumber s <? fileNumber s')
  || ((fileNumber s =? fileNumber s') && (rankNumber s <? rankNumber s')).

(** The number that one piece contributes. *)
Definition spec_pieceHash (p : Piece) : Z :=
  ToInt32 (31 * (128 * pieceTypeId (type p)
                 + 64 * (if Color_eqb (color p) WHITE then 1 else 2)
                 + rankNumber (location p) * 8 + fileNumber (location p))).

(** ** The loops over the pieces of a board *)

(** One turn of the loop of [recalculateAllPiecesMoves]. *)
Definition recalculate_step (b : Board) (location' : jsstring) : Board :=
  match obj_get (_pieces b) location' with
  | None => b
  | Some piece =>
      Board_with_pieces b
        (obj_set (_pieces b) location' (Piece_recalculateValidMoves b piece))
        (_dirty b)
  end.

(** One turn of the loop of [cloneBoard] that copies the pieces of [this]. *)
Definition clone_step (this newBoard : Board) (location' : jsstring) : Board :=
  match obj_get (_pieces this) location' with
  | None => newBoard
  | Some piece =>
      Board_with_pieces newBoard
        (obj_set (_pieces newBoard) location' (Piece_cloneToAnotherBoard piece newBoard))
        (_dirty newBoard)
  end.

(** ** What a board shows *)

(** What can be seen of a piece without its candidate moves. *)
Definition Piece_fields (p : Piece) : PieceType * Color * Square :=
  (type p, color p, location p).

(** The piece filed under a key, without its candidate moves. *)
Definition Board_view (b : Board) (k : jsstring) : option (PieceType * Color * Square) :=
  option_map Piece_fields (obj_get (_pieces b) k).

(** Every piece is filed under the name of the square it stands on, a
    square of the board, and no name is used twice. *)
Definition Board_wf (b : Board) : Prop :=
  NoDup (obj_keys (_pieces b))
  /\ forall k p, obj_get (_pieces b) k = Some p ->
                 k = Square_asString (location p) /\ Square_isValid (location p) = true.

(** The candidate moves of a piece are those that [recalculateValidMoves]
    computes on a board with the castling rights of [b]. *)
Definition Piece_recalculated (b : Board) (p : Piece) : Prop :=
  exists b0 p0, castlingRights b0 = castlingRights b /\ p = Piece_recalculateValidMoves b0 p0.

(** ** What a move changes *)

(** The corner a castling rook leaves and the square it goes to, for a
    king move between two squares. *)
Definition spec_castlingRook (from to : Square) : option (Square * Square) :=
  if fileNumber to =? fileNumber from + 2
  then Some (Square_new 8 (rankNumber to), Square_new 6 (rankNumber to))
  else if fileNumber to =? fileNumber from - 2
  then Some (Square_new 1 (rankNumber to), Square_new 4 (rankNumber to))
  else None.

(** The pawn taken by a capture en passant stands beside the capturing
    pawn, on the file of the destination. *)
Definition spec_enPassantVictim (from to : Square) : Square :=
  Square_new (fileNumber to) (rankNumber from).

(** The squares a move of [mover] may change: its two ends, the square
    of the pawn taken en passant, and the two squares of the castling
    rook. *)
Definition spec_touched (b : Board) (mover : Piece) (from to : Square) : list Square :=
  [from; to]
  ++ (if PieceType_eqb (type mover) PAWN && ontoEnPassantSquare b to
      then [spec_enPassantVictim from to] else [])
  ++ (if PieceType_eqb (type mover) KING
      then match spec_castlingRook from to with
           | Some (rookFrom, rookTo) => [rookFrom; rookTo]
           | None => []
           end
      else []).

(** The type of the piece that stands on the destination after a move:
    the mover's, or the promotion choice for a pawn on a last rank. *)
Definition spec_arrivingType (mover : Piece) (to : Square) (extra : option jsstring)
  : PieceType :=
  if PieceType_eqb (type mover) PAWN && ((rankNumber to =? 1) || (rankNumber to =? 8))
  then Pawn_newPieceType extra
  else type mover.

(** What the board shows under a key once [mover] has gone from [from]
    to [to]: the mover on its new square, nothing where it stood, the
    promoted piece instead of a pawn on a last rank, nothing where the
    pawn taken en passant stood, the castling rook on its new square,
    and what the board showed before everywhere else. *)
Definition Board_viewAfterMove (b : Board) (mover : Piece) (from to : Square)
  (extra : option jsstring) (k : jsstring) : option (PieceType * Color * Square) :=
  let prepared k :=
    if jsstring_eqb (Square_asString to) k then Some (type mover, color mover, to)
    else if jsstring_eqb (Square_asString from) k then None
    else Board_view b k in
  match type mover with
  | PAWN =>
      if ((rankNumber to =? 1) || (rankNumber to =? 8)) && jsstring_eqb (Square_asString to) k
      then Some (Pawn_newPieceType extra, color mover, to)
      else if ontoEnPassantSquare b to
              && jsstring_eqb (Square_asString (spec_enPassantVictim from to)) k
           then None
           else prepared k
  | KING =>
      match spec_castlingRook from to with
      | Some (rookFrom, rookTo) =>
          if jsstring_eqb (Square_asString rookTo) k
          then match prepared (Square_asString rookFrom) with
               | Some (t, c, _) => Some (t, c, rookTo)
               | None => None
               end
          else if jsstring_eqb (Square_asString rookFrom) k then None
          else prepared k
      | None => prepared k
      end
  | _ => prepared k
  end.

Fixpoint keys_distinct (l : list jsstring) : bool :=
  match l with
  | [] => true
  | k :: l' => negb (existsb (jsstring_eqb k) l') && keys_distinct l'
  end.

(** [Board_wf], decided. *)
Definition Board_wfb (b : Board) : bool :=
  keys_distinct (obj_keys (_pieces b))
  && forallb (fun kv => jsstring_eqb (fst kv) (Square_asString (location (snd kv)))
                        && Square_isValid (location (snd kv)))
             (_pieces b).

(** ** The boards and games that play produces *)

(** A board as a game holds it: the pieces are filed under their own
    squares, the castling rights are consistent with the kings, and a
    recorded last move still has its piece. *)
Definition Board_playable (b : Board) : Prop :=
  Board_wf b
  /\ Board_castlingSane b = true
  /\ forall m, lastMove b = Some m -> Moves.piece m <> None.

Definition Game_playable (g : Game) : Prop :=
  Board_playable (board (currentState g))
  /\ Forall (fun st => Board_playable (board st)) (stateHistory g).

(** The games that the methods of [Game] lead to from a new game. *)
Inductive Game_reachable : Game -> Prop :=
| reachable_new : Game_reachable Game_new
| reachable_reset : forall g, Game_reachable g -> Game_reachable (Game_reset g)
| reachable_makeMove : forall g fuel h from to extra r g' h',
    Game_reachable g ->
    Game_makeMove fuel h g from to extra = Some (r, g', h') ->
    Game_reachable g'
| reachable_takebackMove : forall g,
    Game_reachable g -> Game_reachable (snd (Game_takebackMove g))
| reachable_resign : forall g c,
    Game_reachable g -> Game_reachable (snd (Game_resign g c))
| reachable_offerDraw : forall g c,
    Game_reachable g -> Game_reachable (snd (Game_offerDraw g c)).

(** ** The hash cache *)

(** The hash that [calculateHash] computes when it does not use the
    cache. *)
Definition Board_freshHash (b : Board) : jsstring :=
  fst (Board_calculateHash (Board_with_hash b true (_hash b))).

(** The cached hash, when it is marked valid, is the hash of the
    pieces on the board. *)
Definition Board_cacheCoherent (b : Board) : Prop :=
  _dirty b = false -> _hash b = Board_freshHash b.

(** ** Moves that the game accepts *)

(** Two boards that differ at most in the identity of the en passant
    square object, in the last move and in the hash cache. *)
Definition Board_sameUpToId (b1 b2 : Board) : Prop :=
  _pieces b1 = _pieces b2
  /\ castlingRights b1 = castlingRights b2
  /\ option_map obj_square (enPassantSquare b1) = option_map obj_square (enPassantSquare b2).

(** The color has a piece and a destination that pass the trial of
    [getValidMovesFor]: the move succeeds on a copy of the board and
    does not leave the color in check. *)
Definition Board_hasMove (b : Board) (c : Color) : Prop :=
  exists k piece to newBoard0 newBoard fuel h h',
    obj_get (_pieces b) k = Some piece
    /\ color piece = c
    /\ Board_cloneBoard b = Some newBoard0
    /\ Board_makeMoveIfValid fuel h newBoard0 (location piece) to (Some (js "Q"))
       = Some (true, newBoard, h')
    /\ Board_isInCheck fuel newBoard c = Some false.

(** The candidate list of every piece holds at least the candidates
    that a recalculation on the board would give. *)
Definition Board_candidatesCurrent (b : Board) : Prop :=
  forall k p m,
    obj_get (_pieces b) k = Some p ->
    In m (validMoves (Piece_instantiate (type p) (color p) b (location p))) ->
    In m (validMoves p).

(** The copy of the board of fool's mate on which a move of White is
    tried, and that copy after the king has stepped from E1 to F2. *)
Definition foolsMateCopy : Board :=
  match Board_cloneBoard (board (currentState foolsMate)) with
  | Some b => b
  | None => Board_new
  end.

Definition foolsMateKingF2 : Board :=
  match Board_makeMoveIfValid 1 1%positive foolsMateCopy (sq "E1") (sq "F2")
          (Some (js "Q")) with
  | Some (_, b, _) => b
  | None => Board_new
  end.

(** The entry [mv] of the list of [getValidMovesFor] comes from the
    trial of the destination [to] for [piece]: the move succeeded on a
    copy of the board and did not leave the color in check. *)
Definition Board_trialPasses (fuel : nat) (b : Board) (c : Color) (piece : Piece)
  (to : Square) (mv : option Moves.Move) : Prop :=
  exists newBoard0 newBoard h h',
    Board_cloneBoard b = Some newBoard0
    /\ Board_makeMoveIfValid fuel h newBoard0 (location piece) to (Some (js "Q"))
       = Some (true, newBoard, h')
    /\ Board_isInCheck fuel newBoard c = Some false
    /\ mv = lastMove newBoard.

(** The moves that [getValidMovesFor] lists for White in a new game. *)
Definition startMoves : list (option Moves.Move) * Heap :=
  match Board_getValidMovesFor 1 1%positive (board (currentState Game_new))
          (currentTurn (currentState Game_new)) with
  | Some r => r
  | None => ([], 1%positive)
  end.

(** ** Attacks, as the rules of chess have them *)

(** The piece [p] attacks the square [s] on the board [b]: a pawn the
    two squares diagonally ahead of it, a knight the squares of its
    jump, a king the squares next to it, a rook, a bishop and a queen
    the squares of their lines up to the first piece met.  What stands
    on [s] plays no part. *)
Definition spec_attacks (b : Board) (p : Piece) (s : Square) : bool :=
  match type p with
  | PAWN =>
      (Z.abs (fileNumber s - fileNumber (location p)) =? 1)
      && (rankNumber s
          =? rankNumber (location p) + match color p with WHITE => 1 | BLACK => -1 end)
  | KNIGHT => spec_knightJump (location p) s
  | KING => spec_distance (location p) s =? 1
  | ROOK | BISHOP | QUEEN =>
      negb (Square_equals s (location p))
      && spec_line (type p) (location p) s
      && forallb (fun x => isNone (Board_getPiece b x)) (spec_between (location p) s)
  end.

(** The draw offer of a color in a state. *)
Definition GameState_offersDraw (st : GameState) (c : Color) : bool :=
  match c with WHITE => whiteOffersDraw st | BLACK => blackOffersDraw st end.

(** The game after 1. Nf3 h5 2. e3 h4 3. Be2 h3 4. a3 hxg2: a black pawn
    stands on G2, beside the empty square F1. *)
Definition pawnOnG2 : Game :=
  gameAfter
    (gameAfter
       (gameAfter
          (gameAfter
             (gameAfter
                (gameAfter (gameAfter (gameAfter Game_new "G1" "F3") "H7" "H5") "E2" "E3")
                "H5" "H4")
             "F1" "E2")
          "H4" "H3")
       "A2" "A3")
    "H3" "G2".

(** * Verification *)

(** Closed goals are settled by evaluation, conjunct by conjunct. *)
Ltac by_evaluation :=
  repeat match goal with |- _ /\ _ => split end;
  vm_compute; solve [reflexivity | discriminate].

(** ** Strings and objects *)

Lemma jsstring_eqb_eq (a b : jsstring) : jsstring_eqb a b = true <-> a = b.
Proof.
  revert b; induction a as [|x a IH]; intros [|y b]; simpl; split; intros H;
    try reflexivity; try discriminate.
  - apply andb_true_iff in H as [Hx Hab]. apply Z.eqb_eq in Hx. apply IH in Hab.
    now subst.
  - injection H as -> ->. rewrite Z.eqb_refl. simpl. now apply IH.
Qed.

Lemma jsstring_eqb_refl (a : jsstring) : jsstring_eqb a a = true.
Proof. now apply jsstring_eqb_eq. Qed.

Lemma jsstring_eqb_neq (a b : jsstring) : jsstring_eqb a b = false <-> a <> b.
Proof.
  split.
  - intros H E. apply jsstring_eqb_eq in E. congruence.
  - intros H. destruct (jsstring_eqb a b) eqn:E; [|reflexivity].
    apply jsstring_eqb_eq in E. contradiction.
Qed.

(** ** Squares *)

Lemma Square_isValid_iff (s : Square) :
  Square_isValid s = true <-> 1 <= fileNumber s <= 8 /\ 1 <= rankNumber s <= 8.
Proof.
  unfold Square_isValid. rewrite !andb_true_iff, !Z.leb_le. lia.
Qed.

Lemma Square_equals_eq (a b : Square) : Square_equals a b = true <-> a = b.
Proof.
  unfold Square_equals. rewrite andb_true_iff, !Z.eqb_eq.
  destruct a, b; simpl. split; [intros [-> ->]; reflexivity | intros [= -> ->]; auto].
Qed.

Lemma Square_equals_refl (a : Square) : Square_equals a a = true.
Proof. now apply Square_equals_eq. Qed.

(** On the board, the text of a square is its letter and its digit. *)
Lemma Square_asString_valid (s : Square) :
  Square_isValid s = true ->
  Square_asString s = [fileNumber s + 64; rankNumber s + 48].
Proof.
  intros H. apply Square_isValid_iff in H. destruct s as [f r]. simpl in H.
  assert (Hf : f = 1 \/ f = 2 \/ f = 3 \/ f = 4 \/ f = 5 \/ f = 6 \/ f = 7 \/ f = 8) by lia.
  assert (Hr : r = 1 \/ r = 2 \/ r = 3 \/ r = 4 \/ r = 5 \/ r = 6 \/ r = 7 \/ r = 8) by lia.
  repeat (destruct Hf as [->|Hf]); try subst f;
    repeat (destruct Hr as [->|Hr]); try subst r; reflexivity.
Qed.

Lemma rayLoop_firstn (n k : nat) (c : Square) (df dr : Z) :
  rayLoop n c df dr = firstn n (rayLoop (n + k) c df dr).
Proof.
  revert c. induction n as [|n IH]; intros c; [reflexivity|].
  cbn [rayLoop Nat.add].
  destruct (negb (Square_isValid (Square_relative c df dr))); [reflexivity|].
  cbn [firstn]. now rewrite <- IH.
Qed.

Lemma rayLoop_nth (n : nat) (c : Square) (df dr : Z) (i : nat) (s : Square) :
  nth_error (rayLoop n c df dr) i = Some s ->
  s = Square_relative c (Z.of_nat (S i) * df) (Z.of_nat (S i) * dr)
  /\ Square_isValid s = true.
Proof.
  revert c i. induction n as [|n IH]; intros c i; [destruct i; discriminate|].
  cbn [rayLoop].
  destruct (Square_isValid (Square_relative c df dr)) eqn:V; cbn [negb];
    [|destruct i; discriminate].
  destruct i as [|i]; cbn [nth_error].
  - intros [= <-]. split; [|exact V].
    unfold Square_relative, Square_new. f_equal; lia.
  - intros H. apply IH in H as [-> V']. split; [|exact V'].
    unfold Square_relative, Square_new. cbn [fileNumber rankNumber]. f_equal; lia.
Qed.

Lemma rayLoop_length (n : nat) (c : Square) (df dr : Z) :
  df <> 0 \/ dr <> 0 -> (List.length (rayLoop n c df dr) <= 8)%nat.
Proof.
  intros D.
  destruct (Nat.le_gt_cases (List.length (rayLoop n c df dr)) 8) as [L|L]; [exact L|].
  exfalso.
  destruct (nth_error (rayLoop n c df dr) 0) as [s0|] eqn:E0;
    [|apply nth_error_None in E0; lia].
  destruct (nth_error (rayLoop n c df dr) 8) as [s8|] eqn:E8;
    [|apply nth_error_None in E8; lia].
  apply rayLoop_nth in E0 as [-> V0]. apply rayLoop_nth in E8 as [-> V8].
  apply Square_isValid_iff in V0, V8.
  unfold Square_relative, Square_new in V0, V8. cbn [fileNumber rankNumber] in V0, V8.
  lia.
Qed.

(** Eight iterations are all the loop of [getRelativesUntilInvalid]
    can make: more fuel changes nothing. *)
Lemma rayLoop_stable (k : nat) (c : Square) (df dr : Z) :
  df <> 0 \/ dr <> 0 -> rayLoop (8 + k) c df dr = rayLoop 8 c df dr.
Proof.
  intros D. rewrite (rayLoop_firstn 8 k). symmetry. apply firstn_all2.
  now apply rayLoop_length.
Qed.

(** [getRelativesUntilInvalid] does not throw inside [pathTo]. *)
Lemma Square_pathTo_no_throw (this other : Square) :
  Square_equals other this = false ->
  let fileChange := fileNumber other - fileNumber this in
  let rankChange := rankNumber other - rankNumber this in
  Square_getRelativesUntilInvalid this
    (if fileChange =? 0 then 0 else fileChange / Z.abs fileChange)
    (if rankChange =? 0 then 0 else rankChange / Z.abs rankChange)
  <> None.
Proof.
  intros N fileChange rankChange. unfold Square_getRelativesUntilInvalid.
  assert (S : forall x, x <> 0 -> x / Z.abs x <> 0).
  { intros x Hx E. apply Z.div_small_iff in E; lia. }
  destruct (Z.eqb_spec fileChange 0) as [F|F]; destruct (Z.eqb_spec rankChange 0) as [R|R].
  - exfalso. subst fileChange rankChange.
    assert (E : Square_equals other this = true)
      by (unfold Square_equals; rewrite andb_true_iff, !Z.eqb_eq; lia).
    congruence.
  - apply S in R. apply Z.eqb_neq in R. rewrite R. cbn. discriminate.
  - apply S in F. apply Z.eqb_neq in F. rewrite F. cbn. discriminate.
  - apply S in F. apply Z.eqb_neq in F. rewrite F. cbn. discriminate.
Qed.

(** C9, as stated, fails on lower-case text. *)
Lemma Square_fromString_rejects_lowercase :
  spec_isSquareText true (js "e4") = true /\ Square_fromString (js "e4") = None.
Proof. split; reflexivity. Qed.

(** C9 (amended): [Square.fromString] accepts exactly the two-character
    strings made of an upper-case file letter [A]-[H] followed by a rank
    digit [1]-[8], and returns the square of that file and rank, whose
    text is the string again; every other string (wrong length,
    lower-case or otherwise malformed character, file or rank out of
    range) yields [undefined]. *)
Theorem Square_fromString_exact (s : jsstring) :
  match Square_fromString s with
  | Some q =>
      spec_isSquareText false s = true
      /\ s = [fileNumber q + code "A" - 1; rankNumber q + code "1" - 1]
      /\ Square_isValid q = true
      /\ Square_asString q = s
  | None => spec_isSquareText false s = false
  end.
Proof.
  destruct s as [|c0 [|c1 [|c2 s]]]; try reflexivity.
  unfold Square_fromString, spec_isSquareText.
  replace (code "A") with 65 by reflexivity. replace (code "H") with 72 by reflexivity.
  replace (code "1") with 49 by reflexivity. replace (code "8") with 56 by reflexivity.
  destruct (Square_isValid (Square_new (c0 - 65 + 1) (c1 - 49 + 1))) eqn:V; simpl negb; cbv iota.
  - pose proof V as V'. apply Square_isValid_iff in V'. simpl in V'.
    repeat split.
    + simpl. rewrite !andb_true_iff, !Z.leb_le. lia.
    + simpl. f_equal; [lia | f_equal; lia].
    + exact V.
    + rewrite Square_asString_valid by exact V. simpl. f_equal; [lia | f_equal; lia].
  - simpl. unfold Square_isValid in V. simpl in V.
    destruct (65 <=? c0) eqn:A, (c0 <=? 72) eqn:B, (49 <=? c1) eqn:C, (c1 <=? 56) eqn:D;
      try reflexivity.
    apply Z.leb_le in A, B, C, D.
    rewrite !andb_false_iff, !Z.leb_gt in V. lia.
Qed.

(** ** Insufficient material *)

Lemma count_fold (ps : JsObject Piece) (side : Color) (t : PieceType)
      (keys : list jsstring) (count : PieceType -> Z) :
  fold_left
    (fun count location' =>
       match obj_get ps location' with
       | Some piece =>
           if Color_eqb (color piece) side then count_increment count (type piece) else count
       | None => count
       end) keys count t
  = count t
    + Z.of_nat (List.length
        (filter (fun k => match obj_get ps k with
                          | Some p => Color_eqb (color p) side && PieceType_eqb (type p) t
                          | None => false
                          end) keys)).
Proof.
  revert count. induction keys as [|k keys IH]; intros count; simpl.
  - lia.
  - rewrite IH. destruct (obj_get ps k) as [p|]; [|lia].
    destruct (Color_eqb (color p) side); simpl; [|lia].
    unfold count_increment.
    destruct (type p), t; simpl; lia.
Qed.

Lemma Board_getPiecesCountByType_spec (b : Board) (side : Color) (t : PieceType) :
  Board_getPiecesCountByType b side t = Z.of_nat (spec_pieceCount b side t).
Proof.
  unfold Board_getPiecesCountByType, spec_pieceCount. rewrite count_fold. lia.
Qed.

Lemma Z_of_nat_nonzero (k : nat) : negb (Z.of_nat k =? 0) = Nat.ltb 0 k.
Proof.
  destruct (Z.eqb_spec (Z.of_nat k) 0), (Nat.ltb_spec 0 k); simpl; try reflexivity; lia.
Qed.

Lemma Z_of_nat_leb (m : Z) (m' k : nat) :
  m = Z.of_nat m' -> (m <=? Z.of_nat k) = Nat.leb m' k.
Proof.
  intros ->. destruct (Z.leb_spec (Z.of_nat m') (Z.of_nat k)), (Nat.leb_spec m' k);
    try reflexivity; lia.
Qed.

Lemma Game_validateHasSufficientMaterial_spec (g : Game) (side : Color) :
  Game_validateHasSufficientMaterial g side
  = spec_hasSufficientMaterial (board (currentState g)) side.
Proof.
  unfold Game_validateHasSufficientMaterial, spec_hasSufficientMaterial.
  rewrite !Board_getPiecesCountByType_spec, !Z_of_nat_nonzero.
  rewrite (Z_of_nat_leb 2 2), (Z_of_nat_leb 3 3), !(Z_of_nat_leb 1 1) by reflexivity.
  set (n := spec_pieceCount (board (currentState g)) side).
  destruct (Nat.ltb 0 (n ROOK)), (Nat.ltb 0 (n QUEEN)), (Nat.ltb 0 (n PAWN)),
    (Nat.leb 2 (n BISHOP)), (Nat.leb 3 (n KNIGHT)); reflexivity.
Qed.

(** C6: [checkForInsufficientMaterial] is true exactly when neither
    side has sufficient material, a side having sufficient material
    when it holds a rook, a queen or a pawn, or two bishops, or three
    knights, or a bishop and a knight; it is true for king against king
    and king and bishop against king, false for king and rook against
    king. *)
Theorem Game_checkForInsufficientMaterial_spec :
  (forall g : Game,
      Game_checkForInsufficientMaterial g
      = negb (spec_hasSufficientMaterial (board (currentState g)) WHITE)
        && negb (spec_hasSufficientMaterial (board (currentState g)) BLACK))
  /\ Game_checkForInsufficientMaterial (Game_at kingVsKing WHITE) = true
  /\ Game_checkForInsufficientMaterial (Game_at kingBishopVsKing WHITE) = true
  /\ Game_checkForInsufficientMaterial (Game_at kingRookVsKing WHITE) = false.
Proof.
  split; [|by_evaluation].
  intros g. unfold Game_checkForInsufficientMaterial.
  now rewrite !Game_validateHasSufficientMaterial_spec.
Qed.

(** ** Objects *)

Lemma obj_get_set_same {V : Type} (o : JsObject V) (k : jsstring) (v : V) :
  obj_get (obj_set o k v) k = Some v.
Proof.
  induction o as [|[k' v'] o IH]; simpl.
  - now rewrite jsstring_eqb_refl.
  - destruct (jsstring_eqb k' k) eqn:E; simpl; rewrite E; [reflexivity | exact IH].
Qed.

Lemma obj_get_set_other {V : Type} (o : JsObject V) (k k' : jsstring) (v : V) :
  k <> k' -> obj_get (obj_set o k v) k' = obj_get o k'.
Proof.
  intros N. induction o as [|[k0 v0] o IH]; simpl.
  - apply jsstring_eqb_neq in N. now rewrite N.
  - destruct (jsstring_eqb k0 k) eqn:E; simpl.
    + apply jsstring_eqb_eq in E. subst k0.
      apply jsstring_eqb_neq in N. now rewrite N.
    + now rewrite IH.
Qed.

Lemma obj_get_delete_same {V : Type} (o : JsObject V) (k : jsstring) :
  obj_get (obj_delete o k) k = None.
Proof.
  induction o as [|[k' v'] o IH]; simpl; [reflexivity|].
  destruct (jsstring_eqb k' k) eqn:E; simpl; [exact IH | now rewrite E].
Qed.

Lemma obj_get_delete_other {V : Type} (o : JsObject V) (k k' : jsstring) :
  k <> k' -> obj_get (obj_delete o k) k' = obj_get o k'.
Proof.
  intros N. induction o as [|[k0 v0] o IH]; simpl; [reflexivity|].
  destruct (jsstring_eqb k0 k) eqn:E; simpl.
  - apply jsstring_eqb_eq in E. subst k0. apply jsstring_eqb_neq in N. now rewrite N.
  - now rewrite IH.
Qed.

Lemma obj_keys_set_present {V : Type} (o : JsObject V) (k : jsstring) (v : V) :
  obj_get o k <> None -> obj_keys (obj_set o k v) = obj_keys o.
Proof.
  induction o as [|[k0 v0] o IH]; simpl; intros H; [congruence|].
  destruct (jsstring_eqb k0 k) eqn:E; simpl; [reflexivity|].
  f_equal. now apply IH.
Qed.

Lemma obj_get_key {V : Type} (o : JsObject V) (k : jsstring) :
  In k (obj_keys o) -> obj_get o k <> None.
Proof.
  induction o as [|[k0 v0] o IH]; simpl; intros H; [contradiction|].
  destruct (jsstring_eqb k0 k) eqn:E; [discriminate|].
  destruct H as [->|H]; [now rewrite jsstring_eqb_refl in E | now apply IH].
Qed.

(** Assignment and deletion keep the keys of an object distinct. *)
Lemma obj_keys_set {V : Type} (o : JsObject V) (k : jsstring) (v : V) :
  obj_keys (obj_set o k v) = obj_keys o \/ obj_keys (obj_set o k v) = obj_keys o ++ [k].
Proof.
  induction o as [|[k0 v0] o IH]; simpl; [now right|].
  destruct (jsstring_eqb k0 k); simpl; [now left|].
  destruct IH as [-> | ->]; [now left | now right].
Qed.

Lemma obj_set_NoDup {V : Type} (o : JsObject V) (k : jsstring) (v : V) :
  NoDup (obj_keys o) -> NoDup (obj_keys (obj_set o k v)).
Proof.
  induction o as [|[k0 v0] o IH]; simpl; intros N.
  - constructor; [intros [] | constructor].
  - destruct (jsstring_eqb k0 k) eqn:E; simpl; [exact N|].
    inversion N as [|? ? Hin N']; subst. constructor; [|now apply IH].
    destruct (obj_keys_set o k v) as [-> | ->]; [exact Hin|].
    intros I. apply in_app_or in I as [I|[<-|[]]]; [contradiction|].
    now rewrite jsstring_eqb_refl in E.
Qed.

Lemma obj_delete_NoDup {V : Type} (o : JsObject V) (k : jsstring) :
  NoDup (obj_keys o) -> NoDup (obj_keys (obj_delete o k)).
Proof.
  induction o as [|[k0 v0] o IH]; simpl; intros N; [constructor|].
  inversion N as [|? ? Hin N']; subst.
  destruct (jsstring_eqb k0 k); simpl; [now apply IH|].
  constructor; [|now apply IH].
  intros I. apply Hin. unfold obj_keys, obj_delete in I.
  apply in_map_iff in I as ((k1 & v1) & <- & I). apply filter_In in I as [I _].
  apply in_map_iff. now exists (k1, v1).
Qed.

(** ** Pieces *)

Lemma Color_eqb_eq (a b : Color) : Color_eqb a b = true <-> a = b.
Proof. destruct a, b; simpl; split; intros H; try reflexivity; discriminate. Qed.

Lemma PieceType_eqb_eq (a b : PieceType) : PieceType_eqb a b = true <-> a = b.
Proof. destruct a, b; simpl; split; intros H; try reflexivity; discriminate. Qed.

Lemma Piece_recalculateValidMoves_fields (b : Board) (p : Piece) :
  type (Piece_recalculateValidMoves b p) = type p
  /\ color (Piece_recalculateValidMoves b p) = color p
  /\ location (Piece_recalculateValidMoves b p) = location p.
Proof.
  unfold Piece_recalculateValidMoves. destruct p as [vm t c l]. simpl.
  destruct t; repeat split; reflexivity.
Qed.

Lemma Piece_instantiate_fields (t : PieceType) (c : Color) (b : Board) (s : Square) :
  type (Piece_instantiate t c b s) = t
  /\ color (Piece_instantiate t c b s) = c
  /\ location (Piece_instantiate t c b s) = s.
Proof. unfold Piece_instantiate. apply Piece_recalculateValidMoves_fields. Qed.

Lemma Piece_isMoveValid_base_In (p : Piece) (to : Square) :
  Piece_isMoveValid_base p to = true <-> Square_isValid to = true /\ In to (validMoves p).
Proof.
  unfold Piece_isMoveValid_base. destruct (Square_isValid to); simpl; [|intuition discriminate].
  rewrite Nat.ltb_lt. split.
  - intros H. split; [reflexivity|].
    destruct (filter (fun move => Square_equals move to) (validMoves p)) as [|x l] eqn:F;
      [simpl in H; lia|].
    assert (I : In x (x :: l)) by now left.
    rewrite <- F in I. apply filter_In in I as [I E].
    apply Square_equals_eq in E. now subst.
  - intros [_ H].
    assert (I : In to (filter (fun move => Square_equals move to) (validMoves p))).
    { apply filter_In. split; [exact H | apply Square_equals_refl]. }
    destruct (filter (fun move => Square_equals move to) (validMoves p));
      [contradiction | simpl; lia].
Qed.

(** ** The board comparison *)

(** C8: the comparison walks over the pieces of the receiver only, so a
    piece that stands on the other board alone goes unnoticed: king
    against king "equals" king and rook against king. *)
Lemma Board_equals_misses_extra_piece :
  Board_equals kingVsKing kingRookVsKing = true
  /\ Board_getPiece kingVsKing (sq "A1") = None
  /\ Board_getPiece kingRookVsKing (sq "A1") <> None
  /\ Board_equals kingRookVsKing kingVsKing = false.
Proof. by_evaluation. Qed.

(** What the comparison does decide. *)
Lemma Board_equals_true_iff (this other : Board) :
  Board_equals this other = true <->
  SquareObj_differ (enPassantSquare other) (enPassantSquare this) = false
  /\ castlingRights other = castlingRights this
  /\ forall k, In k (obj_keys (_pieces this)) ->
       match obj_get (_pieces this) k, obj_get (_pieces other) k with
       | Some p1, Some p2 => color p1 = color p2 /\ type p1 = type p2
       | None, None => True
       | _, _ => False
       end.
Proof.
  unfold Board_equals.
  destruct (castlingRights this) as [[lw lb] [sw sb]], (castlingRights other) as [[lw' lb'] [sw' sb']].
  simpl.
  destruct (SquareObj_differ (enPassantSquare other) (enPassantSquare this)); simpl;
    [intuition discriminate|].
  assert (R : forall x y, negb (Bool.eqb x y) = false <-> x = y)
    by (intros [] []; simpl; intuition congruence).
  destruct (negb (Bool.eqb sw' sw)) eqn:E1; simpl;
    [split; [discriminate | intros (_ & [= ] & _); subst; destruct sw; discriminate]|].
  destruct (negb (Bool.eqb sb' sb)) eqn:E2; simpl;
    [split; [discriminate | intros (_ & [= ] & _); subst; destruct sb; discriminate]|].
  destruct (negb (Bool.eqb lw' lw)) eqn:E3; simpl;
    [split; [discriminate | intros (_ & [= ] & _); subst; destruct lw; discriminate]|].
  destruct (negb (Bool.eqb lb' lb)) eqn:E4; simpl;
    [split; [discriminate | intros (_ & [= ] & _); subst; destruct lb; discriminate]|].
  apply (proj1 (R _ _)) in E1. apply (proj1 (R _ _)) in E2.
  apply (proj1 (R _ _)) in E3. apply (proj1 (R _ _)) in E4. subst.
  rewrite forallb_forall. split.
  - intros H. split; [reflexivity | split; [reflexivity|]].
    intros k Hk. specialize (H k Hk).
    destruct (obj_get (_pieces this) k) as [p1|], (obj_get (_pieces other) k) as [p2|];
      try discriminate; try exact I.
    destruct (color p1), (color p2), (type p1), (type p2); simpl in H;
      try discriminate; split; reflexivity.
  - intros (_ & _ & H) k Hk. specialize (H k Hk).
    destruct (obj_get (_pieces this) k) as [p1|], (obj_get (_pieces other) k) as [p2|];
      try contradiction; try reflexivity.
    destruct H as [-> ->]. destruct (color p2), (type p2); reflexivity.
Qed.

(** C8, second divergence: en passant squares are compared as objects.
    The same move played on the starting position twice gives two boards
    with the same pieces, rights and en passant square (E3), which the
    comparison tells apart because the two squares are two objects. *)
Lemma Board_equals_distinct_enPassant_objects :
  option_map obj_square (enPassantSquare (afterE2E4 1%positive)) = Some (sq "E3")
  /\ option_map obj_square (enPassantSquare (afterE2E4 2%positive)) = Some (sq "E3")
  /\ _pieces (afterE2E4 1%positive) = _pieces (afterE2E4 2%positive)
  /\ castlingRights (afterE2E4 1%positive) = castlingRights (afterE2E4 2%positive)
  /\ Board_equals (afterE2E4 1%positive) (afterE2E4 2%positive) = false
  /\ Board_equals (afterE2E4 1%positive) (afterE2E4 1%positive) = true.
Proof. by_evaluation. Qed.

(** ** Pawns *)

(** A pawn recalculated on its starting rank has the double advance
    among its candidates. *)
Lemma Pawn_double_advance_candidate (p0 : Piece) :
  Square_isValid (location p0) = true ->
  (color p0 = WHITE /\ rankNumber (location p0) = 2)
  \/ (color p0 = BLACK /\ rankNumber (location p0) = 7) ->
  let this := Pawn_recalculateValidMoves p0 in
  let to := Square_relative (location this) 0 (Pawn_getAdvanceDirection this * 2) in
  Piece_isMoveValid_base this to = true.
Proof.
  intros V S this to.
  apply Square_isValid_iff in V.
  assert (Vto : Square_isValid to = true).
  { apply Square_isValid_iff. subst to this. unfold Pawn_getAdvanceDirection. simpl.
    destruct S as [[-> ->]|[-> ->]]; simpl; lia. }
  apply Piece_isMoveValid_base_In. split; [exact Vto|].
  subst this. unfold Pawn_recalculateValidMoves, Piece_removeInvalidMoves. simpl.
  apply filter_In. split; [|exact Vto].
  assert (St : ((rankNumber (location p0) =? 2) && Color_eqb (color p0) WHITE
                || (rankNumber (location p0) =? 7) && Color_eqb (color p0) BLACK) = true).
  { destruct S as [[-> ->]|[-> ->]]; reflexivity. }
  rewrite St. apply in_or_app. right. left. reflexivity.
Qed.

(** C10: a pawn on its starting rank (rank 2 for White, rank 7 for
    Black) may advance two squares whenever the destination is empty;
    nothing is asked of the square it passes over, which may be
    occupied: the answer depends on the board through the destination
    square alone. *)
Theorem Pawn_double_advance_ignores_passed_square
        (fuel : nat) (b : Board) (p0 : Piece) (extra : option jsstring) :
  type p0 = PAWN ->
  Square_isValid (location p0) = true ->
  (color p0 = WHITE /\ rankNumber (location p0) = 2)
  \/ (color p0 = BLACK /\ rankNumber (location p0) = 7) ->
  let this := Piece_recalculateValidMoves b p0 in
  let to := Square_relative (location this) 0 (Pawn_getAdvanceDirection this * 2) in
  (Board_getPiece b to = None ->
   Pawn_isMoveValid b this to extra = true
   /\ Piece_isMoveValid fuel b this to extra = Some true)
  /\ (forall b' : Board,
         Board_getPiece b' to = Board_getPiece b to ->
         Pawn_isMoveValid b' this to extra = Pawn_isMoveValid b this to extra).
Proof.
  intros T V S this to.
  assert (E : this = Pawn_recalculateValidMoves p0)
    by (subst this; unfold Piece_recalculateValidMoves; now rewrite T).
  pose proof (Pawn_double_advance_candidate p0 V S) as B. cbv zeta in B.
  rewrite <- E in B. fold to in B.
  assert (F : forall bb, Pawn_isMoveValid bb this to extra = isNone (Board_getPiece bb to)).
  { intros bb. unfold Pawn_isMoveValid. rewrite B. simpl negb. cbv iota.
    subst to. rewrite E. unfold Pawn_getAdvanceDirection. simpl.
    rewrite Z.add_0_r, Z.eqb_refl.
    destruct S as [[-> ->]|[-> ->]]; simpl;
      destruct (isNone (Board_getPiece bb _)); reflexivity. }
  split.
  - intros G. assert (P : Pawn_isMoveValid b this to extra = true) by now rewrite F, G.
    split; [exact P|].
    assert (Tt : type this = PAWN) by (rewrite E; exact T).
    destruct fuel; simpl; rewrite Tt, P; reflexivity.
  - intros b' G. now rewrite !F, G.
Qed.

(** C10 at work: the white pawn on E2 jumps over the knight on E3. *)
Lemma Pawn_double_advance_over_knight :
  Board_getPiece blockedE2 (sq "E3") <> None
  /\ Pawn_isMoveValid blockedE2
       (Piece_recalculateValidMoves blockedE2 (pieceAt blockedE2 "E2")) (sq "E4") None = true
  /\ Piece_isMoveValid 1 blockedE2
       (Piece_recalculateValidMoves blockedE2 (pieceAt blockedE2 "E2")) (sq "E4") None
     = Some true.
Proof.
  split; [vm_compute; discriminate|].
  refine (proj1 (Pawn_double_advance_ignores_passed_square
                   1 blockedE2 (pieceAt blockedE2 "E2") None _ _ _) _).
  - vm_compute; reflexivity.
  - vm_compute; reflexivity.
  - left. by_evaluation.
  - vm_compute; reflexivity.
Defined.

(** C2, as stated, fails twice on the pawn E7 that may step to E8: with
    no choice given the move is refused (no default), and the letter K
    is a choice too. *)
Lemma Pawn_promotion_no_default_and_K :
  Pawn_isMoveValid pawnE7 (pieceAt pawnE7 "E7") (sq "E8") Q_ = true
  /\ Pawn_isMoveValid pawnE7 (pieceAt pawnE7 "E7") (sq "E8") None = false
  /\ spec_promotionChoice "QRBN" (Some (js "K")) = false
  /\ Pawn_isMoveValid pawnE7 (pieceAt pawnE7 "E7") (sq "E8") (Some (js "K")) = true.
Proof. by_evaluation. Qed.

Lemma Pawn_noPromotionArguments_spec (extra : option jsstring) :
  Pawn_noPromotionArguments extra = negb (spec_promotionChoice "QRBKN" extra).
Proof.
  destruct extra as [[|c [|d s]]|]; try reflexivity.
  unfold Pawn_noPromotionArguments, spec_promotionChoice, indexOf. simpl.
  destruct (c =? code "Q"), (c =? code "R"), (c =? code "B"), (c =? code "K"),
    (c =? code "N"); reflexivity.
Qed.

Lemma Pawn_newPieceType_spec (extra : option jsstring) :
  spec_promotionChoice "QRBKN" extra = true ->
  Pawn_newPieceType extra = spec_promotedKind extra.
Proof.
  destruct extra as [[|c [|d s]]|]; try discriminate. intros _.
  unfold Pawn_newPieceType, spec_promotedKind. simpl.
  rewrite !andb_true_r. reflexivity.
Qed.

Lemma Board_getPiece_setPiece (b : Board) (p : Piece) :
  Board_getPiece (Board_setPiece b p) (location p) = Some p.
Proof. unfold Board_getPiece, Board_setPiece. simpl. apply obj_get_set_same. Qed.

Lemma Board_getPiece_setPiece_at (b : Board) (p : Piece) (s : Square) :
  location p = s -> Board_getPiece (Board_setPiece b p) s = Some p.
Proof. intros <-. apply Board_getPiece_setPiece. Qed.

(** The last step of [Pawn.afterMove] on the last rank. *)
Lemma Pawn_afterMove_promotes (h : Heap) (b : Board) (this : Piece) (move : Moves.Move) :
  rankNumber (Moves.to move) = 1 \/ rankNumber (Moves.to move) = 8 ->
  exists b',
    fst (fst (Pawn_afterMove h b this move))
    = Board_setPiece b'
        (Piece_instantiate (Pawn_newPieceType (Moves.extra move)) (color this) b'
                           (Moves.to move)).
Proof.
  intros R.
  assert (P : ((rankNumber (Moves.to move) =? 1) || (rankNumber (Moves.to move) =? 8)) = true)
    by (destruct R as [-> | ->]; reflexivity).
  unfold Pawn_afterMove.
  destruct (Square_equals_maybe _ _);
    destruct (_ + _ =? _); simpl; rewrite P; eexists; reflexivity.
Qed.

(** C2 (amended): when the destination is on rank 1 or 8, the pawn move
    is accepted exactly when it is accepted with the choice Q and the
    choice given is one of the letters Q, R, B, K, N (no choice at all is
    refused); on commit the pawn on the destination is replaced by a
    piece of the pawn's color whose kind is the one chosen: rook for R,
    bishop for B, knight for K or N, queen for Q. *)
Theorem Pawn_promotion
        (h : Heap) (b : Board) (this : Piece) (to : Square) (extra : option jsstring)
        (move : Moves.Move) :
  rankNumber to = 1 \/ rankNumber to = 8 ->
  Moves.to move = to ->
  Moves.extra move = extra ->
  Pawn_isMoveValid b this to extra
  = Pawn_isMoveValid b this to Q_ && spec_promotionChoice "QRBKN" extra
  /\ (spec_promotionChoice "QRBKN" extra = true ->
      exists promoted,
        Board_getPiece (fst (fst (Pawn_afterMove h b this move))) to = Some promoted
        /\ type promoted = spec_promotedKind extra
        /\ color promoted = color this
        /\ location promoted = to).
Proof.
  intros R Eto Eextra. split.
  - unfold Pawn_isMoveValid.
    assert (P : ((rankNumber to =? 1) || (rankNumber to =? 8)) = true)
      by (destruct R as [-> | ->]; reflexivity).
    rewrite P, Pawn_noPromotionArguments_spec.
    change (Pawn_noPromotionArguments Q_) with false. cbv iota.
    destruct (spec_promotionChoice "QRBKN" extra); simpl.
    + now rewrite andb_true_r.
    + rewrite andb_false_r.
      repeat match goal with
      | |- (if ?c then _ else _) = false => destruct c
      | |- match ?c with Some _ => _ | None => _ end = false => destruct c
      end; reflexivity.
  - intros Choice.
    destruct (Pawn_afterMove_promotes h b this move) as (b' & E);
      [now rewrite Eto|].
    rewrite E, Eto, Eextra.
    destruct (Piece_instantiate_fields (Pawn_newPieceType extra) (color this) b' to)
      as (T & C & L).
    eexists. split; [now apply Board_getPiece_setPiece_at|].
    rewrite T. split; [now apply Pawn_newPieceType_spec | now split].
Qed.

(** C2 at work: E7-E8 with the choice N puts a white knight on E8. *)
Lemma Pawn_promotion_E7E8_knight :
  let move := Moves.mkMove (Some (pieceAt pawnE7 "E7")) (sq "E7") (sq "E8") false
                           (Some (js "N")) in
  Pawn_isMoveValid pawnE7 (pieceAt pawnE7 "E7") (sq "E8") (Some (js "N"))
  = Pawn_isMoveValid pawnE7 (pieceAt pawnE7 "E7") (sq "E8") Q_
    && spec_promotionChoice "QRBKN" (Some (js "N"))
  /\ (spec_promotionChoice "QRBKN" (Some (js "N")) = true ->
      exists promoted,
        Board_getPiece
          (fst (fst (Pawn_afterMove 1%positive pawnE7 (pieceAt pawnE7 "E7") move)))
          (sq "E8") = Some promoted
        /\ type promoted = spec_promotedKind (Some (js "N"))
        /\ color promoted = color (pieceAt pawnE7 "E7")
        /\ location promoted = sq "E8").
Proof.
  intros move.
  apply (Pawn_promotion 1%positive pawnE7 (pieceAt pawnE7 "E7") (sq "E8")
                        (Some (js "N")) move).
  - right. vm_compute. reflexivity.
  - reflexivity.
  - reflexivity.
Defined.

(** ** The game: concluded games *)

Lemma Result_eqb_eq (a b : Result) : Result_eqb a b = true <-> a = b.
Proof. destruct a, b; simpl; split; intros H; try reflexivity; discriminate. Qed.

Lemma Result_eqb_ONGOING (r : Result) : r <> ONGOING -> Result_eqb r ONGOING = false.
Proof.
  intros H. destruct (Result_eqb r ONGOING) eqn:E; [|reflexivity].
  apply Result_eqb_eq in E. contradiction.
Qed.

(** ** Fuel

    A call that returns with some fuel returns the same with more, and
    with any oracle that answers wherever the first one does. *)


Lemma answers_le_antisym {A : Type} (x y : option A) :
  answers_le x y -> answers_le y x -> x = y.
Proof.
  unfold answers_le. intros H1 H2. destruct x as [a|].
  - symmetry. now apply H1.
  - destruct y as [b|]; [|reflexivity]. now apply H2.
Qed.

Lemma anyM_mono {A : Type} (f g : A -> option bool) (l : list A) :
  (forall x, In x l -> answers_le (f x) (g x)) -> answers_le (anyM f l) (anyM g l).
Proof.
  induction l as [|x l IH]; intros H r; simpl; [auto|].
  destruct (f x) as [[]|] eqn:E; try discriminate.
  - rewrite (H x (or_introl eq_refl) _ E). auto.
  - rewrite (H x (or_introl eq_refl) _ E). apply IH. intros y Hy. apply H. now right.
Qed.

Section Oracles.
Variables attacked attacked' : Square -> option Color -> option bool.
Hypothesis attacked_le : forall s c, answers_le (attacked s c) (attacked' s c).

Lemma Board_isInCheck_with_mono (b : Board) (c : Color) :
  answers_le (Board_isInCheck_with attacked b c) (Board_isInCheck_with attacked' b c).
Proof.
  unfold Board_isInCheck_with. apply anyM_mono. intros k _ r.
  destruct (obj_get (_pieces b) k) as [p|]; [|discriminate].
  destruct (negb _ || negb _); [auto|]. apply attacked_le.
Qed.

Lemma King_validateCanCastle_mono (b : Board) (this : Piece) (rook : option Piece) :
  answers_le (King_validateCanCastle attacked b this rook)
             (King_validateCanCastle attacked' b this rook).
Proof.
  unfold King_validateCanCastle. intros r.
  destruct (_ || _); [auto|].
  destruct rook as [rook|]; [|auto].
  destruct (negb _ || negb _); [auto|].
  destruct (Board_isInCheck_with attacked b (color this)) as [c|] eqn:E; [|discriminate].
  now rewrite (Board_isInCheck_with_mono _ _ _ E).
Qed.

Lemma King_canCastleShort_mono (b : Board) (this : Piece) :
  answers_le (King_canCastleShort attacked b this) (King_canCastleShort attacked' b this).
Proof.
  unfold King_canCastleShort. intros r.
  destruct (negb _); [auto|].
  destruct (attacked _ _) as [a|] eqn:E; [|discriminate].
  rewrite (attacked_le _ _ _ E). destruct a; [auto|]. apply King_validateCanCastle_mono.
Qed.

Lemma King_canCastleLong_mono (b : Board) (this : Piece) :
  answers_le (King_canCastleLong attacked b this) (King_canCastleLong attacked' b this).
Proof.
  unfold King_canCastleLong. intros r.
  destruct (negb _); [auto|].
  destruct (attacked _ _) as [a|] eqn:E; [|discriminate].
  rewrite (attacked_le _ _ _ E). destruct a; [auto|]. apply King_validateCanCastle_mono.
Qed.

Lemma King_isMoveValid_mono (b : Board) (this : Piece) (to : Square) :
  answers_le (King_isMoveValid attacked b this to) (King_isMoveValid attacked' b this to).
Proof.
  unfold King_isMoveValid. intros r.
  destruct (negb _); [auto|].
  destruct (_ =? _); [apply King_canCastleShort_mono|].
  destruct (_ =? _); [apply King_canCastleLong_mono | auto].
Qed.
End Oracles.

Lemma Board_isAttacked_with_mono
      (valid valid' : Piece -> Square -> option jsstring -> option bool)
      (b : Board) (s : Square) (c : option Color) :
  (forall p m e, answers_le (valid p m e) (valid' p m e)) ->
  answers_le (Board_isAttacked_with valid b s c) (Board_isAttacked_with valid' b s c).
Proof.
  intros H. unfold Board_isAttacked_with. apply anyM_mono. intros k _ r.
  destruct (obj_get (_pieces b) k) as [p|]; [|discriminate].
  destruct (match c with Some _ => _ | None => _ end); [auto|].
  apply anyM_mono. intros m _ r'. destruct (negb _); [auto | apply H].
Qed.

Lemma Piece_isMoveValid_S (fuel : nat) (b : Board) (p : Piece) (to : Square)
      (extra : option jsstring) :
  answers_le (Piece_isMoveValid fuel b p to extra) (Piece_isMoveValid (S fuel) b p to extra).
Proof.
  revert p to extra. induction fuel as [|n IH]; intros p to extra r.
  - simpl. destruct (type p); auto.
    apply King_isMoveValid_mono. intros s c r'. discriminate.
  - change (Piece_isMoveValid (S (S n)) b p to extra)
      with (match type p with
            | PAWN => Some (Pawn_isMoveValid b p to extra)
            | ROOK | BISHOP | QUEEN => Some (Slider_isMoveValid b p to)
            | KNIGHT => Some (Knight_isMoveValid p to)
            | KING => King_isMoveValid
                        (Board_isAttacked_with (Piece_isMoveValid (S n) b) b) b p to
            end).
    change (Piece_isMoveValid (S n) b p to extra)
      with (match type p with
            | PAWN => Some (Pawn_isMoveValid b p to extra)
            | ROOK | BISHOP | QUEEN => Some (Slider_isMoveValid b p to)
            | KNIGHT => Some (Knight_isMoveValid p to)
            | KING => King_isMoveValid
                        (Board_isAttacked_with (Piece_isMoveValid n b) b) b p to
            end).
    destruct (type p); auto.
    apply King_isMoveValid_mono. intros s c.
    apply Board_isAttacked_with_mono. intros p' m e. apply IH.
Qed.

Lemma Piece_isMoveValid_fuel (n m : nat) (b : Board) (p : Piece) (to : Square)
      (extra : option jsstring) :
  (n <= m)%nat ->
  answers_le (Piece_isMoveValid n b p to extra) (Piece_isMoveValid m b p to extra).
Proof.
  induction 1 as [|m L IH]; intros r H; [exact H|].
  apply Piece_isMoveValid_S. now apply IH.
Qed.

Lemma Board_isAttacked_fuel (n m : nat) (b : Board) (s : Square) (c : option Color) :
  (n <= m)%nat -> answers_le (Board_isAttacked n b s c) (Board_isAttacked m b s c).
Proof.
  intros L. apply Board_isAttacked_with_mono. intros p mv e.
  now apply Piece_isMoveValid_fuel.
Qed.

Lemma Board_isInCheck_fuel (n m : nat) (b : Board) (c : Color) :
  (n <= m)%nat -> answers_le (Board_isInCheck n b c) (Board_isInCheck m b c).
Proof.
  intros L. apply Board_isInCheck_with_mono. intros s c'. now apply Board_isAttacked_fuel.
Qed.

(** ** The hash cache

    The cache fields [_dirty] and [_hash] are read by [calculateHash]
    alone. *)

Lemma Board_hashed_cases (b : Board) :
  Board_hashed b = b \/ exists hs, Board_hashed b = Board_with_hash b false hs.
Proof.
  unfold Board_hashed, Board_calculateHash.
  destruct (negb (_dirty b)); simpl; [now left | right; eexists; reflexivity].
Qed.

Lemma Board_calculateHash_hashed (b : Board) :
  Board_calculateHash (Board_hashed b) = (fst (Board_calculateHash b), Board_hashed b).
Proof.
  unfold Board_hashed, Board_calculateHash.
  destruct (_dirty b) eqn:D; simpl; [reflexivity|].
  now rewrite D.
Qed.

Lemma Piece_isMoveValid_with_hash_le (fuel : nat) (b : Board) (d : bool) (hs : jsstring)
      (p : Piece) (to : Square) (extra : option jsstring) :
  answers_le (Piece_isMoveValid fuel (Board_with_hash b d hs) p to extra)
             (Piece_isMoveValid fuel b p to extra)
  /\ answers_le (Piece_isMoveValid fuel b p to extra)
                (Piece_isMoveValid fuel (Board_with_hash b d hs) p to extra).
Proof.
  revert p to extra. induction fuel as [|n IH]; intros p to extra.
  - split; intros r H; exact H.
  - split; intros r; simpl; destruct (type p); auto; revert r.
    + change (answers_le
                (King_isMoveValid
                   (Board_isAttacked_with (Piece_isMoveValid n (Board_with_hash b d hs)) b)
                   b p to)
                (King_isMoveValid (Board_isAttacked_with (Piece_isMoveValid n b) b) b p to)).
      apply King_isMoveValid_mono. intros s c.
      apply Board_isAttacked_with_mono. intros p' m e. apply IH.
    + change (answers_le
                (King_isMoveValid (Board_isAttacked_with (Piece_isMoveValid n b) b) b p to)
                (King_isMoveValid
                   (Board_isAttacked_with (Piece_isMoveValid n (Board_with_hash b d hs)) b)
                   b p to)).
      apply King_isMoveValid_mono. intros s c.
      apply Board_isAttacked_with_mono. intros p' m e. apply IH.
Qed.

Lemma Board_isInCheck_with_hash (fuel : nat) (b : Board) (d : bool) (hs : jsstring) (c : Color) :
  Board_isInCheck fuel (Board_with_hash b d hs) c = Board_isInCheck fuel b c.
Proof.
  apply answers_le_antisym;
    change (Board_isInCheck fuel (Board_with_hash b d hs) c)
      with (Board_isInCheck_with
              (Board_isAttacked_with (Piece_isMoveValid fuel (Board_with_hash b d hs)) b) b c);
    apply Board_isInCheck_with_mono; intros s c';
    apply Board_isAttacked_with_mono; intros p m e;
    apply Piece_isMoveValid_with_hash_le.
Qed.

Lemma Board_getValidMovesFor_with_hash (fuel : nat) (h : Heap) (b : Board) (d : bool)
      (hs : jsstring) (c : Color) :
  Board_getValidMovesFor fuel h (Board_with_hash b d hs) c = Board_getValidMovesFor fuel h b c.
Proof. reflexivity. Qed.

Lemma Board_isInCheck_hashed (fuel : nat) (b : Board) (c : Color) :
  Board_isInCheck fuel (Board_hashed b) c = Board_isInCheck fuel b c.
Proof.
  destruct (Board_hashed_cases b) as [-> | [hs ->]];
    [reflexivity | apply Board_isInCheck_with_hash].
Qed.

Lemma Board_getValidMovesFor_hashed (fuel : nat) (h : Heap) (b : Board) (c : Color) :
  Board_getValidMovesFor fuel h (Board_hashed b) c = Board_getValidMovesFor fuel h b c.
Proof.
  destruct (Board_hashed_cases b) as [-> | [hs ->]]; reflexivity.
Qed.

Lemma Board_hashed_pieces (b : Board) :
  _pieces (Board_hashed b) = _pieces b
  /\ castlingRights (Board_hashed b) = castlingRights b
  /\ enPassantSquare (Board_hashed b) = enPassantSquare b
  /\ lastMove (Board_hashed b) = lastMove b.
Proof.
  destruct (Board_hashed_cases b) as [-> | [hs ->]]; repeat split.
Qed.

Lemma Board_hashed_idem (b : Board) : Board_hashed (Board_hashed b) = Board_hashed b.
Proof.
  unfold Board_hashed at 1. now rewrite Board_calculateHash_hashed.
Qed.

(** ** Threefold repetition *)

Lemma threefold_loop (currentHash : jsstring) (current : Board)
      (history : list GameState) (n : Z) (acc : list GameState) :
  fold_left
    (fun acc other =>
       let '(otherHash, otherBoard) := Board_calculateHash (board other) in
       let other := GameState_with_board other otherBoard in
       if negb (jsstring_eqb currentHash otherHash) then (fst acc, snd acc ++ [other])
       else if negb (Board_equals current otherBoard) then (fst acc, snd acc ++ [other])
       else (fst acc + 1, snd acc ++ [other]))
    history (n, acc)
  = (n + Z.of_nat (List.length (filter (samePositionTest currentHash current) history)),
     acc ++ map GameState_hashed history).
Proof.
  revert n acc. induction history as [|st history IH]; intros n acc.
  - simpl. rewrite app_nil_r. f_equal. lia.
  - cbn [fold_left filter map].
    assert (T : samePositionTest currentHash current st
                = jsstring_eqb currentHash (fst (Board_calculateHash (board st)))
                  && Board_equals current (snd (Board_calculateHash (board st))))
      by reflexivity.
    assert (G : GameState_hashed st
                = GameState_with_board st (snd (Board_calculateHash (board st))))
      by reflexivity.
    rewrite T, G.
    destruct (Board_calculateHash (board st)) as [oh ob]. cbn [fst snd].
    destruct (jsstring_eqb currentHash oh); cbn [negb andb].
    + destruct (Board_equals current ob); cbn [negb]; rewrite IH, <- app_assoc;
        cbn [List.length app]; f_equal; lia.
    + rewrite IH, <- app_assoc. reflexivity.
Qed.

Lemma Game_checkForThreefoldRepetition_spec (g : Game) :
  Game_checkForThreefoldRepetition g
  = (3 <=? 1 + Z.of_nat (List.length
                (filter (samePositionTest
                           (fst (Board_calculateHash (board (currentState g))))
                           (Board_hashed (board (currentState g))))
                        (stateHistory g))),
     mkGame (GameState_hashed (currentState g)) (map GameState_hashed (stateHistory g))
            (result g)).
Proof.
  unfold Game_checkForThreefoldRepetition, GameState_hashed at 1, Board_hashed at 1 2.
  destruct (Board_calculateHash (board (currentState g))) as [ch cb]. cbn [fst snd].
  rewrite threefold_loop. reflexivity.
Qed.

Lemma filter_map_length {A : Type} (f : A -> A) (P Q : A -> bool) (l : list A) :
  (forall x, P (f x) = Q x) ->
  List.length (filter P (map f l)) = List.length (filter Q l).
Proof.
  intros H. induction l as [|x l IH]; simpl; [reflexivity|].
  rewrite H. destruct (Q x); simpl; now rewrite IH.
Qed.

(** Running the check again, on the game it hands back, gives the same
    answer. *)
Lemma Game_checkForThreefoldRepetition_again (g : Game) (r : Result) :
  fst (Game_checkForThreefoldRepetition
         (Game_with_result (snd (Game_checkForThreefoldRepetition g)) r))
  = fst (Game_checkForThreefoldRepetition g).
Proof.
  rewrite !Game_checkForThreefoldRepetition_spec.
  cbn [fst snd Game_with_result currentState stateHistory GameState_hashed
       GameState_with_board board].
  rewrite Board_calculateHash_hashed, Board_hashed_idem. cbn [fst].
  do 3 f_equal. apply filter_map_length. intros st.
  unfold samePositionTest, GameState_hashed. cbn [GameState_with_board board].
  now rewrite Board_calculateHash_hashed, Board_hashed_idem.
Qed.

(** ** What a move records *)

Lemma obj_get_Some_key {V : Type} (o : JsObject V) (k : jsstring) (v : V) :
  obj_get o k = Some v -> In k (obj_keys o).
Proof.
  induction o as [|[k0 v0] o IH]; simpl; [discriminate|].
  destruct (jsstring_eqb k0 k) eqn:E.
  - apply jsstring_eqb_eq in E. now left.
  - intros H. right. now apply IH.
Qed.

Lemma clone_loop_pieces (this : Board) (ks : list jsstring) (newBoard result : Board) :
  (forall k p', obj_get (_pieces newBoard) k = Some p' ->
                exists p, obj_get (_pieces this) k = Some p /\ samePiece p' p) ->
  result
  = fold_left
      (fun newBoard location' =>
         match obj_get (_pieces this) location' with
         | None => newBoard
         | Some piece =>
             Board_with_pieces newBoard
               (obj_set (_pieces newBoard) location' (Piece_cloneToAnotherBoard piece newBoard))
               (_dirty newBoard)
         end) ks newBoard ->
  (forall k p', obj_get (_pieces result) k = Some p' ->
                exists p, obj_get (_pieces this) k = Some p /\ samePiece p' p)
  /\ (forall k, obj_get (_pieces newBoard) k <> None \/ In k ks ->
                obj_get (_pieces this) k <> None -> obj_get (_pieces result) k <> None)
  /\ enPassantSquare result = enPassantSquare newBoard.
Proof.
  revert newBoard. induction ks as [|k0 ks IH]; intros nb A R; cbn [fold_left] in R.
  - subst result. split; [exact A|]. split; [|reflexivity]. intros k [H|[]] _. exact H.
  - destruct (obj_get (_pieces this) k0) as [p0|] eqn:G0.
    + apply IH in R as (A' & B' & E').
      * split; [exact A'|]. split; [|exact E'].
        intros k H T. apply B'; [|exact T]. cbn [Board_with_pieces _pieces].
        destruct (list_eq_dec Z.eq_dec k0 k) as [<-|N].
        -- left. rewrite obj_get_set_same. discriminate.
        -- rewrite obj_get_set_other by exact N.
           destruct H as [H|[H|H]]; [now left | contradiction | now right].
      * intros k p'. cbn [Board_with_pieces _pieces].
        destruct (list_eq_dec Z.eq_dec k0 k) as [<-|N].
        -- rewrite obj_get_set_same. intros [= <-]. exists p0. split; [exact G0|].
           unfold Piece_cloneToAnotherBoard.
           destruct (Piece_instantiate_fields (type p0) (color p0) nb (location p0))
             as (T & C & L).
           now repeat split.
        -- rewrite obj_get_set_other by exact N. apply A.
    + apply IH in R as (A' & B' & E'); [|exact A].
      split; [exact A'|]. split; [|exact E'].
      intros k H T. apply B'; [|exact T].
      destruct H as [H|[H|H]]; [now left | subst; congruence | now right].
Qed.

(** A clone has the same pieces on the same squares. *)
Lemma Board_cloneBoard_pieces (b b' : Board) :
  Board_cloneBoard b = Some b' ->
  enPassantSquare b' = enPassantSquare b
  /\ forall s,
      match Board_getPiece b' s, Board_getPiece b s with
      | Some p', Some p => samePiece p' p
      | None, None => True
      | _, _ => False
      end.
Proof.
  unfold Board_cloneBoard.
  match goal with
  | |- context [fold_left ?f (obj_keys (_pieces b)) ?nb] =>
      set (cloned := fold_left f (obj_keys (_pieces b)) nb);
      destruct (clone_loop_pieces b (obj_keys (_pieces b)) nb cloned) as (A & B & E);
        [intros k p'; simpl; discriminate | reflexivity |]
  end.
  intros H.
  assert (P : _pieces b' = _pieces cloned /\ enPassantSquare b' = enPassantSquare cloned).
  { destruct (lastMove b) as [m|]; [destruct (Moves.piece m)|];
      try discriminate; injection H as <-; split; reflexivity. }
  destruct P as (P & E'). split; [rewrite E', E; reflexivity|].
  intros s. unfold Board_getPiece. rewrite P.
  destruct (obj_get (_pieces cloned) (Square_asString s)) as [p'|] eqn:G.
  - destruct (A _ _ G) as (p & -> & S). exact S.
  - destruct (obj_get (_pieces b) (Square_asString s)) as [p|] eqn:G'; [|exact I].
    apply (B (Square_asString s)); [right; eapply obj_get_Some_key; exact G'
                                   | congruence | exact G].
Qed.

(** What [afterMove] does to the move it is given. *)
Lemma Piece_afterMove_move (h : Heap) (b : Board) (this : Piece) (move : Moves.Move)
      (b' : Board) (move' : Moves.Move) (h' : Heap) :
  Piece_afterMove h b this move = Some (b', move', h') ->
  Moves.piece move' = Moves.piece move
  /\ Moves.from move' = Moves.from move
  /\ Moves.to move' = Moves.to move
  /\ Moves.extra move' = Moves.extra move
  /\ Moves.capture move'
     = Moves.capture move
       || (PieceType_eqb (type this) PAWN && ontoEnPassantSquare b (Moves.to move)).
Proof.
  unfold Piece_afterMove. destruct (type this) eqn:T; cbn [PieceType_eqb andb].
  - unfold Pawn_afterMove, ontoEnPassantSquare.
    destruct (Square_equals_maybe _ _); destruct (_ + _ =? _); intros [= _ <- _];
      cbn [Moves.with_capture Moves.piece Moves.from Moves.to Moves.extra Moves.capture];
      repeat split; try (now rewrite orb_true_r); now rewrite orb_false_r.
  - intros [= _ <- _]. repeat split. now rewrite orb_false_r.
  - intros [= _ <- _]. repeat split. now rewrite orb_false_r.
  - intros [= _ <- _]. repeat split. now rewrite orb_false_r.
  - intros [= _ <- _]. repeat split. now rewrite orb_false_r.
  - destruct (King_afterMove b this move); [|discriminate].
    intros [= _ <- _]. repeat split. now rewrite orb_false_r.
Qed.

(** The move that a committed move records: the piece that stood on
    [from], and a capture when the destination was occupied or when a
    pawn went onto the en passant square. *)
Lemma Board_makeMoveIfValid_lastMove (fuel : nat) (h : Heap) (b : Board) (from to : Square)
      (extra : option jsstring) (b' : Board) (h' : Heap) :
  Board_makeMoveIfValid fuel h b from to extra = Some (true, b', h') ->
  exists piece moved lm,
    Board_getPiece b from = Some piece
    /\ lastMove b' = Some lm
    /\ Moves.piece lm = Some moved
    /\ type moved = type piece /\ color moved = color piece /\ location moved = to
    /\ Moves.from lm = from /\ Moves.to lm = to /\ Moves.extra lm = extra
    /\ Moves.capture lm
       = negb (isNone (Board_getPiece b to))
         || (PieceType_eqb (type piece) PAWN && ontoEnPassantSquare b to).
Proof.
  unfold Board_makeMoveIfValid.
  destruct (Board_getPiece b from) as [piece|]; [|discriminate].
  destruct (Piece_isMoveValid fuel b piece to extra) as [[]|]; try discriminate.
  destruct (match Board_getPiece b to with Some d => _ | None => false end); [discriminate|].
  match goal with
  | |- match Piece_afterMove h ?b3 ?moved ?lm with _ => _ end = _ -> _ =>
      destruct (Piece_afterMove h b3 moved lm) as [[[b4 lm'] h1]|] eqn:A; [|discriminate];
      intros [= <- <-]; exists piece, moved, lm';
      apply Piece_afterMove_move in A as (P & F & T & X & C);
      destruct (Piece_recalculateValidMoves_fields
                  (Board_removePieceAt
                     match Board_getPiece b to with
                     | Some _ => Board_removePieceAt b to
                     | None => b
                     end from) (Piece_with_location piece to)) as (Ty & Co & Lo)
  end.
  cbn [Moves.piece Moves.from Moves.to Moves.extra Moves.capture] in P, F, T, X, C.
  repeat (split; [first [reflexivity | assumption]|]).
  rewrite C. unfold Piece_updateLocation. rewrite Ty. f_equal. f_equal.
  unfold ontoEnPassantSquare. destruct (Board_getPiece b to); reflexivity.
Qed.

(** ** The game: a successful move *)

Lemma Game_checkForInsufficientMaterial_pieces (g g' : Game) :
  _pieces (board (currentState g')) = _pieces (board (currentState g)) ->
  Game_checkForInsufficientMaterial g' = Game_checkForInsufficientMaterial g.
Proof.
  intros E.
  unfold Game_checkForInsufficientMaterial, Game_validateHasSufficientMaterial,
    Board_getPiecesCountByType.
  now rewrite E.
Qed.

(** What a successful [makeMove] went through. *)
Lemma Game_makeMove_ok_inv (fuel : nat) (h : Heap) (g : Game) (from to : Square)
      (extra : option jsstring) (g' : Game) (h' : Heap) :
  Game_makeMove fuel h g from to extra = Some (MOVE_OK, g', h') ->
  result g = ONGOING
  /\ exists piece newBoard0 newBoard h1 lm,
      Board_getPiece (board (currentState g)) from = Some piece
      /\ color piece = currentTurn (currentState g)
      /\ Board_cloneBoard (board (currentState g)) = Some newBoard0
      /\ Board_makeMoveIfValid fuel h newBoard0 (location piece) to extra
         = Some (true, newBoard, h1)
      /\ Board_isInCheck fuel newBoard (currentTurn (currentState g)) = Some false
      /\ lastMove newBoard = Some lm
      /\ Game_evaluateTermination fuel h1
           (mkGame (mkGameState newBoard
                                (if spec_resetsClock lm then 0
                                 else halfMoveClock (currentState g) + 1)
                                (Color_swap (currentTurn (currentState g))) false false)
                   (stateHistory g ++ [currentState g]) ONGOING)
         = Some (g', h').
Proof.
  unfold Game_makeMove.
  destruct (Result_eqb (result g) ONGOING) eqn:R; [|discriminate].
  apply Result_eqb_eq in R. rewrite R. cbn [negb].
  destruct (Board_getPiece _ from) as [piece|]; [|discriminate].
  destruct (Color_eqb (color piece) (currentTurn (currentState g))) eqn:C; [|discriminate].
  cbn [negb].
  destruct (Board_cloneBoard _) as [nb0|]; [|discriminate].
  destruct (Board_makeMoveIfValid _ _ _ _ _ _) as [[[[] nb] h1]|] eqn:M; try discriminate.
  destruct (Board_isInCheck _ _ _) as [[]|] eqn:K; try discriminate.
  destruct (lastMove nb) as [lm|] eqn:L; [|discriminate].
  destruct (if Moves.capture lm then _ else _) as [reset|] eqn:RS; [|discriminate].
  destruct (Game_evaluateTermination _ _ _) as [[g1 h2]|] eqn:T; [|discriminate].
  intros [= <- <-]. split; [reflexivity|].
  exists piece, nb0, nb, h1, lm.
  split; [reflexivity|]. split.
  { destruct (color piece), (currentTurn (currentState g)); try reflexivity; discriminate. }
  split; [reflexivity|]. split; [exact M|]. split; [exact K|]. split; [exact L|].
  rewrite <- T. do 4 f_equal. unfold spec_resetsClock.
  destruct (Moves.capture lm); [now injection RS as <-|].
  destruct (Moves.piece lm); [now injection RS as <-|discriminate].
Qed.

(** The outcome of the termination checks, in terms of the game they
    started from. *)
Lemma Game_evaluateTermination_inv (fuel : nat) (h : Heap) (g1 g' : Game) (h' : Heap) :
  result g1 = ONGOING ->
  Game_evaluateTermination fuel h g1 = Some (g', h') ->
  exists moves inCheck,
    Board_getValidMovesFor fuel h (board (currentState g1)) (currentTurn (currentState g1))
    = Some (moves, h')
    /\ (moves = [] ->
        Board_isInCheck fuel (board (currentState g1)) (currentTurn (currentState g1))
        = Some inCheck)
    /\ result g'
       = spec_termination (isEmpty moves) inCheck
           (Game_checkForInsufficientMaterial g1)
           (fst (Game_checkForThreefoldRepetition g1))
           (Game_checkForFiftyMoveRuleViolation g1)
           (currentTurn (currentState g1))
    /\ g' = Game_with_result
              (if isEmpty moves || Game_checkForInsufficientMaterial g1 then g1
               else snd (Game_checkForThreefoldRepetition g1))
              (result g').
Proof.
  intros O. unfold Game_evaluateTermination.
  destruct (Board_getValidMovesFor _ _ _ _) as [[moves h2]|]; [|discriminate].
  destruct moves as [|m moves]; cbn [List.length Nat.eqb isEmpty orb].
  - destruct (Board_isInCheck _ _ _) as [c|]; [|discriminate].
    intros E. exists [], c. unfold spec_termination. cbn [isEmpty].
    destruct c; injection E as <- <-; repeat split;
      destruct (currentTurn (currentState g1)); reflexivity.
  - intros E. exists (m :: moves), false. unfold spec_termination. cbn [isEmpty].
    destruct (Game_checkForInsufficientMaterial g1).
    + injection E as <- <-. repeat split. discriminate.
    + assert (RT : result (snd (Game_checkForThreefoldRepetition g1)) = ONGOING)
        by (rewrite Game_checkForThreefoldRepetition_spec; exact O).
      assert (F : Game_checkForFiftyMoveRuleViolation (snd (Game_checkForThreefoldRepetition g1))
                  = Game_checkForFiftyMoveRuleViolation g1)
        by (rewrite Game_checkForThreefoldRepetition_spec; reflexivity).
      destruct (Game_checkForThreefoldRepetition g1) as [[] g2]; cbn [fst snd] in *.
      * injection E as <- <-. repeat split. discriminate.
      * rewrite F in E.
        destruct (Game_checkForFiftyMoveRuleViolation g1).
        -- injection E as <- <-. repeat split. discriminate.
        -- injection E as <- <-. split; [reflexivity|]. split; [discriminate|].
           cbn [Game_with_result]. rewrite RT. split; [reflexivity|].
           destruct g2; cbn in *; now subst.
Qed.

Lemma Game_checks_with_result (g : Game) (r : Result) :
  Game_checkForInsufficientMaterial (Game_with_result g r) = Game_checkForInsufficientMaterial g
  /\ fst (Game_checkForThreefoldRepetition (Game_with_result g r))
     = fst (Game_checkForThreefoldRepetition g)
  /\ Game_checkForFiftyMoveRuleViolation (Game_with_result g r)
     = Game_checkForFiftyMoveRuleViolation g.
Proof.
  split; [reflexivity|]. split; [|reflexivity].
  now rewrite !Game_checkForThreefoldRepetition_spec.
Qed.

(** The outcome of the termination checks, in terms of the game they
    hand back. *)
Lemma Game_evaluateTermination_post (fuel : nat) (h : Heap) (g1 g' : Game) (h' : Heap) :
  result g1 = ONGOING ->
  Game_evaluateTermination fuel h g1 = Some (g', h') ->
  exists moves inCheck,
    Board_getValidMovesFor fuel h (board (currentState g')) (currentTurn (currentState g'))
    = Some (moves, h')
    /\ (moves = [] ->
        Board_isInCheck fuel (board (currentState g')) (currentTurn (currentState g'))
        = Some inCheck)
    /\ result g'
       = spec_termination (isEmpty moves) inCheck
           (Game_checkForInsufficientMaterial g')
           (fst (Game_checkForThreefoldRepetition g'))
           (Game_checkForFiftyMoveRuleViolation g')
           (currentTurn (currentState g'))
    /\ (currentState g' = currentState g1 \/ currentState g' = GameState_hashed (currentState g1))
    /\ ((isEmpty moves || Game_checkForInsufficientMaterial g') = true ->
        currentState g' = currentState g1 /\ stateHistory g' = stateHistory g1)
    /\ ((isEmpty moves || Game_checkForInsufficientMaterial g') = false ->
        currentState g' = GameState_hashed (currentState g1)
        /\ stateHistory g' = map GameState_hashed (stateHistory g1)).
Proof.
  intros O T.
  apply Game_evaluateTermination_inv in T as (moves & inCheck & V & K & R & G); [|exact O].
  exists moves, inCheck.
  destruct (isEmpty moves || Game_checkForInsufficientMaterial g1) eqn:Early.
  - (* an early check decided: the game is the new state with its result *)
    destruct (Game_checks_with_result g1 (result g')) as (I & T3 & F).
    rewrite <- G in I, T3, F. rewrite I, T3, F, Early.
    assert (C : currentState g' = currentState g1) by (rewrite G; reflexivity).
    assert (H : stateHistory g' = stateHistory g1) by (rewrite G; reflexivity).
    rewrite C. repeat (split; [first [exact V | exact K | exact R | now left]|]).
    split; [auto | discriminate].
  - (* the repetition check ran *)
    assert (C : currentState g' = GameState_hashed (currentState g1))
      by (rewrite G, Game_checkForThreefoldRepetition_spec; reflexivity).
    assert (H : stateHistory g' = map GameState_hashed (stateHistory g1))
      by (rewrite G, Game_checkForThreefoldRepetition_spec; reflexivity).
    assert (I : Game_checkForInsufficientMaterial g' = Game_checkForInsufficientMaterial g1).
    { apply Game_checkForInsufficientMaterial_pieces. rewrite C.
      cbn [GameState_hashed GameState_with_board board]. apply Board_hashed_pieces. }
    assert (T3 : fst (Game_checkForThreefoldRepetition g')
                 = fst (Game_checkForThreefoldRepetition g1)).
    { rewrite G at 1. apply Game_checkForThreefoldRepetition_again. }
    assert (F : Game_checkForFiftyMoveRuleViolation g'
                = Game_checkForFiftyMoveRuleViolation g1).
    { unfold Game_checkForFiftyMoveRuleViolation. now rewrite C. }
    rewrite I, T3, F, Early, C.
    cbn [GameState_hashed GameState_with_board board currentTurn].
    rewrite Board_getValidMovesFor_hashed, Board_isInCheck_hashed.
    repeat (split; [first [exact V | exact K | exact R | now right]|]).
    split; [discriminate | auto].
Qed.

(** The new state that a successful move installs. *)
Lemma Game_makeMove_ok_state (fuel : nat) (h : Heap) (g : Game) (from to : Square)
      (extra : option jsstring) (g' : Game) (h' : Heap) :
  Game_makeMove fuel h g from to extra = Some (MOVE_OK, g', h') ->
  exists lm,
    lastMove (board (currentState g')) = Some lm
    /\ halfMoveClock (currentState g')
       = (if spec_resetsClock lm then 0 else halfMoveClock (currentState g) + 1)
    /\ currentTurn (currentState g') = Color_swap (currentTurn (currentState g))
    /\ whiteOffersDraw (currentState g') = false
    /\ blackOffersDraw (currentState g') = false.
Proof.
  intros M.
  apply Game_makeMove_ok_inv in M
      as (O & piece & nb0 & nb & h1 & lm & _ & _ & _ & _ & _ & L & T).
  apply Game_evaluateTermination_post in T
      as (moves & inCheck & _ & _ & _ & [C|C] & _); [| |reflexivity];
    exists lm; rewrite C.
  - repeat split. exact L.
  - cbn [currentState GameState_hashed GameState_with_board board halfMoveClock currentTurn
         whiteOffersDraw blackOffersDraw].
    repeat split. rewrite (proj2 (proj2 (proj2 (Board_hashed_pieces nb)))). exact L.
Qed.

(** The move that a successful [makeMove] records, in terms of the board
    before the move.  [makeMove] looks the piece up on [from] and moves
    the piece that stands on that piece's [location]; in a game these
    are the same piece. *)
Lemma Game_makeMove_lastMove (fuel : nat) (h : Heap) (g : Game) (from to : Square)
      (extra : option jsstring) (g' : Game) (h' : Heap) :
  Game_makeMove fuel h g from to extra = Some (MOVE_OK, g', h') ->
  exists piece mover lm,
    Board_getPiece (board (currentState g)) from = Some piece
    /\ Board_getPiece (board (currentState g)) (location piece) = Some mover
    /\ lastMove (board (currentState g')) = Some lm
    /\ Moves.to lm = to
    /\ spec_resetsClock lm = spec_captureOrPawnMove (board (currentState g)) mover to.
Proof.
  intros M.
  apply Game_makeMove_ok_inv in M
      as (O & piece & nb0 & nb & h1 & lm & P & _ & C & V & _ & L & T).
  apply Board_cloneBoard_pieces in C as (EP & Same).
  apply Board_makeMoveIfValid_lastMove in V
      as (piece1 & moved & lm1 & P1 & L1 & Pm & Ty & _ & _ & _ & To & _ & Cap).
  rewrite L in L1. injection L1 as <-.
  pose proof (Same (location piece)) as S1. rewrite P1 in S1.
  destruct (Board_getPiece (board (currentState g)) (location piece)) as [mover|] eqn:Pm0;
    [|contradiction].
  destruct S1 as (Ty1 & _ & _).
  exists piece, mover, lm.
  split; [exact P|]. split; [exact Pm0|]. split.
  { apply Game_evaluateTermination_post in T
        as (_ & _ & _ & _ & _ & [Cs|Cs] & _); [| |reflexivity]; rewrite Cs.
    - exact L.
    - cbn [GameState_hashed GameState_with_board board currentState].
      rewrite (proj2 (proj2 (proj2 (Board_hashed_pieces nb)))). exact L. }
  split; [exact To|].
  unfold spec_resetsClock, spec_captureOrPawnMove. rewrite Pm, Cap, Ty, Ty1.
  pose proof (Same to) as S2.
  assert (N : isNone (Board_getPiece nb0 to)
              = isNone (Board_getPiece (board (currentState g)) to)).
  { destruct (Board_getPiece nb0 to), (Board_getPiece (board (currentState g)) to);
      try contradiction; reflexivity. }
  rewrite N. clear N S2.
  destruct (isNone (Board_getPiece (board (currentState g)) to)),
    (PieceType_eqb (type mover) PAWN), (ontoEnPassantSquare nb0 to); reflexivity.
Qed.

Lemma Game_makeMove_termination_order_aux
      (fuel : nat) (h : Heap) (g : Game) (from to : Square) (extra : option jsstring)
      (g' : Game) (h' : Heap) :
  Game_makeMove fuel h g from to extra = Some (MOVE_OK, g', h') ->
  exists (moves : list (option Moves.Move)) inCheck,
    result g'
    = spec_termination (isEmpty moves) inCheck
        (Game_checkForInsufficientMaterial g')
        (fst (Game_checkForThreefoldRepetition g'))
        (Game_checkForFiftyMoveRuleViolation g')
        (currentTurn (currentState g')).
Proof.
  intros M.
  apply Game_makeMove_ok_inv in M
      as (O & piece & nb0 & nb & h1 & lm & _ & _ & _ & _ & _ & L & T).
  apply Game_evaluateTermination_post in T
      as (moves & inCheck & _ & _ & R & _); [|reflexivity].
  now exists moves, inCheck.
Qed.

(** C4: after a successful [makeMove] the result is decided by the
    first of these that holds, in this order: (1) the side now to move
    has no legal move: mate if it is in check, stalemate otherwise; (2)
    insufficient material; (3) threefold repetition; (4) the fifty-move
    rule; otherwise the game goes on.  When (1) or (2) decides, the
    repetition check is not run: no hash cache of the history is
    filled. *)
Theorem Game_makeMove_termination_order
        (fuel : nat) (h : Heap) (g : Game) (from to : Square) (extra : option jsstring)
        (g' : Game) (h' : Heap) :
  Game_makeMove fuel h g from to extra = Some (MOVE_OK, g', h') ->
  exists moves inCheck h0,
    Board_getValidMovesFor fuel h0 (board (currentState g')) (currentTurn (currentState g'))
    = Some (moves, h')
    /\ (moves = [] ->
        Board_isInCheck fuel (board (currentState g')) (currentTurn (currentState g'))
        = Some inCheck)
    /\ result g'
       = spec_termination (isEmpty moves) inCheck
           (Game_checkForInsufficientMaterial g')
           (fst (Game_checkForThreefoldRepetition g'))
           (Game_checkForFiftyMoveRuleViolation g')
           (currentTurn (currentState g'))
    /\ ((isEmpty moves || Game_checkForInsufficientMaterial g') = true ->
        stateHistory g' = stateHistory g ++ [currentState g]).
Proof.
  intros M.
  apply Game_makeMove_ok_inv in M
      as (O & piece & nb0 & nb & h1 & lm & _ & _ & _ & _ & _ & L & T).
  apply Game_evaluateTermination_post in T
      as (moves & inCheck & V & K & R & _ & E & _); [|reflexivity].
  exists moves, inCheck, h1.
  repeat (split; [first [exact V | exact K | exact R]|]).
  intros Early. now apply E.
Qed.

(** C4 at work: the first move of a game. *)
Lemma Game_makeMove_termination_order_E2E4 :
  exists moves inCheck h0,
    Board_getValidMovesFor 1 h0 (board (currentState (gameAfter Game_new "E2" "E4")))
      (currentTurn (currentState (gameAfter Game_new "E2" "E4")))
    = Some (moves, heapAfter Game_new "E2" "E4")
    /\ (moves = [] ->
        Board_isInCheck 1 (board (currentState (gameAfter Game_new "E2" "E4")))
          (currentTurn (currentState (gameAfter Game_new "E2" "E4")))
        = Some inCheck)
    /\ result (gameAfter Game_new "E2" "E4")
       = spec_termination (isEmpty moves) inCheck
           (Game_checkForInsufficientMaterial (gameAfter Game_new "E2" "E4"))
           (fst (Game_checkForThreefoldRepetition (gameAfter Game_new "E2" "E4")))
           (Game_checkForFiftyMoveRuleViolation (gameAfter Game_new "E2" "E4"))
           (currentTurn (currentState (gameAfter Game_new "E2" "E4")))
    /\ ((isEmpty moves || Game_checkForInsufficientMaterial (gameAfter Game_new "E2" "E4"))
        = true ->
        stateHistory (gameAfter Game_new "E2" "E4")
        = stateHistory Game_new ++ [currentState Game_new]).
Proof.
  apply (Game_makeMove_termination_order 1 1%positive Game_new (sq "E2") (sq "E4") None).
  vm_compute. reflexivity.
Defined.

(** ** The half-move clock *)

Lemma quietRun_clock (n : nat) (g g' : Game) :
  quietRun n g g' ->
  halfMoveClock (currentState g') = halfMoveClock (currentState g) + Z.of_nat n.
Proof.
  induction 1 as [g|n g g1 g2 fuel h from to extra h' lm Q IH M L Quiet].
  - simpl. lia.
  - destruct (Game_makeMove_ok_state _ _ _ _ _ _ _ _ M) as (lm' & L' & C & _).
    rewrite L in L'. injection L' as <-. rewrite Quiet in C. rewrite C, IH. lia.
Qed.

(** C5: the half-move clock is 0 after [reset]; a successful move sets
    it to 0 when it is a capture or a pawn move and adds 1 otherwise, so
    that [n] such quiet moves in a row add [n]; and once it has reached
    50 the result becomes [FIFTY_MOVES] unless one of the earlier checks
    (mate, stalemate, insufficient material, threefold repetition) has
    set it, while below 50 it never does. *)
Theorem Game_halfMoveClock_rule :
  (forall g, halfMoveClock (currentState (Game_reset g)) = 0)
  /\ (forall fuel h g from to extra g' h',
         Game_makeMove fuel h g from to extra = Some (MOVE_OK, g', h') ->
         exists piece mover lm,
           Board_getPiece (board (currentState g)) from = Some piece
           /\ Board_getPiece (board (currentState g)) (location piece) = Some mover
           /\ lastMove (board (currentState g')) = Some lm
           /\ spec_resetsClock lm = spec_captureOrPawnMove (board (currentState g)) mover to
           /\ halfMoveClock (currentState g')
              = (if spec_captureOrPawnMove (board (currentState g)) mover to then 0
                 else halfMoveClock (currentState g) + 1)
           /\ (50 <= halfMoveClock (currentState g') ->
               spec_earlierTermination (result g') = false ->
               result g' = FIFTY_MOVES)
           /\ (result g' = FIFTY_MOVES -> 50 <= halfMoveClock (currentState g')))
  /\ (forall n g g',
         quietRun n g g' ->
         halfMoveClock (currentState g') = halfMoveClock (currentState g) + Z.of_nat n).
Proof.
  split; [reflexivity|]. split; [|exact quietRun_clock].
  intros fuel h g from to extra g' h' M.
  destruct (Game_makeMove_ok_state _ _ _ _ _ _ _ _ M) as (lm & L & C & _).
  destruct (Game_makeMove_lastMove _ _ _ _ _ _ _ _ M)
    as (piece & mover & lm' & P & Pm & L' & _ & Rs).
  rewrite L in L'. injection L' as <-.
  destruct (Game_makeMove_termination_order_aux _ _ _ _ _ _ _ _ M)
    as (moves & inCheck & R).
  exists piece, mover, lm.
  split; [exact P|]. split; [exact Pm|]. split; [exact L|]. split; [exact Rs|].
  split; [now rewrite <- Rs|].
  unfold Game_checkForFiftyMoveRuleViolation, spec_termination in R.
  split.
  - intros F E. apply Z.leb_le in F. rewrite F in R. rewrite R in E |- *.
    destruct (isEmpty moves), inCheck, (Game_checkForInsufficientMaterial g'),
      (fst (Game_checkForThreefoldRepetition g')), (currentTurn (currentState g'));
      simpl in E; try discriminate; reflexivity.
  - intros F. rewrite R in F. apply Z.leb_le.
    destruct (50 <=? halfMoveClock (currentState g')); [reflexivity|].
    destruct (isEmpty moves), inCheck, (Game_checkForInsufficientMaterial g'),
      (fst (Game_checkForThreefoldRepetition g')), (currentTurn (currentState g'));
      discriminate.
Qed.

(** C5 at work: with 49 on the clock, the quiet rook move A1-B1 draws
    the game. *)
Lemma Game_halfMoveClock_fiftieth :
  spec_captureOrPawnMove (board (currentState gameAtClock49)) (pieceAt rooksAndKings "A1")
                         (sq "B1") = false
  /\ halfMoveClock (currentState (gameAfter gameAtClock49 "A1" "B1")) = 50
  /\ result (gameAfter gameAtClock49 "A1" "B1") = FIFTY_MOVES.
Proof.
  destruct (proj1 (proj2 Game_halfMoveClock_rule) 1%nat 1%positive gameAtClock49
                  (sq "A1") (sq "B1") None (gameAfter gameAtClock49 "A1" "B1")
                  (heapAfter gameAtClock49 "A1" "B1"))
    as (piece & mover & lm & P & Pm & _ & _ & C & F & _).
  - vm_compute. reflexivity.
  - assert (E : mover = pieceAt rooksAndKings "A1").
    { vm_compute in P. injection P as <-. vm_compute in Pm. injection Pm as <-.
      vm_compute. reflexivity. }
    subst mover.
    assert (Q : spec_captureOrPawnMove (board (currentState gameAtClock49))
                                       (pieceAt rooksAndKings "A1") (sq "B1") = false)
      by (vm_compute; reflexivity).
    rewrite Q in C. split; [exact Q|]. split; [exact C|].
    apply F; [rewrite C; vm_compute; discriminate | vm_compute; reflexivity].
Defined.

(** ** Taking a move back *)

Lemma pop_app {A : Type} (l : list A) (x : A) : pop (l ++ [x]) = Some (x, l).
Proof. induction l as [|y l IH]; simpl; [reflexivity | now rewrite IH]. Qed.

Lemma SquareObj_differ_refl (a : option SquareObj) : SquareObj_differ a a = false.
Proof. destruct a as [x|]; simpl; [now rewrite Pos.eqb_refl | reflexivity]. Qed.

Lemma samePieces_refl (b : Board) : samePieces b b.
Proof.
  repeat split. intros k. destruct (obj_get (_pieces b) k); [split; reflexivity | exact I].
Qed.

Lemma samePieces_hashed (b : Board) : samePieces (Board_hashed b) b.
Proof.
  destruct (Board_hashed_pieces b) as (P & R & E & _).
  unfold samePieces. rewrite P. repeat split; try assumption.
  intros k. destruct (obj_get (_pieces b) k); [split; reflexivity | exact I].
Qed.

Lemma samePieces_recalculate (ks : list jsstring) (b2 b1 : Board) :
  samePieces b2 b1 ->
  samePieces
    (fold_left
       (fun b location' =>
          match obj_get (_pieces b) location' with
          | None => b
          | Some piece =>
              Board_with_pieces b
                (obj_set (_pieces b) location' (Piece_recalculateValidMoves b piece))
                (_dirty b)
          end) ks b2)
    b1.
Proof.
  revert b2. induction ks as [|k ks IH]; intros b2 S; [exact S|].
  cbn [fold_left]. apply IH.
  destruct (obj_get (_pieces b2) k) as [p|] eqn:G; [|exact S].
  destruct S as (E & R & L). repeat split; try assumption.
  intros k'. cbn [Board_with_pieces _pieces].
  destruct (list_eq_dec Z.eq_dec k k') as [<-|N].
  - rewrite obj_get_set_same. specialize (L k). rewrite G in L.
    destruct (obj_get (_pieces b1) k) as [p1|]; [|contradiction].
    destruct (Piece_recalculateValidMoves_fields b2 p) as (T & C & _).
    rewrite T, C. exact L.
  - rewrite obj_get_set_other by exact N. apply L.
Qed.

Lemma Board_equals_samePieces (b2 b1 : Board) :
  samePieces b2 b1 -> Board_equals b2 b1 = true.
Proof.
  intros (E & R & L). apply Board_equals_true_iff.
  rewrite E, R, SquareObj_differ_refl. split; [reflexivity|]. split; [reflexivity|].
  intros k _. specialize (L k).
  destruct (obj_get (_pieces b2) k), (obj_get (_pieces b1) k); try contradiction; auto.
Qed.

(** C7, as stated, fails on a move that ends the game: after Qh4 mate
    the undo is refused, the board stays the mated one and the turn
    stays with White, who did not make the move. *)
Lemma Game_takebackMove_refused_after_mate :
  Game_makeMove 1 1%positive beforeFoolsMate (sq "D8") (sq "H4") None
  = Some (MOVE_OK, foolsMate, heapAfter beforeFoolsMate "D8" "H4")
  /\ result foolsMate = WHITE_MATED
  /\ Game_takebackMove foolsMate = (ReturnFalse, foolsMate)
  /\ Board_equals (board (currentState (snd (Game_takebackMove foolsMate))))
                  (board (currentState beforeFoolsMate)) = false
  /\ currentTurn (currentState beforeFoolsMate) = BLACK
  /\ currentTurn (currentState (snd (Game_takebackMove foolsMate))) = WHITE.
Proof. by_evaluation. Qed.

(** ** Castling *)

(** The game refuses a move after which the mover's king is attacked:
    this, and not the validation of the king's move, is what keeps a
    king from castling into check. *)
Lemma Game_makeMove_in_check (fuel : nat) (h : Heap) (g : Game) (from to : Square)
      (extra : option jsstring) (g' : Game) (h' : Heap) :
  Game_makeMove fuel h g from to extra = Some (IN_CHECK_AFTER_TURN, g', h') <->
  result g = ONGOING
  /\ g' = g
  /\ exists piece newBoard0 newBoard,
      Board_getPiece (board (currentState g)) from = Some piece
      /\ color piece = currentTurn (currentState g)
      /\ Board_cloneBoard (board (currentState g)) = Some newBoard0
      /\ Board_makeMoveIfValid fuel h newBoard0 (location piece) to extra
         = Some (true, newBoard, h')
      /\ Board_isInCheck fuel newBoard (currentTurn (currentState g)) = Some true.
Proof.
  unfold Game_makeMove. split.
  - destruct (Result_eqb (result g) ONGOING) eqn:R; [|discriminate].
    apply Result_eqb_eq in R. cbn [negb].
    destruct (Board_getPiece _ from) as [piece|]; [|discriminate].
    destruct (Color_eqb (color piece) (currentTurn (currentState g))) eqn:C; [|discriminate].
    cbn [negb].
    destruct (Board_cloneBoard _) as [nb0|]; [|discriminate].
    destruct (Board_makeMoveIfValid _ _ _ _ _ _) as [[[[] nb] h1]|] eqn:M; try discriminate.
    destruct (Board_isInCheck _ _ _) as [[]|] eqn:K.
    + intros [= <- <-]. split; [exact R|]. split; [reflexivity|].
      exists piece, nb0, nb. apply Color_eqb_eq in C. auto.
    + destruct (lastMove nb) as [lm|]; [|discriminate].
      destruct (if Moves.capture lm then _ else _) as [reset|]; [|discriminate].
      destruct (Game_evaluateTermination _ _ _) as [[g1 h2]|]; discriminate.
    + discriminate.
  - intros (R & -> & piece & nb0 & nb & P & C & Cl & M & K).
    rewrite R, P, C, Cl, M, K. cbn [Result_eqb negb].
    destruct (currentTurn (currentState g)); reflexivity.
Qed.


Lemma King_validateCanCastle_inv
      (attacked : Square -> option Color -> option bool) (b : Board) (this : Piece)
      (rook : option Piece) :
  King_validateCanCastle attacked b this rook = Some true ->
  Square_asString (location this) = Square_asString (spec_homeSquare (color this))
  /\ exists r,
      rook = Some r /\ color r = color this /\ type r = ROOK
      /\ Board_isInCheck_with attacked b (color this) = Some false
      /\ Board_isPathClear b (Square_pathTo (location this) (location r)) = true.
Proof.
  unfold King_validateCanCastle.
  destruct (_ || _) eqn:Home; [discriminate|].
  destruct rook as [r|]; [|discriminate].
  destruct (negb (Color_eqb (color r) (color this)) || negb (PieceType_eqb (type r) ROOK))
    eqn:R; [discriminate|].
  destruct (Board_isInCheck_with attacked b (color this)) as [[]|]; try discriminate.
  intros [= P]. split.
  - apply orb_false_iff in Home as [W B].
    destruct (color this); cbn [Color_eqb andb] in W, B.
    + apply negb_false_iff, jsstring_eqb_eq in W. exact W.
    + apply negb_false_iff, jsstring_eqb_eq in B. exact B.
  - exists r. apply orb_false_iff in R as [C T].
    apply negb_false_iff in C, T. apply Color_eqb_eq in C. apply PieceType_eqb_eq in T.
    auto.
Qed.

Lemma King_isMoveValid_castle_inv
      (attacked : Square -> option Color -> option bool) (b : Board) (this : Piece)
      (to : Square) (kingside : bool) :
  fileNumber to = fileNumber (location this) + (if kingside then 2 else -2) ->
  King_isMoveValid attacked b this to = Some true ->
  by_color ((if kingside then short else long) (castlingRights b)) (color this) = true
  /\ attacked (Square_newLetter (if kingside then "F" else "D") (rankNumber (location this)))
              (Some (Color_swap (color this))) = Some false
  /\ King_validateCanCastle attacked b this
       (Board_getPiece b (Square_newLetter (if kingside then "H" else "A")
                                           (rankNumber (location this)))) = Some true.
Proof.
  intros F. unfold King_isMoveValid.
  destruct (negb _); [discriminate|].
  destruct kingside.
  - replace (fileNumber (location this) =? fileNumber to - 2) with true
      by (symmetry; apply Z.eqb_eq; lia).
    unfold King_canCastleShort.
    destruct (by_color _ _); [|discriminate]. cbn [negb].
    destruct (attacked _ _) as [[]|]; try discriminate. auto.
  - replace (fileNumber (location this) =? fileNumber to - 2) with false
      by (symmetry; apply Z.eqb_neq; lia).
    replace (fileNumber (location this) =? fileNumber to + 2) with true
      by (symmetry; apply Z.eqb_eq; lia).
    unfold King_canCastleLong.
    destruct (by_color _ _); [|discriminate]. cbn [negb].
    destruct (attacked _ _) as [[]|]; try discriminate. auto.
Qed.

(** A valid square is determined by its text. *)
Lemma Square_asString_inj (a b : Square) :
  Square_isValid a = true -> Square_isValid b = true ->
  Square_asString a = Square_asString b -> a = b.
Proof.
  intros Va Vb. rewrite !Square_asString_valid by assumption.
  intros [= F R]. destruct a, b; simpl in *. f_equal; lia.
Qed.



(** ** Castling rights are only ever revoked *)

Lemma rights_le_refl (r : CastlingRights) : rights_le r r.
Proof. intros c. auto. Qed.

Lemma rights_le_trans (r1 r2 r3 : CastlingRights) :
  rights_le r1 r2 -> rights_le r2 r3 -> rights_le r1 r3.
Proof. intros A B c. destruct (A c), (B c). auto. Qed.

Lemma rights_le_revokeShort (b : Board) (c : Color) :
  rights_le (castlingRights (Board_revokeShort b c)) (castlingRights b).
Proof.
  intros c'. destruct (castlingRights b) as [l [sw sb]] eqn:E.
  unfold Board_revokeShort. rewrite E.
  destruct c, c'; simpl; split; intros H; auto; discriminate.
Qed.

Lemma rights_le_revokeLong (b : Board) (c : Color) :
  rights_le (castlingRights (Board_revokeLong b c)) (castlingRights b).
Proof.
  intros c'. destruct (castlingRights b) as [[lw lb] s] eqn:E.
  unfold Board_revokeLong. rewrite E.
  destruct c, c'; simpl; split; intros H; auto; discriminate.
Qed.

Lemma revokeShort_revoked (b : Board) (c : Color) :
  by_color (short (castlingRights (Board_revokeShort b c))) c = false.
Proof. unfold Board_revokeShort. destruct c; reflexivity. Qed.

Lemma revokeLong_revoked (b : Board) (c : Color) :
  by_color (long (castlingRights (Board_revokeLong b c))) c = false.
Proof. unfold Board_revokeLong. destruct c; reflexivity. Qed.

Lemma recalculate_loop_rights (ks : list jsstring) (b : Board) :
  castlingRights
    (fold_left
       (fun b location' =>
          match obj_get (_pieces b) location' with
          | None => b
          | Some piece =>
              Board_with_pieces b
                (obj_set (_pieces b) location' (Piece_recalculateValidMoves b piece))
                (_dirty b)
          end) ks b)
  = castlingRights b.
Proof.
  revert b. induction ks as [|k ks IH]; intros b; [reflexivity|].
  cbn [fold_left]. rewrite IH. now destruct (obj_get (_pieces b) k).
Qed.

Lemma Board_recalculateAllPiecesMoves_rights (b : Board) :
  castlingRights (Board_recalculateAllPiecesMoves b) = castlingRights b.
Proof. apply recalculate_loop_rights. Qed.



Lemma Pawn_afterMove_rights (h : Heap) (b : Board) (this : Piece) (move : Moves.Move) :
  castlingRights (fst (fst (Pawn_afterMove h b this move))) = castlingRights b.
Proof.
  unfold Pawn_afterMove.
  destruct (Square_equals_maybe _ _); destruct (_ + _ =? _); destruct (_ || _); reflexivity.
Qed.

(** What [afterMove] does to the rights. *)
Lemma Piece_afterMove_rights (h : Heap) (b : Board) (this : Piece) (move : Moves.Move)
      (b' : Board) (move' : Moves.Move) (h' : Heap) :
  Piece_afterMove h b this move = Some (b', move', h') ->
  rights_le (castlingRights b') (castlingRights b)
  /\ (type this = KING ->
      by_color (short (castlingRights b')) (color this) = false
      /\ by_color (long (castlingRights b')) (color this) = false)
  /\ (type this = ROOK -> fileNumber (Moves.from move) = 8 ->
      by_color (short (castlingRights b')) (color this) = false)
  /\ (type this = ROOK -> fileNumber (Moves.from move) = 1 ->
      by_color (long (castlingRights b')) (color this) = false).
Proof.
  unfold Piece_afterMove. destruct (type this) eqn:T.
  - (* pawn *)
    intros [= E]. pose proof (Pawn_afterMove_rights h b this move) as R.
    rewrite E in R. cbn [fst] in R. rewrite R.
    split; [apply rights_le_refl|]. repeat split; discriminate.
  - (* rook *)
    intros [= <- _ _]. unfold Rook_afterMove.
    destruct (Z.eqb_spec (fileNumber (Moves.from move)) 8) as [F8|F8];
      destruct (Z.eqb_spec (fileNumber (Moves.from move)) 1) as [F1|F1].
    + exfalso. lia.
    + split; [exact (rights_le_revokeShort (Piece_afterMove_base b) (color this))|].
      split; [discriminate|]. split; [|intros; lia].
      intros _ _. apply revokeShort_revoked.
    + split; [exact (rights_le_revokeLong (Piece_afterMove_base b) (color this))|].
      split; [discriminate|]. split; [intros; lia|].
      intros _ _. apply revokeLong_revoked.
    + split; [exact (rights_le_refl (castlingRights b))|].
      split; [discriminate|]. split; intros; lia.
  - intros [= <- _ _]. split; [exact (rights_le_refl (castlingRights b))|].
    repeat split; discriminate.
  - intros [= <- _ _]. split; [exact (rights_le_refl (castlingRights b))|].
    repeat split; discriminate.
  - intros [= <- _ _]. split; [exact (rights_le_refl (castlingRights b))|].
    repeat split; discriminate.
  - (* king *)
    destruct (King_afterMove b this move) as [b1|] eqn:K; [|discriminate].
    intros [= <- _ _]. unfold King_afterMove in K.
    match type of K with
    | match ?m with Some _ => _ | None => _ end = _ => destruct m as [b2|] eqn:Moved
    end; [|discriminate].
    injection K as <-.
    assert (R2 : castlingRights b2 = castlingRights b).
    { destruct (_ =? _) in Moved;
        [|destruct (_ =? _) in Moved];
        try (destruct (Board_getPiece _ _) in Moved; [|discriminate]);
        injection Moved as <-; reflexivity. }
    split.
    + eapply rights_le_trans; [apply rights_le_revokeShort|].
      eapply rights_le_trans; [apply rights_le_revokeLong|].
      rewrite R2. apply rights_le_refl.
    + split; [|split; discriminate].
      intros _. split; [apply revokeShort_revoked|].
      unfold Board_revokeShort, Board_revokeLong. destruct (color this); reflexivity.
Qed.

(** What a committed move went through. *)
Lemma Board_makeMoveIfValid_ok_inv (fuel : nat) (h : Heap) (b : Board) (from to : Square)
      (extra : option jsstring) (b' : Board) (h' : Heap) :
  Board_makeMoveIfValid fuel h b from to extra = Some (true, b', h') ->
  exists piece b3 moved lm b4 lm',
    Board_getPiece b from = Some piece
    /\ Piece_isMoveValid fuel b piece to extra = Some true
    /\ castlingRights b3 = castlingRights b
    /\ type moved = type piece /\ color moved = color piece /\ location moved = to
    /\ Moves.from lm = from
    /\ Piece_afterMove h b3 moved lm = Some (b4, lm', h')
    /\ b' = Board_with_lastMove (Board_recalculateAllPiecesMoves b4) (Some lm') [to; from].
Proof.
  unfold Board_makeMoveIfValid.
  destruct (Board_getPiece b from) as [piece|]; [|discriminate].
  destruct (Piece_isMoveValid fuel b piece to extra) as [[]|] eqn:V; try discriminate.
  destruct (match Board_getPiece b to with Some d => _ | None => false end); [discriminate|].
  match goal with
  | |- match Piece_afterMove h ?b3 ?moved ?lm with _ => _ end = _ -> _ =>
      destruct (Piece_afterMove h b3 moved lm) as [[[b4 lm'] h1]|] eqn:A; [|discriminate];
      intros [= <- <-]; exists piece, b3, moved, lm, b4, lm'
  end.
  destruct (Piece_recalculateValidMoves_fields
              (Board_removePieceAt
                 match Board_getPiece b to with
                 | Some _ => Board_removePieceAt b to
                 | None => b
                 end from) (Piece_with_location piece to)) as (T & C & L).
  repeat split; try assumption; try reflexivity.
  destruct (Board_getPiece b to); reflexivity.
Qed.

Lemma Board_makeMoveIfValid_rights (fuel : nat) (h : Heap) (b : Board) (from to : Square)
      (extra : option jsstring) (b' : Board) (h' : Heap) :
  Board_makeMoveIfValid fuel h b from to extra = Some (true, b', h') ->
  rights_le (castlingRights b') (castlingRights b)
  /\ forall mover,
      Board_getPiece b from = Some mover ->
      (type mover = KING ->
       by_color (short (castlingRights b')) (color mover) = false
       /\ by_color (long (castlingRights b')) (color mover) = false)
      /\ (type mover = ROOK -> fileNumber from = 8 ->
          by_color (short (castlingRights b')) (color mover) = false)
      /\ (type mover = ROOK -> fileNumber from = 1 ->
          by_color (long (castlingRights b')) (color mover) = false).
Proof.
  intros M.
  apply Board_makeMoveIfValid_ok_inv in M
      as (piece & b3 & moved & lm & b4 & lm' & P & _ & R3 & T & C & _ & F & A & ->).
  apply Piece_afterMove_rights in A as (Le & K & RS & RL).
  change (castlingRights (Board_with_lastMove (Board_recalculateAllPiecesMoves b4)
                                              (Some lm') [to; from]))
    with (castlingRights (Board_recalculateAllPiecesMoves b4)).
  rewrite Board_recalculateAllPiecesMoves_rights, <- R3.
  split; [exact Le|].
  intros mover Pm. rewrite P in Pm. injection Pm as <-.
  rewrite T, C, F in *. auto.
Qed.


(** ** Enough fuel *)

Lemma anyM_total {A : Type} (f : A -> option bool) (l : list A) :
  (forall x, In x l -> f x <> None) -> anyM f l <> None.
Proof.
  induction l as [|x l IH]; intros H; simpl; [discriminate|].
  destruct (f x) as [[]|] eqn:E.
  - discriminate.
  - apply IH. intros y Hy. apply H. now right.
  - exfalso. apply (H x); [now left | exact E].
Qed.

Lemma Board_castlingSane_king (b : Board) (k : jsstring) (p : Piece) :
  Board_castlingSane b = true ->
  obj_get (_pieces b) k = Some p ->
  In k (obj_keys (_pieces b)) ->
  type p = KING ->
  (by_color (short (castlingRights b)) (color p) = true
   \/ by_color (long (castlingRights b)) (color p) = true ->
   rankNumber (location p) = rankNumber (spec_homeSquare (color p)))
  /\ (forall m, In m (validMoves p) ->
                fileNumber (location p) = fileNumber m - 2
                \/ fileNumber (location p) = fileNumber m + 2 ->
                rankNumber m = rankNumber (location p)).
Proof.
  unfold Board_castlingSane. rewrite forallb_forall. intros S G I T.
  specialize (S k I). rewrite G, T in S. cbn [PieceType_eqb negb orb] in S.
  unfold King_castlingSane in S. apply andb_true_iff in S as [R C]. split.
  - intros Right. apply orb_true_iff in R as [R|R]; [|now apply Z.eqb_eq in R].
    apply negb_true_iff, orb_false_iff in R as [R1 R2].
    destruct Right; congruence.
  - intros m Hm D. rewrite forallb_forall in C. specialize (C m Hm).
    apply orb_true_iff in C as [C|C]; [|now apply Z.eqb_eq in C].
    apply negb_true_iff, orb_false_iff in C as [C1 C2].
    apply Z.eqb_neq in C1, C2. destruct D; contradiction.
Qed.

(** No nested castling test: a square on the home rank of one color is
    not a castling candidate of a king of the other color. *)
Lemma Board_castlingSane_attacked0 (b : Board) (c : Color) (s : Square) :
  Board_castlingSane b = true ->
  rankNumber s = rankNumber (spec_homeSquare c) ->
  Board_isAttacked 0 b s (Some (Color_swap c)) <> None.
Proof.
  intros S R. unfold Board_isAttacked, Board_isAttacked_with.
  apply anyM_total. intros k I.
  destruct (obj_get (_pieces b) k) as [q|] eqn:G; [|now apply obj_get_key in I].
  destruct (negb (Color_eqb (Color_swap c) (color q))) eqn:F; [discriminate|].
  apply negb_false_iff, Color_eqb_eq in F.
  apply anyM_total. intros m Hm.
  destruct (negb (Square_equals m s)) eqn:E; [discriminate|].
  apply negb_false_iff, Square_equals_eq in E. subst m.
  cbn [Piece_isMoveValid]. destruct (type q) eqn:T; try discriminate.
  destruct (Board_castlingSane_king b k q S G I T) as (Home & Cand).
  assert (Far : rankNumber (spec_homeSquare (color q)) <> rankNumber s).
  { rewrite R, <- F. destruct c; vm_compute; discriminate. }
  unfold King_isMoveValid.
  destruct (negb _); [discriminate|].
  destruct (Z.eqb_spec (fileNumber (location q)) (fileNumber s - 2)) as [D|_].
  - unfold King_canCastleShort.
    destruct (by_color (short (castlingRights b)) (color q)) eqn:Rt; [|discriminate].
    exfalso. apply Far. rewrite <- Home by now left. symmetry. apply Cand; auto.
  - destruct (Z.eqb_spec (fileNumber (location q)) (fileNumber s + 2)) as [D|_];
      [|discriminate].
    unfold King_canCastleLong.
    destruct (by_color (long (castlingRights b)) (color q)) eqn:Rt; [|discriminate].
    exfalso. apply Far. rewrite <- Home by now right. symmetry. apply Cand; auto.
Qed.

Lemma Board_castlingSane_validate (b : Board) (p : Piece) (rook : option Piece) :
  Board_castlingSane b = true ->
  by_color (short (castlingRights b)) (color p) = true
  \/ by_color (long (castlingRights b)) (color p) = true ->
  King_validateCanCastle (Board_isAttacked 0 b) b p rook <> None.
Proof.
  intros S Right. unfold King_validateCanCastle.
  destruct (_ || _); [discriminate|].
  destruct rook as [r|]; [|discriminate].
  destruct (negb _ || negb _); [discriminate|].
  assert (C : Board_isInCheck_with (Board_isAttacked 0 b) b (color p) <> None).
  { unfold Board_isInCheck_with. apply anyM_total. intros k' I.
    destruct (obj_get (_pieces b) k') as [q|] eqn:G; [|now apply obj_get_key in I].
    destruct (negb (PieceType_eqb (type q) KING) || negb (Color_eqb (color q) (color p)))
      eqn:F; [discriminate|].
    apply orb_false_iff in F as [T Cq].
    apply negb_false_iff in T, Cq. apply PieceType_eqb_eq in T. apply Color_eqb_eq in Cq.
    apply Board_castlingSane_attacked0; [exact S|].
    destruct (Board_castlingSane_king b k' q S G I T) as (Home & _).
    rewrite <- Cq. apply Home. now rewrite Cq. }
  destruct (Board_isInCheck_with _ _ _) as [[]|]; [discriminate | discriminate | contradiction].
Qed.

(** On such a board one unit of fuel is enough: the validation of a
    move of a piece of the board, the attack test and the check test
    all return. *)
Theorem Board_castlingSane_total (b : Board) :
  Board_castlingSane b = true ->
  (forall k p to extra,
      obj_get (_pieces b) k = Some p -> In k (obj_keys (_pieces b)) ->
      Piece_isMoveValid 1 b p to extra <> None)
  /\ (forall s c, Board_isAttacked 1 b s c <> None)
  /\ (forall c, Board_isInCheck 1 b c <> None).
Proof.
  intros S.
  assert (V : forall k p to extra,
             obj_get (_pieces b) k = Some p -> In k (obj_keys (_pieces b)) ->
             Piece_isMoveValid 1 b p to extra <> None).
  { intros k p to extra G I. cbn [Piece_isMoveValid].
    destruct (type p) eqn:T; try discriminate.
    destruct (Board_castlingSane_king b k p S G I T) as (Home & _).
    change (King_isMoveValid (Board_isAttacked 0 b) b p to <> None).
    unfold King_isMoveValid.
    destruct (negb _); [discriminate|].
    destruct (_ =? _).
    - unfold King_canCastleShort.
      destruct (by_color (short (castlingRights b)) (color p)) eqn:Rt; [|discriminate].
      cbn [negb].
      pose proof (Board_castlingSane_attacked0 b (color p)
                    (Square_newLetter "F" (rankNumber (location p))) S
                    (Home (or_introl eq_refl))) as A.
      destruct (Board_isAttacked 0 b _ _) as [[]|]; [discriminate| |contradiction].
      apply Board_castlingSane_validate; auto.
    - destruct (_ =? _); [|discriminate].
      unfold King_canCastleLong.
      destruct (by_color (long (castlingRights b)) (color p)) eqn:Rt; [|discriminate].
      cbn [negb].
      pose proof (Board_castlingSane_attacked0 b (color p)
                    (Square_newLetter "D" (rankNumber (location p))) S
                    (Home (or_intror eq_refl))) as A.
      destruct (Board_isAttacked 0 b _ _) as [[]|]; [discriminate| |contradiction].
      apply Board_castlingSane_validate; auto. }
  assert (A : forall s c, Board_isAttacked 1 b s c <> None).
  { intros s c. unfold Board_isAttacked, Board_isAttacked_with.
    apply anyM_total. intros k I.
    destruct (obj_get (_pieces b) k) as [q|] eqn:G; [|now apply obj_get_key in I].
    destruct (match c with Some _ => _ | None => _ end); [discriminate|].
    apply anyM_total. intros m _.
    destruct (negb _); [discriminate|]. now apply (V k). }
  split; [exact V|]. split; [exact A|].
  intros c. unfold Board_isInCheck, Board_isInCheck_with.
  apply anyM_total. intros k I.
  destruct (obj_get (_pieces b) k) as [q|] eqn:G; [|now apply obj_get_key in I].
  destruct (_ || _); [discriminate | apply A].
Qed.

(** The starting position and the example positions are such boards. *)
Lemma Board_castlingSane_examples :
  Board_castlingSane startBoard = true
  /\ Board_castlingSane castleShort = true
  /\ Board_castlingSane castleIntoCheck = true
  /\ Board_castlingSane (board (currentState foolsMate)) = true.
Proof. by_evaluation. Qed.

(** ** Why fuel: a board on which the attack test never returns

    With the stray kings, whether Black attacks F1 depends on whether
    Black's king may castle long, which asks whether White attacks D1,
    which depends on whether White's king may castle short, which asks
    whether Black attacks F1. *)

Lemma Piece_isMoveValid_king (n : nat) (b : Board) (p : Piece) (to : Square)
      (extra : option jsstring) :
  type p = KING ->
  Piece_isMoveValid (S n) b p to extra = King_isMoveValid (Board_isAttacked n b) b p to.
Proof. intros T. simpl. now rewrite T. Qed.

Lemma strayKings_black_king (attacked : Square -> option Color -> option bool) :
  attacked (sq "D1") (Some WHITE) = None ->
  King_isMoveValid attacked strayKings (pieceAt strayKings "H1") (sq "F1") = None.
Proof. intros H. cbv in H. cbv. now rewrite H. Qed.

Lemma strayKings_white_king (attacked : Square -> option Color -> option bool) :
  attacked (sq "F1") (Some BLACK) = None ->
  King_isMoveValid attacked strayKings (pieceAt strayKings "B1") (sq "D1") = None.
Proof. intros H. cbv in H. cbv. now rewrite H. Qed.

Lemma strayKings_attack_F1 (valid : Piece -> Square -> option jsstring -> option bool) :
  valid (pieceAt strayKings "H1") (sq "F1") (Some (js "Q")) = None ->
  Board_isAttacked_with valid strayKings (sq "F1") (Some BLACK) = None.
Proof. intros H. cbv in H. cbv. now rewrite H. Qed.

Lemma strayKings_attack_D1 (valid : Piece -> Square -> option jsstring -> option bool) :
  valid (pieceAt strayKings "B1") (sq "D1") (Some (js "Q")) = None ->
  Board_isAttacked_with valid strayKings (sq "D1") (Some WHITE) = None.
Proof. intros H. cbv in H. cbv. now rewrite H. Qed.

Theorem Board_isAttacked_unbounded (n : nat) :
  Board_isAttacked n strayKings (sq "F1") (Some BLACK) = None
  /\ Board_isAttacked n strayKings (sq "D1") (Some WHITE) = None.
Proof.
  induction n as [|n [F D]]; [by_evaluation|].
  split.
  - apply strayKings_attack_F1. rewrite Piece_isMoveValid_king by reflexivity.
    now apply strayKings_black_king.
  - apply strayKings_attack_D1. rewrite Piece_isMoveValid_king by reflexivity.
    now apply strayKings_white_king.
Qed.

Lemma strayKings_not_sane : Board_castlingSane strayKings = false.
Proof. by_evaluation. Qed.

(** ** Squares: names, rays, paths and colours *)

Lemma boardSquares_In (s : Square) : Square_isValid s = true -> In s boardSquares.
Proof.
  intros V. apply Square_isValid_iff in V as [F R]. destruct s as [f r]; simpl in F, R.
  unfold boardSquares. apply in_flat_map. exists f. split.
  - assert (E : f = 1 \/ f = 2 \/ f = 3 \/ f = 4 \/ f = 5 \/ f = 6 \/ f = 7 \/ f = 8) by lia.
    simpl. intuition.
  - apply in_map_iff. exists r. split; [reflexivity|].
    assert (E : r = 1 \/ r = 2 \/ r = 3 \/ r = 4 \/ r = 5 \/ r = 6 \/ r = 7 \/ r = 8) by lia.
    simpl. intuition.
Qed.

Lemma boardSquares_forall (P : Square -> bool) :
  forallb P boardSquares = true -> forall s, Square_isValid s = true -> P s = true.
Proof. intros H s V. rewrite forallb_forall in H. apply H, boardSquares_In, V. Qed.

Lemma boardSquares_forall2 (P : Square -> Square -> bool) :
  forallb (fun a => forallb (P a) boardSquares) boardSquares = true ->
  forall a b, Square_isValid a = true -> Square_isValid b = true -> P a b = true.
Proof.
  intros H a b Va Vb.
  apply (boardSquares_forall (P a)); [|exact Vb].
  apply (boardSquares_forall (fun a => forallb (P a) boardSquares)); assumption.
Qed.

Lemma Square_list_eqb_eq (l l' : list Square) : Square_list_eqb l l' = true <-> l = l'.
Proof.
  revert l'; induction l as [|x l IH]; intros [|y l']; simpl; split; intros H;
    try reflexivity; try discriminate.
  - apply andb_true_iff in H as [A B]. apply Square_equals_eq in A. apply IH in B.
    now subst.
  - injection H as -> ->. rewrite Square_equals_refl. now apply IH.
Qed.

(** X1: a valid square and its name determine each other:
    [fromString] reads back exactly the names [asString] writes for the
    squares of the board, and two squares of the board with one name
    are one square. *)
Theorem Square_asString_fromString_roundtrip :
  (forall s, Square_fromString (Square_asString s) = Some s <-> Square_isValid s = true)
  /\ (forall str s, Square_fromString str = Some s ->
                    Square_asString s = str /\ Square_isValid s = true)
  /\ (forall a b, Square_isValid a = true -> Square_isValid b = true ->
                  (Square_asString a = Square_asString b <-> Square_equals a b = true)).
Proof.
  assert (R : forall str s, Square_fromString str = Some s ->
                            Square_asString s = str /\ Square_isValid s = true).
  { intros str s H. unfold Square_fromString in H.
    destruct str as [|c0 [|c1 [|? ?]]]; try discriminate.
    destruct (Square_isValid _) eqn:V; simpl in H; [|discriminate].
    injection H as <-. split; [|exact V].
    rewrite (Square_asString_valid _ V). unfold Square_new, code; simpl. f_equal; [lia|].
    f_equal. lia. }
  split; [|split].
  - intros s. split.
    + intros H. now apply R in H.
    + intros V. rewrite (Square_asString_valid _ V). unfold Square_fromString.
      replace (Square_new _ _) with s.
      * now rewrite V.
      * destruct s as [f r]. unfold Square_new, code; simpl. f_equal; lia.
  - exact R.
  - intros a b Va Vb. split.
    + intros E. apply Square_equals_eq. now apply Square_asString_inj.
    + intros E. apply Square_equals_eq in E. now subst.
Qed.

Lemma rayLoop_In_valid (n : nat) (c : Square) (df dr : Z) (s : Square) :
  In s (rayLoop n c df dr) -> Square_isValid s = true.
Proof.
  intros H. apply In_nth_error in H as [i H]. now apply rayLoop_nth in H.
Qed.

Lemma rayLoop_next_invalid (n : nat) (c : Square) (df dr : Z) :
  (List.length (rayLoop n c df dr) < n)%nat ->
  Square_isValid
    (Square_relative c (Z.of_nat (S (List.length (rayLoop n c df dr))) * df)
                       (Z.of_nat (S (List.length (rayLoop n c df dr))) * dr)) = false.
Proof.
  revert c; induction n as [|n IH]; intros c L; [cbn [rayLoop List.length] in L; lia|].
  cbn [rayLoop] in *.
  destruct (Square_isValid (Square_relative c df dr)) eqn:V; cbn [negb List.length] in *.
  - specialize (IH (Square_relative c df dr)).
    assert (L' : (List.length (rayLoop n (Square_relative c df dr) df dr) < n)%nat) by lia.
    specialize (IH L').
    rewrite <- IH. f_equal. unfold Square_relative, Square_new; cbn [fileNumber rankNumber].
    f_equal; lia.
  - rewrite <- V. f_equal. unfold Square_relative, Square_new; cbn [fileNumber rankNumber].
    f_equal; lia.
Qed.

Lemma Square_getRelativesUntilInvalid_throws (this : Square) (df dr : Z) :
  Square_getRelativesUntilInvalid this df dr = None <-> df = 0 /\ dr = 0.
Proof.
  unfold Square_getRelativesUntilInvalid.
  destruct ((df =? 0) && (dr =? 0)) eqn:Z0.
  - apply andb_true_iff in Z0 as [A B]. apply Z.eqb_eq in A, B. tauto.
  - split; [discriminate|]. intros [-> ->]. discriminate.
Qed.

(** X2: [getRelativesUntilInvalid] throws exactly on the offset (0, 0).
    Otherwise it returns the squares reached by one, two, ... steps of
    the offset, all of them on the board, up to and not including the
    first one that is off the board; there are at most eight. *)
Theorem Square_getRelativesUntilInvalid_spec (this : Square) (df dr : Z) :
  (Square_getRelativesUntilInvalid this df dr = None <-> df = 0 /\ dr = 0)
  /\ forall squares,
      Square_getRelativesUntilInvalid this df dr = Some squares ->
      (forall i s, nth_error squares i = Some s ->
                   s = Square_relative this (Z.of_nat (S i) * df) (Z.of_nat (S i) * dr)
                   /\ Square_isValid s = true)
      /\ Square_isValid
           (Square_relative this (Z.of_nat (S (List.length squares)) * df)
                                 (Z.of_nat (S (List.length squares)) * dr)) = false
      /\ (List.length squares <= 8)%nat.
Proof.
  split; [apply Square_getRelativesUntilInvalid_throws|].
  unfold Square_getRelativesUntilInvalid.
  destruct ((df =? 0) && (dr =? 0)) eqn:Z0; [discriminate|].
  intros squares H. assert (E : rayLoop 8 this df dr = squares) by congruence.
  subst squares. clear H.
  assert (NZ : df <> 0 \/ dr <> 0).
  { apply andb_false_iff in Z0 as [Z0|Z0]; apply Z.eqb_neq in Z0; auto. }
  split; [|split].
  - intros i s. apply rayLoop_nth.
  - rewrite <- (rayLoop_stable 1 this df dr NZ).
    apply rayLoop_next_invalid. rewrite (rayLoop_stable 1 this df dr NZ).
    pose proof (rayLoop_length 8 this df dr NZ). lia.
  - now apply rayLoop_length.
Qed.


Lemma popUntil_not_found (other : Square) (l : list Square) :
  (forall x, In x l -> Square_equals x other = false) -> popUntil other l = [].
Proof.
  induction l as [|x l IH]; intros H; [reflexivity|].
  cbn [popUntil]. rewrite (H x (or_introl eq_refl)). apply IH.
  intros y Hy. apply H. now right.
Qed.

Lemma Square_pathTo_invalid_target (this other : Square) :
  Square_isValid other = false -> Square_pathTo this other = [].
Proof.
  intros V. unfold Square_pathTo.
  destruct (Square_equals other this); [reflexivity|].
  cbv zeta.
  destruct ((_ =? 0) || (_ =? 0) || (_ =? _)); [|reflexivity].
  unfold Square_getRelativesUntilInvalid.
  destruct ((_ =? 0) && (_ =? 0)); [reflexivity|].
  rewrite popUntil_not_found; [reflexivity|].
  intros x Hx. apply in_rev, rayLoop_In_valid in Hx.
  destruct (Square_equals x other) eqn:E; [|reflexivity].
  apply Square_equals_eq in E. congruence.
Qed.

(** What [pathTo] is checked against, square by square. *)
Lemma Square_pathTo_on_board :
  forallb (fun a =>
    forallb (fun b =>
      Square_list_eqb (Square_pathTo a b) (if spec_aligned a b then spec_between a b else [])
      && forallb (fun s => Square_isValid s && negb (Square_equals s a)
                           && negb (Square_equals s b))
                 (Square_pathTo a b)
      && Nat.leb (List.length (Square_pathTo a b)) 6)
      boardSquares) boardSquares = true.
Proof. vm_compute. reflexivity. Qed.

Lemma Square_pathTo_between (this other : Square) :
  Square_isValid this = true -> Square_isValid other = true ->
  Square_pathTo this other
  = if spec_aligned this other then spec_between this other else [].
Proof.
  intros Vt Vo.
  pose proof (boardSquares_forall2 _ Square_pathTo_on_board this other Vt Vo) as H.
  cbv beta in H. apply andb_true_iff in H as [H _]. apply andb_true_iff in H as [E _].
  now apply Square_list_eqb_eq.
Qed.

(** X3: [pathTo] between two squares of the board is the list of the
    squares strictly between them, from [this] towards [other], when
    they share a file, a rank or a diagonal, and is empty otherwise (so
    also for a knight's jump and for [other = this]).  The path holds
    neither end, only squares of the board and at most six of them; a
    path to a square off the board is empty. *)
Theorem Square_pathTo_spec (this other : Square) :
  Square_isValid this = true ->
  (Square_isValid other = true ->
   Square_pathTo this other
   = if spec_aligned this other then spec_between this other else [])
  /\ (Square_isValid other = false -> Square_pathTo this other = [])
  /\ (forall s, In s (Square_pathTo this other) ->
                Square_isValid s = true /\ s <> this /\ s <> other)
  /\ (List.length (Square_pathTo this other) <= 6)%nat.
Proof.
  intros Vt.
  assert (B : Square_isValid other = true ->
              Square_pathTo this other
              = (if spec_aligned this other then spec_between this other else [])
              /\ forallb (fun s => Square_isValid s && negb (Square_equals s this)
                                   && negb (Square_equals s other))
                         (Square_pathTo this other) = true
              /\ (List.length (Square_pathTo this other) <= 6)%nat).
  { intros Vo.
    pose proof (boardSquares_forall2
             (fun a b =>
                Square_list_eqb (Square_pathTo a b)
                  (if spec_aligned a b then spec_between a b else [])
                && forallb (fun s => Square_isValid s && negb (Square_equals s a)
                                     && negb (Square_equals s b))
                           (Square_pathTo a b)
                && Nat.leb (List.length (Square_pathTo a b)) 6)
             Square_pathTo_on_board this other Vt Vo) as H.
    cbv beta in H. apply andb_true_iff in H as [H L]. apply andb_true_iff in H as [E F].
    apply Square_list_eqb_eq in E. apply Nat.leb_le in L. auto. }
  split; [|split; [|split]].
  - intros Vo. now apply B in Vo.
  - apply Square_pathTo_invalid_target.
  - intros s Hs. destruct (Square_isValid other) eqn:Vo.
    + destruct (B eq_refl) as (_ & F & _). rewrite forallb_forall in F.
      apply F in Hs. apply andb_true_iff in Hs as [Hs N2]. apply andb_true_iff in Hs as [V N1].
      split; [exact V|]. split; intros ->; rewrite Square_equals_refl in *; discriminate.
    + rewrite (Square_pathTo_invalid_target this other Vo) in Hs. destruct Hs.
  - destruct (Square_isValid other) eqn:Vo.
    + now destruct (B eq_refl) as (_ & _ & L).
    + rewrite (Square_pathTo_invalid_target this other Vo). cbn [List.length]. lia.
Qed.

Lemma Square_pathTo_A1_D4 :
  Square_isValid (sq "A1") = true
  /\ Square_isValid (sq "D4") = true
  /\ Square_pathTo (sq "A1") (sq "D4") = [sq "B2"; sq "C3"].
Proof.
  split; [reflexivity|]. split; [reflexivity|].
  exact (proj1 (Square_pathTo_spec (sq "A1") (sq "D4") eq_refl) eq_refl).
Defined.

Lemma Square_isLight_on_board :
  forallb (fun a =>
    ((Square_isLight a =? 0) || (Square_isLight a =? 1))
    && forallb (fun b =>
         Bool.eqb (Square_isLight a =? Square_isLight b)
                  (Z.even ((fileNumber b - fileNumber a) + (rankNumber b - rankNumber a))))
         boardSquares) boardSquares = true.
Proof. vm_compute. reflexivity. Qed.

(** X4: on the board [isLight] is 0 or 1 (A1 is dark), and two squares
    have the same value exactly when the sum of their file and rank
    distances is even: a diagonal step keeps the colour, a step along a
    file or a rank changes it. *)
Theorem Square_isLight_spec (a b : Square) :
  Square_isValid a = true ->
  Square_isValid b = true ->
  (Square_isLight a = 0 \/ Square_isLight a = 1)
  /\ Square_isLight (sq "A1") = 0
  /\ (Square_isLight a = Square_isLight b
      <-> Z.even ((fileNumber b - fileNumber a) + (rankNumber b - rankNumber a)) = true).
Proof.
  intros Va Vb.
  pose proof (boardSquares_forall _ Square_isLight_on_board a Va) as H. cbv beta in H.
  apply andb_true_iff in H as [R H].
  pose proof (proj1 (forallb_forall _ _) H b (boardSquares_In b Vb)) as E. cbv beta in E.
  split; [|split].
  - apply orb_true_iff in R as [R|R]; apply Z.eqb_eq in R; auto.
  - reflexivity.
  - apply Bool.eqb_prop in E. rewrite <- E. symmetry. apply Z.eqb_eq.
Qed.

Lemma Square_isLight_A1_H8 :
  Square_isValid (sq "A1") = true
  /\ Square_isValid (sq "H8") = true
  /\ Square_isLight (sq "A1") = Square_isLight (sq "H8").
Proof.
  split; [reflexivity|]. split; [reflexivity|].
  exact (proj2 (proj2 (proj2 (Square_isLight_spec (sq "A1") (sq "H8") eq_refl eq_refl)))
           eq_refl).
Defined.

(** ** Candidate moves and the validity of a move *)

Lemma rays_In (this : Square) (offsets : list (Z * Z)) (m : Square) :
  In m (rays this offsets) ->
  exists o i, In o offsets /\ (fst o <> 0 \/ snd o <> 0)
              /\ m = Square_relative this (Z.of_nat (S i) * fst o) (Z.of_nat (S i) * snd o)
              /\ Square_isValid m = true.
Proof.
  unfold rays. intros H. apply in_flat_map in H as (o & Ho & H).
  destruct (Square_getRelativesUntilInvalid this (fst o) (snd o)) as [l|] eqn:E; [|destruct H].
  unfold Square_getRelativesUntilInvalid in E.
  destruct ((fst o =? 0) && (snd o =? 0)) eqn:Z0; [discriminate|].
  assert (L : rayLoop 8 this (fst o) (snd o) = l) by congruence. subst l. clear E.
  apply In_nth_error in H as [i H]. apply rayLoop_nth in H as [H V].
  exists o, i. repeat split; try assumption.
  apply andb_false_iff in Z0 as [Z0|Z0]; apply Z.eqb_neq in Z0; auto.
Qed.

Lemma relatives_In (this : Square) (offsets : list (Z * Z)) (m : Square) :
  In m (relatives this offsets) <->
  exists o, In o offsets /\ m = Square_relative this (fst o) (snd o).
Proof.
  unfold relatives. rewrite in_map_iff. split; intros (o & A & B); exists o; auto.
Qed.

Lemma Square_relative_moves (this : Square) (df dr : Z) :
  df <> 0 \/ dr <> 0 -> Square_relative this df dr <> this.
Proof.
  intros NZ E. destruct this as [f r]. unfold Square_relative, Square_new in E.
  cbn [fileNumber rankNumber] in E. injection E as A B. lia.
Qed.

(** X5: after [recalculateValidMoves] every candidate move of a piece is
    a square of the board, whatever its type, its board and the list it
    had before; and no freshly instantiated piece has the square it
    stands on among its candidates. *)
Theorem Piece_recalculateValidMoves_on_board :
  (forall b p m, In m (validMoves (Piece_recalculateValidMoves b p)) ->
                 Square_isValid m = true)
  /\ (forall t c b s m, In m (validMoves (Piece_instantiate t c b s)) ->
                        Square_isValid m = true /\ m <> s).
Proof.
  assert (A : forall b p m, In m (validMoves (Piece_recalculateValidMoves b p)) ->
                            Square_isValid m = true).
  { intros b p m. unfold Piece_recalculateValidMoves.
    destruct (type p); cbn [validMoves Pawn_recalculateValidMoves Rook_recalculateValidMoves
                            Knight_recalculateValidMoves Bishop_recalculateValidMoves
                            Queen_recalculateValidMoves King_recalculateValidMoves
                            Piece_removeInvalidMoves Piece_with_validMoves]; intros H.
    - now apply filter_In in H.
    - now apply rays_In in H as (o & i & _ & _ & _ & V).
    - now apply filter_In in H.
    - now apply rays_In in H as (o & i & _ & _ & _ & V).
    - now apply rays_In in H as (o & i & _ & _ & _ & V).
    - now apply filter_In in H. }
  split; [exact A|].
  intros t c b s m H. split; [now apply A in H|].
  unfold Piece_instantiate, Piece_recalculateValidMoves in H. cbn [type] in H.
  assert (R : forall offsets,
             In m (rays s offsets) -> m <> s).
  { intros offsets Hm. apply rays_In in Hm as (o & i & _ & NZ & -> & _).
    apply Square_relative_moves. destruct NZ; [left|right]; nia. }
  assert (Q : forall offsets,
             (forall o, In o offsets -> fst o <> 0 \/ snd o <> 0) ->
             In m (relatives s offsets) -> m <> s).
  { intros offsets NZ Hm. apply relatives_In in Hm as (o & Ho & ->).
    apply Square_relative_moves, NZ, Ho. }
  destruct t;
    cbn [validMoves Pawn_recalculateValidMoves Rook_recalculateValidMoves
         Knight_recalculateValidMoves Bishop_recalculateValidMoves
         Queen_recalculateValidMoves King_recalculateValidMoves
         Piece_removeInvalidMoves Piece_with_validMoves location color] in H.
  - apply filter_In in H as [H _].
    unfold Pawn_getAdvanceDirection in H. cbn [color] in H.
    assert (D : (if Color_eqb c WHITE then 1 else -1) <> 0) by (destruct (Color_eqb c WHITE); lia).
    destruct (_ || _) in H; cbn [app] in H;
      repeat (destruct H as [<-|H]; [apply Square_relative_moves; right; lia|]);
      destruct H.
  - now apply R in H.
  - apply filter_In in H as [H _]. revert H. apply Q.
    intros o Ho. cbn [In] in Ho.
    repeat (destruct Ho as [<-|Ho]; [cbn [fst snd]; lia|]). destruct Ho.
  - now apply R in H.
  - now apply R in H.
  - apply filter_In in H as [H _].
    assert (K : In m (relatives s [(-1, -1); (-1, 1); (1, -1); (1, 1); (-1, 0); (1, 0);
                                   (0, 1); (0, -1); (-2, 0); (2, 0)])).
    { destruct (by_color (long (castlingRights b)) c), (by_color (short (castlingRights b)) c);
        cbn [relatives map app fst snd] in *; cbn [In] in *; intuition. }
    revert K. apply Q. intros o Ho. cbn [In] in Ho.
    repeat (destruct Ho as [<-|Ho]; [cbn [fst snd]; lia|]). destruct Ho.
Qed.

Lemma Piece_isMoveValid_base_filter (p : Piece) (l : list Square) (to : Square) :
  Piece_isMoveValid_base (Piece_with_validMoves p (filter Square_isValid l)) to = true
  <-> Square_isValid to = true /\ In to l.
Proof.
  rewrite Piece_isMoveValid_base_In. cbn [validMoves Piece_with_validMoves].
  rewrite filter_In. tauto.
Qed.

Lemma spec_knightJump_iff (a b : Square) :
  spec_knightJump a b = true
  <-> In b (relatives a [(1, 2); (-1, 2); (1, -2); (-1, -2); (2, 1); (-2, 1); (2, -1); (-2, -1)]).
Proof.
  unfold spec_knightJump. rewrite relatives_In.
  destruct a as [f r], b as [f' r']. cbn [fileNumber rankNumber].
  split.
  - intros H.
    assert (C : (f' - f = 1 /\ r' - r = 2) \/ (f' - f = -1 /\ r' - r = 2)
                \/ (f' - f = 1 /\ r' - r = -2) \/ (f' - f = -1 /\ r' - r = -2)
                \/ (f' - f = 2 /\ r' - r = 1) \/ (f' - f = -2 /\ r' - r = 1)
                \/ (f' - f = 2 /\ r' - r = -1) \/ (f' - f = -2 /\ r' - r = -1)).
    { apply orb_true_iff in H as [H|H]; apply andb_true_iff in H as [A B];
        apply Z.eqb_eq in A, B; lia. }
    exists (f' - f, r' - r). split.
    + cbn [In]. repeat (destruct C as [[-> ->]|C]; [tauto|]). destruct C as [-> ->]. tauto.
    + unfold Square_relative, Square_new. cbn [fst snd fileNumber rankNumber]. f_equal; lia.
  - intros (o & Ho & E). unfold Square_relative, Square_new in E.
    cbn [fileNumber rankNumber] in E. injection E as -> ->.
    cbn [In] in Ho.
    repeat (destruct Ho as [<-|Ho];
            [cbn [fst snd];
             replace (f + 1 - f) with 1 by lia; replace (f + -1 - f) with (-1) by lia;
             replace (f + 2 - f) with 2 by lia; replace (f + -2 - f) with (-2) by lia;
             replace (r + 1 - r) with 1 by lia; replace (r + -1 - r) with (-1) by lia;
             replace (r + 2 - r) with 2 by lia; replace (r + -2 - r) with (-2) by lia;
             reflexivity|]).
    destruct Ho.
Qed.

Lemma Piece_isMoveValid_dispatch (fuel : nat) (b : Board) (this : Piece) (to : Square)
      (extra : option jsstring) :
  match type this with
  | PAWN => Piece_isMoveValid fuel b this to extra = Some (Pawn_isMoveValid b this to extra)
  | ROOK | BISHOP | QUEEN =>
      Piece_isMoveValid fuel b this to extra = Some (Slider_isMoveValid b this to)
  | KNIGHT => Piece_isMoveValid fuel b this to extra = Some (Piece_isMoveValid_base this to)
  | KING => True
  end.
Proof. destruct fuel; cbn [Piece_isMoveValid]; destruct (type this); reflexivity. Qed.

(** X6: a knight moves by its jump and nothing else: [isMoveValid]
    accepts a destination exactly when it is a square of the board one
    file and two ranks, or two files and one rank, away; what stands on
    the board, between or at the destination, plays no part. *)
Theorem Knight_isMoveValid_spec (fuel : nat) (b : Board) (p : Piece) (to : Square)
        (extra : option jsstring) :
  type p = KNIGHT ->
  Piece_isMoveValid fuel b (Piece_recalculateValidMoves b p) to extra
  = Some (Square_isValid to && spec_knightJump (location p) to).
Proof.
  intros T.
  pose proof (Piece_isMoveValid_dispatch fuel b (Piece_recalculateValidMoves b p) to extra) as E.
  destruct (Piece_recalculateValidMoves_fields b p) as (Ty & _ & _).
  rewrite Ty, T in E. rewrite E. f_equal. apply eq_true_iff_eq.
  rewrite Piece_isMoveValid_base_In.
  unfold Piece_recalculateValidMoves. rewrite T.
  unfold Knight_recalculateValidMoves, Piece_removeInvalidMoves.
  cbn [validMoves Piece_with_validMoves]. rewrite filter_In.
  rewrite andb_true_iff, spec_knightJump_iff. tauto.
Qed.

Lemma Knight_isMoveValid_G1_F3 :
  type (pieceAt startBoard "G1") = KNIGHT
  /\ Piece_isMoveValid 0 startBoard
       (Piece_recalculateValidMoves startBoard (pieceAt startBoard "G1")) (sq "F3") None
     = Some true.
Proof.
  split; [reflexivity|].
  exact (Knight_isMoveValid_spec 0 startBoard (pieceAt startBoard "G1") (sq "F3") None eq_refl).
Defined.

(** The candidates of a rook, a bishop and a queen, square by square. *)
Lemma Slider_candidates_on_board :
  forallb (fun t =>
    forallb (fun a =>
      forallb (fun to =>
        Bool.eqb (Piece_isMoveValid_base
                    (Piece_recalculateValidMoves Board_new (mkPiece [] t WHITE a)) to)
                 (negb (Square_equals to a) && spec_line t a to))
        boardSquares) boardSquares) [ROOK; BISHOP; QUEEN] = true.
Proof. vm_compute. reflexivity. Qed.

Lemma Slider_candidates (b : Board) (p : Piece) (to : Square) :
  spec_isSlider (type p) = true ->
  Square_isValid (location p) = true ->
  Piece_isMoveValid_base (Piece_recalculateValidMoves b p) to
  = Square_isValid to && negb (Square_equals to (location p))
    && spec_line (type p) (location p) to.
Proof.
  intros S V.
  destruct (Square_isValid to) eqn:Vt.
  - assert (E : Piece_isMoveValid_base (Piece_recalculateValidMoves b p) to
                = Piece_isMoveValid_base
                    (Piece_recalculateValidMoves Board_new
                       (mkPiece [] (type p) WHITE (location p))) to).
    { unfold Piece_isMoveValid_base, Piece_recalculateValidMoves. cbn [type].
      destruct (type p); try discriminate; reflexivity. }
    rewrite E. cbn [andb].
    pose proof Slider_candidates_on_board as H. rewrite forallb_forall in H.
    assert (I : In (type p) [ROOK; BISHOP; QUEEN]).
    { destruct (type p); try discriminate; cbn [In]; tauto. }
    specialize (H _ I). cbv beta in H.
    pose proof (boardSquares_forall2 _ H (location p) to V Vt) as K. cbv beta in K.
    now apply Bool.eqb_prop in K.
  - cbn [andb]. unfold Piece_isMoveValid_base. now rewrite Vt.
Qed.

Lemma spec_line_aligned (t : PieceType) (a b : Square) :
  spec_line t a b = true -> spec_aligned a b = true.
Proof.
  unfold spec_line, spec_aligned. destruct t; try discriminate; intros H.
  - apply orb_true_iff in H as [H|H]; rewrite H; [reflexivity|].
    now rewrite orb_true_r.
  - rewrite H. apply orb_true_r.
  - exact H.
Qed.

(** X7: a rook, a bishop and a queen on the board move along their
    lines over empty squares: [isMoveValid] accepts a destination
    exactly when it is another square of the board on a file or rank
    (rook), a diagonal (bishop) or either (queen) through the piece, and
    every square strictly between the two is empty.  What stands on the
    destination itself is not looked at. *)
Theorem Slider_isMoveValid_spec (fuel : nat) (b : Board) (p : Piece) (to : Square)
        (extra : option jsstring) :
  spec_isSlider (type p) = true ->
  Square_isValid (location p) = true ->
  Piece_isMoveValid fuel b (Piece_recalculateValidMoves b p) to extra
  = Some (Square_isValid to && negb (Square_equals to (location p))
          && spec_line (type p) (location p) to
          && forallb (fun s => isNone (Board_getPiece b s)) (spec_between (location p) to)).
Proof.
  intros S V.
  pose proof (Piece_isMoveValid_dispatch fuel b (Piece_recalculateValidMoves b p) to extra) as E.
  destruct (Piece_recalculateValidMoves_fields b p) as (Ty & _ & Lo).
  rewrite Ty in E.
  assert (E' : Piece_isMoveValid fuel b (Piece_recalculateValidMoves b p) to extra
               = Some (Slider_isMoveValid b (Piece_recalculateValidMoves b p) to)).
  { destruct (type p); try discriminate; exact E. }
  rewrite E'. f_equal. unfold Slider_isMoveValid.
  rewrite (Slider_candidates b p to S V), Lo.
  destruct (Square_isValid to) eqn:Vt; [|reflexivity].
  destruct (negb (Square_equals to (location p))); [|reflexivity].
  destruct (spec_line (type p) (location p) to) eqn:L; [|reflexivity].
  cbn [andb negb].
  rewrite (Square_pathTo_between _ _ V Vt), (spec_line_aligned _ _ _ L). reflexivity.
Qed.

Lemma Slider_isMoveValid_rook_A1 :
  spec_isSlider (type (pieceAt rooksAndKings "A1")) = true
  /\ Square_isValid (location (pieceAt rooksAndKings "A1")) = true
  /\ Piece_isMoveValid 0 rooksAndKings
       (Piece_recalculateValidMoves rooksAndKings (pieceAt rooksAndKings "A1")) (sq "A8") None
     = Some true
  /\ Piece_isMoveValid 0 rooksAndKings
       (Piece_recalculateValidMoves rooksAndKings (pieceAt rooksAndKings "A1")) (sq "H1") None
     = Some false.
Proof.
  split; [reflexivity|]. split; [reflexivity|]. split.
  - exact (Slider_isMoveValid_spec 0 rooksAndKings (pieceAt rooksAndKings "A1") (sq "A8") None
             eq_refl eq_refl).
  - exact (Slider_isMoveValid_spec 0 rooksAndKings (pieceAt rooksAndKings "A1") (sq "H1") None
             eq_refl eq_refl).
Defined.

Lemma spec_kingStep_iff (a b : Square) :
  spec_distance a b = 1
  <-> In b (relatives a [(-1, -1); (-1, 1); (1, -1); (1, 1); (-1, 0); (1, 0); (0, 1); (0, -1)]).
Proof.
  unfold spec_distance. rewrite relatives_In.
  destruct a as [f r], b as [f' r']. cbn [fileNumber rankNumber].
  split.
  - intros H.
    assert (C : (f' - f = -1 /\ r' - r = -1) \/ (f' - f = -1 /\ r' - r = 1)
                \/ (f' - f = 1 /\ r' - r = -1) \/ (f' - f = 1 /\ r' - r = 1)
                \/ (f' - f = -1 /\ r' - r = 0) \/ (f' - f = 1 /\ r' - r = 0)
                \/ (f' - f = 0 /\ r' - r = 1) \/ (f' - f = 0 /\ r' - r = -1)) by lia.
    exists (f' - f, r' - r). split.
    + cbn [In]. repeat (destruct C as [[-> ->]|C]; [tauto|]). destruct C as [-> ->]. tauto.
    + unfold Square_relative, Square_new. cbn [fst snd fileNumber rankNumber]. f_equal; lia.
  - intros (o & Ho & E). unfold Square_relative, Square_new in E.
    cbn [fileNumber rankNumber] in E. injection E as -> ->.
    cbn [In] in Ho.
    repeat (destruct Ho as [<-|Ho]; [cbn [fst snd]; lia|]).
    destruct Ho.
Qed.

Lemma King_candidates (b : Board) (p : Piece) (to : Square) :
  Z.abs (fileNumber to - fileNumber (location p)) <> 2 ->
  Piece_isMoveValid_base (King_recalculateValidMoves b p) to
  = Square_isValid to && (spec_distance (location p) to =? 1).
Proof.
  intros N. apply eq_true_iff_eq.
  unfold King_recalculateValidMoves.
  rewrite Piece_isMoveValid_base_filter, andb_true_iff, Z.eqb_eq, spec_kingStep_iff.
  assert (X : forall df, df = 2 \/ df = -2 ->
                         to <> Square_relative (location p) df 0).
  { intros df D E. apply N. rewrite E. unfold Square_relative, Square_new.
    cbn [fileNumber]. lia. }
  split; intros [V H]; (split; [exact V|]).
  - destruct (by_color (long (castlingRights b)) (color p)),
             (by_color (short (castlingRights b)) (color p));
      repeat (apply in_app_or in H as [H|H];
              [|destruct H as [H|[]]; symmetry in H; apply X in H; [destruct H|lia]]);
      exact H.
  - destruct (by_color (long (castlingRights b)) (color p)),
             (by_color (short (castlingRights b)) (color p));
      repeat (apply in_or_app; left); exact H.
Qed.

(** X8: a king steps to any neighbouring square of the board:
    [isMoveValid] accepts a destination that is not two files away
    exactly when it is one of the (at most eight) squares of the board
    next to the king.  Neither the pieces on the board nor the attacks
    of the opponent are looked at, and no recursion is needed. *)
Theorem King_isMoveValid_step (fuel : nat) (b : Board) (p : Piece) (to : Square)
        (extra : option jsstring) :
  type p = KING ->
  Z.abs (fileNumber to - fileNumber (location p)) <> 2 ->
  Piece_isMoveValid fuel b (Piece_recalculateValidMoves b p) to extra
  = Some (Square_isValid to && (spec_distance (location p) to =? 1)).
Proof.
  intros T N.
  destruct (Piece_recalculateValidMoves_fields b p) as (Ty & _ & Lo).
  assert (E : forall attacked,
             King_isMoveValid attacked b (Piece_recalculateValidMoves b p) to
             = Some (Square_isValid to && (spec_distance (location p) to =? 1))).
  { intros attacked. unfold King_isMoveValid. rewrite Lo.
    unfold Piece_recalculateValidMoves at 1. rewrite T.
    rewrite (King_candidates b p to N).
    destruct (Square_isValid to && (spec_distance (location p) to =? 1)); [|reflexivity].
    cbn [negb].
    destruct (Z.eqb_spec (fileNumber (location p)) (fileNumber to - 2)); [lia|].
    destruct (Z.eqb_spec (fileNumber (location p)) (fileNumber to + 2)); [lia|].
    reflexivity. }
  destruct fuel; cbn [Piece_isMoveValid]; rewrite Ty, T; apply E.
Qed.

Lemma King_isMoveValid_step_E1 :
  type (pieceAt kingVsKing "E1") = KING
  /\ Z.abs (fileNumber (sq "E2") - fileNumber (location (pieceAt kingVsKing "E1"))) <> 2
  /\ Piece_isMoveValid 0 kingVsKing
       (Piece_recalculateValidMoves kingVsKing (pieceAt kingVsKing "E1")) (sq "E2") None
     = Some true.
Proof.
  split; [reflexivity|]. split; [discriminate|].
  exact (King_isMoveValid_step 0 kingVsKing (pieceAt kingVsKing "E1") (sq "E2") None
           eq_refl ltac:(discriminate)).
Defined.

Lemma Pawn_isMoveValid_sound (b : Board) (this : Piece) (to : Square)
      (extra : option jsstring) :
  Pawn_isMoveValid b this to extra = true -> spec_pawnMove b this to extra.
Proof.
  unfold Pawn_isMoveValid, spec_pawnMove. cbv zeta.
  destruct (Piece_isMoveValid_base this to) eqn:Base; cbn [negb]; [|discriminate].
  apply Piece_isMoveValid_base_In in Base as [V _].
  pose proof (proj1 (Square_isValid_iff to) V) as [_ Rk].
  set (dir := Pawn_getAdvanceDirection this).
  assert (Dir : dir = if Color_eqb (color this) WHITE then 1 else -1) by reflexivity.
  assert (P : (if (rankNumber to =? 1) || (rankNumber to =? 8)
               then if Pawn_noPromotionArguments extra then false else true
               else true) = true ->
              rankNumber to = 1 \/ rankNumber to = 8 ->
              spec_promotionChoice "QRBKN" extra = true).
  { intros H R. rewrite Pawn_noPromotionArguments_spec in H.
    destruct ((rankNumber to =? 1) || (rankNumber to =? 8)) eqn:L.
    - destruct (spec_promotionChoice "QRBKN" extra); [reflexivity|discriminate].
    - apply orb_false_iff in L as [L1 L2]. apply Z.eqb_neq in L1, L2. lia. }
  destruct (Z.eqb_spec (fileNumber (location this)) (fileNumber to)) as [F|F].
  - destruct (negb (rankNumber (location this) + dir =? rankNumber to) && _) eqn:G;
      [discriminate|].
    destruct (Board_getPiece b to) eqn:Occ; cbn [isNone negb]; [discriminate|].
    intros H. split; [exact V|]. split; [|exact (P H)].
    left. split; [now symmetry|]. split; [reflexivity|].
    apply andb_false_iff in G as [G|G].
    + left. apply negb_false_iff, Z.eqb_eq in G. lia.
    + right.
      destruct ((rankNumber (location this) =? 2) || (rankNumber (location this) =? 7)) eqn:S;
        [|discriminate].
      apply negb_false_iff, Z.eqb_eq in G.
      apply orb_true_iff in S as [S|S]; apply Z.eqb_eq in S;
        unfold spec_pawnRank; destruct (color this); cbn [Color_eqb] in Dir; split; lia.
  - destruct ((fileNumber to =? fileNumber (location this) - 1)
              || (fileNumber to =? fileNumber (location this) + 1)) eqn:D; [|discriminate].
    unfold ontoEnPassantSquare.
    destruct (if Square_equals_maybe to (option_map obj_square (enPassantSquare b))
              then Board_getPiece b (Square_new (fileNumber to) (rankNumber (location this)))
              else Board_getPiece b to) as [captured|] eqn:C; [|discriminate].
    destruct (Color_eqb (color captured) (color this)) eqn:Co; [discriminate|].
    destruct (Z.eqb_spec (rankNumber (location this) + dir) (rankNumber to)) as [R|R];
      cbn [negb]; [|discriminate].
    intros H. split; [exact V|]. split; [|exact (P H)].
    right. split; [|split; [lia|]].
    + apply orb_true_iff in D as [D|D]; apply Z.eqb_eq in D; lia.
    + exists captured. split; [reflexivity|].
      intros E. apply Color_eqb_eq in E. congruence.
Qed.

Lemma Pawn_isMoveValid_complete (b : Board) (this : Piece) (to : Square)
      (extra : option jsstring) :
  spec_pawnMove b this to extra ->
  Pawn_isMoveValid b (Pawn_recalculateValidMoves this) to extra = true.
Proof.
  unfold spec_pawnMove. cbv zeta. intros (V & G & P).
  set (dir := Pawn_getAdvanceDirection this) in *.
  assert (Dir : dir = if Color_eqb (color this) WHITE then 1 else -1) by reflexivity.
  assert (Base : Piece_isMoveValid_base (Pawn_recalculateValidMoves this) to = true).
  { apply Piece_isMoveValid_base_In. split; [exact V|].
    unfold Pawn_recalculateValidMoves, Piece_removeInvalidMoves. cbv zeta.
    cbn [validMoves Piece_with_validMoves]. fold dir.
    apply filter_In. split; [|exact V].
    assert (T : forall df dr, fileNumber to = fileNumber (location this) + df ->
                              rankNumber to = rankNumber (location this) + dr ->
                              to = Square_relative (location this) df dr).
    { intros df dr A B. destruct to as [f r]. unfold Square_relative, Square_new.
      cbn [fileNumber rankNumber] in *. now subst. }
    destruct G as [(F & _ & [R|[R S]])|(F & R & _)].
    - assert (E := T 0 dir ltac:(lia) R). rewrite <- E.
      destruct (_ || _); cbn [color location];
        repeat rewrite in_app_iff; cbn [In]; tauto.
    - assert (E := T 0 (dir * 2) ltac:(lia) ltac:(lia)). rewrite <- E.
      assert (C : ((rankNumber (location this) =? 2) && Color_eqb (color this) WHITE)
                  || ((rankNumber (location this) =? 7) && Color_eqb (color this) BLACK)
                  = true).
      { unfold spec_pawnRank in S. destruct (color this); rewrite S; reflexivity. }
      cbn [color location]. rewrite C.
      repeat rewrite in_app_iff; cbn [In]; tauto.
    - assert (D : fileNumber to = fileNumber (location this) + 1
                  \/ fileNumber to = fileNumber (location this) + -1) by lia.
      destruct D as [D|D].
      + assert (E := T 1 dir D R). rewrite <- E.
        destruct (_ || _); cbn [color location];
          repeat rewrite in_app_iff; cbn [In]; tauto.
      + assert (E := T (-1) dir D R). rewrite <- E.
        destruct (_ || _); cbn [color location];
          repeat rewrite in_app_iff; cbn [In]; tauto. }
  unfold Pawn_isMoveValid. rewrite Base. cbn [negb]. cbv zeta.
  assert (Lo : location (Pawn_recalculateValidMoves this) = location this) by reflexivity.
  assert (Co : color (Pawn_recalculateValidMoves this) = color this) by reflexivity.
  assert (Di : Pawn_getAdvanceDirection (Pawn_recalculateValidMoves this) = dir) by reflexivity.
  rewrite Lo, Co, Di.
  assert (Pr : (if (rankNumber to =? 1) || (rankNumber to =? 8)
                then if Pawn_noPromotionArguments extra then false else true
                else true) = true).
  { rewrite Pawn_noPromotionArguments_spec.
    destruct ((rankNumber to =? 1) || (rankNumber to =? 8)) eqn:L; [|reflexivity].
    rewrite P; [reflexivity|].
    apply orb_true_iff in L as [L|L]; apply Z.eqb_eq in L; auto. }
  rewrite Pr.
  destruct G as [(F & Occ & R)|(F & R & captured & C & N)].
  - rewrite <- F, Z.eqb_refl, Occ. cbn [isNone negb].
    destruct R as [R|[R S]].
    + rewrite <- R, Z.eqb_refl. reflexivity.
    + replace (rankNumber (location this) + dir * 2) with (rankNumber to) by lia.
      rewrite Z.eqb_refl. cbn [negb].
      assert (S' : (rankNumber (location this) =? 2) || (rankNumber (location this) =? 7) = true).
      { unfold spec_pawnRank in S. destruct (color this); rewrite S; reflexivity. }
      rewrite S'. now rewrite andb_false_r.
  - destruct (Z.eqb_spec (fileNumber (location this)) (fileNumber to)) as [E|_]; [lia|].
    assert (D : (fileNumber to =? fileNumber (location this) - 1)
                || (fileNumber to =? fileNumber (location this) + 1) = true).
    { apply orb_true_iff.
      destruct (Z.eqb_spec (fileNumber to) (fileNumber (location this) - 1)); [now left|].
      right. apply Z.eqb_eq. lia. }
    rewrite D. unfold ontoEnPassantSquare in C. rewrite C.
    destruct (Color_eqb (color captured) (color this)) eqn:E.
    + apply Color_eqb_eq in E. contradiction.
    + rewrite <- R, Z.eqb_refl. reflexivity.
Qed.

(** X9: a pawn moves one square straight ahead, or two from the rank it
    starts on, onto an empty square, or one square diagonally ahead to
    take a piece of the other color (on the destination, or beside the
    pawn when the destination is the en passant square), and onto the
    last rank only with a promotion choice.  [isMoveValid] accepts
    nothing else, whatever the candidate list of the pawn holds, and
    accepts all of this once the candidates are recalculated; the
    candidates that [recalculateValidMoves] leaves in the list from
    earlier squares never change the answer. *)
Theorem Pawn_isMoveValid_spec (fuel : nat) (b : Board) (p : Piece) (to : Square)
        (extra : option jsstring) :
  type p = PAWN ->
  (Piece_isMoveValid fuel b p to extra = Some true -> spec_pawnMove b p to extra)
  /\ (Piece_isMoveValid fuel b (Piece_recalculateValidMoves b p) to extra = Some true
      <-> spec_pawnMove b p to extra)
  /\ Piece_isMoveValid fuel b (Piece_recalculateValidMoves b p) to extra
     = Piece_isMoveValid fuel b (Piece_instantiate PAWN (color p) b (location p)) to extra.
Proof.
  intros T.
  assert (D : forall q, type q = PAWN ->
                        Piece_isMoveValid fuel b q to extra = Some (Pawn_isMoveValid b q to extra)).
  { intros q Tq. pose proof (Piece_isMoveValid_dispatch fuel b q to extra) as E.
    now rewrite Tq in E. }
  assert (R : forall q, type q = PAWN ->
                        (Piece_isMoveValid fuel b (Piece_recalculateValidMoves b q) to extra
                         = Some true <-> spec_pawnMove b q to extra)).
  { intros q Tq.
    destruct (Piece_recalculateValidMoves_fields b q) as (Ty & _ & _).
    rewrite (D _ (eq_trans Ty Tq)).
    unfold Piece_recalculateValidMoves. rewrite Tq. split.
    - intros H. injection H as H. apply Pawn_isMoveValid_sound in H. exact H.
    - intros H. f_equal. now apply Pawn_isMoveValid_complete. }
  split; [|split].
  - rewrite (D p T). intros H. injection H as H. now apply Pawn_isMoveValid_sound.
  - apply R, T.
  - pose proof (R p T) as R1.
    pose proof (R (mkPiece [] PAWN (color p) (location p)) eq_refl) as R2.
    change (spec_pawnMove b (mkPiece [] PAWN (color p) (location p)) to extra)
      with (spec_pawnMove b p to extra) in R2.
    change (Piece_recalculateValidMoves b (mkPiece [] PAWN (color p) (location p)))
      with (Piece_instantiate PAWN (color p) b (location p)) in R2.
    destruct (Piece_recalculateValidMoves_fields b p) as (Ty & _ & _).
    destruct (Piece_instantiate_fields PAWN (color p) b (location p)) as (Ty' & _ & _).
    rewrite (D _ (eq_trans Ty T)), (D _ Ty') in *.
    f_equal. apply eq_true_iff_eq. split; intros H.
    + assert (H1 : Some (Pawn_isMoveValid b (Piece_recalculateValidMoves b p) to extra)
                   = Some true) by now f_equal.
      apply R1, R2 in H1. now injection H1.
    + assert (H1 : Some (Pawn_isMoveValid b (Piece_instantiate PAWN (color p) b (location p))
                           to extra) = Some true) by now f_equal.
      apply R2, R1 in H1. now injection H1.
Qed.

Lemma Pawn_isMoveValid_E2_E3 :
  type (pieceAt startBoard "E2") = PAWN
  /\ Piece_isMoveValid 0 startBoard
       (Piece_recalculateValidMoves startBoard (pieceAt startBoard "E2")) (sq "E3") None
     = Piece_isMoveValid 0 startBoard (Piece_instantiate PAWN WHITE startBoard (sq "E2"))
         (sq "E3") None.
Proof.
  split; [reflexivity|].
  exact (proj2 (proj2 (Pawn_isMoveValid_spec 0 startBoard (pieceAt startBoard "E2") (sq "E3")
                         None eq_refl))).
Defined.

(** ** The board as a container *)

Lemma Square_asString_neq (a b : Square) :
  Square_isValid a = true -> Square_isValid b = true ->
  Square_equals a b = false -> Square_asString a <> Square_asString b.
Proof.
  intros Va Vb N E. apply Square_asString_inj in E; [|assumption..].
  subst. now rewrite Square_equals_refl in N.
Qed.

(** X10: [setPiece], [removePieceAt] and [getPiece] work as a map from
    the squares of the board to pieces: a piece is found on its own
    square once set, removal empties the square, no other square of the
    board is touched, a new board is empty, and both updates mark the
    cached hash as out of date. *)
Theorem Board_pieces_laws (b : Board) (p : Piece) (s s' : Square) :
  Square_isValid (location p) = true ->
  Square_isValid s = true ->
  Square_isValid s' = true ->
  Board_getPiece (Board_setPiece b p) s
  = (if Square_equals s (location p) then Some p else Board_getPiece b s)
  /\ Board_getPiece (Board_removePieceAt b s') s
     = (if Square_equals s s' then None else Board_getPiece b s)
  /\ Board_getPiece Board_new s = None
  /\ _dirty (Board_setPiece b p) = true
  /\ _dirty (Board_removePieceAt b s') = true.
Proof.
  intros Vp Vs Vs'. repeat split.
  - unfold Board_getPiece, Board_setPiece, Board_with_pieces. cbn [_pieces].
    destruct (Square_equals s (location p)) eqn:E.
    + apply Square_equals_eq in E. subst. apply obj_get_set_same.
    + apply obj_get_set_other. intros H. symmetry in H. revert H.
      now apply Square_asString_neq.
  - unfold Board_getPiece, Board_removePieceAt, Board_with_pieces. cbn [_pieces].
    destruct (Square_equals s s') eqn:E.
    + apply Square_equals_eq in E. subst. apply obj_get_delete_same.
    + apply obj_get_delete_other. intros H. symmetry in H. revert H.
      now apply Square_asString_neq.
Qed.

Lemma Board_pieces_laws_E4 :
  Square_isValid (location (pieceAt startBoard "E2")) = true
  /\ Board_getPiece (Board_setPiece Board_new (pieceAt startBoard "E2")) (sq "E2")
     = Some (pieceAt startBoard "E2")
  /\ Board_getPiece (Board_removePieceAt startBoard (sq "E2")) (sq "E2") = None
  /\ Board_getPiece (Board_removePieceAt startBoard (sq "E2")) (sq "D2")
     = Board_getPiece startBoard (sq "D2").
Proof.
  split; [reflexivity|]. split; [|split].
  - exact (proj1 (Board_pieces_laws Board_new (pieceAt startBoard "E2") (sq "E2") (sq "E2")
                    eq_refl eq_refl eq_refl)).
  - exact (proj1 (proj2 (Board_pieces_laws startBoard (pieceAt startBoard "E2") (sq "E2")
                           (sq "E2") eq_refl eq_refl eq_refl))).
  - exact (proj1 (proj2 (Board_pieces_laws startBoard (pieceAt startBoard "E2") (sq "D2")
                           (sq "E2") eq_refl eq_refl eq_refl))).
Defined.

Lemma Board_getPiece_with_hash (b : Board) (d : bool) (hs : jsstring) (s : Square) :
  Board_getPiece (Board_with_hash b d hs) s = Board_getPiece b s.
Proof. reflexivity. Qed.

Lemma Board_setupDefaultBoard_any (b : Board) :
  Board_setupDefaultBoard b = Board_with_hash startBoard true (_hash b).
Proof. reflexivity. Qed.

Lemma startBoard_squares :
  forallb (fun s =>
             match Board_getPiece startBoard s, spec_initialPiece s with
             | Some p, Some (t, c) =>
                 PieceType_eqb (type p) t && Color_eqb (color p) c && Square_equals (location p) s
             | None, None => true
             | _, _ => false
             end) boardSquares = true.
Proof. vm_compute. reflexivity. Qed.

(** X11: [setupDefaultBoard] turns any board into the starting
    position: whatever stood on it is cleared, the thirty-two pieces
    stand on their home squares, all four castling rights are set,
    there is no en passant square, no last move and no highlighted
    square, the cached hash is marked out of date, and each side has
    39 points of material. *)
Theorem Board_setupDefaultBoard_spec (b : Board) :
  (forall s, Square_isValid s = true ->
             match Board_getPiece (Board_setupDefaultBoard b) s, spec_initialPiece s with
             | Some p, Some (t, c) => type p = t /\ color p = c /\ location p = s
             | None, None => True
             | _, _ => False
             end)
  /\ List.length (obj_keys (_pieces (Board_setupDefaultBoard b))) = 32%nat
  /\ castlingRights (Board_setupDefaultBoard b) = allRights
  /\ enPassantSquare (Board_setupDefaultBoard b) = None
  /\ lastMove (Board_setupDefaultBoard b) = None
  /\ highlightedSquares (Board_setupDefaultBoard b) = []
  /\ _dirty (Board_setupDefaultBoard b) = true
  /\ Board_getMaterialCount (Board_setupDefaultBoard b) WHITE = 39
  /\ Board_getMaterialCount (Board_setupDefaultBoard b) BLACK = 39.
Proof.
  rewrite Board_setupDefaultBoard_any.
  split; [|repeat split; vm_compute; reflexivity].
  intros s V.
  rewrite Board_getPiece_with_hash.
  pose proof (boardSquares_forall _ startBoard_squares s V) as H. cbv beta in H.
  destruct (Board_getPiece startBoard s) as [p|], (spec_initialPiece s) as [[t c]|];
    try discriminate; [|exact I].
  apply andb_true_iff in H as [H L]. apply andb_true_iff in H as [T C].
  apply PieceType_eqb_eq in T. apply Color_eqb_eq in C. apply Square_equals_eq in L. auto.
Qed.

(** ** Attacks and checks *)

Lemma anyM_true_In {A : Type} (f : A -> option bool) (l : list A) :
  anyM f l = Some true -> exists x, In x l /\ f x = Some true.
Proof.
  induction l as [|x l IH]; cbn [anyM]; [discriminate|].
  destruct (f x) as [[|]|] eqn:E; intros H; try discriminate.
  - exists x. split; [now left|exact E].
  - destruct (IH H) as (y & Hy & Fy). exists y. split; [now right|exact Fy].
Qed.

Lemma anyM_false_In {A : Type} (f : A -> option bool) (l : list A) :
  anyM f l = Some false <-> forall x, In x l -> f x = Some false.
Proof.
  induction l as [|x l IH]; cbn [anyM].
  - split; [intros _ x []|reflexivity].
  - destruct (f x) as [[|]|] eqn:E; split; intros H; try discriminate.
    + specialize (H x (or_introl eq_refl)). congruence.
    + intros y [<-|Hy]; [exact E|]. now apply IH.
    + apply IH. intros y Hy. apply H. now right.
    + specialize (H x (or_introl eq_refl)). congruence.
Qed.

(** X12: when [isAttacked] returns, it says whether some piece on the
    board (of the given color, when one is given) has the square among
    its candidate moves and may move there by [isMoveValid] with the
    promotion choice Q: a square is attacked when a piece could be
    moved onto it. *)
Theorem Board_isAttacked_spec (fuel : nat) (b : Board) (square : Square) (c : option Color)
        (r : bool) :
  Board_isAttacked fuel b square c = Some r ->
  (r = true <->
   exists k p,
     obj_get (_pieces b) k = Some p
     /\ (forall c', c = Some c' -> color p = c')
     /\ In square (validMoves p)
     /\ Piece_isMoveValid fuel b p square (Some (js "Q")) = Some true).
Proof.
  unfold Board_isAttacked, Board_isAttacked_with. intros H. split.
  - intros ->. apply anyM_true_In in H as (k & Hk & H).
    destruct (obj_get (_pieces b) k) as [p|] eqn:G; [|discriminate].
    exists k, p. split; [exact G|].
    destruct (match c with Some c0 => negb (Color_eqb c0 (color p)) | None => false end) eqn:F;
      [discriminate|].
    apply anyM_true_In in H as (m & Hm & H).
    destruct (Square_equals m square) eqn:E; cbn [negb] in H; [|discriminate].
    apply Square_equals_eq in E. subst m.
    split; [|split; assumption].
    intros c' ->. apply negb_false_iff, Color_eqb_eq in F. now symmetry.
  - intros (k & p & G & Co & Hm & V).
    destruct r; [reflexivity|]. exfalso.
    rewrite anyM_false_In in H. specialize (H k (obj_get_Some_key _ _ _ G)).
    cbv beta in H. rewrite G in H.
    assert (F : match c with Some c0 => negb (Color_eqb c0 (color p)) | None => false end = false).
    { destruct c as [c0|]; [|reflexivity]. rewrite (Co c0 eq_refl).
      apply negb_false_iff, Color_eqb_eq. reflexivity. }
    rewrite F in H. rewrite anyM_false_In in H. specialize (H square Hm).
    cbv beta in H. rewrite Square_equals_refl in H. cbn [negb] in H. congruence.
Qed.

Lemma Board_isAttacked_E3_at_start :
  Board_isAttacked 1 startBoard (sq "E3") (Some WHITE) = Some true
  /\ exists k p,
      obj_get (_pieces startBoard) k = Some p
      /\ (forall c', Some WHITE = Some c' -> color p = c')
      /\ In (sq "E3") (validMoves p)
      /\ Piece_isMoveValid 1 startBoard p (sq "E3") (Some (js "Q")) = Some true.
Proof.
  split; [vm_compute; reflexivity|].
  exact (proj1 (Board_isAttacked_spec 1 startBoard (sq "E3") (Some WHITE) true
                  ltac:(vm_compute; reflexivity)) eq_refl).
Defined.

(** X13: asked without a color, [isAttacked] answers for both colors
    together: when the questions for White and for Black return, the
    question without color returns their disjunction. *)
Theorem Board_isAttacked_any_color (fuel : nat) (b : Board) (square : Square) (rw rb : bool) :
  Board_isAttacked fuel b square (Some WHITE) = Some rw ->
  Board_isAttacked fuel b square (Some BLACK) = Some rb ->
  Board_isAttacked fuel b square None = Some (rw || rb).
Proof.
  unfold Board_isAttacked, Board_isAttacked_with.
  induction (obj_keys (_pieces b)) as [|k l IH]; cbn [anyM].
  - intros [= <-] [= <-]. reflexivity.
  - destruct (obj_get (_pieces b) k) as [p|]; [|discriminate].
    destruct (color p); cbn [Color_eqb negb].
    + destruct (anyM _ (validMoves p)) as [[|]|]; try discriminate.
      * intros [= <-] _. reflexivity.
      * exact IH.
    + destruct (anyM _ (validMoves p)) as [[|]|]; try discriminate.
      * intros _ [= <-]. now rewrite orb_true_r.
      * exact IH.
Qed.

Lemma Board_isAttacked_any_color_E3 :
  Board_isAttacked 1 startBoard (sq "E3") (Some WHITE) = Some true
  /\ Board_isAttacked 1 startBoard (sq "E3") (Some BLACK) = Some false
  /\ Board_isAttacked 1 startBoard (sq "E3") None = Some true.
Proof.
  split; [vm_compute; reflexivity|]. split; [vm_compute; reflexivity|].
  exact (Board_isAttacked_any_color 1 startBoard (sq "E3") true false
           ltac:(vm_compute; reflexivity) ltac:(vm_compute; reflexivity)).
Defined.

(** X14: when [isInCheck] returns, it says whether some king of the
    color stands on a square that [isAttacked] reports for the other
    color; on a board without a king of the color it returns false. *)
Theorem Board_isInCheck_spec (fuel : nat) (b : Board) (c : Color) :
  (forall r, Board_isInCheck fuel b c = Some r ->
             (r = true <->
              exists k p,
                obj_get (_pieces b) k = Some p /\ type p = KING /\ color p = c
                /\ Board_isAttacked fuel b (location p) (Some (Color_swap c)) = Some true))
  /\ ((forall k p, obj_get (_pieces b) k = Some p -> type p = KING -> color p <> c) ->
      Board_isInCheck fuel b c = Some false).
Proof.
  unfold Board_isInCheck, Board_isInCheck_with. split.
  - intros r H. split.
    + intros ->. apply anyM_true_In in H as (k & Hk & H).
      destruct (obj_get (_pieces b) k) as [p|] eqn:G; [|discriminate].
      exists k, p. split; [exact G|].
      destruct (negb (PieceType_eqb (type p) KING) || negb (Color_eqb (color p) c)) eqn:F;
        [discriminate|].
      apply orb_false_iff in F as [T C].
      apply negb_false_iff, PieceType_eqb_eq in T. apply negb_false_iff, Color_eqb_eq in C.
      auto.
    + intros (k & p & G & T & C & A).
      destruct r; [reflexivity|]. exfalso.
      rewrite anyM_false_In in H. specialize (H k (obj_get_Some_key _ _ _ G)).
      cbv beta in H. rewrite G, T, C in H.
      assert (E : Color_eqb c c = true) by now apply Color_eqb_eq.
      rewrite E in H. cbn [PieceType_eqb negb orb] in H. congruence.
  - intros N. apply anyM_false_In. intros k Hk.
    destruct (obj_get (_pieces b) k) as [p|] eqn:G.
    + destruct (PieceType_eqb (type p) KING) eqn:T; [|reflexivity].
      destruct (Color_eqb (color p) c) eqn:C; [|reflexivity].
      apply PieceType_eqb_eq in T. apply Color_eqb_eq in C. now destruct (N k p G T).
    + now apply obj_get_key in Hk.
Qed.

(** ** The hash of a position *)

Lemma hashScanOrder_split :
  forallb (fun s =>
             Square_list_eqb hashScanOrder
               (filter (fun x => spec_scanLater x s) hashScanOrder
                ++ s :: filter (fun x => spec_scanLater s x) hashScanOrder))
          boardSquares = true.
Proof. vm_compute. reflexivity. Qed.

Lemma hash_loop_empty (ps : JsObject Piece) (l : list Square) (hash : Z) :
  (forall x, In x l -> obj_get ps (Square_asString x) = None) ->
  fold_left
    (fun hash sq =>
       match obj_get ps (Square_asString sq) with
       | None => hash
       | Some piece =>
           let pieceColorId := if Color_eqb (color piece) WHITE then 1 else 2 in
           ToInt32 (31 * (128 * pieceTypeId (type piece) + 64 * pieceColorId
                          + rankNumber (location piece) * 8 + fileNumber (location piece)))
       end) l hash = hash.
Proof.
  revert hash; induction l as [|x l IH]; intros hash E; [reflexivity|].
  cbn [fold_left]. rewrite (E x (or_introl eq_refl)). apply IH.
  intros y Hy. apply E. now right.
Qed.

(** X15: [calculateHash] returns the cached string while the cache is
    valid.  Otherwise the hash is the contribution of one piece only,
    the last one met when the squares are visited file by file: a
    position is hashed to 31 * (128 * type + 64 * color + 8 * rank +
    file) of the piece on the highest occupied square of the highest
    occupied file, whatever else stands on the board, and to 7 when the
    board is empty.  The result is cached. *)
Theorem Board_calculateHash_spec (b : Board) :
  (_dirty b = false -> Board_calculateHash b = (_hash b, b))
  /\ (_dirty b = true ->
      (forall s p,
          Square_isValid s = true ->
          Board_getPiece b s = Some p ->
          (forall s', Square_isValid s' = true -> spec_scanLater s s' = true ->
                      Board_getPiece b s' = None) ->
          fst (Board_calculateHash b) = Number_toString (spec_pieceHash p))
      /\ ((forall s, Square_isValid s = true -> Board_getPiece b s = None) ->
          fst (Board_calculateHash b) = js "7")
      /\ _dirty (snd (Board_calculateHash b)) = false
      /\ _hash (snd (Board_calculateHash b)) = fst (Board_calculateHash b)).
Proof.
  unfold Board_calculateHash. split; intros D; rewrite D; cbn [negb]; [reflexivity|].
  cbn [fst snd]. split; [|split; [|split; reflexivity]].
  - intros s p V G L. f_equal.
    pose proof (boardSquares_forall _ hashScanOrder_split s V) as S. cbv beta in S.
    apply Square_list_eqb_eq in S. rewrite S at 1.
    rewrite fold_left_app. cbn [fold_left].
    unfold Board_getPiece in G. rewrite G.
    rewrite hash_loop_empty; [reflexivity|].
    intros x Hx. apply filter_In in Hx as [Hx La].
    apply (L x); [|exact La].
    apply in_flat_map in Hx as (f & Hf & Hx). apply in_map_iff in Hx as (r & <- & Hr).
    apply Square_isValid_iff. unfold Square_new. cbn [fileNumber rankNumber].
    cbn [In] in Hf, Hr. lia.
  - intros E. f_equal. rewrite hash_loop_empty; [reflexivity|].
    intros x Hx. apply (E x).
    apply in_flat_map in Hx as (f & Hf & Hx). apply in_map_iff in Hx as (r & <- & Hr).
    apply Square_isValid_iff. unfold Square_new. cbn [fileNumber rankNumber].
    cbn [In] in Hf, Hr. lia.
Qed.

(** ** What the operations of the board change *)

Lemma jsstring_eqb_sym (a b : jsstring) : jsstring_eqb a b = jsstring_eqb b a.
Proof.
  destruct (jsstring_eqb a b) eqn:E.
  - apply jsstring_eqb_eq in E. subst. symmetry. apply jsstring_eqb_refl.
  - symmetry. apply jsstring_eqb_neq. apply jsstring_eqb_neq in E. congruence.
Qed.

Lemma obj_get_set {V : Type} (o : JsObject V) (k k' : jsstring) (v : V) :
  obj_get (obj_set o k v) k' = if jsstring_eqb k k' then Some v else obj_get o k'.
Proof.
  destruct (jsstring_eqb k k') eqn:E.
  - apply jsstring_eqb_eq in E. subst. apply obj_get_set_same.
  - apply jsstring_eqb_neq in E. now apply obj_get_set_other.
Qed.

Lemma obj_get_delete {V : Type} (o : JsObject V) (k k' : jsstring) :
  obj_get (obj_delete o k) k' = if jsstring_eqb k k' then None else obj_get o k'.
Proof.
  destruct (jsstring_eqb k k') eqn:E.
  - apply jsstring_eqb_eq in E. subst. apply obj_get_delete_same.
  - apply jsstring_eqb_neq in E. now apply obj_get_delete_other.
Qed.

Lemma Board_view_setPiece (b : Board) (p : Piece) (k : jsstring) :
  Board_view (Board_setPiece b p) k
  = if jsstring_eqb (Square_asString (location p)) k then Some (Piece_fields p)
    else Board_view b k.
Proof.
  unfold Board_view, Board_setPiece, Board_with_pieces. cbn [_pieces].
  rewrite obj_get_set. now destruct (jsstring_eqb _ _).
Qed.

Lemma Board_view_removePieceAt (b : Board) (s : Square) (k : jsstring) :
  Board_view (Board_removePieceAt b s) k
  = if jsstring_eqb (Square_asString s) k then None else Board_view b k.
Proof.
  unfold Board_view, Board_removePieceAt, Board_with_pieces. cbn [_pieces].
  rewrite obj_get_delete. now destruct (jsstring_eqb _ _).
Qed.

Lemma Piece_fields_recalculate (b : Board) (p : Piece) :
  Piece_fields (Piece_recalculateValidMoves b p) = Piece_fields p.
Proof.
  unfold Piece_fields. destruct (Piece_recalculateValidMoves_fields b p) as (-> & -> & ->).
  reflexivity.
Qed.

Lemma Board_recalculateAllPiecesMoves_fold (b : Board) :
  Board_recalculateAllPiecesMoves b = fold_left recalculate_step (obj_keys (_pieces b)) b.
Proof. reflexivity. Qed.

Lemma recalculate_step_keeps (b : Board) (k : jsstring) :
  highlightedSquares (recalculate_step b k) = highlightedSquares b
  /\ lastMove (recalculate_step b k) = lastMove b
  /\ castlingRights (recalculate_step b k) = castlingRights b
  /\ enPassantSquare (recalculate_step b k) = enPassantSquare b
  /\ _dirty (recalculate_step b k) = _dirty b
  /\ _hash (recalculate_step b k) = _hash b
  /\ obj_keys (_pieces (recalculate_step b k)) = obj_keys (_pieces b)
  /\ (forall k', Board_view (recalculate_step b k) k' = Board_view b k').
Proof.
  unfold recalculate_step. destruct (obj_get (_pieces b) k) as [p|] eqn:G.
  - repeat split; try reflexivity.
    + cbn [_pieces Board_with_pieces]. apply obj_keys_set_present. congruence.
    + intros k'. unfold Board_view. cbn [_pieces Board_with_pieces]. rewrite obj_get_set.
      destruct (jsstring_eqb k k') eqn:E; [|reflexivity].
      apply jsstring_eqb_eq in E. subst k'. rewrite G. cbn [option_map].
      now rewrite Piece_fields_recalculate.
  - repeat split; reflexivity.
Qed.

Lemma recalculate_loop_keeps (ks : list jsstring) (b : Board) :
  let b' := fold_left recalculate_step ks b in
  highlightedSquares b' = highlightedSquares b
  /\ lastMove b' = lastMove b
  /\ castlingRights b' = castlingRights b
  /\ enPassantSquare b' = enPassantSquare b
  /\ _dirty b' = _dirty b
  /\ _hash b' = _hash b
  /\ obj_keys (_pieces b') = obj_keys (_pieces b)
  /\ (forall k', Board_view b' k' = Board_view b k').
Proof.
  revert b; induction ks as [|k ks IH]; intros b; cbn [fold_left].
  - repeat split; reflexivity.
  - destruct (IH (recalculate_step b k)) as (A1 & A2 & A3 & A4 & A5 & A6 & A7 & A8).
    destruct (recalculate_step_keeps b k) as (B1 & B2 & B3 & B4 & B5 & B6 & B7 & B8).
    cbv zeta. repeat split; try congruence; intros k'; now rewrite A8, B8.
Qed.

Lemma Board_recalculateAllPiecesMoves_keeps (b : Board) :
  highlightedSquares (Board_recalculateAllPiecesMoves b) = highlightedSquares b
  /\ lastMove (Board_recalculateAllPiecesMoves b) = lastMove b
  /\ castlingRights (Board_recalculateAllPiecesMoves b) = castlingRights b
  /\ enPassantSquare (Board_recalculateAllPiecesMoves b) = enPassantSquare b
  /\ _dirty (Board_recalculateAllPiecesMoves b) = _dirty b
  /\ _hash (Board_recalculateAllPiecesMoves b) = _hash b
  /\ obj_keys (_pieces (Board_recalculateAllPiecesMoves b)) = obj_keys (_pieces b)
  /\ (forall k', Board_view (Board_recalculateAllPiecesMoves b) k' = Board_view b k').
Proof. rewrite Board_recalculateAllPiecesMoves_fold. apply recalculate_loop_keeps. Qed.

(** After the loop every visited piece carries recalculated candidates. *)
Lemma recalculate_loop_recalculated (ks : list jsstring) (b : Board) (k : jsstring) (p : Piece) :
  obj_get (_pieces (fold_left recalculate_step ks b)) k = Some p ->
  (In k ks \/ exists q, obj_get (_pieces b) k = Some q /\ Piece_recalculated b q) ->
  Piece_recalculated b p.
Proof.
  revert b; induction ks as [|k0 ks IH]; intros b G H; cbn [fold_left] in G.
  - destruct H as [[]|(q & Gq & R)]. congruence.
  - destruct (recalculate_step_keeps b k0) as (_ & _ & Rt & _).
    assert (T : Piece_recalculated (recalculate_step b k0) p -> Piece_recalculated b p).
    { intros (b0 & p0 & E & ->). exists b0, p0. split; [congruence|reflexivity]. }
    apply T. apply (IH _ G).
    destruct (jsstring_eqb k0 k) eqn:E.
    + apply jsstring_eqb_eq in E. subst k0.
      destruct (obj_get (_pieces b) k) as [q|] eqn:Gq.
      * right. exists (Piece_recalculateValidMoves b q).
        unfold recalculate_step. rewrite Gq. cbn [_pieces Board_with_pieces].
        rewrite obj_get_set_same. split; [reflexivity|].
        exists b, q. split; reflexivity.
      * exfalso.
        pose proof (recalculate_loop_keeps ks (recalculate_step b k)) as L. cbv zeta in L.
        destruct L as (_ & _ & _ & _ & _ & _ & _ & Vw).
        destruct (recalculate_step_keeps b k) as (_ & _ & _ & _ & _ & _ & _ & Vw').
        specialize (Vw k). rewrite Vw' in Vw. unfold Board_view in Vw.
        rewrite G, Gq in Vw. discriminate.
    + apply jsstring_eqb_neq in E.
      destruct H as [[->|I]|(q & Gq & R)]; [contradiction|now left|].
      right. exists q. split.
      * unfold recalculate_step. destruct (obj_get (_pieces b) k0); [|exact Gq].
        cbn [_pieces Board_with_pieces]. now rewrite obj_get_set_other.
      * destruct R as (b0 & p0 & E0 & ->). exists b0, p0. split; [congruence|reflexivity].
Qed.

Lemma Board_recalculateAllPiecesMoves_recalculated (b : Board) (k : jsstring) (p : Piece) :
  obj_get (_pieces (Board_recalculateAllPiecesMoves b)) k = Some p ->
  Piece_recalculated (Board_recalculateAllPiecesMoves b) p.
Proof.
  intros G.
  assert (R : Piece_recalculated b p).
  { rewrite Board_recalculateAllPiecesMoves_fold in G.
    apply (recalculate_loop_recalculated _ _ _ _ G). left.
    destruct (Board_recalculateAllPiecesMoves_keeps b) as (_ & _ & _ & _ & _ & _ & K & _).
    rewrite <- K. rewrite Board_recalculateAllPiecesMoves_fold.
    now apply obj_get_Some_key in G. }
  destruct R as (b0 & p0 & E & ->). exists b0, p0. split; [|reflexivity].
  destruct (Board_recalculateAllPiecesMoves_keeps b) as (_ & _ & Rt & _). congruence.
Qed.

(** Well-formedness is a property of what the board shows. *)
Lemma Board_wf_view (b b' : Board) :
  Board_wf b ->
  NoDup (obj_keys (_pieces b')) ->
  (forall k f, Board_view b' k = Some f ->
               Board_view b k = Some f
               \/ (k = Square_asString (snd f) /\ Square_isValid (snd f) = true)) ->
  Board_wf b'.
Proof.
  intros [_ W] N H. split; [exact N|].
  intros k p G.
  assert (V : Board_view b' k = Some (Piece_fields p)).
  { unfold Board_view. now rewrite G. }
  destruct (H _ _ V) as [V'|V']; [|exact V'].
  unfold Board_view in V'. destruct (obj_get (_pieces b) k) as [q|] eqn:Gq; [|discriminate].
  cbn [option_map] in V'. injection V' as E.
  destruct (W k q Gq) as [A B].
  assert (L : location q = location p).
  { unfold Piece_fields in E. congruence. }
  rewrite <- L. auto.
Qed.

Lemma Board_wf_setPiece (b : Board) (p : Piece) :
  Board_wf b -> Square_isValid (location p) = true -> Board_wf (Board_setPiece b p).
Proof.
  intros W V. apply (Board_wf_view b); [exact W| |].
  - unfold Board_setPiece, Board_with_pieces. cbn [_pieces]. apply obj_set_NoDup, W.
  - intros k f. rewrite Board_view_setPiece.
    destruct (jsstring_eqb _ k) eqn:E; [|now left].
    apply jsstring_eqb_eq in E. intros [= <-]. right. cbn [snd Piece_fields]. auto.
Qed.

Lemma Board_wf_removePieceAt (b : Board) (s : Square) :
  Board_wf b -> Board_wf (Board_removePieceAt b s).
Proof.
  intros W. apply (Board_wf_view b); [exact W| |].
  - unfold Board_removePieceAt, Board_with_pieces. cbn [_pieces]. apply obj_delete_NoDup, W.
  - intros k f. rewrite Board_view_removePieceAt.
    destruct (jsstring_eqb _ k); [discriminate|now left].
Qed.

Lemma Board_wf_recalculate (b : Board) :
  Board_wf b -> Board_wf (Board_recalculateAllPiecesMoves b).
Proof.
  intros W. destruct (Board_recalculateAllPiecesMoves_keeps b) as (_ & _ & _ & _ & _ & _ & K & Vw).
  apply (Board_wf_view b); [exact W| |].
  - rewrite K. apply W.
  - intros k f. rewrite Vw. now left.
Qed.

Lemma Board_wf_same_pieces (b b' : Board) :
  _pieces b' = _pieces b -> Board_wf b -> Board_wf b'.
Proof. unfold Board_wf. now intros ->. Qed.

(** ** What a committed move changes *)

Lemma Board_makeMoveIfValid_steps (fuel : nat) (h : Heap) (b : Board) (from to : Square)
      (extra : option jsstring) (b' : Board) (h' : Heap) :
  Board_makeMoveIfValid fuel h b from to extra = Some (true, b', h') ->
  exists piece b4 lm',
    Board_getPiece b from = Some piece
    /\ Piece_isMoveValid fuel b piece to extra = Some true
    /\ (forall d, Board_getPiece b to = Some d -> color d <> color piece)
    /\ Piece_afterMove h
         (Board_setPiece
            (Board_removePieceAt
               (match Board_getPiece b to with
                | Some _ => Board_removePieceAt b to
                | None => b
                end) from)
            (Piece_updateLocation
               (Board_removePieceAt
                  (match Board_getPiece b to with
                   | Some _ => Board_removePieceAt b to
                   | None => b
                   end) from) piece to))
         (Piece_updateLocation
            (Board_removePieceAt
               (match Board_getPiece b to with
                | Some _ => Board_removePieceAt b to
                | None => b
                end) from) piece to)
         (Moves.mkMove
            (Some (Piece_updateLocation
                     (Board_removePieceAt
                        (match Board_getPiece b to with
                         | Some _ => Board_removePieceAt b to
                         | None => b
                         end) from) piece to))
            from to (negb (isNone (Board_getPiece b to))) extra)
       = Some (b4, lm', h')
    /\ b' = Board_with_lastMove (Board_recalculateAllPiecesMoves b4) (Some lm') [to; from].
Proof.
  unfold Board_makeMoveIfValid.
  destruct (Board_getPiece b from) as [piece|]; [|discriminate].
  destruct (Piece_isMoveValid fuel b piece to extra) as [[]|] eqn:V; try discriminate.
  destruct (match Board_getPiece b to with Some d => _ | None => false end) eqn:Own;
    [discriminate|].
  match goal with
  | |- match Piece_afterMove h ?b3 ?moved ?lm with _ => _ end = _ -> _ =>
      destruct (Piece_afterMove h b3 moved lm) as [[[b4 lm'] h1]|] eqn:A; [|discriminate];
      intros [= <- <-]; exists piece, b4, lm'
  end.
  split; [reflexivity|]. split; [exact V|]. split; [|split; [exact A|reflexivity]].
  intros d E. rewrite E in Own. intros C. rewrite C in Own.
  assert (X : Color_eqb (color piece) (color piece) = true) by now apply Color_eqb_eq.
  congruence.
Qed.

Lemma Board_view_prepared (b : Board) (piece : Piece) (from to : Square) (k : jsstring) :
  Board_view
    (Board_setPiece
       (Board_removePieceAt
          (match Board_getPiece b to with
           | Some _ => Board_removePieceAt b to
           | None => b
           end) from)
       (Piece_updateLocation
          (Board_removePieceAt
             (match Board_getPiece b to with
              | Some _ => Board_removePieceAt b to
              | None => b
              end) from) piece to)) k
  = if jsstring_eqb (Square_asString to) k then Some (type piece, color piece, to)
    else if jsstring_eqb (Square_asString from) k then None
    else Board_view b k.
Proof.
  rewrite Board_view_setPiece.
  unfold Piece_updateLocation.
  destruct (Piece_recalculateValidMoves_fields
              (Board_removePieceAt
                 (match Board_getPiece b to with
                  | Some _ => Board_removePieceAt b to
                  | None => b
                  end) from) (Piece_with_location piece to)) as (Ty & Co & Lo).
  unfold Piece_fields. rewrite Ty, Co, Lo. cbn [Piece_with_location type color location].
  destruct (jsstring_eqb (Square_asString to) k) eqn:E; [reflexivity|].
  rewrite Board_view_removePieceAt.
  destruct (jsstring_eqb (Square_asString from) k); [reflexivity|].
  destruct (Board_getPiece b to); [|reflexivity].
  rewrite Board_view_removePieceAt. now rewrite E.
Qed.

Lemma Board_view_with_enPassantSquare (b : Board) (ep : option SquareObj) (k : jsstring) :
  Board_view (Board_with_enPassantSquare b ep) k = Board_view b k.
Proof. reflexivity. Qed.

Lemma Board_view_afterMove_base (b : Board) (k : jsstring) :
  Board_view (Piece_afterMove_base b) k = Board_view b k.
Proof. reflexivity. Qed.

Lemma Piece_instantiate_location (t : PieceType) (c : Color) (b : Board) (s : Square) :
  location (Piece_instantiate t c b s) = s.
Proof. apply Piece_instantiate_fields. Qed.

Lemma Piece_fields_instantiate (t : PieceType) (c : Color) (b : Board) (s : Square) :
  Piece_fields (Piece_instantiate t c b s) = (t, c, s).
Proof.
  unfold Piece_fields. destruct (Piece_instantiate_fields t c b s) as (-> & -> & ->).
  reflexivity.
Qed.

Lemma Pawn_afterMove_view (h : Heap) (b : Board) (this : Piece) (move : Moves.Move)
      (k : jsstring) :
  Board_view (fst (fst (Pawn_afterMove h b this move))) k
  = if ((rankNumber (Moves.to move) =? 1) || (rankNumber (Moves.to move) =? 8))
       && jsstring_eqb (Square_asString (Moves.to move)) k
    then Some (Pawn_newPieceType (Moves.extra move), color this, Moves.to move)
    else if ontoEnPassantSquare b (Moves.to move)
            && jsstring_eqb
                 (Square_asString (spec_enPassantVictim (Moves.from move) (Moves.to move))) k
         then None
         else Board_view b k.
Proof.
  unfold Pawn_afterMove, ontoEnPassantSquare, spec_enPassantVictim.
  destruct (Square_equals_maybe _ _); destruct (_ + _ =? _);
    cbn [fst snd heap_alloc Moves.with_capture Moves.to Moves.from Moves.extra];
    destruct ((rankNumber (Moves.to move) =? 1) || (rankNumber (Moves.to move) =? 8));
    cbn [andb];
    repeat first [ rewrite Board_view_setPiece
                 | rewrite Board_view_removePieceAt
                 | rewrite Board_view_with_enPassantSquare
                 | rewrite Board_view_afterMove_base
                 | rewrite Piece_instantiate_location
                 | rewrite Piece_fields_instantiate ];
    try (destruct (jsstring_eqb (Square_asString (Moves.to move)) k); [reflexivity|]);
    reflexivity.
Qed.

Lemma Board_view_revoke (b : Board) (c : Color) (k : jsstring) :
  Board_view (Board_revokeShort b c) k = Board_view b k
  /\ Board_view (Board_revokeLong b c) k = Board_view b k.
Proof. split; reflexivity. Qed.

Lemma Board_view_getPiece (b : Board) (s : Square) :
  Board_view b (Square_asString s) = option_map Piece_fields (Board_getPiece b s).
Proof. reflexivity. Qed.

Lemma King_afterMove_view (b : Board) (this : Piece) (move : Moves.Move) (b' : Board) :
  King_afterMove b this move = Some b' ->
  match spec_castlingRook (Moves.from move)
          (Square_new (fileNumber (Moves.to move)) (rankNumber (location this))) with
  | Some (rookFrom, rookTo) =>
      exists rook,
        Board_getPiece b rookFrom = Some rook
        /\ forall k,
            Board_view b' k
            = if jsstring_eqb (Square_asString rookTo) k
              then Some (type rook, color rook, rookTo)
              else if jsstring_eqb (Square_asString rookFrom) k then None
              else Board_view b k
  | None => forall k, Board_view b' k = Board_view b k
  end.
Proof.
  unfold King_afterMove, spec_castlingRook. cbn [Square_new fileNumber rankNumber].
  destruct (Z.eqb_spec (fileNumber (Moves.to move)) (fileNumber (Moves.from move) - 2)) as [L|L];
    destruct (Z.eqb_spec (fileNumber (Moves.to move)) (fileNumber (Moves.from move) + 2))
      as [S|S]; try (exfalso; lia).
  - destruct (Board_getPiece (Piece_afterMove_base b) _) as [rook|] eqn:G; [|discriminate].
    intros [= <-]. exists rook. split; [exact G|].
    intros k. rewrite (proj1 (Board_view_revoke _ _ _)), (proj2 (Board_view_revoke _ _ _)).
    rewrite Board_view_setPiece. unfold Piece_updateLocation.
    rewrite Piece_fields_recalculate.
    destruct (Piece_recalculateValidMoves_fields
                (Board_removePieceAt (Piece_afterMove_base b)
                   (Square_new 1 (rankNumber (location this))))
                (Piece_with_location rook (Square_new 4 (rankNumber (location this)))))
      as (_ & _ & Lo).
    rewrite Lo. cbn [Piece_with_location location Piece_fields type color].
    destruct (jsstring_eqb _ k); [reflexivity|].
    rewrite Board_view_removePieceAt. reflexivity.
  - destruct (Board_getPiece (Piece_afterMove_base b) _) as [rook|] eqn:G; [|discriminate].
    intros [= <-]. exists rook. split; [exact G|].
    intros k. rewrite (proj1 (Board_view_revoke _ _ _)), (proj2 (Board_view_revoke _ _ _)).
    rewrite Board_view_setPiece. unfold Piece_updateLocation.
    rewrite Piece_fields_recalculate.
    destruct (Piece_recalculateValidMoves_fields
                (Board_removePieceAt (Piece_afterMove_base b)
                   (Square_new 8 (rankNumber (location this))))
                (Piece_with_location rook (Square_new 6 (rankNumber (location this)))))
      as (_ & _ & Lo).
    rewrite Lo. cbn [Piece_with_location location Piece_fields type color].
    destruct (jsstring_eqb _ k); [reflexivity|].
    rewrite Board_view_removePieceAt. reflexivity.
  - intros [= <-]. intros k.
    now rewrite (proj1 (Board_view_revoke _ _ _)), (proj2 (Board_view_revoke _ _ _)).
Qed.

(** What [afterMove] leaves alone. *)
Lemma Piece_afterMove_keeps (h : Heap) (b : Board) (this : Piece) (move : Moves.Move)
      (b' : Board) (move' : Moves.Move) (h' : Heap) :
  Piece_afterMove h b this move = Some (b', move', h') ->
  highlightedSquares b' = highlightedSquares b
  /\ lastMove b' = lastMove b
  /\ (type this <> PAWN -> enPassantSquare b' = None /\ h' = h)
  /\ (type this = PAWN ->
      (enPassantSquare b', h')
      = if rankNumber (Moves.from move) + Pawn_getAdvanceDirection this * 2
           =? rankNumber (Moves.to move)
        then (Some (mkSquareObj h (Square_relative (Moves.from move) 0
                                     (Pawn_getAdvanceDirection this))), Pos.succ h)
        else (None, h)).
Proof.
  unfold Piece_afterMove. destruct (type this) eqn:T.
  - unfold Pawn_afterMove.
    destruct (Square_equals_maybe _ _); destruct (_ + _ =? _) eqn:D;
      cbn [fst snd heap_alloc Moves.with_capture Moves.to Moves.from Moves.extra] in *;
      rewrite ?D;
      destruct ((rankNumber (Moves.to move) =? 1) || (rankNumber (Moves.to move) =? 8));
      intros [= <- <- <-]; repeat split; try reflexivity; intros; congruence.
  - intros [= <- <- <-]. unfold Rook_afterMove.
    destruct (_ =? 8), (_ =? 1); repeat split; try reflexivity; intros; congruence.
  - intros [= <- <- <-]. repeat split; try reflexivity; intros; congruence.
  - intros [= <- <- <-]. repeat split; try reflexivity; intros; congruence.
  - intros [= <- <- <-]. repeat split; try reflexivity; intros; congruence.
  - destruct (King_afterMove b this move) as [b1|] eqn:K; [|discriminate].
    intros [= <- <- <-]. unfold King_afterMove in K.
    destruct (_ =? _) in K; [|destruct (_ =? _) in K];
      try (destruct (Board_getPiece _ _) in K; [|discriminate]);
      injection K as <-; repeat split; try reflexivity; intros; congruence.
Qed.

Lemma Square_new_eta (s : Square) : Square_new (fileNumber s) (rankNumber s) = s.
Proof. now destruct s. Qed.

Lemma Board_makeMoveIfValid_view (fuel : nat) (h : Heap) (b : Board) (from to : Square)
      (extra : option jsstring) (b' : Board) (h' : Heap) :
  Board_makeMoveIfValid fuel h b from to extra = Some (true, b', h') ->
  exists mover,
    Board_getPiece b from = Some mover
    /\ Piece_isMoveValid fuel b mover to extra = Some true
    /\ (forall d, Board_getPiece b to = Some d -> color d <> color mover)
    /\ forall k, Board_view b' k = Board_viewAfterMove b mover from to extra k.
Proof.
  intros H. apply Board_makeMoveIfValid_steps in H as (piece & b4 & lm' & G & V & Own & A & ->).
  exists piece. split; [exact G|]. split; [exact V|]. split; [exact Own|].
  intros k.
  destruct (Board_recalculateAllPiecesMoves_keeps b4) as (_ & _ & _ & _ & _ & _ & _ & Vw).
  change (Board_view (Board_with_lastMove (Board_recalculateAllPiecesMoves b4) (Some lm')
                        [to; from]) k)
    with (Board_view (Board_recalculateAllPiecesMoves b4) k).
  rewrite Vw. clear Vw.
  set (b1 := match Board_getPiece b to with
             | Some _ => Board_removePieceAt b to
             | None => b
             end) in *.
  set (b2 := Board_removePieceAt b1 from) in *.
  set (moved := Piece_updateLocation b2 piece to) in *.
  set (b3 := Board_setPiece b2 moved) in *.
  assert (P : forall k, Board_view b3 k
                        = if jsstring_eqb (Square_asString to) k
                          then Some (type piece, color piece, to)
                          else if jsstring_eqb (Square_asString from) k then None
                          else Board_view b k).
  { intros k0. apply Board_view_prepared. }
  destruct (Piece_recalculateValidMoves_fields b2 (Piece_with_location piece to))
    as (Ty & Co & Lo).
  fold (Piece_updateLocation b2 piece to) in Ty, Co, Lo. fold moved in Ty, Co, Lo.
  cbn [Piece_with_location type color location] in Ty, Co, Lo.
  unfold Board_viewAfterMove. cbv zeta.
  unfold Piece_afterMove in A. rewrite Ty in A.
  destruct (type piece) eqn:T.
  - injection A as A.
    pose proof (Pawn_afterMove_view h b3 moved
                  (Moves.mkMove (Some moved) from to (negb (isNone (Board_getPiece b to))) extra)
                  k) as W.
    rewrite A in W. cbn [fst Moves.to Moves.from Moves.extra] in W.
    rewrite W, Co, P.
    assert (Ep : ontoEnPassantSquare b3 to = ontoEnPassantSquare b to).
    { unfold ontoEnPassantSquare, b3, b2, b1. destruct (Board_getPiece b to); reflexivity. }
    rewrite Ep. reflexivity.
  - injection A as <- _ _. unfold Rook_afterMove.
    destruct (_ =? 8), (_ =? 1); apply P.
  - injection A as <- _ _. apply P.
  - injection A as <- _ _. apply P.
  - injection A as <- _ _. apply P.
  - destruct (King_afterMove b3 moved _) as [b5|] eqn:K; [|discriminate].
    injection A as <- _ _.
    apply King_afterMove_view in K.
    cbn [Moves.to Moves.from] in K. rewrite Lo, Square_new_eta in K.
    destruct (spec_castlingRook from to) as [[rookFrom rookTo]|].
    + destruct K as (rook & Gr & K). rewrite K, !P.
      pose proof (Board_view_getPiece b3 rookFrom) as R. rewrite Gr, P in R.
      cbn [option_map] in R. rewrite R. reflexivity.
    + rewrite K. apply P.
Qed.

Lemma Square_key_eqb (a b : Square) :
  Square_isValid a = true -> Square_isValid b = true ->
  jsstring_eqb (Square_asString a) (Square_asString b) = Square_equals a b.
Proof.
  intros Va Vb. destruct (Square_equals a b) eqn:E.
  - apply Square_equals_eq in E. subst. apply jsstring_eqb_refl.
  - apply jsstring_eqb_neq. now apply Square_asString_neq.
Qed.

Lemma Board_wf_location (b : Board) (s : Square) (p : Piece) :
  Board_wf b -> Square_isValid s = true -> Board_getPiece b s = Some p ->
  location p = s /\ In (Square_asString s) (obj_keys (_pieces b)).
Proof.
  intros [_ W] V G. unfold Board_getPiece in G.
  destruct (W _ _ G) as [K Vp]. split.
  - symmetry. now apply Square_asString_inj.
  - now apply obj_get_Some_key in G.
Qed.

Lemma Piece_isMoveValid_candidate (fuel : nat) (b : Board) (p : Piece) (to : Square)
      (extra : option jsstring) :
  Piece_isMoveValid fuel b p to extra = Some true ->
  Square_isValid to = true /\ In to (validMoves p).
Proof.
  intros H. apply Piece_isMoveValid_base_In.
  pose proof (Piece_isMoveValid_dispatch fuel b p to extra) as D.
  destruct (type p) eqn:T.
  - rewrite D in H. injection H as H. unfold Pawn_isMoveValid in H.
    destruct (Piece_isMoveValid_base p to); [reflexivity|discriminate].
  - rewrite D in H. injection H as H. unfold Slider_isMoveValid in H.
    destruct (Piece_isMoveValid_base p to); [reflexivity|discriminate].
  - rewrite D in H. now injection H as H.
  - rewrite D in H. injection H as H. unfold Slider_isMoveValid in H.
    destruct (Piece_isMoveValid_base p to); [reflexivity|discriminate].
  - rewrite D in H. injection H as H. unfold Slider_isMoveValid in H.
    destruct (Piece_isMoveValid_base p to); [reflexivity|discriminate].
  - destruct fuel; cbn [Piece_isMoveValid] in H; rewrite T in H;
      unfold King_isMoveValid in H;
      (destruct (Piece_isMoveValid_base p to); [reflexivity|discriminate]).
Qed.

(** A king that is allowed to go two files away stands on the home
    square of its color and still has the right. *)
Lemma King_castle_home (fuel : nat) (b : Board) (p : Piece) (to : Square)
      (extra : option jsstring) (kingside : bool) :
  type p = KING ->
  Square_isValid (location p) = true ->
  fileNumber to = fileNumber (location p) + (if kingside then 2 else -2) ->
  Piece_isMoveValid fuel b p to extra = Some true ->
  location p = spec_homeSquare (color p)
  /\ by_color ((if kingside then short else long) (castlingRights b)) (color p) = true
  /\ exists rook,
      Board_getPiece b (Square_newLetter (if kingside then "H" else "A")
                                         (rankNumber (location p))) = Some rook
      /\ color rook = color p /\ type rook = ROOK.
Proof.
  intros T V F H.
  assert (K : exists attacked, King_isMoveValid attacked b p to = Some true).
  { destruct fuel; cbn [Piece_isMoveValid] in H; rewrite T in H; eexists; exact H. }
  destruct K as (attacked & K).
  apply (King_isMoveValid_castle_inv attacked b p to kingside F) in K as (R & _ & K).
  apply King_validateCanCastle_inv in K as (Home & rook & G & C & Ty & _).
  split; [|split; [exact R|]].
  - apply Square_asString_inj; [exact V| |exact Home]. now destruct (color p).
  - exists rook. auto.
Qed.

Lemma Piece_afterMove_wf (h : Heap) (b : Board) (this : Piece) (move : Moves.Move)
      (b' : Board) (move' : Moves.Move) (h' : Heap) :
  Piece_afterMove h b this move = Some (b', move', h') ->
  Board_wf b ->
  Square_isValid (location this) = true ->
  Square_isValid (Moves.to move) = true ->
  Board_wf b'.
Proof.
  intros A W Vl Vt. unfold Piece_afterMove in A. destruct (type this).
  - injection A as A. apply (f_equal (fun x => fst (fst x))) in A. cbn [fst] in A. subst b'.
    unfold Pawn_afterMove.
    destruct (Square_equals_maybe _ _); destruct (_ + _ =? _);
      cbn [fst snd heap_alloc Moves.with_capture Moves.to Moves.from Moves.extra];
      destruct ((rankNumber (Moves.to move) =? 1) || (rankNumber (Moves.to move) =? 8));
      repeat first [ apply Board_wf_setPiece; [|now rewrite Piece_instantiate_location]
                   | apply Board_wf_removePieceAt
                   | exact W
                   | refine (Board_wf_same_pieces _ _ eq_refl _) ].
  - injection A as <- _ _. unfold Rook_afterMove.
    destruct (_ =? 8), (_ =? 1); exact W.
  - injection A as <- _ _. exact W.
  - injection A as <- _ _. exact W.
  - injection A as <- _ _. exact W.
  - destruct (King_afterMove b this move) as [b1|] eqn:K; [|discriminate].
    injection A as <- _ _. unfold King_afterMove in K.
    assert (Vr : forall n, 1 <= n <= 8 ->
                           Square_isValid (Square_new n (rankNumber (location this))) = true).
    { intros n Hn. apply Square_isValid_iff. apply Square_isValid_iff in Vl.
      unfold Square_new. cbn [fileNumber rankNumber]. lia. }
    destruct (_ =? _) in K; [|destruct (_ =? _) in K];
      try (destruct (Board_getPiece _ _) as [rook|] in K; [|discriminate]);
      injection K as <-;
      refine (Board_wf_same_pieces _ _ eq_refl _);
      try exact W;
      (apply Board_wf_setPiece;
       [ apply Board_wf_removePieceAt; exact W
       | unfold Piece_updateLocation;
         rewrite (proj2 (proj2 (Piece_recalculateValidMoves_fields _ _)));
         cbn [Piece_with_location location]; apply Vr; lia ]).
Qed.

Lemma Board_makeMoveIfValid_wf (fuel : nat) (h : Heap) (b : Board) (from to : Square)
      (extra : option jsstring) (b' : Board) (h' : Heap) :
  Board_makeMoveIfValid fuel h b from to extra = Some (true, b', h') ->
  Board_wf b -> Board_wf b'.
Proof.
  intros H W. apply Board_makeMoveIfValid_steps in H as (piece & b4 & lm' & G & V & Own & A & ->).
  apply Piece_isMoveValid_candidate in V as [Vt _].
  refine (Board_wf_same_pieces _ _ eq_refl _).
  apply Board_wf_recalculate.
  assert (Lo : location (Piece_updateLocation
                           (Board_removePieceAt
                              (match Board_getPiece b to with
                               | Some _ => Board_removePieceAt b to
                               | None => b
                               end) from) piece to) = to).
  { unfold Piece_updateLocation.
    now rewrite (proj2 (proj2 (Piece_recalculateValidMoves_fields _ _))). }
  apply (Piece_afterMove_wf _ _ _ _ _ _ _ A); [|now rewrite Lo|exact Vt].
  apply Board_wf_setPiece; [|now rewrite Lo].
  apply Board_wf_removePieceAt. destruct (Board_getPiece b to); [|exact W].
  now apply Board_wf_removePieceAt.
Qed.

Lemma Board_view_None (b : Board) (s : Square) :
  Board_view b (Square_asString s) = None <-> Board_getPiece b s = None.
Proof.
  unfold Board_view, Board_getPiece. destruct (obj_get _ _); cbn [option_map]; split;
    intros H; try reflexivity; discriminate.
Qed.

Lemma Pawn_move_changes_rank (fuel : nat) (b : Board) (p : Piece) (to : Square)
      (extra : option jsstring) :
  type p = PAWN ->
  Piece_isMoveValid fuel b p to extra = Some true ->
  rankNumber to <> rankNumber (location p).
Proof.
  intros T H. pose proof (Piece_isMoveValid_dispatch fuel b p to extra) as D.
  rewrite T in D. rewrite D in H. injection H as H.
  apply Pawn_isMoveValid_sound in H. unfold spec_pawnMove in H. cbv zeta in H.
  assert (Dir : Pawn_getAdvanceDirection p = 1 \/ Pawn_getAdvanceDirection p = -1).
  { unfold Pawn_getAdvanceDirection. destruct (Color_eqb _ _); auto. }
  destruct H as (_ & [(_ & _ & [R|[R _]])|(_ & R & _)] & _); lia.
Qed.

Lemma Square_valid_file (n : Z) (s : Square) :
  1 <= n <= 8 -> Square_isValid s = true -> Square_isValid (Square_new n (rankNumber s)) = true.
Proof.
  intros Hn V. apply Square_isValid_iff. apply Square_isValid_iff in V.
  unfold Square_new. cbn [fileNumber rankNumber]. lia.
Qed.

Lemma Square_equals_file (a b : Square) :
  fileNumber a <> fileNumber b -> Square_equals a b = false.
Proof.
  intros N. unfold Square_equals. destruct (Z.eqb_spec (fileNumber a) (fileNumber b));
    [contradiction|reflexivity].
Qed.

Lemma Square_equals_rank (a b : Square) :
  rankNumber a <> rankNumber b -> Square_equals a b = false.
Proof.
  intros N. unfold Square_equals. destruct (Z.eqb_spec (rankNumber a) (rankNumber b));
    [contradiction|apply andb_false_r].
Qed.

Lemma Square_equals_sym (a b : Square) : Square_equals a b = Square_equals b a.
Proof. unfold Square_equals. now rewrite (Z.eqb_sym (fileNumber a)), (Z.eqb_sym (rankNumber a)). Qed.

Lemma Square_equals_neq (a b : Square) : a <> b -> Square_equals a b = false.
Proof.
  intros N. destruct (Square_equals a b) eqn:E; [|reflexivity].
  apply Square_equals_eq in E. contradiction.
Qed.

(** X16: what a committed move does to the board.  On a board whose
    pieces are filed under their own squares, a successful
    [makeMoveIfValid] from a square of the board moves the piece that
    stood there: the destination is a square of the board that did not
    hold a piece of the mover's color, and afterwards it holds a piece
    of the mover's color and type (of the promotion choice, for a pawn
    on a last rank); the origin is empty; every other square of the
    board, except that of a pawn taken en passant and the two of a
    castling rook, shows what it showed before; the two ends of the
    move are the highlighted squares; and the pieces are still filed
    under their own squares. *)
Theorem Board_makeMoveIfValid_effect (fuel : nat) (h : Heap) (b : Board) (from to : Square)
        (extra : option jsstring) (b' : Board) (h' : Heap) :
  Board_wf b ->
  Square_isValid from = true ->
  Board_makeMoveIfValid fuel h b from to extra = Some (true, b', h') ->
  exists mover,
    Board_getPiece b from = Some mover
    /\ Square_isValid to = true
    /\ (forall d, Board_getPiece b to = Some d -> color d <> color mover)
    /\ Board_view b' (Square_asString to)
       = Some (spec_arrivingType mover to extra, color mover, to)
    /\ Board_getPiece b' from = None
    /\ (forall s, Square_isValid s = true -> ~ In s (spec_touched b mover from to) ->
                  Board_view b' (Square_asString s) = Board_view b (Square_asString s))
    /\ highlightedSquares b' = [to; from]
    /\ Board_wf b'.
Proof.
  intros W Vf H.
  pose proof (Board_makeMoveIfValid_wf _ _ _ _ _ _ _ _ H W) as W'.
  assert (Hl : highlightedSquares b' = [to; from]).
  { apply Board_makeMoveIfValid_steps in H as (p0 & b4 & lm' & G0 & V0 & O0 & A0 & E0).
    rewrite E0. reflexivity. }
  apply Board_makeMoveIfValid_view in H as (mover & G & V & Own & Vw).
  exists mover. split; [exact G|].
  destruct (Piece_isMoveValid_candidate _ _ _ _ _ V) as [Vt _].
  destruct (Board_wf_location b from mover W Vf G) as [Lo _].
  assert (Ne : Square_equals to from = false).
  { apply Square_equals_neq. intros ->. now apply (Own mover G). }
  assert (Kft : jsstring_eqb (Square_asString to) (Square_asString from) = false).
  { now rewrite Square_key_eqb. }
  (* the squares next to the move *)
  assert (Vv : Square_isValid (spec_enPassantVictim from to) = true).
  { apply Square_isValid_iff. apply Square_isValid_iff in Vf, Vt.
    unfold spec_enPassantVictim, Square_new. cbn [fileNumber rankNumber]. lia. }
  assert (Pw : type mover = PAWN ->
               Square_equals (spec_enPassantVictim from to) to = false).
  { intros T. apply Square_equals_rank. unfold spec_enPassantVictim, Square_new.
    cbn [rankNumber]. rewrite <- Lo.
    pose proof (Pawn_move_changes_rank _ _ _ _ _ T V). lia. }
  assert (Kg : type mover = KING ->
               forall rookFrom rookTo,
                 spec_castlingRook from to = Some (rookFrom, rookTo) ->
                 Square_isValid rookFrom = true /\ Square_isValid rookTo = true
                 /\ Square_equals rookFrom to = false /\ Square_equals rookTo to = false
                 /\ Square_equals rookFrom from = false /\ Square_equals rookTo from = false).
  { intros T rookFrom rookTo C. unfold spec_castlingRook in C.
    assert (Vl : Square_isValid (location mover) = true) by now rewrite Lo.
    destruct (Z.eqb_spec (fileNumber to) (fileNumber from + 2)) as [F|_].
    - injection C as <- <-.
      destruct (King_castle_home fuel b mover to extra true T Vl) as (Home & _); [now rewrite Lo|exact V|].
      assert (F5 : fileNumber from = 5).
      { rewrite <- Lo, Home. now destruct (color mover). }
      repeat split; try (apply Square_valid_file; [lia|exact Vt]);
        apply Square_equals_file; unfold Square_new; cbn [fileNumber]; lia.
    - destruct (Z.eqb_spec (fileNumber to) (fileNumber from - 2)) as [F|_]; [|discriminate].
      injection C as <- <-.
      destruct (King_castle_home fuel b mover to extra false T Vl) as (Home & _);
        [rewrite Lo; lia|exact V|].
      assert (F5 : fileNumber from = 5).
      { rewrite <- Lo, Home. now destruct (color mover). }
      repeat split; try (apply Square_valid_file; [lia|exact Vt]);
        apply Square_equals_file; unfold Square_new; cbn [fileNumber]; lia. }
  split; [exact Vt|]. split; [exact Own|].
  split; [|split; [|split; [|split; [exact Hl|exact W']]]].
  - (* the destination *)
    rewrite Vw. unfold Board_viewAfterMove, spec_arrivingType. cbv zeta.
    rewrite jsstring_eqb_refl.
    destruct (type mover) eqn:T; cbn [PieceType_eqb andb]; try reflexivity.
    + rewrite andb_true_r.
      destruct ((rankNumber to =? 1) || (rankNumber to =? 8)); [reflexivity|].
      rewrite (Square_key_eqb _ _ Vv Vt), (Pw eq_refl), andb_false_r. reflexivity.
    + destruct (spec_castlingRook from to) as [[rookFrom rookTo]|] eqn:C; [|reflexivity].
      destruct (Kg eq_refl _ _ eq_refl) as (V1 & V2 & E1 & E2 & _).
      now rewrite (Square_key_eqb _ _ V2 Vt), E2, (Square_key_eqb _ _ V1 Vt), E1.
  - (* the origin *)
    apply Board_view_None. rewrite Vw. unfold Board_viewAfterMove. cbv zeta.
    rewrite Kft, jsstring_eqb_refl.
    destruct (type mover) eqn:T; try reflexivity.
    + rewrite andb_false_r. now destruct (_ && _).
    + destruct (spec_castlingRook from to) as [[rookFrom rookTo]|] eqn:C; [|reflexivity].
      destruct (Kg eq_refl _ _ eq_refl) as (V1 & V2 & _ & _ & E1 & E2).
      now rewrite (Square_key_eqb _ _ V2 Vf), E2, (Square_key_eqb _ _ V1 Vf), E1.
  - (* the other squares *)
    intros s Vs N. rewrite Vw. unfold Board_viewAfterMove. cbv zeta.
    unfold spec_touched in N. rewrite !in_app_iff in N. cbn [In] in N.
    assert (Nt : jsstring_eqb (Square_asString to) (Square_asString s) = false).
    { rewrite Square_key_eqb by assumption. apply Square_equals_neq. intros ->. tauto. }
    assert (Nf : jsstring_eqb (Square_asString from) (Square_asString s) = false).
    { rewrite Square_key_eqb by assumption. apply Square_equals_neq. intros ->. tauto. }
    rewrite Nt, Nf.
    destruct (type mover) eqn:T; cbn [PieceType_eqb andb] in N; try reflexivity.
    + rewrite andb_false_r.
      destruct (ontoEnPassantSquare b to); cbn [andb]; [|reflexivity].
      rewrite (Square_key_eqb _ _ Vv Vs).
      rewrite Square_equals_neq; [reflexivity|]. intros E. cbn [In] in N. tauto.
    + destruct (spec_castlingRook from to) as [[rookFrom rookTo]|] eqn:C; [|reflexivity].
      destruct (Kg eq_refl _ _ eq_refl) as (V1 & V2 & _).
      rewrite (Square_key_eqb _ _ V2 Vs), (Square_key_eqb _ _ V1 Vs).
      rewrite (Square_equals_neq rookTo s), (Square_equals_neq rookFrom s); [reflexivity| |];
        intros E; cbn [In] in N; tauto.
Qed.

Lemma keys_distinct_NoDup (l : list jsstring) : keys_distinct l = true -> NoDup l.
Proof.
  induction l as [|k l IH]; cbn [keys_distinct]; intros H; [constructor|].
  apply andb_true_iff in H as [N D]. constructor; [|now apply IH].
  intros I. apply negb_true_iff in N.
  assert (E : existsb (jsstring_eqb k) l = true).
  { apply existsb_exists. exists k. split; [exact I|apply jsstring_eqb_refl]. }
  congruence.
Qed.

Lemma obj_get_In {V : Type} (o : JsObject V) (k : jsstring) (v : V) :
  obj_get o k = Some v -> exists k', In (k', v) o /\ k' = k.
Proof.
  induction o as [|[k0 v0] o IH]; cbn [obj_get]; [discriminate|].
  destruct (jsstring_eqb k0 k) eqn:E.
  - intros [= <-]. apply jsstring_eqb_eq in E. exists k0. split; [now left|exact E].
  - intros H. destruct (IH H) as (k' & I & Ek). exists k'. split; [now right|exact Ek].
Qed.

Lemma Board_wfb_wf (b : Board) : Board_wfb b = true -> Board_wf b.
Proof.
  unfold Board_wfb, Board_wf. intros H. apply andb_true_iff in H as [D F].
  split; [now apply keys_distinct_NoDup|].
  intros k p G. apply obj_get_In in G as (k' & I & <-).
  rewrite forallb_forall in F. specialize (F _ I). cbn [fst snd] in F.
  apply andb_true_iff in F as [A B]. apply jsstring_eqb_eq in A. auto.
Qed.

Lemma Board_makeMoveIfValid_effect_E2E4 :
  Board_wf startBoard
  /\ Board_makeMoveIfValid 1 1%positive startBoard (sq "E2") (sq "E4") None
     = Some (true, afterE2E4 1%positive, 2%positive)
  /\ Board_getPiece (afterE2E4 1%positive) (sq "E2") = None
  /\ Board_view (afterE2E4 1%positive) (js "E4") = Some (PAWN, WHITE, sq "E4")
  /\ highlightedSquares (afterE2E4 1%positive) = [sq "E4"; sq "E2"].
Proof.
  assert (W : Board_wf startBoard) by (apply Board_wfb_wf; vm_compute; reflexivity).
  assert (M : Board_makeMoveIfValid 1 1%positive startBoard (sq "E2") (sq "E4") None
              = Some (true, afterE2E4 1%positive, 2%positive)) by (vm_compute; reflexivity).
  split; [exact W|]. split; [exact M|].
  destruct (Board_makeMoveIfValid_effect 1 1%positive startBoard (sq "E2") (sq "E4") None
              (afterE2E4 1%positive) 2%positive W eq_refl M)
    as (mover & G & _ & _ & To & From & _ & Hl & _).
  split; [exact From|]. split; [|exact Hl].
  assert (E : mover = pieceAt startBoard "E2").
  { vm_compute in G. injection G as <-. vm_compute. reflexivity. }
  subst mover. exact To.
Defined.

(** X17: the en passant square lives for one move.  A committed move
    sets it exactly when a pawn advances two ranks, to a new square
    object for the square the pawn passed over, and clears it
    otherwise.  A pawn that moves onto the en passant square removes
    the piece beside it, on the file of its destination, and the move
    is recorded as a capture. *)
Theorem Board_makeMoveIfValid_enPassant (fuel : nat) (h : Heap) (b : Board) (from to : Square)
        (extra : option jsstring) (b' : Board) (h' : Heap) :
  Board_wf b ->
  Square_isValid from = true ->
  Board_makeMoveIfValid fuel h b from to extra = Some (true, b', h') ->
  exists mover,
    Board_getPiece b from = Some mover
    /\ (enPassantSquare b', h')
       = (if PieceType_eqb (type mover) PAWN
             && (rankNumber from + Pawn_getAdvanceDirection mover * 2 =? rankNumber to)
          then (Some (mkSquareObj h (Square_relative from 0 (Pawn_getAdvanceDirection mover))),
                Pos.succ h)
          else (None, h))
    /\ (type mover = PAWN -> ontoEnPassantSquare b to = true ->
        Board_getPiece b' (spec_enPassantVictim from to) = None
        /\ exists lm, lastMove b' = Some lm /\ Moves.capture lm = true).
Proof.
  intros W Vf H.
  destruct (Board_makeMoveIfValid_lastMove _ _ _ _ _ _ _ _ H)
    as (piece & moved & lm & G & L & _ & _ & _ & _ & _ & _ & _ & Cap).
  pose proof H as S.
  apply Board_makeMoveIfValid_steps in S as (p0 & b4 & lm' & G0 & V & Own & A & E).
  assert (p0 = piece) by congruence. subst p0. clear G0.
  exists piece. split; [exact G|].
  destruct (Board_wf_location b from piece W Vf G) as [Lo _].
  destruct (Piece_isMoveValid_candidate _ _ _ _ _ V) as [Vt _].
  split.
  - apply Piece_afterMove_keeps in A as (_ & _ & NP & P).
    destruct (Board_recalculateAllPiecesMoves_keeps b4) as (_ & _ & _ & Ep & _).
    assert (Eb : enPassantSquare b' = enPassantSquare b4) by (rewrite E; exact Ep).
    rewrite Eb.
    unfold Piece_updateLocation in NP, P.
    rewrite (proj1 (Piece_recalculateValidMoves_fields _ _)) in NP, P.
    cbn [Piece_with_location type Moves.from Moves.to] in NP, P.
    assert (D : Pawn_getAdvanceDirection
                  (Piece_recalculateValidMoves
                     (Board_removePieceAt
                        (match Board_getPiece b to with
                         | Some _ => Board_removePieceAt b to
                         | None => b
                         end) from)
                     (Piece_with_location piece to))
                = Pawn_getAdvanceDirection piece).
    { unfold Pawn_getAdvanceDirection.
      now rewrite (proj1 (proj2 (Piece_recalculateValidMoves_fields _ _))). }
    rewrite D in P.
    destruct (type piece) eqn:T; cbn [PieceType_eqb andb];
      try (destruct NP as [-> ->]; [discriminate|reflexivity]).
    now apply P.
  - intros T Onto. split.
    + apply Board_view_None.
      apply Board_makeMoveIfValid_view in H as (mover & G1 & _ & _ & Vw).
      assert (mover = piece) by congruence. subst mover.
      rewrite Vw. unfold Board_viewAfterMove. cbv zeta. rewrite T, Onto.
      rewrite jsstring_eqb_refl. cbn [andb].
      assert (Vv : Square_isValid (spec_enPassantVictim from to) = true).
      { apply Square_isValid_iff. apply Square_isValid_iff in Vf, Vt.
        unfold spec_enPassantVictim, Square_new. cbn [fileNumber rankNumber]. lia. }
      rewrite (Square_key_eqb _ _ Vt Vv).
      rewrite Square_equals_rank; [now rewrite andb_false_r|].
      unfold spec_enPassantVictim, Square_new. cbn [rankNumber]. rewrite <- Lo.
      exact (Pawn_move_changes_rank _ _ _ _ _ T V).
    + exists lm. split; [exact L|]. rewrite Cap, T, Onto. cbn [PieceType_eqb andb].
      apply orb_true_r.
Qed.

Lemma Board_makeMoveIfValid_enPassant_E2E4 :
  Board_wf startBoard
  /\ Board_makeMoveIfValid 1 1%positive startBoard (sq "E2") (sq "E4") None
     = Some (true, afterE2E4 1%positive, 2%positive)
  /\ enPassantSquare (afterE2E4 1%positive) = Some (mkSquareObj 1%positive (sq "E3")).
Proof.
  assert (W : Board_wf startBoard) by (apply Board_wfb_wf; vm_compute; reflexivity).
  assert (M : Board_makeMoveIfValid 1 1%positive startBoard (sq "E2") (sq "E4") None
              = Some (true, afterE2E4 1%positive, 2%positive)) by (vm_compute; reflexivity).
  split; [exact W|]. split; [exact M|].
  destruct (Board_makeMoveIfValid_enPassant 1 1%positive startBoard (sq "E2") (sq "E4") None
              (afterE2E4 1%positive) 2%positive W eq_refl M)
    as (mover & G & Ep & _).
  assert (E : mover = pieceAt startBoard "E2").
  { vm_compute in G. injection G as <-. vm_compute. reflexivity. }
  subst mover.
  apply (f_equal fst) in Ep. cbn [fst] in Ep. rewrite Ep. vm_compute. reflexivity.
Defined.

(** X18: what castling does.  On a board of the game (pieces filed
    under their squares, castling rights consistent with the kings), a
    committed king move of two files starts from the home square of the
    king's color, takes the king to the G file (kingside) or the C file
    (queenside) of its rank, takes the rook of that color from the H or
    the A corner to the F or the D file, leaves the corner empty, and
    revokes both castling rights of the color. *)
Theorem Board_makeMoveIfValid_castling (fuel : nat) (h : Heap) (b : Board) (from to : Square)
        (extra : option jsstring) (b' : Board) (h' : Heap) (mover : Piece) (kingside : bool) :
  Board_wf b ->
  Board_castlingSane b = true ->
  Square_isValid from = true ->
  Board_getPiece b from = Some mover ->
  type mover = KING ->
  fileNumber to = fileNumber from + (if kingside then 2 else -2) ->
  Board_makeMoveIfValid fuel h b from to extra = Some (true, b', h') ->
  from = spec_homeSquare (color mover)
  /\ to = Square_new (if kingside then 7 else 3) (rankNumber from)
  /\ Board_view b' (Square_asString to) = Some (KING, color mover, to)
  /\ Board_view b' (Square_asString (Square_new (if kingside then 6 else 4) (rankNumber from)))
     = Some (ROOK, color mover, Square_new (if kingside then 6 else 4) (rankNumber from))
  /\ Board_getPiece b' (Square_new (if kingside then 8 else 1) (rankNumber from)) = None
  /\ by_color (short (castlingRights b')) (color mover) = false
  /\ by_color (long (castlingRights b')) (color mover) = false.
Proof.
  intros W S Vf G T F H.
  destruct (Board_wf_location b from mover W Vf G) as [Lo Ik].
  destruct (Board_makeMoveIfValid_rights _ _ _ _ _ _ _ _ H) as (_ & R).
  destruct (R mover G) as (Rk & _). destruct (Rk T) as (Rs & Rl). clear R Rk.
  apply Board_makeMoveIfValid_view in H as (mover' & G' & V & Own & Vw).
  assert (mover' = mover) by congruence. subst mover'. clear G'.
  destruct (Piece_isMoveValid_candidate _ _ _ _ _ V) as [Vt Cand].
  assert (Vl : Square_isValid (location mover) = true) by now rewrite Lo.
  destruct (King_castle_home fuel b mover to extra kingside T Vl) as (Home & _ & rook & Gr & Cr & Tr);
    [now rewrite Lo|exact V|].
  rewrite Lo in Home, Gr.
  assert (F5 : fileNumber from = 5) by (rewrite Home; now destruct (color mover)).
  assert (Rk : rankNumber to = rankNumber from).
  { destruct (Board_castlingSane_king b _ mover S G Ik T) as (_ & C).
    rewrite Lo in C. apply C; [exact Cand|]. destruct kingside; lia. }
  assert (Eto : to = Square_new (if kingside then 7 else 3) (rankNumber from)).
  { destruct to as [f r]. unfold Square_new. cbn [fileNumber rankNumber] in *.
    f_equal; [destruct kingside; lia|exact Rk]. }
  split; [exact Home|]. split; [exact Eto|].
  assert (C : spec_castlingRook from to
              = Some (Square_new (if kingside then 8 else 1) (rankNumber from),
                      Square_new (if kingside then 6 else 4) (rankNumber from))).
  { unfold spec_castlingRook. rewrite Rk.
    destruct kingside.
    - destruct (Z.eqb_spec (fileNumber to) (fileNumber from + 2)); [reflexivity|lia].
    - destruct (Z.eqb_spec (fileNumber to) (fileNumber from + 2)); [lia|].
      destruct (Z.eqb_spec (fileNumber to) (fileNumber from - 2)); [reflexivity|lia]. }
  set (rf := Square_new (if kingside then 8 else 1) (rankNumber from)) in *.
  set (rt := Square_new (if kingside then 6 else 4) (rankNumber from)) in *.
  assert (Vrf : Square_isValid rf = true)
    by (apply Square_valid_file; [destruct kingside; lia|exact Vf]).
  assert (Vrt : Square_isValid rt = true)
    by (apply Square_valid_file; [destruct kingside; lia|exact Vf]).
  assert (Ne : forall x y, Square_isValid x = true -> Square_isValid y = true ->
                           fileNumber x <> fileNumber y ->
                           jsstring_eqb (Square_asString x) (Square_asString y) = false).
  { intros x y Vx Vy N. rewrite Square_key_eqb by assumption. now apply Square_equals_file. }
  assert (Frf : fileNumber rf = if kingside then 8 else 1) by reflexivity.
  assert (Frt : fileNumber rt = if kingside then 6 else 4) by reflexivity.
  assert (Fto : fileNumber to = if kingside then 7 else 3) by (destruct kingside; lia).
  assert (Corner : Board_view b (Square_asString rf) = Some (ROOK, color mover, location rook)).
  { rewrite Board_view_getPiece.
    replace rf with (Square_newLetter (if kingside then "H" else "A") (rankNumber from))
      by (destruct kingside; reflexivity).
    rewrite Gr. cbn [option_map]. unfold Piece_fields. now rewrite Tr, Cr. }
  split; [|split; [|split; [|split; [exact Rs|exact Rl]]]].
  - rewrite Vw. unfold Board_viewAfterMove. cbv zeta. rewrite T, C.
    rewrite (Ne rt to), (Ne rf to), jsstring_eqb_refl by (try assumption; destruct kingside; lia).
    reflexivity.
  - rewrite Vw. unfold Board_viewAfterMove. cbv zeta. rewrite T, C.
    rewrite jsstring_eqb_refl, (Ne to rf), (Ne from rf), Corner
      by (try assumption; destruct kingside; lia).
    reflexivity.
  - apply Board_view_None. rewrite Vw. unfold Board_viewAfterMove. cbv zeta. rewrite T, C.
    rewrite (Ne rt rf), jsstring_eqb_refl by (try assumption; destruct kingside; lia).
    reflexivity.
Qed.

Lemma Board_makeMoveIfValid_castling_E1G1 :
  Board_wf castleShort
  /\ Board_castlingSane castleShort = true
  /\ match Board_makeMoveIfValid 1 1%positive castleShort (sq "E1") (sq "G1") None with
     | Some (true, b', _) =>
         Board_view b' (js "G1") = Some (KING, WHITE, sq "G1")
         /\ Board_view b' (js "F1") = Some (ROOK, WHITE, sq "F1")
         /\ Board_getPiece b' (sq "H1") = None
     | _ => False
     end.
Proof.
  assert (W : Board_wf castleShort) by (apply Board_wfb_wf; vm_compute; reflexivity).
  split; [exact W|]. split; [vm_compute; reflexivity|].
  destruct (Board_makeMoveIfValid 1 1%positive castleShort (sq "E1") (sq "G1") None)
    as [[[[] b'] h']|] eqn:M; try (vm_compute in M; discriminate).
  destruct (Board_makeMoveIfValid_castling 1 1%positive castleShort (sq "E1") (sq "G1") None
              b' h' (pieceAt castleShort "E1") true W)
    as (_ & _ & K & R & C & _); try (vm_compute; reflexivity); [exact M|].
  split; [exact K|]. split; [exact R|exact C].
Defined.

(** ** The game: what a call of [makeMove] does *)

Lemma Game_makeMove_board (fuel : nat) (h : Heap) (g : Game) (from to : Square)
      (extra : option jsstring) (g' : Game) (h' : Heap) :
  Game_makeMove fuel h g from to extra = Some (MOVE_OK, g', h') ->
  exists piece newBoard0 newBoard h1,
    Board_getPiece (board (currentState g)) from = Some piece
    /\ color piece = currentTurn (currentState g)
    /\ Board_cloneBoard (board (currentState g)) = Some newBoard0
    /\ Board_makeMoveIfValid fuel h newBoard0 (location piece) to extra
       = Some (true, newBoard, h1)
    /\ Board_isInCheck fuel newBoard (currentTurn (currentState g)) = Some false
    /\ (board (currentState g') = newBoard \/ board (currentState g') = Board_hashed newBoard)
    /\ (stateHistory g' = stateHistory g ++ [currentState g]
        \/ stateHistory g' = map GameState_hashed (stateHistory g ++ [currentState g])).
Proof.
  intros H. apply Game_makeMove_ok_inv in H as (On & piece & nb0 & nb & h1 & lm & G & C & Cl
                                              & M & Chk & L & Ev).
  exists piece, nb0, nb, h1. repeat (split; [assumption|]).
  apply Game_evaluateTermination_post in Ev as (moves & inCheck & _ & _ & _ & St & A & B);
    [|reflexivity].
  cbn [currentState stateHistory] in St, A, B.
  destruct (isEmpty moves || Game_checkForInsufficientMaterial g') eqn:E.
  - destruct (A eq_refl) as [S1 S2]. rewrite S1, S2. cbn [board]. auto.
  - destruct (B eq_refl) as [S1 S2]. rewrite S1, S2. cbn [board GameState_hashed
      GameState_with_board]. auto.
Qed.

(** X19: a committed move never leaves the mover in check, and it
    passes the turn: after [makeMove] answers ok, [isInCheck] is false
    for the color that moved on the new current board, the other color
    is to move, no draw offer stands, and the state the move was made
    from is the last of the history. *)
Theorem Game_makeMove_commit (fuel : nat) (h : Heap) (g : Game) (from to : Square)
        (extra : option jsstring) (g' : Game) (h' : Heap) :
  Game_makeMove fuel h g from to extra = Some (MOVE_OK, g', h') ->
  Board_isInCheck fuel (board (currentState g')) (currentTurn (currentState g)) = Some false
  /\ currentTurn (currentState g') = Color_swap (currentTurn (currentState g))
  /\ whiteOffersDraw (currentState g') = false
  /\ blackOffersDraw (currentState g') = false
  /\ List.length (stateHistory g') = S (List.length (stateHistory g))
  /\ (exists last,
         nth_error (stateHistory g') (List.length (stateHistory g)) = Some last
         /\ currentTurn last = currentTurn (currentState g)
         /\ halfMoveClock last = halfMoveClock (currentState g)
         /\ _pieces (board last) = _pieces (board (currentState g))).
Proof.
  intros H.
  destruct (Game_makeMove_ok_state _ _ _ _ _ _ _ _ H) as (lm & _ & _ & Tu & Wd & Bd).
  apply Game_makeMove_board in H as (piece & nb0 & nb & h1 & _ & _ & _ & _ & Chk & Bo & Hi).
  split; [|split; [exact Tu|split; [exact Wd|split; [exact Bd|]]]].
  - destruct Bo as [-> | ->]; [exact Chk|]. now rewrite Board_isInCheck_hashed.
  - destruct Hi as [-> | ->].
    + split; [rewrite length_app; cbn [List.length]; lia|].
      exists (currentState g). split; [|auto].
      rewrite nth_error_app2 by lia. now rewrite Nat.sub_diag.
    + split; [rewrite length_map, length_app; cbn [List.length]; lia|].
      exists (GameState_hashed (currentState g)). split.
      * rewrite map_app. cbn [map]. rewrite nth_error_app2 by (rewrite length_map; lia).
        now rewrite length_map, Nat.sub_diag.
      * cbn [GameState_hashed GameState_with_board currentTurn halfMoveClock board].
        split; [reflexivity|]. split; [reflexivity|]. apply Board_hashed_pieces.
Qed.

Lemma Game_makeMove_commit_E2E4 :
  Game_makeMove 1 1%positive Game_new (sq "E2") (sq "E4") None
  = Some (MOVE_OK, gameAfter Game_new "E2" "E4", heapAfter Game_new "E2" "E4")
  /\ Board_isInCheck 1 (board (currentState (gameAfter Game_new "E2" "E4"))) WHITE = Some false
  /\ currentTurn (currentState (gameAfter Game_new "E2" "E4")) = BLACK.
Proof.
  assert (M : Game_makeMove 1 1%positive Game_new (sq "E2") (sq "E4") None
              = Some (MOVE_OK, gameAfter Game_new "E2" "E4", heapAfter Game_new "E2" "E4"))
    by (vm_compute; reflexivity).
  split; [exact M|].
  destruct (Game_makeMove_commit 1 1%positive Game_new (sq "E2") (sq "E4") None _ _ M)
    as (C & T & _).
  split; [exact C|exact T].
Defined.

(** X20: a refused move changes nothing, and the answer tells why: the
    game has ended; or else no piece stands on the origin; or else the
    piece there is not of the color to move; or else the move is not
    valid for the piece, or would take a piece of its own color; or
    else it would leave the mover's king in check. *)
Theorem Game_makeMove_refusal (fuel : nat) (h : Heap) (g : Game) (from to : Square)
        (extra : option jsstring) (r : MoveResult) (g' : Game) (h' : Heap) :
  Game_makeMove fuel h g from to extra = Some (r, g', h') ->
  r <> MOVE_OK ->
  g' = g
  /\ match r with
     | GAME_ENDED => result g <> ONGOING
     | NO_PIECE => result g = ONGOING /\ Board_getPiece (board (currentState g)) from = None
     | NOT_YOUR_PIECE =>
         result g = ONGOING
         /\ exists piece, Board_getPiece (board (currentState g)) from = Some piece
                          /\ color piece <> currentTurn (currentState g)
     | ILLEGAL_PIECE_MOVE =>
         result g = ONGOING
         /\ exists piece newBoard0 b0,
             Board_getPiece (board (currentState g)) from = Some piece
             /\ color piece = currentTurn (currentState g)
             /\ Board_cloneBoard (board (currentState g)) = Some newBoard0
             /\ Board_makeMoveIfValid fuel h newBoard0 (location piece) to extra
                = Some (false, b0, h')
     | IN_CHECK_AFTER_TURN =>
         result g = ONGOING
         /\ exists piece newBoard0 newBoard,
             Board_getPiece (board (currentState g)) from = Some piece
             /\ color piece = currentTurn (currentState g)
             /\ Board_cloneBoard (board (currentState g)) = Some newBoard0
             /\ Board_makeMoveIfValid fuel h newBoard0 (location piece) to extra
                = Some (true, newBoard, h')
             /\ Board_isInCheck fuel newBoard (currentTurn (currentState g)) = Some true
     | MOVE_OK => False
     end.
Proof.
  unfold Game_makeMove.
  destruct (Result_eqb (result g) ONGOING) eqn:On; cbn [negb].
  2:{ intros [= <- <- <-] _. split; [reflexivity|].
      intros E. rewrite E in On. discriminate. }
  apply Result_eqb_eq in On.
  destruct (Board_getPiece (board (currentState g)) from) as [piece|] eqn:G.
  2:{ intros [= <- <- <-] _. auto. }
  destruct (Color_eqb (color piece) (currentTurn (currentState g))) eqn:C; cbn [negb].
  2:{ intros [= <- <- <-] _. split; [reflexivity|]. split; [exact On|].
      exists piece. split; [reflexivity|]. intros E. apply Color_eqb_eq in E. congruence. }
  apply Color_eqb_eq in C.
  destruct (Board_cloneBoard (board (currentState g))) as [nb0|] eqn:Cl; [|discriminate].
  destruct (Board_makeMoveIfValid fuel h nb0 (location piece) to extra)
    as [[[[] nb] h1]|] eqn:M; [|intros [= <- <- <-] _|discriminate].
  2:{ split; [reflexivity|]. split; [exact On|]. exists piece, nb0, nb. auto. }
  destruct (Board_isInCheck fuel nb (currentTurn (currentState g))) as [[]|] eqn:Chk;
    [intros [= <- <- <-] _| |discriminate].
  { split; [reflexivity|]. split; [exact On|]. exists piece, nb0, nb. auto. }
  destruct (lastMove nb) as [lm|]; [|discriminate].
  destruct (if Moves.capture lm then _ else _) as [reset|]; [|discriminate].
  destruct (Game_evaluateTermination _ _ _) as [[g1 h2]|]; [|discriminate].
  intros [= <- <- <-] N. contradiction.
Qed.

Lemma Game_makeMove_refusal_E7 :
  Game_makeMove 1 1%positive Game_new (sq "E7") (sq "E5") None
  = Some (NOT_YOUR_PIECE, Game_new, 1%positive)
  /\ NOT_YOUR_PIECE <> MOVE_OK
  /\ exists piece, Board_getPiece (board (currentState Game_new)) (sq "E7") = Some piece
                   /\ color piece <> currentTurn (currentState Game_new).
Proof.
  assert (M : Game_makeMove 1 1%positive Game_new (sq "E7") (sq "E5") None
              = Some (NOT_YOUR_PIECE, Game_new, 1%positive)) by (vm_compute; reflexivity).
  split; [exact M|]. split; [discriminate|].
  exact (proj2 (proj2 (Game_makeMove_refusal 1 1%positive Game_new (sq "E7") (sq "E5") None
                         NOT_YOUR_PIECE Game_new 1%positive M ltac:(discriminate)))).
Defined.

(** X21: only the player who moved can win by a move.  After
    [makeMove] answers ok the result is ongoing, a mate of the side now
    to move, or one of the four draws that [makeMove] declares; so
    [getWinnerColor] gives no color or the color that moved, and a mate
    leaves the mated side to move, in check and without a move. *)
Theorem Game_makeMove_winner (fuel : nat) (h : Heap) (g : Game) (from to : Square)
        (extra : option jsstring) (g' : Game) (h' : Heap) :
  Game_makeMove fuel h g from to extra = Some (MOVE_OK, g', h') ->
  (Game_getWinnerColor g' = None
   \/ Game_getWinnerColor g' = Some (currentTurn (currentState g)))
  /\ In (result g') [ONGOING; spec_mated (Color_swap (currentTurn (currentState g)));
                     STALEMATED; INSUFFICIENT_MATERIAL; THREEFOLD_REPETITION; FIFTY_MOVES]
  /\ (Game_getWinnerColor g' <> None ->
      Board_isInCheck fuel (board (currentState g')) (currentTurn (currentState g'))
      = Some true
      /\ exists h0 h1,
          Board_getValidMovesFor fuel h0 (board (currentState g'))
                                 (currentTurn (currentState g')) = Some ([], h1)).
Proof.
  intros H.
  destruct (Game_makeMove_ok_state _ _ _ _ _ _ _ _ H) as (_ & _ & _ & Tu & _).
  apply Game_makeMove_ok_inv in H as (_ & piece & nb0 & nb & h1 & lm & _ & _ & _ & _ & _ & _ & Ev).
  apply Game_evaluateTermination_post in Ev as (moves & inCheck & Mv & Chk & R & _);
    [|reflexivity].
  rewrite Tu in R.
  unfold spec_termination in R.
  unfold Game_getWinnerColor.
  destruct moves as [|m moves]; cbn [isEmpty] in R.
  - specialize (Chk eq_refl). destruct inCheck.
    + rewrite R. split; [|split].
      * right. destruct (currentTurn (currentState g)); reflexivity.
      * cbn [In]. auto.
      * intros _. split; [exact Chk|]. eauto.
    + rewrite R. split; [now left|]. split; [cbn [In]; auto 10|]. intros N. now destruct N.
  - destruct (Game_checkForInsufficientMaterial g').
    { rewrite R. split; [now left|]. split; [cbn [In]; auto 10|]. intros N. now destruct N. }
    destruct (fst (Game_checkForThreefoldRepetition g')).
    { rewrite R. split; [now left|]. split; [cbn [In]; auto 10|]. intros N. now destruct N. }
    destruct (Game_checkForFiftyMoveRuleViolation g');
      rewrite R; (split; [now left|]); (split; [cbn [In]; auto 10|]); intros N; now destruct N.
Qed.

Lemma Game_makeMove_winner_foolsMate :
  Game_makeMove 1 1%positive beforeFoolsMate (sq "D8") (sq "H4") None
  = Some (MOVE_OK, foolsMate, heapAfter beforeFoolsMate "D8" "H4")
  /\ currentTurn (currentState beforeFoolsMate) = BLACK
  /\ Game_getWinnerColor foolsMate = Some BLACK
  /\ Board_isInCheck 1 (board (currentState foolsMate)) WHITE = Some true.
Proof.
  assert (M : Game_makeMove 1 1%positive beforeFoolsMate (sq "D8") (sq "H4") None
              = Some (MOVE_OK, foolsMate, heapAfter beforeFoolsMate "D8" "H4"))
    by (vm_compute; reflexivity).
  split; [exact M|]. split; [vm_compute; reflexivity|].
  destruct (Game_makeMove_winner 1 1%positive beforeFoolsMate (sq "D8") (sq "H4") None _ _ M)
    as (_ & _ & C).
  assert (W : Game_getWinnerColor foolsMate = Some BLACK) by (vm_compute; reflexivity).
  split; [exact W|].
  destruct C as (C & _); [rewrite W; discriminate|].
  exact C.
Defined.

Lemma pop_nonempty {A : Type} (x : A) (l : list A) : pop (x :: l) <> None.
Proof.
  change (pop (x :: l))
    with (match pop l with
          | None => Some (x, [])
          | Some (y, rest) => Some (y, x :: rest)
          end).
  destruct (pop l) as [[? ?]|]; discriminate.
Qed.

(** X22: [takebackMove] never returns true.  It returns false, and
    changes nothing, exactly when the game has ended or no move has
    been made; otherwise it returns nothing ([undefined]), makes the
    last state of the history the current state again, with the
    candidate moves of its board recalculated, and shortens the history
    by that state. *)
Theorem Game_takebackMove_spec (g : Game) :
  fst (Game_takebackMove g) <> ReturnTrue
  /\ (fst (Game_takebackMove g) = ReturnFalse
      <-> result g <> ONGOING \/ stateHistory g = [])
  /\ (fst (Game_takebackMove g) = ReturnFalse -> snd (Game_takebackMove g) = g)
  /\ (forall history st,
         result g = ONGOING -> stateHistory g = history ++ [st] ->
         Game_takebackMove g
         = (ReturnUndefined,
            mkGame (GameState_with_board st (Board_recalculateAllPiecesMoves (board st)))
                   history ONGOING)).
Proof.
  unfold Game_takebackMove.
  destruct (Result_eqb (result g) ONGOING) eqn:On; cbn [negb orb].
  - apply Result_eqb_eq in On.
    destruct (stateHistory g) as [|st0 l] eqn:Hi; cbn [List.length Nat.eqb].
    + cbn [fst snd]. split; [discriminate|]. split; [tauto|]. split; [reflexivity|].
      intros history st _ E. destruct history; discriminate.
    + destruct (pop (st0 :: l)) as [[st history]|] eqn:P.
      * cbn [fst snd]. split; [discriminate|]. split; [|split; [discriminate|]].
        -- split; [discriminate|]. intros [N|N]; [contradiction|discriminate].
        -- intros history' st' _ E. rewrite E, pop_app in P. injection P as <- <-.
           now rewrite On.
      * now apply pop_nonempty in P.
  - cbn [fst snd]. split; [discriminate|]. split; [|split; [reflexivity|]].
    + split; [|reflexivity]. intros _. left. intros E. rewrite E in On. discriminate.
    + intros history st E. rewrite E in On. discriminate.
Qed.

(** X23: resigning and agreeing on a draw.  In an ongoing game,
    [resign] succeeds and makes the other color the winner; a draw is
    agreed as soon as both colors have offered it on the same state, in
    either order, and one offer alone leaves the game ongoing; nothing
    else of the game changes.  ([makeMove] starts each state without
    offers, see X19.) *)
Theorem Game_resign_offerDraw_spec (g : Game) (c : Color) :
  result g = ONGOING ->
  (fst (Game_resign g c) = true
   /\ Game_getWinnerColor (snd (Game_resign g c)) = Some (Color_swap c)
   /\ currentState (snd (Game_resign g c)) = currentState g
   /\ stateHistory (snd (Game_resign g c)) = stateHistory g)
  /\ (fst (Game_offerDraw g c) = true
      /\ result (snd (Game_offerDraw g c))
         = (if (match c with WHITE => blackOffersDraw | BLACK => whiteOffersDraw end)
                 (currentState g)
            then DRAW_AGREED else ONGOING)
      /\ board (currentState (snd (Game_offerDraw g c))) = board (currentState g)
      /\ currentTurn (currentState (snd (Game_offerDraw g c))) = currentTurn (currentState g)
      /\ stateHistory (snd (Game_offerDraw g c)) = stateHistory g)
  /\ result (snd (Game_offerDraw (snd (Game_offerDraw g c)) (Color_swap c))) = DRAW_AGREED
  /\ Game_getWinnerColor (snd (Game_offerDraw (snd (Game_offerDraw g c)) (Color_swap c))) = None.
Proof.
  intros On. unfold Game_resign, Game_offerDraw, Game_isConcluded, Game_getWinnerColor.
  rewrite On. cbn [Result_eqb negb fst snd result currentState stateHistory].
  destruct (currentState g) as [bd clock turn wd bl].
  cbn [whiteOffersDraw blackOffersDraw board halfMoveClock currentTurn].
  destruct c, wd, bl;
    cbn [Color_eqb Color_swap whiteOffersDraw blackOffersDraw board halfMoveClock currentTurn
         andb Result_eqb negb fst snd result currentState stateHistory];
    repeat split; reflexivity.
Qed.

Lemma Game_resign_offerDraw_at_start :
  result Game_new = ONGOING
  /\ Game_getWinnerColor (snd (Game_resign Game_new WHITE)) = Some BLACK
  /\ result (snd (Game_offerDraw Game_new WHITE)) = ONGOING
  /\ result (snd (Game_offerDraw (snd (Game_offerDraw Game_new WHITE)) BLACK)) = DRAW_AGREED.
Proof.
  split; [reflexivity|].
  destruct (Game_resign_offerDraw_spec Game_new WHITE eq_refl)
    as ((_ & W & _) & (_ & O & _) & D & _).
  split; [exact W|]. split; [|exact D].
  rewrite O. vm_compute. reflexivity.
Defined.

(** ** The boards of a game *)

Lemma foldM_total {A S : Type} (f : S -> A -> option S) (l : list A) (s : S) :
  (forall s x, In x l -> f s x <> None) -> foldM f l s <> None.
Proof.
  revert s; induction l as [|x l IH]; intros s H; cbn [foldM]; [discriminate|].
  destruct (f s x) as [s'|] eqn:E.
  - apply IH. intros s0 y Hy. apply H. now right.
  - now apply (H s x (or_introl eq_refl)) in E.
Qed.

Lemma King_recalculated_candidates (b0 : Board) (p0 : Piece) (m : Square) :
  type p0 = KING ->
  In m (validMoves (Piece_recalculateValidMoves b0 p0)) ->
  fileNumber (location p0) = fileNumber m - 2 \/ fileNumber (location p0) = fileNumber m + 2 ->
  rankNumber m = rankNumber (location p0).
Proof.
  intros T I F. unfold Piece_recalculateValidMoves in I. rewrite T in I.
  unfold King_recalculateValidMoves in I. cbn [validMoves Piece_with_validMoves] in I.
  apply filter_In in I as [I _].
  assert (K : In m (relatives (location p0)
                      [(-1, -1); (-1, 1); (1, -1); (1, 1); (-1, 0); (1, 0); (0, 1); (0, -1);
                       (-2, 0); (2, 0)])).
  { destruct (by_color (long (castlingRights b0)) (color p0)),
             (by_color (short (castlingRights b0)) (color p0));
      cbn [relatives map app fst snd] in *; cbn [In] in *; intuition. }
  apply relatives_In in K as (o & Ho & ->).
  unfold Square_relative, Square_new in *. cbn [fileNumber rankNumber] in *.
  cbn [In] in Ho.
  repeat (destruct Ho as [<-|Ho]; [cbn [fst snd] in *; lia|]). destruct Ho.
Qed.

(** The castling rights are consistent with the kings when every king
    that holds a right stands on its home rank and the candidates of
    the kings are recalculated ones. *)
Lemma Board_castlingSane_intro (b : Board) :
  (forall k p, obj_get (_pieces b) k = Some p -> type p = KING ->
               by_color (short (castlingRights b)) (color p) = true
               \/ by_color (long (castlingRights b)) (color p) = true ->
               rankNumber (location p) = rankNumber (spec_homeSquare (color p))) ->
  (forall k p, obj_get (_pieces b) k = Some p -> type p = KING -> Piece_recalculated b p) ->
  Board_castlingSane b = true.
Proof.
  intros Home Rec. unfold Board_castlingSane. apply forallb_forall. intros k _.
  destruct (obj_get (_pieces b) k) as [p|] eqn:G; [|reflexivity].
  destruct (PieceType_eqb (type p) KING) eqn:T; [|reflexivity]. cbn [negb orb].
  apply PieceType_eqb_eq in T. unfold King_castlingSane. apply andb_true_iff. split.
  - destruct (by_color (short (castlingRights b)) (color p)) eqn:S;
      [|destruct (by_color (long (castlingRights b)) (color p)) eqn:L; [|reflexivity]];
      cbn [orb negb]; apply Z.eqb_eq; apply (Home k p G T); auto.
  - apply forallb_forall. intros m I.
    destruct (Rec k p G T) as (b0 & p0 & _ & E).
    destruct (Piece_recalculateValidMoves_fields b0 p0) as (Ty & _ & Lo).
    rewrite <- E in Ty, Lo.
    destruct ((fileNumber (location p) =? fileNumber m - 2)
              || (fileNumber (location p) =? fileNumber m + 2)) eqn:F; [|reflexivity].
    cbn [negb orb]. apply Z.eqb_eq. rewrite Lo.
    apply (King_recalculated_candidates b0 p0); [congruence|now rewrite <- E|].
    rewrite <- Lo.
    apply orb_true_iff in F as [F|F]; apply Z.eqb_eq in F; auto.
Qed.

Lemma Board_castlingSane_home (b : Board) (k : jsstring) (p : Piece) :
  Board_castlingSane b = true ->
  obj_get (_pieces b) k = Some p -> type p = KING ->
  by_color (short (castlingRights b)) (color p) = true
  \/ by_color (long (castlingRights b)) (color p) = true ->
  rankNumber (location p) = rankNumber (spec_homeSquare (color p)).
Proof.
  intros S G T. apply (Board_castlingSane_king b k p S G); [|exact T].
  now apply obj_get_Some_key in G.
Qed.

Lemma Pawn_newPieceType_not_king (extra : option jsstring) : Pawn_newPieceType extra <> KING.
Proof.
  unfold Pawn_newPieceType. destruct extra as [s|]; [|discriminate].
  destruct (jsstring_eqb s (js "R")); [discriminate|].
  destruct (jsstring_eqb s (js "B")); [discriminate|].
  destruct (_ || _); discriminate.
Qed.

(** A king seen after a move is the mover, or was seen before the move
    on the same rank. *)
Lemma Board_viewAfterMove_king (b : Board) (mover : Piece) (from to : Square)
      (extra : option jsstring) (k : jsstring) (c : Color) (loc : Square) :
  Board_wf b ->
  Square_isValid to = true ->
  Board_viewAfterMove b mover from to extra k = Some (KING, c, loc) ->
  (type mover = KING /\ color mover = c)
  \/ exists k0 loc0, Board_view b k0 = Some (KING, c, loc0) /\ rankNumber loc0 = rankNumber loc.
Proof.
  intros W Vt. unfold Board_viewAfterMove. cbv zeta.
  assert (P : (if jsstring_eqb (Square_asString to) k then Some (type mover, color mover, to)
               else if jsstring_eqb (Square_asString from) k then None
               else Board_view b k) = Some (KING, c, loc) ->
              (type mover = KING /\ color mover = c)
              \/ exists k0 loc0, Board_view b k0 = Some (KING, c, loc0)
                                 /\ rankNumber loc0 = rankNumber loc).
  { destruct (jsstring_eqb (Square_asString to) k).
    - intros [= T C _]. now left.
    - destruct (jsstring_eqb (Square_asString from) k); [discriminate|].
      intros H. right. exists k, loc. auto. }
  destruct (type mover) eqn:T; try exact P.
  - destruct (_ && jsstring_eqb (Square_asString to) k).
    + intros [= N _ _]. now apply Pawn_newPieceType_not_king in N.
    + destruct (_ && _); [discriminate|exact P].
  - destruct (spec_castlingRook from to) as [[rookFrom rookTo]|] eqn:C; [|exact P].
    destruct (jsstring_eqb (Square_asString rookTo) k).
    + destruct (jsstring_eqb (Square_asString to) (Square_asString rookFrom)).
      * intros [= Cm _]. now left.
      * destruct (jsstring_eqb (Square_asString from) (Square_asString rookFrom));
          [discriminate|].
        destruct (Board_view b (Square_asString rookFrom)) as [[[t c'] l0]|] eqn:V;
          [|discriminate].
        intros [= -> -> <-]. right. exists (Square_asString rookFrom), l0.
        split; [exact V|].
        unfold Board_view in V.
        destruct (obj_get (_pieces b) (Square_asString rookFrom)) as [q|] eqn:G;
          [|discriminate].
        cbn [option_map] in V. injection V as _ _ L.
        destruct W as [_ W]. destruct (W _ _ G) as [K Vq].
        assert (Vr : Square_isValid rookFrom = true /\ rankNumber rookFrom = rankNumber rookTo).
        { unfold spec_castlingRook in C.
          destruct (_ =? _) in C; [|destruct (_ =? _) in C; [|discriminate]];
            injection C as <- <-; (split; [apply Square_valid_file; [lia|exact Vt]|reflexivity]). }
        destruct Vr as [Vr Rk].
        apply Square_asString_inj in K; [|exact Vr|exact Vq].
        rewrite <- L, <- K. exact Rk.
    + destruct (jsstring_eqb (Square_asString rookFrom) k); [discriminate|exact P].
Qed.

Lemma Board_makeMoveIfValid_sane (fuel : nat) (h : Heap) (b : Board) (from to : Square)
      (extra : option jsstring) (b' : Board) (h' : Heap) :
  Board_wf b ->
  Board_castlingSane b = true ->
  Board_makeMoveIfValid fuel h b from to extra = Some (true, b', h') ->
  Board_castlingSane b' = true.
Proof.
  intros W S H.
  destruct (Board_makeMoveIfValid_rights _ _ _ _ _ _ _ _ H) as (Le & Rv).
  pose proof H as St.
  apply Board_makeMoveIfValid_steps in St as (p0 & b4 & lm' & _ & _ & _ & _ & E).
  apply Board_makeMoveIfValid_view in H as (mover & G & V & _ & Vw).
  destruct (Piece_isMoveValid_candidate _ _ _ _ _ V) as [Vt _].
  apply Board_castlingSane_intro.
  - intros k p Gp T Right.
    assert (Vp : Board_view b' k = Some (KING, color p, location p)).
    { unfold Board_view. rewrite Gp. cbn [option_map]. unfold Piece_fields. now rewrite T. }
    rewrite Vw in Vp.
    apply (Board_viewAfterMove_king b mover from to extra k _ _ W Vt) in Vp
      as [[Tm Cm]|(k0 & loc0 & V0 & Rk)].
    + exfalso. destruct (Rv mover G) as (K & _). destruct (K Tm) as (Sh & Lg).
      rewrite Cm in Sh, Lg. destruct Right; congruence.
    + rewrite <- Rk. unfold Board_view in V0.
      destruct (obj_get (_pieces b) k0) as [q|] eqn:Gq; [|discriminate].
      cbn [option_map] in V0. unfold Piece_fields in V0. injection V0 as Tq Cq Lq.
      rewrite <- Lq, <- Cq. apply (Board_castlingSane_home b k0 q S Gq Tq).
      rewrite Cq. destruct (Le (color p)) as [Ls Ll]. destruct Right; auto.
  - intros k p Gp _. rewrite E in Gp.
    change (_pieces (Board_with_lastMove (Board_recalculateAllPiecesMoves b4) (Some lm')
                       [to; from]))
      with (_pieces (Board_recalculateAllPiecesMoves b4)) in Gp.
    apply Board_recalculateAllPiecesMoves_recalculated in Gp as (b0 & q0 & Rt & Eq).
    exists b0, q0. split; [|exact Eq]. rewrite Rt, E. reflexivity.
Qed.

Lemma Board_recalculateAllPiecesMoves_sane (b : Board) :
  Board_castlingSane b = true -> Board_castlingSane (Board_recalculateAllPiecesMoves b) = true.
Proof.
  intros S.
  destruct (Board_recalculateAllPiecesMoves_keeps b) as (_ & _ & Rt & _ & _ & _ & _ & Vw).
  apply Board_castlingSane_intro.
  - intros k p Gp T Right.
    assert (Vp : Board_view (Board_recalculateAllPiecesMoves b) k
                 = Some (KING, color p, location p)).
    { unfold Board_view. rewrite Gp. cbn [option_map]. unfold Piece_fields. now rewrite T. }
    rewrite Vw in Vp. unfold Board_view in Vp.
    destruct (obj_get (_pieces b) k) as [q|] eqn:Gq; [|discriminate].
    cbn [option_map] in Vp. unfold Piece_fields in Vp. injection Vp as Tq Cq Lq.
    rewrite <- Lq, <- Cq. apply (Board_castlingSane_home b k q S Gq Tq).
    rewrite Cq, <- Rt. exact Right.
  - intros k p Gp _. now apply Board_recalculateAllPiecesMoves_recalculated in Gp.
Qed.

(** The loop of [cloneBoard] *)

Lemma Board_cloneBoard_fold (this : Board) :
  Board_cloneBoard this
  = let cloned :=
      fold_left (clone_step this) (obj_keys (_pieces this))
        (Board_with_enPassantSquare
           (Board_with_castlingRights Board_new
              (mkCastlingRights
                 (mkByColor (by_color (long (castlingRights this)) WHITE)
                            (by_color (long (castlingRights this)) BLACK))
                 (mkByColor (by_color (short (castlingRights this)) WHITE)
                            (by_color (short (castlingRights this)) BLACK))))
           (enPassantSquare this)) in
    match lastMove this with
    | None => Some (Board_with_lastMove cloned None (highlightedSquares this))
    | Some m =>
        match Moves.piece m with
        | None => None
        | Some moved =>
            Some (Board_with_lastMove cloned
                    (Some (Moves.mkMove (Board_getPiece cloned (location moved))
                                        (Moves.from m) (Moves.to m) (Moves.capture m)
                                        (Moves.extra m)))
                    (highlightedSquares this))
        end
    end.
Proof. reflexivity. Qed.

Lemma clone_loop_invariant (this : Board) (ks : list jsstring) (nb : Board) :
  NoDup (obj_keys (_pieces nb)) ->
  (forall k p', obj_get (_pieces nb) k = Some p' ->
                Piece_recalculated nb p'
                /\ exists p, obj_get (_pieces this) k = Some p
                             /\ Piece_fields p' = Piece_fields p) ->
  let result := fold_left (clone_step this) ks nb in
  NoDup (obj_keys (_pieces result))
  /\ (forall k p', obj_get (_pieces result) k = Some p' ->
                   Piece_recalculated result p'
                   /\ exists p, obj_get (_pieces this) k = Some p
                                /\ Piece_fields p' = Piece_fields p)
  /\ (forall k, obj_get (_pieces nb) k <> None \/ In k ks ->
                obj_get (_pieces this) k <> None -> obj_get (_pieces result) k <> None)
  /\ castlingRights result = castlingRights nb
  /\ enPassantSquare result = enPassantSquare nb
  /\ _dirty result = _dirty nb.
Proof.
  revert nb; induction ks as [|k0 ks IH]; intros nb N A; cbn [fold_left]; cbv zeta.
  - split; [exact N|]. split; [exact A|]. split; [|auto].
    intros k [H|[]] _. exact H.
  - destruct (obj_get (_pieces this) k0) as [p0|] eqn:G0.
    + set (nb1 := Board_with_pieces nb
                    (obj_set (_pieces nb) k0 (Piece_cloneToAnotherBoard p0 nb)) (_dirty nb)).
      assert (St : clone_step this nb k0 = nb1) by (unfold clone_step; now rewrite G0).
      rewrite St.
      assert (N1 : NoDup (obj_keys (_pieces nb1))) by (apply obj_set_NoDup, N).
      assert (A1 : forall k p', obj_get (_pieces nb1) k = Some p' ->
                                Piece_recalculated nb1 p'
                                /\ exists p, obj_get (_pieces this) k = Some p
                                             /\ Piece_fields p' = Piece_fields p).
      { intros k p'. unfold nb1. cbn [_pieces Board_with_pieces]. rewrite obj_get_set.
        destruct (jsstring_eqb k0 k) eqn:E.
        - apply jsstring_eqb_eq in E. subst k0. intros [= <-]. split.
          + exists nb, (mkPiece [] (type p0) (color p0) (location p0)). split; reflexivity.
          + exists p0. split; [exact G0|]. unfold Piece_cloneToAnotherBoard.
            now rewrite Piece_fields_instantiate.
        - intros H. destruct (A k p' H) as ((b0 & q0 & Rt & Eq) & P). split; [|exact P].
          exists b0, q0. split; [exact Rt|exact Eq]. }
      destruct (IH nb1 N1 A1) as (R1 & R2 & R3 & R4 & R5 & R6). cbv zeta in *.
      split; [exact R1|]. split; [exact R2|]. split; [|auto].
      intros k H T. apply R3; [|exact T].
      unfold nb1. cbn [_pieces Board_with_pieces]. rewrite obj_get_set.
      destruct (jsstring_eqb k0 k) eqn:E; [left; discriminate|].
      apply jsstring_eqb_neq in E.
      destruct H as [H|[H|H]]; [now left|contradiction|now right].
    + assert (St : clone_step this nb k0 = nb) by (unfold clone_step; now rewrite G0).
      rewrite St.
      destruct (IH nb N A) as (R1 & R2 & R3 & R4 & R5 & R6). cbv zeta in *.
      split; [exact R1|]. split; [exact R2|]. split; [|auto].
      intros k H T. apply R3; [|exact T].
      destruct H as [H|[H|H]]; [now left|subst; congruence|now right].
Qed.

Lemma Board_cloneBoard_spec_aux (b b' : Board) :
  Board_cloneBoard b = Some b' ->
  NoDup (obj_keys (_pieces b'))
  /\ (forall k p', obj_get (_pieces b') k = Some p' -> Piece_recalculated b' p')
  /\ (forall k, Board_view b' k = Board_view b k)
  /\ castlingRights b' = castlingRights b
  /\ enPassantSquare b' = enPassantSquare b
  /\ highlightedSquares b' = highlightedSquares b
  /\ _dirty b' = true.
Proof.
  rewrite Board_cloneBoard_fold. cbv zeta.
  match goal with
  | |- context [fold_left (clone_step b) ?ks ?nb] =>
      destruct (clone_loop_invariant b ks nb) as (N & A & B & Rt & Ep & Di);
        [constructor | intros k p'; cbn; discriminate |];
      set (cloned := fold_left (clone_step b) ks nb) in *
  end.
  cbv zeta in *.
  assert (Vw : forall k, Board_view cloned k = Board_view b k).
  { intros k. unfold Board_view.
    destruct (obj_get (_pieces cloned) k) as [p'|] eqn:G.
    - destruct (A _ _ G) as (_ & p & -> & F). cbn [option_map]. now rewrite F.
    - destruct (obj_get (_pieces b) k) as [p|] eqn:G'; [|reflexivity].
      exfalso. apply (B k); [right; eapply obj_get_Some_key; exact G'|congruence|exact G]. }
  assert (Rt' : castlingRights cloned = castlingRights b).
  { rewrite Rt. cbn [castlingRights Board_with_enPassantSquare Board_with_castlingRights].
    destruct (castlingRights b) as [[lw lb] [sw sb]]. reflexivity. }
  intros H.
  assert (P : _pieces b' = _pieces cloned /\ castlingRights b' = castlingRights cloned
              /\ enPassantSquare b' = enPassantSquare cloned
              /\ highlightedSquares b' = highlightedSquares b
              /\ _dirty b' = _dirty cloned).
  { destruct (lastMove b) as [m|]; [destruct (Moves.piece m)|];
      try discriminate; injection H as <-; repeat split; reflexivity. }
  destruct P as (P1 & P2 & P3 & P4 & P5).
  split; [now rewrite P1|]. split; [|split; [|split; [congruence|split; [|split]]]].
  - intros k p' G. rewrite P1 in G. destruct (A _ _ G) as ((b0 & q0 & R0 & E0) & _).
    exists b0, q0. split; [congruence|exact E0].
  - intros k. unfold Board_view. rewrite P1. apply Vw.
  - rewrite P3, Ep. reflexivity.
  - exact P4.
  - rewrite P5, Di. reflexivity.
Qed.

Lemma Board_view_wf (b b' : Board) :
  Board_wf b -> NoDup (obj_keys (_pieces b')) ->
  (forall k, Board_view b' k = Board_view b k) -> Board_wf b'.
Proof.
  intros W N V. apply (Board_wf_view b); [exact W|exact N|].
  intros k f. rewrite V. now left.
Qed.

Lemma Board_view_sane (b b' : Board) :
  Board_castlingSane b = true ->
  (forall k, Board_view b' k = Board_view b k) ->
  castlingRights b' = castlingRights b ->
  (forall k p', obj_get (_pieces b') k = Some p' -> Piece_recalculated b' p') ->
  Board_castlingSane b' = true.
Proof.
  intros S Vw Rt Rec. apply Board_castlingSane_intro.
  - intros k p Gp T Right.
    assert (Vp : Board_view b' k = Some (KING, color p, location p)).
    { unfold Board_view. rewrite Gp. cbn [option_map]. unfold Piece_fields. now rewrite T. }
    rewrite Vw in Vp. unfold Board_view in Vp.
    destruct (obj_get (_pieces b) k) as [q|] eqn:Gq; [|discriminate].
    cbn [option_map] in Vp. unfold Piece_fields in Vp. injection Vp as Tq Cq Lq.
    rewrite <- Lq, <- Cq. apply (Board_castlingSane_home b k q S Gq Tq).
    rewrite Cq, <- Rt. exact Right.
  - intros k p Gp _. now apply (Rec k).
Qed.

Lemma Board_cloneBoard_playable (b : Board) :
  Board_playable b ->
  exists b0, Board_cloneBoard b = Some b0 /\ Board_wf b0 /\ Board_castlingSane b0 = true.
Proof.
  intros (W & S & L).
  assert (E : exists b0, Board_cloneBoard b = Some b0).
  { rewrite Board_cloneBoard_fold. cbv zeta.
    destruct (lastMove b) as [m|]; [|eauto].
    specialize (L m eq_refl). destruct (Moves.piece m); [eauto|contradiction]. }
  destruct E as (b0 & E). exists b0. split; [exact E|].
  apply Board_cloneBoard_spec_aux in E as (N & Rec & Vw & Rt & _).
  split; [now apply (Board_view_wf b)|now apply (Board_view_sane b)].
Qed.

(** ** Every call of [makeMove] returns *)

Lemma Board_castlingSane_fuel (fuel : nat) (b : Board) :
  Board_castlingSane b = true ->
  (1 <= fuel)%nat ->
  (forall k p to extra,
      obj_get (_pieces b) k = Some p -> Piece_isMoveValid fuel b p to extra <> None)
  /\ (forall c, Board_isInCheck fuel b c <> None).
Proof.
  intros S F. destruct (Board_castlingSane_total b S) as (V & _ & C). split.
  - intros k p to extra G.
    specialize (V k p to extra G (obj_get_Some_key _ _ _ G)).
    destruct (Piece_isMoveValid 1 b p to extra) as [r|] eqn:E; [|contradiction].
    now rewrite (Piece_isMoveValid_fuel 1 fuel b p to extra F r E).
  - intros c. specialize (C c).
    destruct (Board_isInCheck 1 b c) as [r|] eqn:E; [|contradiction].
    now rewrite (Board_isInCheck_fuel 1 fuel b c F r E).
Qed.

Lemma Board_makeMoveIfValid_total (fuel : nat) (h : Heap) (b : Board) (from to : Square)
      (extra : option jsstring) :
  Board_wf b ->
  Board_castlingSane b = true ->
  Square_isValid from = true ->
  (1 <= fuel)%nat ->
  Board_makeMoveIfValid fuel h b from to extra <> None.
Proof.
  intros W S Vf F. unfold Board_makeMoveIfValid.
  destruct (Board_getPiece b from) as [piece|] eqn:G; [|discriminate].
  destruct (Board_castlingSane_fuel fuel b S F) as (V & _).
  specialize (V _ piece to extra G).
  destruct (Piece_isMoveValid fuel b piece to extra) as [[]|] eqn:Va;
    [|discriminate|contradiction].
  destruct (match Board_getPiece b to with Some d => _ | None => false end); [discriminate|].
  set (b2 := Board_removePieceAt
               (match Board_getPiece b to with
                | Some _ => Board_removePieceAt b to
                | None => b
                end) from).
  set (moved := Piece_updateLocation b2 piece to).
  assert (A : Piece_afterMove h (Board_setPiece b2 moved) moved
                (Moves.mkMove (Some moved) from to (negb (isNone (Board_getPiece b to))) extra)
              <> None).
  { destruct (Piece_recalculateValidMoves_fields b2 (Piece_with_location piece to))
      as (Ty & Co & Lo).
    fold (Piece_updateLocation b2 piece to) in Ty, Co, Lo. fold moved in Ty, Co, Lo.
    cbn [Piece_with_location type color location] in Ty, Co, Lo.
    unfold Piece_afterMove. rewrite Ty.
    destruct (type piece) eqn:T; try discriminate.
    destruct (Board_wf_location b from piece W Vf G) as [Lp Ik].
    destruct (Piece_isMoveValid_candidate _ _ _ _ _ Va) as [Vt Cand].
    assert (Rk : fileNumber (location piece) = fileNumber to - 2
                 \/ fileNumber (location piece) = fileNumber to + 2 ->
                 rankNumber to = rankNumber from).
    { intros D. rewrite <- Lp.
      apply (proj2 (Board_castlingSane_king b _ piece S G Ik T)); assumption. }
    assert (Rook : forall kingside : bool,
               fileNumber to = fileNumber from + (if kingside then 2 else -2) ->
               Board_getPiece (Piece_afterMove_base (Board_setPiece b2 moved))
                 (Square_new (if kingside then 8 else 1) (rankNumber (location moved)))
               <> None).
    { intros kingside D.
      assert (Vl : Square_isValid (location piece) = true) by now rewrite Lp.
      destruct (King_castle_home fuel b piece to extra kingside T Vl) as (Home & _ & rook & Gr & _);
        [now rewrite Lp|exact Va|].
      assert (F5 : fileNumber from = 5).
      { rewrite <- Lp, Home. now destruct (color piece). }
      rewrite Lo, Rk by (rewrite Lp; destruct kingside; lia).
      set (rf := Square_new (if kingside then 8 else 1) (rankNumber from)).
      assert (Vr : Square_isValid rf = true)
        by (apply Square_valid_file; [destruct kingside; lia|exact Vf]).
      assert (E : Board_view (Board_setPiece b2 moved) (Square_asString rf)
                  = Board_view b (Square_asString rf)).
      { unfold moved, b2. rewrite Board_view_prepared.
        rewrite (Square_key_eqb _ _ Vt Vr), (Square_key_eqb _ _ Vf Vr).
        rewrite !Square_equals_file; [reflexivity| |];
          unfold rf, Square_new; cbn [fileNumber]; destruct kingside; lia. }
      intros N.
      assert (N' : Board_view (Board_setPiece b2 moved) (Square_asString rf) = None).
      { apply Board_view_None. exact N. }
      rewrite E, Board_view_getPiece in N'.
      replace rf with (Square_newLetter (if kingside then "H" else "A")
                                        (rankNumber (location piece))) in N'
        by (rewrite Lp; unfold rf; destruct kingside; reflexivity).
      rewrite Gr in N'. discriminate. }
    unfold King_afterMove. cbn [Moves.to Moves.from].
    destruct (Z.eqb_spec (fileNumber to) (fileNumber from - 2)) as [D|_].
    - specialize (Rook false D). cbv beta iota in Rook.
      destruct (Board_getPiece (Piece_afterMove_base (Board_setPiece b2 moved))
                  (Square_new 1 (rankNumber (location moved))));
        [discriminate|contradiction].
    - destruct (Z.eqb_spec (fileNumber to) (fileNumber from + 2)) as [D|_]; [|discriminate].
      specialize (Rook true D). cbv beta iota in Rook.
      destruct (Board_getPiece (Piece_afterMove_base (Board_setPiece b2 moved))
                  (Square_new 8 (rankNumber (location moved))));
        [discriminate|contradiction]. }
  destruct (Piece_afterMove _ _ _ _) as [[[b4 lm'] h1]|]; [discriminate|contradiction].
Qed.

Lemma Board_makeMoveIfValid_playable (fuel : nat) (h : Heap) (b : Board) (from to : Square)
      (extra : option jsstring) (b' : Board) (h' : Heap) :
  Board_wf b ->
  Board_castlingSane b = true ->
  Board_makeMoveIfValid fuel h b from to extra = Some (true, b', h') ->
  Board_playable b'.
Proof.
  intros W S H. split; [|split].
  - now apply (Board_makeMoveIfValid_wf _ _ _ _ _ _ _ _ H).
  - now apply (Board_makeMoveIfValid_sane _ _ _ _ _ _ _ _ W S H).
  - intros m L.
    apply Board_makeMoveIfValid_lastMove in H
      as (piece & moved & lm & _ & L' & P & _).
    assert (m = lm) by congruence. subst m. rewrite P. discriminate.
Qed.

Lemma Board_tryMove_total (fuel : nat) (b : Board) (c : Color) (piece : Piece)
      (acc : list (option Moves.Move) * Heap) (move : Square) :
  Board_playable b ->
  Square_isValid (location piece) = true ->
  (1 <= fuel)%nat ->
  Board_tryMove fuel b c piece acc move <> None.
Proof.
  intros P Vl F. unfold Board_tryMove.
  destruct (Board_cloneBoard_playable b P) as (b0 & -> & W0 & S0).
  pose proof (Board_makeMoveIfValid_total fuel (snd acc) b0 (location piece) move
                (Some (js "Q")) W0 S0 Vl F) as T.
  destruct (Board_makeMoveIfValid fuel (snd acc) b0 (location piece) move (Some (js "Q")))
    as [[[[] b1] h1]|] eqn:M; [|discriminate|contradiction].
  destruct (Board_makeMoveIfValid_playable _ _ _ _ _ _ _ _ W0 S0 M) as (_ & S1 & _).
  destruct (Board_castlingSane_fuel fuel b1 S1 F) as (_ & C). specialize (C c).
  destruct (Board_isInCheck fuel b1 c) as [[]|]; [discriminate|discriminate|contradiction].
Qed.

Lemma Board_getValidMovesFor_total (fuel : nat) (h : Heap) (b : Board) (c : Color) :
  Board_playable b ->
  (1 <= fuel)%nat ->
  Board_getValidMovesFor fuel h b c <> None.
Proof.
  intros P F. unfold Board_getValidMovesFor. apply foldM_total.
  intros acc k I.
  destruct (obj_get (_pieces b) k) as [piece|] eqn:G; [|now apply obj_get_key in I].
  destruct (negb (Color_eqb (color piece) c)); [discriminate|].
  apply foldM_total. intros acc' move _.
  apply Board_tryMove_total; [exact P| |exact F].
  destruct P as ((_ & W) & _). now apply (W k piece G).
Qed.

Lemma Game_evaluateTermination_total (fuel : nat) (h : Heap) (g : Game) :
  Board_playable (board (currentState g)) ->
  (1 <= fuel)%nat ->
  Game_evaluateTermination fuel h g <> None.
Proof.
  intros P F. unfold Game_evaluateTermination.
  pose proof (Board_getValidMovesFor_total fuel h _ (currentTurn (currentState g)) P F) as T.
  destruct (Board_getValidMovesFor _ _ _ _) as [[moves h1]|]; [|contradiction].
  destruct (Nat.eqb (List.length moves) 0).
  - destruct P as (_ & S & _).
    destruct (Board_castlingSane_fuel fuel _ S F) as (_ & C).
    specialize (C (currentTurn (currentState g))).
    destruct (Board_isInCheck _ _ _) as [[]|]; [discriminate|discriminate|contradiction].
  - destruct (Game_checkForInsufficientMaterial g); [discriminate|].
    destruct (Game_checkForThreefoldRepetition g) as [[] g1]; [discriminate|].
    destruct (Game_checkForFiftyMoveRuleViolation g1); discriminate.
Qed.

Lemma Game_makeMove_total_playable (fuel : nat) (h : Heap) (g : Game) (from to : Square)
      (extra : option jsstring) :
  Game_playable g ->
  (1 <= fuel)%nat ->
  Game_makeMove fuel h g from to extra <> None.
Proof.
  intros (P & _) F. unfold Game_makeMove.
  destruct (negb (Result_eqb (result g) ONGOING)); [discriminate|].
  destruct (Board_getPiece (board (currentState g)) from) as [piece|] eqn:G; [|discriminate].
  destruct (negb (Color_eqb (color piece) (currentTurn (currentState g)))); [discriminate|].
  destruct (Board_cloneBoard_playable _ P) as (b0 & -> & W0 & S0).
  assert (Vl : Square_isValid (location piece) = true).
  { destruct P as ((_ & W) & _). now apply (W _ piece G). }
  pose proof (Board_makeMoveIfValid_total fuel h b0 (location piece) to extra W0 S0 Vl F) as T.
  destruct (Board_makeMoveIfValid fuel h b0 (location piece) to extra)
    as [[[[] b1] h1]|] eqn:M; [|discriminate|contradiction].
  pose proof (Board_makeMoveIfValid_playable _ _ _ _ _ _ _ _ W0 S0 M) as P1.
  destruct (Board_castlingSane_fuel fuel b1 (proj1 (proj2 P1)) F) as (_ & C).
  specialize (C (currentTurn (currentState g))).
  destruct (Board_isInCheck fuel b1 (currentTurn (currentState g))) as [[]|];
    [discriminate| |contradiction].
  apply Board_makeMoveIfValid_lastMove in M as (p0 & moved & lm & _ & L & Pm & _).
  rewrite L, Pm.
  destruct (Moves.capture lm);
    match goal with
    | |- match Game_evaluateTermination fuel h1 ?g1 with _ => _ end <> None =>
        pose proof (Game_evaluateTermination_total fuel h1 g1 P1 F) as E;
        destruct (Game_evaluateTermination fuel h1 g1) as [[g2 h2]|];
        [discriminate|contradiction]
    end.
Qed.

Lemma Board_playable_hashed (b : Board) : Board_playable b -> Board_playable (Board_hashed b).
Proof.
  intros P. destruct (Board_hashed_cases b) as [-> | (hs & ->)]; exact P.
Qed.

Lemma Game_makeMove_refused_same (fuel : nat) (h : Heap) (g : Game) (from to : Square)
      (extra : option jsstring) (r : MoveResult) (g' : Game) (h' : Heap) :
  Game_makeMove fuel h g from to extra = Some (r, g', h') ->
  r <> MOVE_OK -> g' = g.
Proof.
  unfold Game_makeMove.
  destruct (negb (Result_eqb (result g) ONGOING)); [now intros [= _ <- _]|].
  destruct (Board_getPiece _ _); [|now intros [= _ <- _]].
  destruct (negb _); [now intros [= _ <- _]|].
  destruct (Board_cloneBoard _); [|discriminate].
  destruct (Board_makeMoveIfValid _ _ _ _ _ _) as [[[[] ?] ?]|];
    [|now intros [= _ <- _]|discriminate].
  destruct (Board_isInCheck _ _ _) as [[]|]; [now intros [= _ <- _]| |discriminate].
  destruct (lastMove _); [|discriminate].
  destruct (if Moves.capture _ then _ else _); [|discriminate].
  destruct (Game_evaluateTermination _ _ _) as [[? ?]|]; [|discriminate].
  intros [= <- _ _] N. contradiction.
Qed.

Lemma Game_makeMove_playable (fuel : nat) (h : Heap) (g : Game) (from to : Square)
      (extra : option jsstring) (r : MoveResult) (g' : Game) (h' : Heap) :
  Game_playable g ->
  Game_makeMove fuel h g from to extra = Some (r, g', h') ->
  Game_playable g'.
Proof.
  intros (P & Hi) H.
  assert (D : r = MOVE_OK \/ r <> MOVE_OK) by (destruct r; auto; right; discriminate).
  destruct D as [-> | N].
  - apply Game_makeMove_board in H as (piece & nb0 & nb & h1 & _ & _ & Cl & M & _ & Bo & Hs).
    destruct (Board_cloneBoard_playable _ P) as (b0 & E & W0 & S0).
    assert (b0 = nb0) by congruence. subst b0.
    pose proof (Board_makeMoveIfValid_playable _ _ _ _ _ _ _ _ W0 S0 M) as P1.
    split.
    + destruct Bo as [-> | ->]; [exact P1|now apply Board_playable_hashed].
    + assert (F : Forall (fun st => Board_playable (board st))
                         (stateHistory g ++ [currentState g])).
      { apply Forall_app. split; [exact Hi|]. constructor; [exact P|constructor]. }
      destruct Hs as [-> | ->]; [exact F|].
      apply Forall_map. revert F. apply Forall_impl. intros st Ps.
      cbn [GameState_hashed GameState_with_board board]. now apply Board_playable_hashed.
  - apply Game_makeMove_refused_same in H; [|exact N]. subst g'. now split.
Qed.

(** More fuel never changes an answer. *)

Lemma foldM_mono {A S : Type} (f f' : S -> A -> option S) (l : list A) (s : S) :
  (forall s x, answers_le (f s x) (f' s x)) -> answers_le (foldM f l s) (foldM f' l s).
Proof.
  intros H. revert s; induction l as [|x l IH]; intros s r; cbn [foldM]; [auto|].
  destruct (f s x) as [s1|] eqn:E; [|discriminate].
  rewrite (H s x s1 E). apply IH.
Qed.

Lemma Board_makeMoveIfValid_fuel (n m : nat) (h : Heap) (b : Board) (from to : Square)
      (extra : option jsstring) :
  (n <= m)%nat ->
  answers_le (Board_makeMoveIfValid n h b from to extra)
             (Board_makeMoveIfValid m h b from to extra).
Proof.
  intros L r. unfold Board_makeMoveIfValid.
  destruct (Board_getPiece b from) as [piece|]; [|auto].
  destruct (Piece_isMoveValid n b piece to extra) as [v|] eqn:E; [|discriminate].
  now rewrite (Piece_isMoveValid_fuel n m b piece to extra L v E).
Qed.

Lemma Board_tryMove_fuel (n m : nat) (b : Board) (c : Color) (piece : Piece)
      (acc : list (option Moves.Move) * Heap) (move : Square) :
  (n <= m)%nat ->
  answers_le (Board_tryMove n b c piece acc move) (Board_tryMove m b c piece acc move).
Proof.
  intros L r. unfold Board_tryMove.
  destruct (Board_cloneBoard b) as [b0|]; [|discriminate].
  destruct (Board_makeMoveIfValid n (snd acc) b0 (location piece) move (Some (js "Q")))
    as [x|] eqn:E; [|discriminate].
  rewrite (Board_makeMoveIfValid_fuel n m _ _ _ _ _ L x E).
  destruct x as [[[] b1] h1]; [|auto].
  destruct (Board_isInCheck n b1 c) as [v|] eqn:C; [|discriminate].
  now rewrite (Board_isInCheck_fuel n m b1 c L v C).
Qed.

Lemma Board_getValidMovesFor_fuel (n m : nat) (h : Heap) (b : Board) (c : Color) :
  (n <= m)%nat ->
  answers_le (Board_getValidMovesFor n h b c) (Board_getValidMovesFor m h b c).
Proof.
  intros L. unfold Board_getValidMovesFor. apply foldM_mono.
  intros acc k r. destruct (obj_get (_pieces b) k) as [piece|]; [|discriminate].
  destruct (negb _); [auto|].
  apply foldM_mono. intros acc' move. now apply Board_tryMove_fuel.
Qed.

Lemma Game_evaluateTermination_fuel (n m : nat) (h : Heap) (g : Game) :
  (n <= m)%nat ->
  answers_le (Game_evaluateTermination n h g) (Game_evaluateTermination m h g).
Proof.
  intros L r. unfold Game_evaluateTermination.
  destruct (Board_getValidMovesFor n h _ _) as [x|] eqn:E; [|discriminate].
  rewrite (Board_getValidMovesFor_fuel n m _ _ _ L x E).
  destruct x as [moves h1].
  destruct (Nat.eqb (List.length moves) 0); [|auto].
  destruct (Board_isInCheck n _ _) as [v|] eqn:C; [|discriminate].
  now rewrite (Board_isInCheck_fuel n m _ _ L v C).
Qed.

Lemma Game_makeMove_fuel (n m : nat) (h : Heap) (g : Game) (from to : Square)
      (extra : option jsstring) :
  (n <= m)%nat ->
  answers_le (Game_makeMove n h g from to extra) (Game_makeMove m h g from to extra).
Proof.
  intros L r. unfold Game_makeMove.
  destruct (negb (Result_eqb (result g) ONGOING)); [auto|].
  destruct (Board_getPiece _ _) as [piece|]; [|auto].
  destruct (negb _); [auto|].
  destruct (Board_cloneBoard _) as [b0|]; [|discriminate].
  destruct (Board_makeMoveIfValid n h b0 (location piece) to extra) as [x|] eqn:E;
    [|discriminate].
  rewrite (Board_makeMoveIfValid_fuel n m _ _ _ _ _ L x E).
  destruct x as [[[] b1] h1]; [|auto].
  destruct (Board_isInCheck n b1 _) as [v|] eqn:C; [|discriminate].
  rewrite (Board_isInCheck_fuel n m _ _ L v C).
  destruct v; [auto|].
  destruct (lastMove b1) as [lm|]; [|discriminate].
  destruct (if Moves.capture lm then _ else _) as [reset|]; [|discriminate].
  destruct (Game_evaluateTermination n h1 _) as [y|] eqn:T; [|discriminate].
  now rewrite (Game_evaluateTermination_fuel n m _ _ L y T).
Qed.

Lemma pop_Some {A : Type} (l : list A) (x : A) (rest : list A) :
  pop l = Some (x, rest) -> l = rest ++ [x].
Proof.
  revert x rest; induction l as [|y l IH]; intros x rest; [discriminate|].
  change (pop (y :: l))
    with (match pop l with
          | None => Some (y, [])
          | Some (z, rest) => Some (z, y :: rest)
          end).
  destruct (pop l) as [[z rest']|] eqn:P.
  - intros [= <- <-]. cbn [app]. f_equal. now apply IH.
  - intros [= <- <-]. destruct l; [reflexivity|]. now apply pop_nonempty in P.
Qed.

Lemma Game_new_playable : Game_playable Game_new.
Proof.
  split; [|constructor]. split; [|split].
  - apply Board_wfb_wf. vm_compute. reflexivity.
  - vm_compute. reflexivity.
  - intros m L. vm_compute in L. discriminate.
Qed.

Lemma Game_takebackMove_playable (g : Game) :
  Game_playable g -> Game_playable (snd (Game_takebackMove g)).
Proof.
  intros (P & Hi). unfold Game_takebackMove.
  destruct (_ || _); [now split|].
  destruct (pop (stateHistory g)) as [[st history]|] eqn:E; [|now split].
  apply pop_Some in E. rewrite E in Hi. apply Forall_app in Hi as [Hh Hs].
  inversion Hs as [|? ? (W & S & L) _]; subst.
  split; [|exact Hh]. cbn [snd currentState board].
  destruct (Board_recalculateAllPiecesMoves_keeps (board st)) as (_ & Lm & _).
  split; [now apply Board_wf_recalculate|].
  split; [now apply Board_recalculateAllPiecesMoves_sane|].
  intros m. rewrite Lm. apply L.
Qed.

Lemma Game_reachable_playable (g : Game) : Game_reachable g -> Game_playable g.
Proof.
  induction 1 as [|g _ _|g fuel h from to extra r g' h' _ IH M|g _ IH|g c _ IH|g c _ IH].
  - exact Game_new_playable.
  - exact Game_new_playable.
  - exact (Game_makeMove_playable _ _ _ _ _ _ _ _ _ IH M).
  - now apply Game_takebackMove_playable.
  - unfold Game_resign. destruct (Game_isConcluded g); exact IH.
  - unfold Game_offerDraw. destruct (Game_isConcluded g); [exact IH|].
    destruct IH as (P & Hi). split; [|exact Hi].
    cbn [snd currentState]. destruct c; exact P.
Qed.

(** X24: in every game that the methods of [Game] lead to from a new
    game, [makeMove] returns for every origin, destination and
    promotion choice: the mutual recursion of [isAttacked] and
    [King.isMoveValid] ends after one nested call, no piece, rook or
    last move is missing where one is read, and more fuel never changes
    the answer.  The boards of such a game, current and past, keep
    their pieces filed under the squares they stand on, and their kings
    on the home rank while they hold a castling right. *)
Theorem Game_makeMove_total (g : Game) :
  Game_reachable g ->
  Game_playable g
  /\ forall fuel h from to extra,
      (1 <= fuel)%nat ->
      Game_makeMove fuel h g from to extra <> None
      /\ Game_makeMove fuel h g from to extra = Game_makeMove 1 h g from to extra.
Proof.
  intros R. pose proof (Game_reachable_playable g R) as P. split; [exact P|].
  intros fuel h from to extra F.
  pose proof (Game_makeMove_total_playable 1 h g from to extra P (le_n 1)) as T.
  destruct (Game_makeMove 1 h g from to extra) as [r|] eqn:E; [|contradiction].
  rewrite (Game_makeMove_fuel 1 fuel h g from to extra F r E). split; [discriminate|reflexivity].
Qed.

Lemma Game_makeMove_total_after_E2E4 :
  Game_reachable (gameAfter Game_new "E2" "E4")
  /\ Game_makeMove 2 3%positive (gameAfter Game_new "E2" "E4") (sq "E7") (sq "E5") None
     <> None.
Proof.
  assert (R : Game_reachable (gameAfter Game_new "E2" "E4")).
  { apply (reachable_makeMove Game_new 1 1%positive (sq "E2") (sq "E4") None MOVE_OK
             (gameAfter Game_new "E2" "E4") (heapAfter Game_new "E2" "E4") reachable_new).
    vm_compute. reflexivity. }
  split; [exact R|].
  exact (proj1 (proj2 (Game_makeMove_total _ R) 2%nat 3%positive (sq "E7") (sq "E5") None
                  (le_S 1 1 (le_n 1)))).
Defined.

(** ** Copies of a board *)

Lemma Board_view_equals (b b' : Board) :
  (forall k, Board_view b' k = Board_view b k) ->
  castlingRights b' = castlingRights b ->
  enPassantSquare b' = enPassantSquare b ->
  Board_equals b b' = true /\ Board_equals b' b = true.
Proof.
  intros Vw Rt Ep.
  assert (M : forall x y k,
             Board_view x k = Board_view y k ->
             match obj_get (_pieces x) k, obj_get (_pieces y) k with
             | Some p1, Some p2 => color p1 = color p2 /\ type p1 = type p2
             | None, None => True
             | _, _ => False
             end).
  { intros x y k E. unfold Board_view in E.
    destruct (obj_get (_pieces x) k) as [p1|], (obj_get (_pieces y) k) as [p2|];
      cbn [option_map] in E; try discriminate; [|exact I].
    unfold Piece_fields in E. injection E as T C _. auto. }
  split; apply Board_equals_true_iff.
  - rewrite Ep, Rt. split; [apply SquareObj_differ_refl|]. split; [reflexivity|].
    intros k _. apply M. now rewrite Vw.
  - rewrite Ep, Rt. split; [apply SquareObj_differ_refl|]. split; [reflexivity|].
    intros k _. apply M. now rewrite Vw.
Qed.

(** X25: [cloneBoard] makes a copy that shows the same pieces on the
    same squares, with the same castling rights, the same en passant
    square object and the same highlighted squares, so that [equals]
    holds between the copy and the original in both directions; the
    hash of the copy is not cached.  The call fails only on a board
    whose last move has lost its piece. *)
Theorem Board_cloneBoard_spec (b : Board) :
  (Board_cloneBoard b = None <-> exists m, lastMove b = Some m /\ Moves.piece m = None)
  /\ forall b',
      Board_cloneBoard b = Some b' ->
      (forall s, option_map Piece_fields (Board_getPiece b' s)
                 = option_map Piece_fields (Board_getPiece b s))
      /\ castlingRights b' = castlingRights b
      /\ enPassantSquare b' = enPassantSquare b
      /\ highlightedSquares b' = highlightedSquares b
      /\ _dirty b' = true
      /\ Board_equals b b' = true
      /\ Board_equals b' b = true.
Proof.
  split.
  - rewrite Board_cloneBoard_fold. cbv zeta.
    destruct (lastMove b) as [m|].
    + destruct (Moves.piece m) as [moved|] eqn:P.
      * split; [discriminate|]. intros (m' & [= <-] & N). congruence.
      * split; [|reflexivity]. intros _. exists m. auto.
    + split; [discriminate|]. intros (m' & N & _). discriminate.
  - intros b' H. apply Board_cloneBoard_spec_aux in H as (_ & _ & Vw & Rt & Ep & Hl & Di).
    split; [intros s; apply Vw|]. repeat (split; [assumption|]).
    now apply Board_view_equals.
Qed.

(** ** The hash cache *)

Lemma Board_freshHash_view (b b' : Board) :
  (forall k, Board_view b' k = Board_view b k) -> Board_freshHash b' = Board_freshHash b.
Proof.
  intros Vw. unfold Board_freshHash, Board_calculateHash.
  cbn [_dirty Board_with_hash negb fst _pieces]. f_equal.
  generalize 7. induction hashScanOrder as [|s l IH]; intros hash; [reflexivity|].
  cbn [fold_left].
  assert (E : match obj_get (_pieces b') (Square_asString s) with
              | Some piece =>
                  ToInt32 (31 * (128 * pieceTypeId (type piece)
                                 + 64 * (if Color_eqb (color piece) WHITE then 1 else 2)
                                 + rankNumber (location piece) * 8 + fileNumber (location piece)))
              | None => hash
              end
              = match obj_get (_pieces b) (Square_asString s) with
                | Some piece =>
                    ToInt32 (31 * (128 * pieceTypeId (type piece)
                                   + 64 * (if Color_eqb (color piece) WHITE then 1 else 2)
                                   + rankNumber (location piece) * 8
                                   + fileNumber (location piece)))
                | None => hash
                end).
  { specialize (Vw (Square_asString s)). unfold Board_view in Vw.
    destruct (obj_get (_pieces b') _) as [p'|], (obj_get (_pieces b) _) as [p|];
      cbn [option_map] in Vw; try discriminate; [|reflexivity].
    unfold Piece_fields in Vw. injection Vw as -> -> ->. reflexivity. }
  rewrite E. apply IH.
Qed.

Lemma Board_calculateHash_fresh (b : Board) :
  Board_cacheCoherent b ->
  fst (Board_calculateHash b) = Board_freshHash b
  /\ Board_cacheCoherent (Board_hashed b)
  /\ Board_freshHash (Board_hashed b) = Board_freshHash b.
Proof.
  intros C. unfold Board_cacheCoherent, Board_hashed, Board_freshHash in *.
  unfold Board_calculateHash in *.
  cbn [_dirty Board_with_hash negb fst snd _pieces _hash] in *.
  destruct (_dirty b) eqn:D; cbn [negb fst snd _dirty _hash _pieces Board_with_hash].
  - split; [reflexivity|]. split; [intros _; reflexivity|reflexivity].
  - split; [now apply C|]. split; [intros _; now apply C|reflexivity].
Qed.

Lemma Board_makeMoveIfValid_dirty (fuel : nat) (h : Heap) (b : Board) (from to : Square)
      (extra : option jsstring) (b' : Board) (h' : Heap) :
  Board_makeMoveIfValid fuel h b from to extra = Some (true, b', h') -> _dirty b' = true.
Proof.
  intros H. apply Board_makeMoveIfValid_steps in H as (piece & b4 & lm' & _ & _ & _ & A & ->).
  destruct (Board_recalculateAllPiecesMoves_keeps b4) as (_ & _ & _ & _ & Di & _).
  cbn [_dirty Board_with_lastMove]. rewrite Di. clear Di.
  unfold Piece_afterMove in A.
  destruct (type (Piece_updateLocation _ piece to)).
  - injection A as A. apply (f_equal (fun x => _dirty (fst (fst x)))) in A. cbn [fst] in A.
    rewrite <- A. unfold Pawn_afterMove.
    destruct (Square_equals_maybe _ _); destruct (_ + _ =? _);
      cbn [fst snd heap_alloc Moves.with_capture Moves.to Moves.from Moves.extra];
      destruct ((rankNumber to =? 1) || (rankNumber to =? 8)); reflexivity.
  - injection A as <- _ _. unfold Rook_afterMove. destruct (_ =? 8), (_ =? 1); reflexivity.
  - injection A as <- _ _. reflexivity.
  - injection A as <- _ _. reflexivity.
  - injection A as <- _ _. reflexivity.
  - destruct (King_afterMove _ _ _) as [b5|] eqn:K; [|discriminate].
    injection A as <- _ _. unfold King_afterMove in K.
    destruct (_ =? _) in K; [|destruct (_ =? _) in K];
      try (destruct (Board_getPiece _ _) in K; [|discriminate]);
      injection K as <-; reflexivity.
Qed.

Lemma Game_reachable_coherent (g : Game) :
  Game_reachable g ->
  Board_cacheCoherent (board (currentState g))
  /\ Forall (fun st => Board_cacheCoherent (board st)) (stateHistory g).
Proof.
  induction 1 as [|g _ _|g fuel h from to extra r g' h' _ IH M|g _ IH|g c _ IH|g c _ IH].
  - split; [|constructor]. intros D. vm_compute in D. discriminate.
  - split; [|constructor]. intros D. vm_compute in D. discriminate.
  - assert (D : r = MOVE_OK \/ r <> MOVE_OK) by (destruct r; auto; right; discriminate).
    destruct D as [-> | N].
    + destruct IH as (C & Hi).
      apply Game_makeMove_board in M as (piece & nb0 & nb & h1 & _ & _ & _ & Mv & _ & Bo & Hs).
      apply Board_makeMoveIfValid_dirty in Mv.
      assert (Cn : Board_cacheCoherent nb) by (intros D; congruence).
      split.
      * destruct Bo as [-> | ->]; [exact Cn|]. now apply Board_calculateHash_fresh.
      * assert (F : Forall (fun st => Board_cacheCoherent (board st))
                           (stateHistory g ++ [currentState g])).
        { apply Forall_app. split; [exact Hi|]. constructor; [exact C|constructor]. }
        destruct Hs as [-> | ->]; [exact F|].
        apply Forall_map. revert F. apply Forall_impl. intros st Cs.
        cbn [GameState_hashed GameState_with_board board]. now apply Board_calculateHash_fresh.
    + apply Game_makeMove_refused_same in M; [|exact N]. now subst g'.
  - destruct IH as (C & Hi). unfold Game_takebackMove.
    destruct (_ || _); [now split|].
    destruct (pop (stateHistory g)) as [[st history]|] eqn:E; [|now split].
    apply pop_Some in E. rewrite E in Hi. apply Forall_app in Hi as [Hh Hs].
    inversion Hs as [|? ? Cs _]; subst.
    split; [|exact Hh]. cbn [snd currentState board].
    destruct (Board_recalculateAllPiecesMoves_keeps (board st))
      as (_ & _ & _ & _ & Di & Ha & _ & Vw).
    intros D. rewrite Ha, (Board_freshHash_view _ _ Vw). apply Cs. now rewrite <- Di.
  - unfold Game_resign. destruct (Game_isConcluded g); exact IH.
  - unfold Game_offerDraw. destruct (Game_isConcluded g); [exact IH|].
    destruct IH as (P & Hi). split; [|exact Hi].
    cbn [snd currentState]. destruct c; exact P.
Qed.

(** X26: the hash cache is never stale.  On every board of a game that
    the methods of [Game] lead to from a new game, current or past,
    [calculateHash] returns the hash that a recomputation from the
    pieces on the board gives, although pieces are moved and
    recalculated on a board without passing through [setPiece]. *)
Theorem Game_calculateHash_fresh (g : Game) (st : GameState) :
  Game_reachable g ->
  In st (currentState g :: stateHistory g) ->
  fst (Board_calculateHash (board st)) = Board_freshHash (board st).
Proof.
  intros R I. destruct (Game_reachable_coherent g R) as (C & Hi).
  apply Board_calculateHash_fresh.
  destruct I as [<- | I]; [exact C|].
  rewrite Forall_forall in Hi. now apply Hi.
Qed.

Lemma Game_calculateHash_fresh_at_start :
  Game_reachable Game_new
  /\ In (currentState Game_new) (currentState Game_new :: stateHistory Game_new)
  /\ fst (Board_calculateHash (board (currentState Game_new))) = js "18104".
Proof.
  split; [exact reachable_new|]. split; [now left|].
  rewrite (Game_calculateHash_fresh Game_new (currentState Game_new) reachable_new
             (or_introl eq_refl)).
  vm_compute. reflexivity.
Defined.

(** ** The identity of the en passant square plays no part in validation *)

Lemma anyM_ext {A : Type} (f g : A -> option bool) (l : list A) :
  (forall x, f x = g x) -> anyM f l = anyM g l.
Proof.
  intros E. induction l as [|x l IH]; [reflexivity|]. cbn [anyM]. now rewrite E, IH.
Qed.

Lemma Board_sameUpToId_refl (b : Board) : Board_sameUpToId b b.
Proof. repeat split. Qed.

Lemma Pawn_isMoveValid_sameUpToId (b1 b2 : Board) (p : Piece) (to : Square)
      (extra : option jsstring) :
  Board_sameUpToId b1 b2 -> Pawn_isMoveValid b1 p to extra = Pawn_isMoveValid b2 p to extra.
Proof.
  intros (P & _ & E). unfold Pawn_isMoveValid, Board_getPiece. now rewrite P, E.
Qed.

Lemma Slider_isMoveValid_sameUpToId (b1 b2 : Board) (p : Piece) (to : Square) :
  Board_sameUpToId b1 b2 -> Slider_isMoveValid b1 p to = Slider_isMoveValid b2 p to.
Proof.
  intros (P & _ & _). unfold Slider_isMoveValid, Board_isPathClear, Board_getPiece.
  now rewrite P.
Qed.

Lemma Board_isAttacked_with_ext
      (v1 v2 : Piece -> Square -> option jsstring -> option bool) (b1 b2 : Board)
      (s : Square) (c : option Color) :
  (forall p m e, v1 p m e = v2 p m e) -> _pieces b1 = _pieces b2 ->
  Board_isAttacked_with v1 b1 s c = Board_isAttacked_with v2 b2 s c.
Proof.
  intros E P. unfold Board_isAttacked_with. rewrite P. apply anyM_ext. intros k.
  destruct (obj_get (_pieces b2) k) as [piece|]; [|reflexivity].
  destruct (match c with Some c0 => _ | None => false end); [reflexivity|].
  apply anyM_ext. intros m. destruct (negb _); [reflexivity|apply E].
Qed.

Lemma Board_isInCheck_with_ext (a1 a2 : Square -> option Color -> option bool)
      (b1 b2 : Board) (c : Color) :
  (forall s c', a1 s c' = a2 s c') -> _pieces b1 = _pieces b2 ->
  Board_isInCheck_with a1 b1 c = Board_isInCheck_with a2 b2 c.
Proof.
  intros E P. unfold Board_isInCheck_with. rewrite P. apply anyM_ext. intros k.
  destruct (obj_get (_pieces b2) k) as [piece|]; [|reflexivity].
  destruct (_ || _); [reflexivity|apply E].
Qed.

Lemma King_isMoveValid_ext (a1 a2 : Square -> option Color -> option bool)
      (b1 b2 : Board) (p : Piece) (to : Square) :
  (forall s c, a1 s c = a2 s c) -> Board_sameUpToId b1 b2 ->
  King_isMoveValid a1 b1 p to = King_isMoveValid a2 b2 p to.
Proof.
  intros E (P & C & _).
  unfold King_isMoveValid, King_canCastleShort, King_canCastleLong, King_validateCanCastle,
    Board_isPathClear, Board_getPiece.
  rewrite (Board_isInCheck_with_ext a1 a2 b1 b2 (color p) E P), !E, P, C. reflexivity.
Qed.

Lemma Piece_isMoveValid_sameUpToId (fuel : nat) (b1 b2 : Board) (p : Piece) (to : Square)
      (extra : option jsstring) :
  Board_sameUpToId b1 b2 ->
  Piece_isMoveValid fuel b1 p to extra = Piece_isMoveValid fuel b2 p to extra.
Proof.
  intros S. revert p to extra. induction fuel as [|n IH]; intros p to extra;
    cbn [Piece_isMoveValid]; destruct (type p);
    try (f_equal; now apply Pawn_isMoveValid_sameUpToId);
    try (f_equal; now apply Slider_isMoveValid_sameUpToId);
    try reflexivity.
  - apply King_isMoveValid_ext; [reflexivity|exact S].
  - apply King_isMoveValid_ext; [|exact S]. intros s c.
    apply Board_isAttacked_with_ext; [intros; apply IH|apply S].
Qed.

Lemma Board_isInCheck_sameUpToId (fuel : nat) (b1 b2 : Board) (c : Color) :
  Board_sameUpToId b1 b2 -> Board_isInCheck fuel b1 c = Board_isInCheck fuel b2 c.
Proof.
  intros S. unfold Board_isInCheck, Board_isAttacked.
  apply Board_isInCheck_with_ext; [|apply S]. intros s c'.
  apply Board_isAttacked_with_ext; [|apply S]. intros p m e.
  now apply Piece_isMoveValid_sameUpToId.
Qed.

Lemma Pawn_afterMove_heap (h h0 : Heap) (b : Board) (p : Piece) (m : Moves.Move) :
  snd (fst (Pawn_afterMove h b p m)) = snd (fst (Pawn_afterMove h0 b p m))
  /\ Board_sameUpToId (fst (fst (Pawn_afterMove h b p m))) (fst (fst (Pawn_afterMove h0 b p m))).
Proof.
  unfold Pawn_afterMove, heap_alloc.
  destruct (Square_equals_maybe _ _); destruct (_ + _ =? _);
    cbn [fst snd Moves.with_capture Moves.to Moves.from Moves.extra];
    destruct ((_ =? 1) || (_ =? 8)); split; try reflexivity; repeat split.
Qed.

Lemma Piece_afterMove_heap (h h0 : Heap) (b : Board) (p : Piece) (m : Moves.Move)
      (b1 : Board) (m1 : Moves.Move) (h1 : Heap) :
  Piece_afterMove h b p m = Some (b1, m1, h1) ->
  exists b2 h2, Piece_afterMove h0 b p m = Some (b2, m1, h2) /\ Board_sameUpToId b1 b2.
Proof.
  unfold Piece_afterMove. destruct (type p).
  - intros [= H]. destruct (Pawn_afterMove_heap h h0 b p m) as (E & S).
    rewrite H in E, S. cbn [fst snd] in E, S.
    destruct (Pawn_afterMove h0 b p m) as [[b2 m2] h2]. cbn [fst snd] in E, S. subst m2.
    now exists b2, h2.
  - intros [= <- <- _]. eexists _, _. split; [reflexivity|apply Board_sameUpToId_refl].
  - intros [= <- <- _]. eexists _, _. split; [reflexivity|apply Board_sameUpToId_refl].
  - intros [= <- <- _]. eexists _, _. split; [reflexivity|apply Board_sameUpToId_refl].
  - intros [= <- <- _]. eexists _, _. split; [reflexivity|apply Board_sameUpToId_refl].
  - destruct (King_afterMove b p m) as [b5|]; [|discriminate].
    intros [= <- <- _]. eexists _, _. split; [reflexivity|apply Board_sameUpToId_refl].
Qed.

Lemma Piece_recalculateValidMoves_rights (b1 b2 : Board) (p : Piece) :
  castlingRights b1 = castlingRights b2 ->
  Piece_recalculateValidMoves b1 p = Piece_recalculateValidMoves b2 p.
Proof.
  intros C. unfold Piece_recalculateValidMoves. destruct (type p); try reflexivity.
  unfold King_recalculateValidMoves. now rewrite C.
Qed.

Lemma Board_recalculateAllPiecesMoves_sameUpToId (b1 b2 : Board) :
  Board_sameUpToId b1 b2 ->
  Board_sameUpToId (Board_recalculateAllPiecesMoves b1) (Board_recalculateAllPiecesMoves b2).
Proof.
  intros S. rewrite !Board_recalculateAllPiecesMoves_fold.
  replace (obj_keys (_pieces b1)) with (obj_keys (_pieces b2))
    by (destruct S as (P & _); now rewrite P).
  generalize (obj_keys (_pieces b2)). intros l.
  revert b1 b2 S. induction l as [|k l IH]; intros b1 b2 S.
  - exact S.
  - cbn [fold_left]. apply IH. destruct S as (P & C & E). unfold recalculate_step.
    rewrite P. destruct (obj_get (_pieces b2) k) as [piece|]; [|now repeat split].
    repeat split; cbn [_pieces castlingRights enPassantSquare Board_with_pieces];
      try assumption.
    now rewrite (Piece_recalculateValidMoves_rights b1 b2 piece C).
Qed.

Lemma Board_makeMoveIfValid_heap (fuel : nat) (h h0 : Heap) (b : Board) (from to : Square)
      (extra : option jsstring) (b1 : Board) (h1 : Heap) :
  Board_makeMoveIfValid fuel h b from to extra = Some (true, b1, h1) ->
  exists b2 h2,
    Board_makeMoveIfValid fuel h0 b from to extra = Some (true, b2, h2)
    /\ Board_sameUpToId b1 b2.
Proof.
  unfold Board_makeMoveIfValid.
  destruct (Board_getPiece b from) as [piece|]; [|discriminate].
  destruct (Piece_isMoveValid fuel b piece to extra) as [[]|]; try discriminate.
  destruct (match Board_getPiece b to with Some d => _ | None => false end);
    [discriminate|].
  cbv zeta.
  destruct (Piece_afterMove h _ _ _) as [[[b4 lm] h4]|] eqn:A; [|discriminate].
  intros [= <- <-].
  apply (Piece_afterMove_heap h h0) in A as (b5 & h5 & A & S). rewrite A.
  eexists _, _. split; [reflexivity|].
  apply Board_recalculateAllPiecesMoves_sameUpToId in S. exact S.
Qed.

(** ** Moves that pass the trial of [getValidMovesFor] *)

Lemma Board_tryMove_passes (fuel : nat) (b : Board) (c : Color) (piece : Piece)
      (acc : list (option Moves.Move) * Heap) (m : Square)
      (acc' : list (option Moves.Move) * Heap) :
  Board_tryMove fuel b c piece acc m = Some acc' ->
  fst acc' = fst acc
  \/ exists nb0 nb h',
      Board_cloneBoard b = Some nb0
      /\ Board_makeMoveIfValid fuel (snd acc) nb0 (location piece) m (Some (js "Q"))
         = Some (true, nb, h')
      /\ Board_isInCheck fuel nb c = Some false.
Proof.
  unfold Board_tryMove. destruct (Board_cloneBoard b) as [nb0|]; [|discriminate].
  destruct (Board_makeMoveIfValid _ _ _ _ _ _) as [[[[] nb] h']|] eqn:M; try discriminate.
  - destruct (Board_isInCheck fuel nb c) as [[]|] eqn:I; try discriminate.
    + intros [= <-]. now left.
    + intros _. right. now exists nb0, nb, h'.
  - intros [= <-]. now left.
Qed.

Lemma Board_tryMoves_pass (fuel : nat) (b : Board) (c : Color) (piece : Piece)
      (l : list Square) (acc acc' : list (option Moves.Move) * Heap) :
  foldM (Board_tryMove fuel b c piece) l acc = Some acc' ->
  fst acc' = fst acc
  \/ exists m nb0 nb h h',
      Board_cloneBoard b = Some nb0
      /\ Board_makeMoveIfValid fuel h nb0 (location piece) m (Some (js "Q"))
         = Some (true, nb, h')
      /\ Board_isInCheck fuel nb c = Some false.
Proof.
  revert acc. induction l as [|m l IH]; intros acc; cbn [foldM].
  - intros [= <-]. now left.
  - destruct (Board_tryMove fuel b c piece acc m) as [acc1|] eqn:T; [|discriminate].
    intros F. apply Board_tryMove_passes in T as [T | (nb0 & nb & h' & T)].
    + apply IH in F as [F | F]; [left; congruence|now right].
    + right. now exists m, nb0, nb, (snd acc), h'.
Qed.

Lemma Board_getValidMovesFor_passes (fuel : nat) (h : Heap) (b : Board) (c : Color)
      (moves : list (option Moves.Move)) (h' : Heap) :
  Board_getValidMovesFor fuel h b c = Some (moves, h') -> moves <> [] -> Board_hasMove b c.
Proof.
  unfold Board_getValidMovesFor. intros F N.
  assert (G : forall l acc acc',
             foldM (fun acc location' =>
                      match obj_get (_pieces b) location' with
                      | None => None
                      | Some piece =>
                          if negb (Color_eqb (color piece) c) then Some acc
                          else foldM (Board_tryMove fuel b c piece) (validMoves piece) acc
                      end) l acc = Some acc' ->
             fst acc' = fst acc \/ Board_hasMove b c).
  { induction l as [|k l IH]; intros acc acc'; cbn [foldM].
    - intros [= <-]. now left.
    - destruct (obj_get (_pieces b) k) as [piece|] eqn:P; [|discriminate].
      destruct (Color_eqb (color piece) c) eqn:C; cbn [negb].
      + destruct (foldM (Board_tryMove fuel b c piece) (validMoves piece) acc)
          as [acc1|] eqn:T; [|discriminate].
        intros F1. apply Board_tryMoves_pass in T as [T | (m & nb0 & nb & h1 & h2 & T)].
        * apply IH in F1 as [F1 | F1]; [left; congruence|now right].
        * right. apply Color_eqb_eq in C. destruct T as (T1 & T2 & T3).
          now exists k, piece, m, nb0, nb, fuel, h1, h2.
      + apply IH. }
  apply G in F as [F | F]; [|exact F]. cbn [fst] in F. contradiction.
Qed.

Lemma Board_hasMove_hashed (b : Board) (c : Color) :
  Board_hasMove b c -> Board_hasMove (Board_hashed b) c.
Proof.
  destruct (Board_hashed_cases b) as [-> | [hs ->]]; [auto|].
  intros (k & piece & to & nb0 & nb & fuel & h & h' & P & C & Cl & M & I).
  now exists k, piece, to, nb0, nb, fuel, h, h'.
Qed.

Lemma clone_loop_ext (b1 b2 : Board) (l : list jsstring) (nb : Board) :
  (forall k, Board_view b1 k = Board_view b2 k) ->
  fold_left (clone_step b1) l nb = fold_left (clone_step b2) l nb.
Proof.
  intros Vw. revert nb. induction l as [|k l IH]; intros nb; [reflexivity|].
  cbn [fold_left]. rewrite IH. f_equal. unfold clone_step.
  specialize (Vw k). unfold Board_view in Vw.
  destruct (obj_get (_pieces b1) k) as [p1|], (obj_get (_pieces b2) k) as [p2|];
    cbn [option_map] in Vw; try discriminate; [|reflexivity].
  unfold Piece_fields in Vw. injection Vw as T C L.
  unfold Piece_cloneToAnotherBoard. now rewrite T, C, L.
Qed.

Lemma Board_cloneBoard_ext (b1 b2 : Board) :
  obj_keys (_pieces b1) = obj_keys (_pieces b2) ->
  (forall k, Board_view b1 k = Board_view b2 k) ->
  castlingRights b1 = castlingRights b2 ->
  enPassantSquare b1 = enPassantSquare b2 ->
  lastMove b1 = lastMove b2 ->
  highlightedSquares b1 = highlightedSquares b2 ->
  Board_cloneBoard b1 = Board_cloneBoard b2.
Proof.
  intros K Vw C E L Hl. rewrite !Board_cloneBoard_fold. cbv zeta.
  rewrite K, C, E, L, Hl, (clone_loop_ext b1 b2 _ _ Vw). reflexivity.
Qed.

Lemma Board_hasMove_recalculate (b : Board) (c : Color) :
  Board_hasMove b c -> Board_hasMove (Board_recalculateAllPiecesMoves b) c.
Proof.
  intros (k & piece & to & nb0 & nb & fuel & h & h' & P & C & Cl & M & I).
  destruct (Board_recalculateAllPiecesMoves_keeps b) as (Hl & L & Cr & E & _ & _ & K & Vw).
  assert (Q : exists piece', obj_get (_pieces (Board_recalculateAllPiecesMoves b)) k
                             = Some piece'
                             /\ color piece' = color piece
                             /\ location piece' = location piece).
  { specialize (Vw k). unfold Board_view in Vw. rewrite P in Vw.
    destruct (obj_get (_pieces (Board_recalculateAllPiecesMoves b)) k) as [piece'|];
      cbn [option_map] in Vw; [|discriminate].
    unfold Piece_fields in Vw. injection Vw as _ C' L'. now exists piece'. }
  destruct Q as (piece' & P' & C' & L').
  exists k, piece', to, nb0, nb, fuel, h, h'.
  rewrite C', L', (Board_cloneBoard_ext _ b K Vw Cr E L Hl). auto.
Qed.

Lemma Board_getValidMovesFor_hasMove (fuel : nat) (h : Heap) (b : Board) (c : Color) :
  match Board_getValidMovesFor fuel h b c with
  | Some (_ :: _, _) => true
  | _ => false
  end = true ->
  Board_hasMove b c.
Proof.
  destruct (Board_getValidMovesFor fuel h b c) as [[[|m moves] h']|] eqn:V;
    try discriminate.
  intros _. apply (Board_getValidMovesFor_passes _ _ _ _ _ _ V). discriminate.
Qed.

Lemma Board_hasMove_at_start : Board_hasMove (Board_setupDefaultBoard Board_new) WHITE.
Proof.
  apply (Board_getValidMovesFor_hasMove 1 1%positive). vm_compute. reflexivity.
Qed.

Lemma Game_reachable_hasMove (g : Game) :
  Game_reachable g ->
  (result g = ONGOING ->
   Board_hasMove (board (currentState g)) (currentTurn (currentState g)))
  /\ Forall (fun st => Board_hasMove (board st) (currentTurn st)) (stateHistory g).
Proof.
  induction 1 as [|g _ _|g fuel h from to extra r g' h' _ IH M|g _ IH|g c _ IH|g c _ IH].
  - split; [intros _; exact Board_hasMove_at_start|constructor].
  - split; [intros _; exact Board_hasMove_at_start|constructor].
  - assert (D : r = MOVE_OK \/ r <> MOVE_OK) by (destruct r; auto; right; discriminate).
    destruct D as [-> | N].
    + destruct IH as (C & Hi).
      destruct (Game_makeMove_board _ _ _ _ _ _ _ _ M)
        as (_ & _ & _ & _ & _ & _ & _ & _ & _ & _ & Hs).
      apply Game_makeMove_ok_inv in M
          as (R & piece & nb0 & nb & h1 & lm & _ & _ & _ & _ & _ & _ & T).
      apply Game_evaluateTermination_post in T
          as (moves & inCheck & V & _ & Re & _); [|reflexivity].
      split.
      * intros R'. apply (Board_getValidMovesFor_passes _ _ _ _ _ _ V).
        intros ->. rewrite R' in Re. unfold spec_termination in Re. cbn [isEmpty] in Re.
        destruct inCheck; [destruct (currentTurn (currentState g'))|]; discriminate.
      * assert (F : Forall (fun st => Board_hasMove (board st) (currentTurn st))
                           (stateHistory g ++ [currentState g])).
        { apply Forall_app. split; [exact Hi|]. constructor; [now apply C|constructor]. }
        destruct Hs as [-> | ->]; [exact F|].
        apply Forall_map. revert F. apply Forall_impl. intros st Cs.
        cbn [GameState_hashed GameState_with_board board currentTurn].
        now apply Board_hasMove_hashed.
    + apply Game_makeMove_refused_same in M; [|exact N]. now subst g'.
  - destruct IH as (C & Hi). unfold Game_takebackMove.
    destruct (_ || _); [now split|].
    destruct (pop (stateHistory g)) as [[st history]|] eqn:E; [|now split].
    apply pop_Some in E. rewrite E in Hi. apply Forall_app in Hi as [Hh Hs].
    inversion Hs as [|? ? Cs _]; subst.
    split; [|exact Hh]. intros _. cbn [snd currentState board currentTurn].
    now apply Board_hasMove_recalculate.
  - unfold Game_resign. destruct (Game_isConcluded g); [exact IH|].
    destruct IH as (C & Hi). split; [|exact Hi].
    cbn [snd result]. destruct (Color_eqb c WHITE); discriminate.
  - unfold Game_offerDraw. destruct (Game_isConcluded g); [exact IH|].
    destruct IH as (C & Hi). split; [|exact Hi].
    cbn [snd result currentState]. intros R.
    assert (R' : result g = ONGOING) by (destruct (_ && _); [discriminate|exact R]).
    specialize (C R'). destruct c; exact C.
Qed.

Lemma Board_tryMove_agrees (f0 fuel : nat) (h0 h : Heap) (nb0 : Board) (from to : Square)
      (extra : option jsstring) (c : Color) (nb : Board) (h0' : Heap) (ok : bool)
      (b2 : Board) (h2 : Heap) :
  Board_makeMoveIfValid f0 h0 nb0 from to extra = Some (true, nb, h0') ->
  Board_isInCheck f0 nb c = Some false ->
  Board_makeMoveIfValid fuel h nb0 from to extra = Some (ok, b2, h2) ->
  ok = true /\ forall x, Board_isInCheck fuel b2 c = Some x -> x = false.
Proof.
  intros M0 I0 M.
  apply (Board_makeMoveIfValid_fuel f0 (Nat.max f0 fuel)) in M0; [|apply Nat.le_max_l].
  apply (Board_makeMoveIfValid_fuel fuel (Nat.max f0 fuel)) in M; [|apply Nat.le_max_r].
  apply (Board_isInCheck_fuel f0 (Nat.max f0 fuel)) in I0; [|apply Nat.le_max_l].
  apply (Board_makeMoveIfValid_heap _ h0 h) in M0 as (b3 & h3 & M0 & S).
  rewrite M0 in M. injection M as <- <- <-. split; [reflexivity|].
  intros x I. apply (Board_isInCheck_fuel fuel (Nat.max f0 fuel)) in I; [|apply Nat.le_max_r].
  rewrite (Board_isInCheck_sameUpToId _ _ _ c S) in I0. congruence.
Qed.

Lemma Game_makeMove_of_trial (g : Game) (k : jsstring) (piece : Piece) (to : Square)
      (nb0 nb : Board) (f0 : nat) (h0 h0' : Heap) (fuel : nat) (h : Heap) :
  Game_playable g ->
  result g = ONGOING ->
  obj_get (_pieces (board (currentState g))) k = Some piece ->
  color piece = currentTurn (currentState g) ->
  Board_cloneBoard (board (currentState g)) = Some nb0 ->
  Board_makeMoveIfValid f0 h0 nb0 (location piece) to (Some (js "Q")) = Some (true, nb, h0') ->
  Board_isInCheck f0 nb (currentTurn (currentState g)) = Some false ->
  (1 <= fuel)%nat ->
  Board_getPiece (board (currentState g)) (location piece) = Some piece
  /\ exists g' h',
      Game_makeMove fuel h g (location piece) to (Some (js "Q")) = Some (MOVE_OK, g', h').
Proof.
  intros Pl R P C Cl M0 I0 F.
  pose proof Pl as (((_ & Wf) & _) & _).
  destruct (Wf k piece P) as (K & V).
  assert (G : Board_getPiece (board (currentState g)) (location piece) = Some piece)
    by (unfold Board_getPiece; now rewrite <- K).
  split; [exact G|].
  destruct (Game_makeMove fuel h g (location piece) to (Some (js "Q")))
    as [[[r g'] h']|] eqn:M;
    [|exfalso; revert M; now apply Game_makeMove_total_playable].
  exists g', h'. unfold Game_makeMove in M.
  rewrite R, G, C, Cl in M.
  replace (Color_eqb (currentTurn (currentState g)) (currentTurn (currentState g)))
    with true in M by (symmetry; now apply Color_eqb_eq).
  cbn [Result_eqb negb] in M.
  destruct (Board_makeMoveIfValid fuel h nb0 (location piece) to (Some (js "Q")))
    as [[[ok b2] h2]|] eqn:M2; [|discriminate].
  destruct (Board_tryMove_agrees _ _ _ _ _ _ _ _ _ _ _ _ _ _ M0 I0 M2) as (-> & Ck).
  destruct (Board_isInCheck fuel b2 (currentTurn (currentState g))) as [x|] eqn:I;
    [|discriminate].
  rewrite (Ck x eq_refl) in M.
  destruct (lastMove b2) as [lm|]; [|discriminate].
  destruct (if Moves.capture lm then _ else _) as [reset|]; [|discriminate].
  destruct (Game_evaluateTermination _ _ _) as [[g1 h1]|]; [|discriminate].
  now injection M as <- <- <-.
Qed.

(** X27: an ongoing game is never stuck.  In every game that the
    methods of [Game] lead to from a new game and whose result is still
    ongoing, the side to move has a piece and a destination that
    [makeMove] accepts with the promotion choice Q: mate and stalemate
    are declared as soon as no move is left, so a player is never asked
    for a move that cannot be given. *)
Theorem Game_makeMove_available (g : Game) :
  Game_reachable g ->
  result g = ONGOING ->
  exists from to piece,
    Board_getPiece (board (currentState g)) from = Some piece
    /\ color piece = currentTurn (currentState g)
    /\ forall fuel h,
        (1 <= fuel)%nat ->
        exists g' h',
          Game_makeMove fuel h g from to (Some (js "Q")) = Some (MOVE_OK, g', h').
Proof.
  intros Rc R.
  destruct (Game_reachable_hasMove g Rc) as (Hm & _).
  destruct (Hm R) as (k & piece & to & nb0 & nb & f0 & h0 & h0' & P & C & Cl & M0 & I0).
  pose proof (Game_reachable_playable g Rc) as Pl.
  exists (location piece), to, piece.
  split; [|split; [exact C|]].
  - exact (proj1 (Game_makeMove_of_trial g k piece to nb0 nb f0 h0 h0' 1 1%positive
                    Pl R P C Cl M0 I0 (le_n 1))).
  - intros fuel h F.
    exact (proj2 (Game_makeMove_of_trial g k piece to nb0 nb f0 h0 h0' fuel h
                    Pl R P C Cl M0 I0 F)).
Qed.

Lemma Game_makeMove_available_at_start :
  exists from to piece,
    Board_getPiece (board (currentState Game_new)) from = Some piece
    /\ color piece = currentTurn (currentState Game_new)
    /\ forall fuel h,
        (1 <= fuel)%nat ->
        exists g' h',
          Game_makeMove fuel h Game_new from to (Some (js "Q")) = Some (MOVE_OK, g', h').
Proof.
  exact (Game_makeMove_available Game_new reachable_new eq_refl).
Defined.

(** ** What a move does to the castling rights *)

Lemma Piece_afterMove_rights_exact (h : Heap) (b : Board) (this : Piece) (move : Moves.Move)
      (b' : Board) (move' : Moves.Move) (h' : Heap) (c : Color) :
  Piece_afterMove h b this move = Some (b', move', h') ->
  by_color (short (castlingRights b')) c
  = by_color (short (castlingRights b)) c
    && negb (Color_eqb c (color this)
             && (PieceType_eqb (type this) KING
                 || (PieceType_eqb (type this) ROOK && (fileNumber (Moves.from move) =? 8))))
  /\ by_color (long (castlingRights b')) c
     = by_color (long (castlingRights b)) c
       && negb (Color_eqb c (color this)
                && (PieceType_eqb (type this) KING
                    || (PieceType_eqb (type this) ROOK && (fileNumber (Moves.from move) =? 1)))).
Proof.
  unfold Piece_afterMove. destruct (type this) eqn:T; cbn [PieceType_eqb orb andb].
  - intros [= H]. apply (f_equal (fun x => castlingRights (fst (fst x)))) in H.
    cbn [fst] in H. rewrite Pawn_afterMove_rights in H. rewrite <- H.
    now rewrite !andb_false_r, !andb_true_r.
  - intros [= <- _ _]. unfold Rook_afterMove, Board_revokeShort, Board_revokeLong.
    destruct (fileNumber (Moves.from move) =? 8), (fileNumber (Moves.from move) =? 1);
      cbn [Piece_afterMove_base castlingRights Board_with_enPassantSquare
             Board_with_castlingRights long short];
      destruct (castlingRights b) as [[lw lb] [sw sb]];
      destruct c, (color this), lw, lb, sw, sb; split; reflexivity.
  - intros [= <- _ _]. cbn [Piece_afterMove_base castlingRights Board_with_enPassantSquare].
    now rewrite !andb_false_r, !andb_true_r.
  - intros [= <- _ _]. cbn [Piece_afterMove_base castlingRights Board_with_enPassantSquare].
    now rewrite !andb_false_r, !andb_true_r.
  - intros [= <- _ _]. cbn [Piece_afterMove_base castlingRights Board_with_enPassantSquare].
    now rewrite !andb_false_r, !andb_true_r.
  - destruct (King_afterMove b this move) as [b5|] eqn:K; [|discriminate].
    intros [= <- _ _]. unfold King_afterMove in K.
    assert (R : castlingRights b5
                = castlingRights
                    (Board_revokeShort (Board_revokeLong b (color this)) (color this))).
    { destruct (_ =? _) in K; [|destruct (_ =? _) in K];
        try (destruct (Board_getPiece _ _) in K; [|discriminate]);
        injection K as <-; reflexivity. }
    rewrite R. unfold Board_revokeShort, Board_revokeLong.
    cbn [castlingRights Board_with_castlingRights long short].
    destruct (castlingRights b) as [[lw lb] [sw sb]].
    destruct c, (color this), lw, lb, sw, sb; split; reflexivity.
Qed.

(** X28: what a committed move does to the castling rights.  A right is
    never given back, and only the rights of the color that moves
    change: a king move revokes both; a rook move that starts on the H
    file revokes the short one and one that starts on the A file the
    long one, on whatever rank the rook stood; no other move changes a
    right, so taking a rook on its corner leaves the right of its color
    in place. *)
Theorem Board_makeMoveIfValid_castlingRights (fuel : nat) (h : Heap) (b : Board)
        (from to : Square) (extra : option jsstring) (b' : Board) (h' : Heap) :
  Board_makeMoveIfValid fuel h b from to extra = Some (true, b', h') ->
  exists mover,
    Board_getPiece b from = Some mover
    /\ forall c,
        by_color (short (castlingRights b')) c
        = by_color (short (castlingRights b)) c
          && negb (Color_eqb c (color mover)
                   && (PieceType_eqb (type mover) KING
                       || (PieceType_eqb (type mover) ROOK && (fileNumber from =? 8))))
        /\ by_color (long (castlingRights b')) c
           = by_color (long (castlingRights b)) c
             && negb (Color_eqb c (color mover)
                      && (PieceType_eqb (type mover) KING
                          || (PieceType_eqb (type mover) ROOK && (fileNumber from =? 1)))).
Proof.
  intros M.
  apply Board_makeMoveIfValid_ok_inv in M
      as (piece & b3 & moved & lm & b4 & lm' & P & _ & R3 & T & C & _ & F & A & ->).
  exists piece. split; [exact P|]. intros c.
  apply (Piece_afterMove_rights_exact _ _ _ _ _ _ _ c) in A.
  change (castlingRights (Board_with_lastMove (Board_recalculateAllPiecesMoves b4)
                                              (Some lm') [to; from]))
    with (castlingRights (Board_recalculateAllPiecesMoves b4)).
  rewrite Board_recalculateAllPiecesMoves_rights, <- R3, <- T, <- C, <- F. exact A.
Qed.

Lemma Board_makeMoveIfValid_castlingRights_H1H2 :
  match Board_makeMoveIfValid 1 1%positive castleShort (sq "H1") (sq "H2") None with
  | Some (true, b', _) =>
      by_color (short (castlingRights castleShort)) WHITE = true
      /\ by_color (short (castlingRights b')) WHITE = false
  | _ => False
  end.
Proof.
  destruct (Board_makeMoveIfValid 1 1%positive castleShort (sq "H1") (sq "H2") None)
    as [[[[] b'] h']|] eqn:M; try (vm_compute in M; discriminate).
  destruct (Board_makeMoveIfValid_castlingRights _ _ _ _ _ _ _ _ M) as (mover & G & R).
  assert (E : mover = pieceAt castleShort "H1").
  { vm_compute in G. injection G as <-. vm_compute. reflexivity. }
  subst mover. destruct (R WHITE) as (S & _).
  split; [vm_compute; reflexivity|]. rewrite S. vm_compute. reflexivity.
Defined.

(** ** The enumeration of [getValidMovesFor] misses no move *)

Lemma Piece_recalculated_current (b : Board) (p : Piece) (m : Square) :
  Piece_recalculated b p ->
  In m (validMoves (Piece_instantiate (type p) (color p) b (location p))) ->
  In m (validMoves p).
Proof.
  intros (b0 & p0 & Rt & ->).
  destruct (Piece_recalculateValidMoves_fields b0 p0) as (-> & -> & ->).
  unfold Piece_instantiate.
  rewrite (Piece_recalculateValidMoves_rights b b0) by (now symmetry).
  destruct p0 as [vm t c l]. unfold Piece_recalculateValidMoves.
  cbn [type color location]. destruct t; try exact (fun H => H).
  unfold Pawn_recalculateValidMoves, Piece_removeInvalidMoves.
  cbn [validMoves Piece_with_validMoves location color type].
  destruct (_ || _); rewrite !filter_In, !in_app_iff; cbn [In]; tauto.
Qed.

Lemma Board_makeMoveIfValid_current (fuel : nat) (h : Heap) (b : Board) (from to : Square)
      (extra : option jsstring) (b' : Board) (h' : Heap) :
  Board_makeMoveIfValid fuel h b from to extra = Some (true, b', h') ->
  Board_candidatesCurrent b'.
Proof.
  intros M. apply Board_makeMoveIfValid_steps in M as (piece & b4 & lm' & _ & _ & _ & _ & ->).
  intros k p m G. cbn [_pieces Board_with_lastMove] in G.
  apply Board_recalculateAllPiecesMoves_recalculated in G.
  intros I. apply (Piece_recalculated_current (Board_recalculateAllPiecesMoves b4)); [exact G|].
  unfold Piece_instantiate in *.
  now rewrite (Piece_recalculateValidMoves_rights _
                 (Board_with_lastMove (Board_recalculateAllPiecesMoves b4) (Some lm')
                    [to; from])).
Qed.

Lemma Board_candidatesCurrent_hashed (b : Board) :
  Board_candidatesCurrent b -> Board_candidatesCurrent (Board_hashed b).
Proof.
  destruct (Board_hashed_cases b) as [-> | [hs ->]]; [auto|].
  intros C k p m G I. exact (C k p m G I).
Qed.

Lemma clone_loop_fresh (this : Board) (ks : list jsstring) (nb : Board) :
  (forall k p', obj_get (_pieces nb) k = Some p' ->
                p' = Piece_instantiate (type p') (color p') nb (location p')) ->
  forall k p', obj_get (_pieces (fold_left (clone_step this) ks nb)) k = Some p' ->
               p' = Piece_instantiate (type p') (color p')
                      (fold_left (clone_step this) ks nb) (location p').
Proof.
  revert nb. induction ks as [|k0 ks IH]; intros nb A; cbn [fold_left]; [exact A|].
  apply IH. intros k p'. unfold clone_step.
  destruct (obj_get (_pieces this) k0) as [p0|]; [|apply A].
  cbn [_pieces Board_with_pieces]. rewrite obj_get_set.
  destruct (jsstring_eqb k0 k).
  - intros [= <-]. unfold Piece_cloneToAnotherBoard.
    destruct (Piece_instantiate_fields (type p0) (color p0) nb (location p0))
      as (-> & -> & ->).
    unfold Piece_instantiate. now apply Piece_recalculateValidMoves_rights.
  - intros G. rewrite (A k p' G) at 1. unfold Piece_instantiate.
    now apply Piece_recalculateValidMoves_rights.
Qed.

Lemma Board_cloneBoard_fresh (b b' : Board) (k : jsstring) (p' : Piece) :
  Board_cloneBoard b = Some b' ->
  obj_get (_pieces b') k = Some p' ->
  p' = Piece_instantiate (type p') (color p') b' (location p').
Proof.
  rewrite Board_cloneBoard_fold. cbv zeta. intros H G.
  match type of H with
  | context [fold_left (clone_step b) ?ks ?nb] =>
      pose proof (clone_loop_fresh b ks nb) as F;
        set (cloned := fold_left (clone_step b) ks nb) in *
  end.
  assert (P : _pieces b' = _pieces cloned /\ castlingRights b' = castlingRights cloned).
  { destruct (lastMove b) as [m|]; [destruct (Moves.piece m)|];
      try discriminate; injection H as <-; split; reflexivity. }
  destruct P as (P & Rt). rewrite P in G.
  rewrite (F ltac:(intros k0 p0; cbn; discriminate) k p' G) at 1.
  unfold Piece_instantiate. now apply Piece_recalculateValidMoves_rights.
Qed.

Lemma Board_tryMove_appends (fuel : nat) (b : Board) (c : Color) (piece : Piece)
      (acc : list (option Moves.Move) * Heap) (m : Square)
      (acc' : list (option Moves.Move) * Heap) :
  Board_tryMove fuel b c piece acc m = Some acc' ->
  exists suffix nb0 ok b2 h2,
    fst acc' = fst acc ++ suffix
    /\ Board_cloneBoard b = Some nb0
    /\ Board_makeMoveIfValid fuel (snd acc) nb0 (location piece) m (Some (js "Q"))
       = Some (ok, b2, h2)
    /\ (ok = true ->
        exists x, Board_isInCheck fuel b2 c = Some x
                  /\ (x = false -> In (lastMove b2) suffix)).
Proof.
  unfold Board_tryMove. destruct (Board_cloneBoard b) as [nb0|]; [|discriminate].
  destruct (Board_makeMoveIfValid _ _ _ _ _ _) as [[[[] nb] h']|] eqn:M; try discriminate.
  - destruct (Board_isInCheck fuel nb c) as [[]|] eqn:I; try discriminate.
    + intros [= <-]. exists [], nb0, true, nb, h'. cbn [fst]. rewrite app_nil_r.
      split; [reflexivity|]. split; [reflexivity|]. split; [exact M|].
      intros _. exists true. split; [exact I|discriminate].
    + intros [= <-]. exists [lastMove nb], nb0, true, nb, h'. cbn [fst].
      split; [reflexivity|]. split; [reflexivity|]. split; [exact M|].
      intros _. exists false. split; [exact I|].
      intros _. now left.
  - intros [= <-]. exists [], nb0, false, nb, h'. cbn [fst]. rewrite app_nil_r.
    split; [reflexivity|]. split; [reflexivity|]. split; [exact M|]. discriminate.
Qed.

Lemma Board_tryMoves_append (fuel : nat) (b : Board) (c : Color) (piece : Piece)
      (l : list Square) (acc acc' : list (option Moves.Move) * Heap) :
  foldM (Board_tryMove fuel b c piece) l acc = Some acc' ->
  exists suffix,
    fst acc' = fst acc ++ suffix
    /\ forall m, In m l ->
                 exists h nb0 ok b2 h2,
                   Board_cloneBoard b = Some nb0
                   /\ Board_makeMoveIfValid fuel h nb0 (location piece) m (Some (js "Q"))
                      = Some (ok, b2, h2)
                   /\ (ok = true ->
                       exists x, Board_isInCheck fuel b2 c = Some x
                                 /\ (x = false -> In (lastMove b2) suffix)).
Proof.
  revert acc. induction l as [|m0 l IH]; intros acc; cbn [foldM].
  - intros [= <-]. exists []. rewrite app_nil_r. split; [reflexivity|]. intros m [].
  - destruct (Board_tryMove fuel b c piece acc m0) as [acc1|] eqn:T; [|discriminate].
    intros F. destruct (IH _ F) as (s2 & E2 & Rest).
    destruct (Board_tryMove_appends _ _ _ _ _ _ _ T)
      as (s1 & nb0 & ok & b2 & h2 & E1 & Cl & M & Ck).
    exists (s1 ++ s2). split; [now rewrite E2, E1, app_assoc|].
    intros m [<- | I].
    + exists (snd acc), nb0, ok, b2, h2. split; [exact Cl|]. split; [exact M|].
      intros O. destruct (Ck O) as (x & Ix & Hx). exists x. split; [exact Ix|].
      intros X. apply in_or_app. left. now apply Hx.
    + destruct (Rest m I) as (hx & nb1 & ok1 & b3 & h3 & Cl1 & M1 & Ck1).
      exists hx, nb1, ok1, b3, h3. split; [exact Cl1|]. split; [exact M1|].
      intros O. destruct (Ck1 O) as (x & Ix & Hx). exists x. split; [exact Ix|].
      intros X. apply in_or_app. right. now apply Hx.
Qed.

Lemma Board_getValidMovesFor_trial (fuel : nat) (h : Heap) (b : Board) (c : Color)
      (moves : list (option Moves.Move)) (h' : Heap) (k : jsstring) (piece : Piece)
      (m : Square) :
  Board_getValidMovesFor fuel h b c = Some (moves, h') ->
  obj_get (_pieces b) k = Some piece ->
  color piece = c ->
  In m (validMoves piece) ->
  exists h1 nb0 ok b2 h2,
    Board_cloneBoard b = Some nb0
    /\ Board_makeMoveIfValid fuel h1 nb0 (location piece) m (Some (js "Q"))
       = Some (ok, b2, h2)
    /\ (ok = true ->
        exists x, Board_isInCheck fuel b2 c = Some x
                  /\ (x = false -> In (lastMove b2) moves)).
Proof.
  unfold Board_getValidMovesFor. intros F P C I.
  assert (G : forall l acc acc',
             foldM (fun acc location' =>
                      match obj_get (_pieces b) location' with
                      | None => None
                      | Some piece =>
                          if negb (Color_eqb (color piece) c) then Some acc
                          else foldM (Board_tryMove fuel b c piece) (validMoves piece) acc
                      end) l acc = Some acc' ->
             exists suffix,
               fst acc' = fst acc ++ suffix
               /\ (In k l ->
                   exists h1 nb0 ok b2 h2,
                     Board_cloneBoard b = Some nb0
                     /\ Board_makeMoveIfValid fuel h1 nb0 (location piece) m (Some (js "Q"))
                        = Some (ok, b2, h2)
                     /\ (ok = true ->
                         exists x, Board_isInCheck fuel b2 c = Some x
                                   /\ (x = false -> In (lastMove b2) suffix)))).
  { induction l as [|k0 l IH]; intros acc acc'; cbn [foldM].
    - intros [= <-]. exists []. rewrite app_nil_r. split; [reflexivity|]. intros [].
    - destruct (obj_get (_pieces b) k0) as [p0|] eqn:P0; [|discriminate].
      destruct (Color_eqb (color p0) c) eqn:C0; cbn [negb].
      + destruct (foldM (Board_tryMove fuel b c p0) (validMoves p0) acc)
          as [acc1|] eqn:T; [|discriminate].
        intros F1. destruct (IH _ _ F1) as (s2 & E2 & Rest).
        destruct (Board_tryMoves_append _ _ _ _ _ _ _ T) as (s1 & E1 & Tr).
        exists (s1 ++ s2). split; [now rewrite E2, E1, app_assoc|].
        intros [<- | Ik].
        * rewrite P in P0. injection P0 as <-.
          destruct (Tr m I) as (hx & nb0 & ok & b2 & h2 & Cl & M & Ck).
          exists hx, nb0, ok, b2, h2. split; [exact Cl|]. split; [exact M|].
          intros O. destruct (Ck O) as (x & Ix & Hx). exists x. split; [exact Ix|].
          intros X. apply in_or_app. left. now apply Hx.
        * destruct (Rest Ik) as (hx & nb0 & ok & b2 & h2 & Cl & M & Ck).
          exists hx, nb0, ok, b2, h2. split; [exact Cl|]. split; [exact M|].
          intros O. destruct (Ck O) as (x & Ix & Hx). exists x. split; [exact Ix|].
          intros X. apply in_or_app. right. now apply Hx.
      + intros F1. destruct (IH _ _ F1) as (s2 & E2 & Rest).
        exists s2. split; [exact E2|]. intros [<- | Ik]; [|now apply Rest].
        rewrite P in P0. injection P0 as <-.
        apply Color_eqb_eq in C. congruence. }
  destruct (G _ _ _ F) as (s & E & R). cbn [fst app] in E. subst s.
  apply R. eapply obj_get_Some_key, P.
Qed.

Lemma Board_getValidMovesFor_lists (fuel : nat) (h : Heap) (b : Board) (c : Color)
      (moves : list (option Moves.Move)) (h' : Heap) (from to : Square) (piece : Piece)
      (nb0 nb : Board) (fuel' : nat) (h1 h2 : Heap) :
  Board_wf b ->
  Board_candidatesCurrent b ->
  Board_getValidMovesFor fuel h b c = Some (moves, h') ->
  Board_getPiece b from = Some piece ->
  color piece = c ->
  Board_cloneBoard b = Some nb0 ->
  Board_makeMoveIfValid fuel' h1 nb0 (location piece) to (Some (js "Q"))
  = Some (true, nb, h2) ->
  Board_isInCheck fuel' nb c = Some false ->
  exists lm, In (Some lm) moves /\ Moves.from lm = location piece /\ Moves.to lm = to.
Proof.
  intros (_ & Wf) Cur V G C Cl M I.
  destruct (Wf _ _ G) as (K & _).
  assert (In to (validMoves piece)) as Cand.
  { destruct (Board_makeMoveIfValid_steps _ _ _ _ _ _ _ _ M)
      as (mover0 & b4 & lm' & G0 & V0 & _).
    apply Piece_isMoveValid_candidate in V0 as (_ & I0).
    destruct (Board_cloneBoard_spec_aux _ _ Cl) as (_ & _ & Vw & Rt & _).
    unfold Board_getPiece in G0. rewrite <- K in G0.
    pose proof (Board_cloneBoard_fresh _ _ _ _ Cl G0) as Fr.
    specialize (Vw (Square_asString from)). unfold Board_view, Board_getPiece in Vw, G.
    rewrite G0, G in Vw. cbn [option_map] in Vw. unfold Piece_fields in Vw.
    injection Vw as T0 C0 L0. rewrite Fr, T0, C0, L0 in I0.
    apply (Cur _ _ _ G). unfold Piece_instantiate in *.
    now rewrite (Piece_recalculateValidMoves_rights b nb0) by (now symmetry). }
  destruct (Board_getValidMovesFor_trial _ _ _ _ _ _ _ _ _ V G C Cand)
    as (h3 & nb0' & ok & b2 & h4 & Cl' & M' & Ck).
  rewrite Cl in Cl'. injection Cl' as <-.
  destruct (Board_tryMove_agrees _ _ _ _ _ _ _ _ _ _ _ _ _ _ M I M') as (-> & A).
  destruct (Ck eq_refl) as (x & Ix & Hx). specialize (Hx (A x Ix)).
  destruct (Board_makeMoveIfValid_lastMove _ _ _ _ _ _ _ _ M')
    as (p0 & moved & lm & _ & L & _ & _ & _ & _ & Fr & To & _).
  exists lm. rewrite <- L. auto.
Qed.

Lemma Board_getValidMovesFor_none (fuel : nat) (h : Heap) (b : Board) (c : Color)
      (h' : Heap) (from to : Square) (piece : Piece) (nb0 nb : Board) (fuel' : nat)
      (h1 h2 : Heap) :
  Board_wf b ->
  Board_candidatesCurrent b ->
  Board_getValidMovesFor fuel h b c = Some ([], h') ->
  Board_getPiece b from = Some piece ->
  color piece = c ->
  Board_cloneBoard b = Some nb0 ->
  Board_makeMoveIfValid fuel' h1 nb0 (location piece) to (Some (js "Q"))
  = Some (true, nb, h2) ->
  Board_isInCheck fuel' nb c <> Some false.
Proof.
  intros Wf Cur V G C Cl M I.
  destruct (Board_getValidMovesFor_lists _ _ _ _ _ _ _ _ _ _ _ _ _ _ Wf Cur V G C Cl M I)
    as (lm & [] & _).
Qed.

Lemma gameAfter_reachable (g : Game) (from to : string) :
  Game_reachable g -> Game_reachable (gameAfter g from to).
Proof.
  intros R. unfold gameAfter.
  destruct (Game_makeMove 1 1%positive g (sq from) (sq to) None) as [[[r g'] h']|] eqn:M;
    [|exact R].
  exact (reachable_makeMove _ _ _ _ _ _ _ _ _ R M).
Qed.

(** X29: a declared mate or stalemate is one.  When a move made in a
    game that the methods of [Game] lead to from a new game ends it by
    mate or stalemate, the side to move has no move left: whatever
    piece of its color and whatever destination are tried with the
    promotion choice Q, a move that the board accepts never comes out as
    leaving that side out of check.  The candidate lists that
    [getValidMovesFor] runs through miss no such move. *)
Theorem Game_makeMove_no_move_left (fuel : nat) (h : Heap) (g : Game) (from to : Square)
        (extra : option jsstring) (g' : Game) (h' : Heap) :
  Game_reachable g ->
  Game_makeMove fuel h g from to extra = Some (MOVE_OK, g', h') ->
  result g' = STALEMATED \/ Game_getWinnerColor g' <> None ->
  forall from' to' piece newBoard0 newBoard fuel' h1 h2,
    Board_getPiece (board (currentState g')) from' = Some piece ->
    color piece = currentTurn (currentState g') ->
    Board_cloneBoard (board (currentState g')) = Some newBoard0 ->
    Board_makeMoveIfValid fuel' h1 newBoard0 (location piece) to' (Some (js "Q"))
    = Some (true, newBoard, h2) ->
    Board_isInCheck fuel' newBoard (currentTurn (currentState g')) <> Some false.
Proof.
  intros Rc M End from' to' piece nb0 nb fuel' h1 h2 G C Cl Mv.
  assert (Pl : Game_playable g').
  { apply (Game_makeMove_playable _ _ _ _ _ _ _ _ _ (Game_reachable_playable g Rc) M). }
  destruct Pl as ((Wf & _) & _).
  assert (Cur : Board_candidatesCurrent (board (currentState g'))).
  { destruct (Game_makeMove_board _ _ _ _ _ _ _ _ M)
      as (p1 & nb00 & nb1 & h11 & _ & _ & _ & M1 & _ & Bo & _).
    apply Board_makeMoveIfValid_current in M1.
    destruct Bo as [-> | ->]; [exact M1|now apply Board_candidatesCurrent_hashed]. }
  apply Game_makeMove_ok_inv in M
      as (_ & p2 & nb02 & nb2 & h3 & lm & _ & _ & _ & _ & _ & _ & T).
  apply Game_evaluateTermination_post in T
      as (moves & inCheck & V & _ & Re & _); [|reflexivity].
  assert (E : moves = []).
  { destruct moves as [|m0 moves]; [reflexivity|exfalso].
    unfold spec_termination in Re. cbn [isEmpty] in Re.
    destruct End as [End | End]; [|apply End; unfold Game_getWinnerColor];
      rewrite Re in *;
      destruct (Game_checkForInsufficientMaterial g');
      destruct (fst (Game_checkForThreefoldRepetition g'));
      destruct (Game_checkForFiftyMoveRuleViolation g');
      try discriminate; reflexivity. }
  subst moves.
  exact (Board_getValidMovesFor_none _ _ _ _ _ _ _ _ _ _ _ _ _ Wf Cur V G C Cl Mv).
Qed.

Lemma Game_makeMove_no_move_left_foolsMate :
  Game_reachable beforeFoolsMate
  /\ Game_makeMove 1 1%positive beforeFoolsMate (sq "D8") (sq "H4") None
     = Some (MOVE_OK, foolsMate, heapAfter beforeFoolsMate "D8" "H4")
  /\ Game_getWinnerColor foolsMate = Some BLACK
  /\ Board_cloneBoard (board (currentState foolsMate)) = Some foolsMateCopy
  /\ Board_makeMoveIfValid 1 1%positive foolsMateCopy
       (location (pieceAt (board (currentState foolsMate)) "E1")) (sq "F2") (Some (js "Q"))
     = Some (true, foolsMateKingF2, 1%positive)
  /\ Board_isInCheck 1 foolsMateKingF2 (currentTurn (currentState foolsMate)) <> Some false.
Proof.
  assert (R : Game_reachable beforeFoolsMate)
    by (unfold beforeFoolsMate; repeat apply gameAfter_reachable; exact reachable_new).
  assert (M : Game_makeMove 1 1%positive beforeFoolsMate (sq "D8") (sq "H4") None
              = Some (MOVE_OK, foolsMate, heapAfter beforeFoolsMate "D8" "H4"))
    by (vm_compute; reflexivity).
  assert (W : Game_getWinnerColor foolsMate = Some BLACK) by (vm_compute; reflexivity).
  assert (E : Game_getWinnerColor foolsMate <> None) by (rewrite W; discriminate).
  assert (G : Board_getPiece (board (currentState foolsMate)) (sq "E1")
              = Some (pieceAt (board (currentState foolsMate)) "E1"))
    by (vm_compute; reflexivity).
  assert (C : color (pieceAt (board (currentState foolsMate)) "E1")
              = currentTurn (currentState foolsMate)) by (vm_compute; reflexivity).
  assert (Cl : Board_cloneBoard (board (currentState foolsMate)) = Some foolsMateCopy)
    by (vm_compute; reflexivity).
  assert (Mv : Board_makeMoveIfValid 1 1%positive foolsMateCopy
                 (location (pieceAt (board (currentState foolsMate)) "E1")) (sq "F2")
                 (Some (js "Q"))
               = Some (true, foolsMateKingF2, 1%positive)) by (vm_compute; reflexivity).
  split; [exact R|]. split; [exact M|]. split; [exact W|]. split; [exact Cl|].
  split; [exact Mv|].
  exact (Game_makeMove_no_move_left 1 1%positive beforeFoolsMate (sq "D8") (sq "H4") None
           foolsMate (heapAfter beforeFoolsMate "D8" "H4") R M (or_intror E)
           (sq "E1") (sq "F2") (pieceAt (board (currentState foolsMate)) "E1")
           foolsMateCopy foolsMateKingF2 1%nat 1%positive 1%positive G C Cl Mv).
Defined.

(** ** The list of [getValidMovesFor] and the moves that [makeMove] accepts *)

Lemma Board_candidatesCurrent_check (b : Board) :
  forallb (fun k =>
             match obj_get (_pieces b) k with
             | Some p =>
                 Square_list_eqb
                   (validMoves (Piece_instantiate (type p) (color p) b (location p)))
                   (validMoves p)
             | None => true
             end) (obj_keys (_pieces b)) = true ->
  Board_candidatesCurrent b.
Proof.
  intros F k p m G I. rewrite forallb_forall in F.
  specialize (F k (obj_get_Some_key _ _ _ G)). rewrite G in F.
  apply Square_list_eqb_eq in F. now rewrite <- F.
Qed.

Lemma Board_candidatesCurrent_start :
  Board_candidatesCurrent (Board_setupDefaultBoard Board_new).
Proof. apply Board_candidatesCurrent_check. vm_compute. reflexivity. Qed.

Lemma Board_candidatesCurrent_recalculate (b : Board) :
  Board_candidatesCurrent (Board_recalculateAllPiecesMoves b).
Proof.
  intros k p m G. apply Piece_recalculated_current.
  now apply (Board_recalculateAllPiecesMoves_recalculated b k).
Qed.

Lemma Game_reachable_current (g : Game) :
  Game_reachable g ->
  Board_candidatesCurrent (board (currentState g))
  /\ Forall (fun st => Board_candidatesCurrent (board st)) (stateHistory g).
Proof.
  induction 1 as [|g _ _|g fuel h from to extra r g' h' _ IH M|g _ IH|g c _ IH|g c _ IH].
  - split; [exact Board_candidatesCurrent_start|constructor].
  - split; [exact Board_candidatesCurrent_start|constructor].
  - assert (D : r = MOVE_OK \/ r <> MOVE_OK) by (destruct r; auto; right; discriminate).
    destruct D as [-> | N].
    + destruct IH as (C & Hi).
      apply Game_makeMove_board in M as (piece & nb0 & nb & h1 & _ & _ & _ & Mv & _ & Bo & Hs).
      apply Board_makeMoveIfValid_current in Mv.
      split.
      * destruct Bo as [-> | ->]; [exact Mv|now apply Board_candidatesCurrent_hashed].
      * assert (F : Forall (fun st => Board_candidatesCurrent (board st))
                           (stateHistory g ++ [currentState g])).
        { apply Forall_app. split; [exact Hi|]. constructor; [exact C|constructor]. }
        destruct Hs as [-> | ->]; [exact F|].
        apply Forall_map. revert F. apply Forall_impl. intros st Cs.
        cbn [GameState_hashed GameState_with_board board].
        now apply Board_candidatesCurrent_hashed.
    + apply Game_makeMove_refused_same in M; [|exact N]. now subst g'.
  - destruct IH as (C & Hi). unfold Game_takebackMove.
    destruct (_ || _); [now split|].
    destruct (pop (stateHistory g)) as [[st history]|] eqn:E; [|now split].
    apply pop_Some in E. rewrite E in Hi. apply Forall_app in Hi as [Hh _].
    split; [|exact Hh]. cbn [snd currentState board].
    apply Board_candidatesCurrent_recalculate.
  - unfold Game_resign. destruct (Game_isConcluded g); exact IH.
  - unfold Game_offerDraw. destruct (Game_isConcluded g); [exact IH|].
    destruct IH as (P & Hi). split; [|exact Hi].
    cbn [snd currentState]. destruct c; exact P.
Qed.

Lemma Board_tryMove_origin (fuel : nat) (b : Board) (c : Color) (piece : Piece)
      (acc : list (option Moves.Move) * Heap) (m : Square)
      (acc' : list (option Moves.Move) * Heap) (mv : option Moves.Move) :
  Board_tryMove fuel b c piece acc m = Some acc' ->
  In mv (fst acc') ->
  In mv (fst acc) \/ Board_trialPasses fuel b c piece m mv.
Proof.
  unfold Board_tryMove. destruct (Board_cloneBoard b) as [nb0|] eqn:Cl; [|discriminate].
  destruct (Board_makeMoveIfValid _ _ _ _ _ _) as [[[[] nb] h']|] eqn:M; try discriminate.
  - destruct (Board_isInCheck fuel nb c) as [[]|] eqn:I; try discriminate.
    + intros [= <-]. now left.
    + intros [= <-]. cbn [fst]. intros In'. apply in_app_or in In' as [In' | [<- | []]].
      * now left.
      * right. now exists nb0, nb, (snd acc), h'.
  - intros [= <-]. now left.
Qed.

Lemma Board_tryMoves_origin (fuel : nat) (b : Board) (c : Color) (piece : Piece)
      (l : list Square) (acc acc' : list (option Moves.Move) * Heap)
      (mv : option Moves.Move) :
  foldM (Board_tryMove fuel b c piece) l acc = Some acc' ->
  In mv (fst acc') ->
  In mv (fst acc) \/ exists m, Board_trialPasses fuel b c piece m mv.
Proof.
  revert acc. induction l as [|m l IH]; intros acc; cbn [foldM].
  - intros [= <-]. now left.
  - destruct (Board_tryMove fuel b c piece acc m) as [acc1|] eqn:T; [|discriminate].
    intros F I. apply (IH _ F) in I as [I | I]; [|now right].
    apply (Board_tryMove_origin _ _ _ _ _ _ _ _ T) in I as [I | I]; [now left|].
    right. now exists m.
Qed.

Lemma Board_getValidMovesFor_origin (fuel : nat) (h : Heap) (b : Board) (c : Color)
      (moves : list (option Moves.Move)) (h' : Heap) (mv : option Moves.Move) :
  Board_getValidMovesFor fuel h b c = Some (moves, h') ->
  In mv moves ->
  exists k piece m,
    obj_get (_pieces b) k = Some piece
    /\ color piece = c
    /\ Board_trialPasses fuel b c piece m mv.
Proof.
  unfold Board_getValidMovesFor. intros F I.
  assert (G : forall l acc acc',
             foldM (fun acc location' =>
                      match obj_get (_pieces b) location' with
                      | None => None
                      | Some piece =>
                          if negb (Color_eqb (color piece) c) then Some acc
                          else foldM (Board_tryMove fuel b c piece) (validMoves piece) acc
                      end) l acc = Some acc' ->
             In mv (fst acc') ->
             In mv (fst acc)
             \/ exists k piece m,
                 obj_get (_pieces b) k = Some piece
                 /\ color piece = c
                 /\ Board_trialPasses fuel b c piece m mv).
  { induction l as [|k l IH]; intros acc acc'; cbn [foldM].
    - intros [= <-]. now left.
    - destruct (obj_get (_pieces b) k) as [piece|] eqn:P; [|discriminate].
      destruct (Color_eqb (color piece) c) eqn:C; cbn [negb]; [|apply IH].
      destruct (foldM (Board_tryMove fuel b c piece) (validMoves piece) acc)
        as [acc1|] eqn:T; [|discriminate].
      intros F1 I1. apply (IH _ _ F1) in I1 as [I1 | I1]; [|now right].
      apply (Board_tryMoves_origin _ _ _ _ _ _ _ _ T) in I1 as [I1 | (m & I1)];
        [now left|].
      right. apply Color_eqb_eq in C. now exists k, piece, m. }
  destruct (G _ _ _ F I) as [[] | R]. exact R.
Qed.

(** X30: the list of [getValidMovesFor] and [makeMove] agree.  In an
    ongoing game that the methods of [Game] lead to from a new game,
    every move that [getValidMovesFor] lists for the side to move is
    accepted by [makeMove] with the promotion choice Q, and every move
    from a square of the board that [makeMove] accepts with that choice
    is in the list, with its origin and its destination. *)
Theorem Game_getValidMovesFor_makeMove (g : Game) (fuel : nat) (h : Heap)
        (moves : list (option Moves.Move)) (h' : Heap) :
  Game_reachable g ->
  result g = ONGOING ->
  (1 <= fuel)%nat ->
  Board_getValidMovesFor fuel h (board (currentState g)) (currentTurn (currentState g))
  = Some (moves, h') ->
  (forall lm, In (Some lm) moves ->
              forall h1, exists g1 h2,
                Game_makeMove fuel h1 g (Moves.from lm) (Moves.to lm) (Some (js "Q"))
                = Some (MOVE_OK, g1, h2))
  /\ (forall from to h1 g1 h2,
         Square_isValid from = true ->
         Game_makeMove fuel h1 g from to (Some (js "Q")) = Some (MOVE_OK, g1, h2) ->
         exists lm, In (Some lm) moves /\ Moves.from lm = from /\ Moves.to lm = to).
Proof.
  intros Rc R F V.
  pose proof (Game_reachable_playable g Rc) as Pl.
  split.
  - intros lm I h1.
    destruct (Board_getValidMovesFor_origin _ _ _ _ _ _ _ V I)
      as (k & piece & m & P & C & nb0 & nb & hx & hx' & Cl & M & Ck & L).
    destruct (Board_makeMoveIfValid_lastMove _ _ _ _ _ _ _ _ M)
      as (p0 & moved & lm0 & _ & L0 & _ & _ & _ & _ & Fr & To & _).
    rewrite L0 in L. injection L as ->. rewrite Fr, To.
    exact (proj2 (Game_makeMove_of_trial g k piece m nb0 nb fuel hx hx' fuel h1
                    Pl R P C Cl M Ck F)).
  - intros from to h1 g1 h2 Vf M.
    apply Game_makeMove_ok_inv in M
        as (_ & piece & nb0 & nb & h3 & lm & G & C & Cl & Mv & Ck & _).
    destruct Pl as ((Wf & _) & _).
    destruct (Game_reachable_current g Rc) as (Cur & _).
    destruct (Board_getValidMovesFor_lists _ _ _ _ _ _ _ _ _ _ _ _ _ _ Wf Cur V G C Cl Mv Ck)
      as (lm1 & I & Fr & To).
    exists lm1. split; [exact I|]. split; [|exact To].
    rewrite Fr. now apply (Board_wf_location _ _ _ Wf Vf G).
Qed.

Lemma Game_getValidMovesFor_makeMove_at_start :
  Game_reachable Game_new
  /\ result Game_new = ONGOING
  /\ Board_getValidMovesFor 1 1%positive (board (currentState Game_new))
       (currentTurn (currentState Game_new))
     = Some (fst startMoves, snd startMoves)
  /\ List.length (fst startMoves) = 20%nat
  /\ (forall lm, In (Some lm) (fst startMoves) ->
                 forall h1, exists g1 h2,
                   Game_makeMove 1 h1 Game_new (Moves.from lm) (Moves.to lm) (Some (js "Q"))
                   = Some (MOVE_OK, g1, h2)).
Proof.
  assert (V : Board_getValidMovesFor 1 1%positive (board (currentState Game_new))
                (currentTurn (currentState Game_new))
              = Some (fst startMoves, snd startMoves)) by (vm_compute; reflexivity).
  split; [exact reachable_new|]. split; [reflexivity|]. split; [exact V|].
  split; [vm_compute; reflexivity|].
  exact (proj1 (Game_getValidMovesFor_makeMove Game_new 1 1%positive (fst startMoves)
                  (snd startMoves) reachable_new eq_refl (le_n 1) V)).
Defined.

(** ** Taking a move back, piece by piece *)

Lemma Board_hashed_shows (b : Board) :
  highlightedSquares (Board_hashed b) = highlightedSquares b
  /\ lastMove (Board_hashed b) = lastMove b
  /\ castlingRights (Board_hashed b) = castlingRights b
  /\ enPassantSquare (Board_hashed b) = enPassantSquare b
  /\ _pieces (Board_hashed b) = _pieces b.
Proof. destruct (Board_hashed_cases b) as [-> | [hs ->]]; repeat split. Qed.

(** After a move that leaves the game ongoing, [takebackMove] puts back
    the state the move was made from: its board, hashed or not, with
    the candidate moves recalculated. *)
Lemma Game_takebackMove_after_move (fuel : nat) (h : Heap) (g : Game) (from to : Square)
      (extra : option jsstring) (g' : Game) (h' : Heap) :
  Game_makeMove fuel h g from to extra = Some (MOVE_OK, g', h') ->
  result g' = ONGOING ->
  exists b0,
    (b0 = board (currentState g) \/ b0 = Board_hashed (board (currentState g)))
    /\ fst (Game_takebackMove g') = ReturnUndefined
    /\ board (currentState (snd (Game_takebackMove g'))) = Board_recalculateAllPiecesMoves b0
    /\ currentTurn (currentState (snd (Game_takebackMove g'))) = currentTurn (currentState g)
    /\ halfMoveClock (currentState (snd (Game_takebackMove g')))
       = halfMoveClock (currentState g)
    /\ List.length (stateHistory (snd (Game_takebackMove g')))
       = List.length (stateHistory g).
Proof.
  intros M O.
  apply Game_makeMove_ok_inv in M
      as (_ & piece & nb0 & nb & h1 & lm & P & C & _ & _ & _ & _ & T).
  apply Game_evaluateTermination_post in T
      as (moves & inCheck & _ & _ & _ & _ & E1 & E2); [|reflexivity].
  cbn [stateHistory] in E1, E2.
  unfold Game_takebackMove. rewrite O. cbn [Result_eqb negb orb].
  destruct (isEmpty moves || Game_checkForInsufficientMaterial g').
  - destruct (E1 eq_refl) as (_ & H). rewrite H, length_app, pop_app.
    cbn [List.length]. rewrite Nat.add_comm.
    cbn [Nat.add Nat.eqb fst snd currentState board currentTurn halfMoveClock stateHistory].
    exists (board (currentState g)). repeat split. now left.
  - destruct (E2 eq_refl) as (_ & H). rewrite H, map_app. cbn [map].
    rewrite length_app, pop_app.
    cbn [List.length]. rewrite Nat.add_comm.
    cbn [Nat.add Nat.eqb fst snd currentState board currentTurn halfMoveClock stateHistory
         GameState_hashed GameState_with_board].
    exists (Board_hashed (board (currentState g))). rewrite length_map.
    repeat split. now right.
Qed.

(** C7 (amended): after a successful [makeMove] that leaves the game
    [ONGOING], [takebackMove] restores the board as it was before the
    move: [equals] holds between the restored board and the board before
    the move in both directions, and, piece by piece, the restored board
    has the same keys in the same order and shows under every key a
    piece of the same type, color and square, no piece more and none
    less, with the same castling rights, en passant square object, last
    move and highlighted squares.  The turn goes back to the color that
    made the move, the color of the piece moved, and the half-move clock
    and the length of the history are those before the move.  After a
    successful move that concluded the game, [takebackMove] answers
    [false] and changes nothing. *)
Theorem Game_takebackMove_restores
        (fuel : nat) (h : Heap) (g : Game) (from to : Square) (extra : option jsstring)
        (g' : Game) (h' : Heap) :
  Game_makeMove fuel h g from to extra = Some (MOVE_OK, g', h') ->
  (result g' = ONGOING ->
   let before := board (currentState g) in
   let restored := board (currentState (snd (Game_takebackMove g'))) in
   fst (Game_takebackMove g') = ReturnUndefined
   /\ Board_equals restored before = true
   /\ Board_equals before restored = true
   /\ obj_keys (_pieces restored) = obj_keys (_pieces before)
   /\ (forall k, Board_view restored k = Board_view before k)
   /\ castlingRights restored = castlingRights before
   /\ enPassantSquare restored = enPassantSquare before
   /\ lastMove restored = lastMove before
   /\ highlightedSquares restored = highlightedSquares before
   /\ currentTurn (currentState (snd (Game_takebackMove g'))) = currentTurn (currentState g)
   /\ halfMoveClock (currentState (snd (Game_takebackMove g')))
      = halfMoveClock (currentState g)
   /\ List.length (stateHistory (snd (Game_takebackMove g')))
      = List.length (stateHistory g)
   /\ exists piece,
       Board_getPiece before from = Some piece
       /\ color piece = currentTurn (currentState (snd (Game_takebackMove g'))))
  /\ (result g' <> ONGOING -> Game_takebackMove g' = (ReturnFalse, g')).
Proof.
  intros M. split.
  - intros O before restored.
    destruct (Game_takebackMove_after_move _ _ _ _ _ _ _ _ M O)
      as (b0 & B0 & Ret & Bo & Tu & Cl & Le).
    destruct (Board_recalculateAllPiecesMoves_keeps b0) as (Hl & L & Cr & E & _ & _ & K & Vw).
    assert (S : highlightedSquares b0 = highlightedSquares before
                /\ lastMove b0 = lastMove before
                /\ castlingRights b0 = castlingRights before
                /\ enPassantSquare b0 = enPassantSquare before
                /\ _pieces b0 = _pieces before).
    { destruct B0 as [-> | ->]; [repeat split|apply Board_hashed_shows]. }
    destruct S as (S1 & S2 & S3 & S4 & S5).
    assert (Vw' : forall k, Board_view restored k = Board_view before k).
    { intros k. unfold restored. rewrite Bo, Vw. unfold Board_view. now rewrite S5. }
    assert (Cr' : castlingRights restored = castlingRights before)
      by (unfold restored; rewrite Bo; congruence).
    assert (E' : enPassantSquare restored = enPassantSquare before)
      by (unfold restored; rewrite Bo; congruence).
    destruct (Board_view_equals before restored Vw' Cr' E') as (Eq1 & Eq2).
    split; [exact Ret|]. split; [exact Eq2|]. split; [exact Eq1|].
    split; [unfold restored; rewrite Bo, K; now rewrite S5|].
    split; [exact Vw'|]. split; [exact Cr'|]. split; [exact E'|].
    split; [unfold restored; rewrite Bo; congruence|].
    split; [unfold restored; rewrite Bo; congruence|].
    split; [exact Tu|]. split; [exact Cl|]. split; [exact Le|].
    apply Game_makeMove_ok_inv in M
        as (_ & piece & nb0 & nb & h1 & lm & P & C & _).
    exists piece. split; [exact P|]. now rewrite Tu.
  - intros N. unfold Game_takebackMove. now rewrite (Result_eqb_ONGOING _ N).
Qed.

(** C7 at work: the first move of a game, taken back. *)
Lemma Game_takebackMove_restores_E2E4 :
  Game_makeMove 1 1%positive Game_new (sq "E2") (sq "E4") None
  = Some (MOVE_OK, gameAfter Game_new "E2" "E4", heapAfter Game_new "E2" "E4")
  /\ result (gameAfter Game_new "E2" "E4") = ONGOING
  /\ Board_equals
       (board (currentState (snd (Game_takebackMove (gameAfter Game_new "E2" "E4")))))
       (board (currentState Game_new)) = true
  /\ Board_equals
       (board (currentState Game_new))
       (board (currentState (snd (Game_takebackMove (gameAfter Game_new "E2" "E4"))))) = true
  /\ (forall k,
         Board_view
           (board (currentState (snd (Game_takebackMove (gameAfter Game_new "E2" "E4"))))) k
         = Board_view (board (currentState Game_new)) k)
  /\ currentTurn (currentState (snd (Game_takebackMove (gameAfter Game_new "E2" "E4"))))
     = currentTurn (currentState Game_new).
Proof.
  assert (M : Game_makeMove 1 1%positive Game_new (sq "E2") (sq "E4") None
              = Some (MOVE_OK, gameAfter Game_new "E2" "E4", heapAfter Game_new "E2" "E4"))
    by (vm_compute; reflexivity).
  assert (O : result (gameAfter Game_new "E2" "E4") = ONGOING) by (vm_compute; reflexivity).
  split; [exact M|]. split; [exact O|].
  pose proof (proj1 (Game_takebackMove_restores 1 1%positive Game_new (sq "E2") (sq "E4") None
                       (gameAfter Game_new "E2" "E4") (heapAfter Game_new "E2" "E4") M) O)
    as R.
  cbv zeta in R.
  destruct R as (_ & E1 & E2 & _ & Vw & _ & _ & _ & _ & Tu & _).
  split; [exact E1|]. split; [exact E2|]. split; [exact Vw|exact Tu].
Defined.

(** ** Concluded and ongoing games *)

Lemma Game_offerDraw_ongoing (g : Game) (c : Color) :
  result g = ONGOING ->
  fst (Game_offerDraw g c) = true
  /\ GameState_offersDraw (currentState (snd (Game_offerDraw g c))) c = true
  /\ GameState_offersDraw (currentState (snd (Game_offerDraw g c))) (Color_swap c)
     = GameState_offersDraw (currentState g) (Color_swap c)
  /\ result (snd (Game_offerDraw g c))
     = (if GameState_offersDraw (currentState g) (Color_swap c)
        then DRAW_AGREED else ONGOING)
  /\ board (currentState (snd (Game_offerDraw g c))) = board (currentState g)
  /\ currentTurn (currentState (snd (Game_offerDraw g c))) = currentTurn (currentState g)
  /\ stateHistory (snd (Game_offerDraw g c)) = stateHistory g.
Proof.
  intros O. unfold Game_offerDraw, Game_isConcluded. rewrite O.
  cbn [Result_eqb negb]. destruct c;
    cbn [Color_eqb fst snd currentState result whiteOffersDraw blackOffersDraw board
         currentTurn stateHistory GameState_offersDraw Color_swap andb];
    repeat split; try (now rewrite andb_true_r).
Qed.

Lemma Game_makeMove_ok_history (fuel : nat) (h : Heap) (g : Game) (from to : Square)
      (extra : option jsstring) (g' : Game) (h' : Heap) :
  Game_makeMove fuel h g from to extra = Some (MOVE_OK, g', h') ->
  result g = ONGOING
  /\ currentTurn (currentState g') = Color_swap (currentTurn (currentState g))
  /\ List.length (stateHistory g') = S (List.length (stateHistory g)).
Proof.
  intros M.
  destruct (Game_makeMove_ok_state _ _ _ _ _ _ _ _ M) as (lm & _ & _ & Tu & _).
  destruct (Game_makeMove_board _ _ _ _ _ _ _ _ M)
    as (piece & nb0 & nb & h1 & _ & _ & _ & _ & _ & _ & Hs).
  apply Game_makeMove_ok_inv in M as (O & _).
  split; [exact O|]. split; [exact Tu|].
  destruct Hs as [-> | ->]; rewrite ?length_map, length_app; cbn [List.length]; lia.
Qed.

(** C3: once the result is not [ONGOING] nothing changes the game any
    more: [makeMove] answers [GAME_ENDED], [resign], [offerDraw] and
    [takebackMove] answer [false], and each leaves the game (board,
    history, result, draw offers) as it was.  The result is [ONGOING]
    exactly when the game accepts draw offers: [offerDraw] answers
    [true] and records the offer of the color in the current state,
    which ends the game as a draw when the other color has offered and
    leaves it ongoing otherwise.  And in a game that the methods of
    [Game] lead to from a new game, the result is [ONGOING] exactly when
    the game accepts new moves: some move is answered ok, passes the
    turn and adds the state it was made from to the history.  (In every
    game, the result is [ONGOING] exactly when moves are not turned down
    with [GAME_ENDED].) *)
Theorem Game_concluded_is_absorbing (g : Game) :
  (result g <> ONGOING ->
   (forall fuel h from to extra,
       Game_makeMove fuel h g from to extra = Some (GAME_ENDED, g, h))
   /\ (forall c, Game_resign g c = (false, g))
   /\ (forall c, Game_offerDraw g c = (false, g))
   /\ Game_takebackMove g = (ReturnFalse, g))
  /\ (result g = ONGOING <-> forall c, fst (Game_offerDraw g c) = true)
  /\ (result g = ONGOING <->
      forall fuel h from to extra g' h',
        Game_makeMove fuel h g from to extra <> Some (GAME_ENDED, g', h'))
  /\ (result g = ONGOING <->
      forall c,
        fst (Game_offerDraw g c) = true
        /\ GameState_offersDraw (currentState (snd (Game_offerDraw g c))) c = true
        /\ GameState_offersDraw (currentState (snd (Game_offerDraw g c))) (Color_swap c)
           = GameState_offersDraw (currentState g) (Color_swap c)
        /\ result (snd (Game_offerDraw g c))
           = (if GameState_offersDraw (currentState g) (Color_swap c)
              then DRAW_AGREED else ONGOING)
        /\ board (currentState (snd (Game_offerDraw g c))) = board (currentState g)
        /\ currentTurn (currentState (snd (Game_offerDraw g c)))
           = currentTurn (currentState g)
        /\ stateHistory (snd (Game_offerDraw g c)) = stateHistory g)
  /\ (Game_reachable g ->
      (result g = ONGOING <->
       exists from to,
         forall fuel h,
           (1 <= fuel)%nat ->
           exists g' h',
             Game_makeMove fuel h g from to (Some (js "Q")) = Some (MOVE_OK, g', h')
             /\ currentTurn (currentState g') = Color_swap (currentTurn (currentState g))
             /\ List.length (stateHistory g') = S (List.length (stateHistory g)))).
Proof.
  assert (Offer : result g = ONGOING <-> forall c, fst (Game_offerDraw g c) = true).
  { unfold Game_offerDraw, Game_isConcluded. split.
    - intros -> c. reflexivity.
    - intros H. specialize (H WHITE).
      destruct (Result_eqb (result g) ONGOING) eqn:E; [now apply Result_eqb_eq in E|].
      simpl in H. discriminate. }
  split; [|split; [exact Offer|split; [|split]]].
  - intros N. apply Result_eqb_ONGOING in N.
    unfold Game_makeMove, Game_resign, Game_offerDraw, Game_takebackMove, Game_isConcluded.
    rewrite N. simpl. repeat split.
  - split.
    + intros O fuel h from to extra g' h'. unfold Game_makeMove. rewrite O. simpl.
      destruct (Board_getPiece _ from) as [piece|]; [|discriminate].
      destruct (negb (Color_eqb _ _)); [discriminate|].
      destruct (Board_cloneBoard _) as [nb|]; [|discriminate].
      destruct (Board_makeMoveIfValid _ _ _ _ _ _) as [[[[] nb'] h1]|]; try discriminate.
      destruct (Board_isInCheck _ _ _) as [[]|]; try discriminate.
      destruct (lastMove nb') as [lm|]; [|discriminate].
      destruct (if Moves.capture lm then _ else _) as [reset|]; [|discriminate].
      destruct (Game_evaluateTermination _ _ _) as [[g1 h2]|]; discriminate.
    + intros H.
      destruct (Result_eqb (result g) ONGOING) eqn:E; [now apply Result_eqb_eq in E|].
      exfalso. apply (H O 1%positive (Square_new 1 1) (Square_new 1 1) None g 1%positive).
      unfold Game_makeMove. now rewrite E.
  - split.
    + intros O c. now apply Game_offerDraw_ongoing.
    + intros H. apply Offer. intros c. apply H.
  - intros Rc. split.
    + intros O.
      destruct (Game_reachable_hasMove g Rc) as (Hm & _).
      destruct (Hm O) as (k & piece & to & nb0 & nb & f0 & h0 & h0' & P & C & Cl & M0 & I0).
      pose proof (Game_reachable_playable g Rc) as Pl.
      exists (location piece), to. intros fuel h F.
      destruct (proj2 (Game_makeMove_of_trial g k piece to nb0 nb f0 h0 h0' fuel h
                         Pl O P C Cl M0 I0 F)) as (g' & h' & M).
      exists g', h'. split; [exact M|].
      now destruct (Game_makeMove_ok_history _ _ _ _ _ _ _ _ M) as (_ & Tu & Le).
    + intros (from & to & H).
      destruct (H 1%nat 1%positive (le_n 1)) as (g' & h' & M & _).
      now apply Game_makeMove_ok_inv in M as (O & _).
Qed.

(** C3 at work: nothing moves a resigned game, and a new game takes a
    move. *)
Lemma Game_concluded_is_absorbing_examples :
  ((forall fuel h from to extra,
       Game_makeMove fuel h resignedGame from to extra = Some (GAME_ENDED, resignedGame, h))
   /\ (forall c, Game_resign resignedGame c = (false, resignedGame))
   /\ (forall c, Game_offerDraw resignedGame c = (false, resignedGame))
   /\ Game_takebackMove resignedGame = (ReturnFalse, resignedGame))
  /\ exists from to,
      forall fuel h,
        (1 <= fuel)%nat ->
        exists g' h',
          Game_makeMove fuel h Game_new from to (Some (js "Q")) = Some (MOVE_OK, g', h')
          /\ currentTurn (currentState g') = Color_swap (currentTurn (currentState Game_new))
          /\ List.length (stateHistory g') = S (List.length (stateHistory Game_new)).
Proof.
  split.
  - apply (proj1 (Game_concluded_is_absorbing resignedGame)).
    vm_compute. discriminate.
  - exact (proj1 (proj2 (proj2 (proj2 (proj2 (Game_concluded_is_absorbing Game_new))))
                    reachable_new) eq_refl).
Defined.

(** ** Castling and attacks *)








(** The copy of a board on which the game validates a move has the
    candidate moves of all its pieces up to date. *)
Lemma Board_cloneBoard_current (b b' : Board) :
  Board_cloneBoard b = Some b' -> Board_candidatesCurrent b'.
Proof.
  intros Cl k p m G I. rewrite (Board_cloneBoard_fresh _ _ _ _ Cl G). exact I.
Qed.



(** The square the king crosses may still be covered by a pawn: a pawn
    may not move diagonally onto an empty square, so [isAttacked] does
    not see it there.  After 1. Nf3 h5 2. e3 h4 3. Be2 h3 4. a3 hxg2 the
    black pawn on G2 attacks the empty square F1, [isAttacked] answers
    no for F1, and White castles short. *)
Lemma King_castles_past_a_pawn :
  (option_map Piece_fields (Board_getPiece (board (currentState pawnOnG2)) (sq "G2")),
   Board_getPiece (board (currentState pawnOnG2)) (sq "F1"),
   spec_attacks (board (currentState pawnOnG2))
                (pieceAt (board (currentState pawnOnG2)) "G2") (sq "F1"),
   Board_isAttacked 1 (board (currentState pawnOnG2)) (sq "F1") (Some BLACK),
   fst (fst (gameResultOf (Game_makeMove 1 1%positive pawnOnG2 (sq "E1") (sq "G1") None))))
  = (Some (PAWN, BLACK, sq "G2"), None, true, Some false, Some MOVE_OK).
Proof. vm_compute. reflexivity. Qed.
